(* ===== verification/_CoqProject ===== *)
-Q . S2P
Prelude.v
GoStrings.v
Traces.v
Timeouts.v
Sha256.v
Settings.v
MigrationFiles.v
MigrationInventory.v
Schema.v
RuntimeRoles.v
SchemaPlan.v
BootstrapPackage.v
ControlPlane.v
TestDatabases.v
RuntimeAccess.v
GoRegexp.v
Url.v
PgLog.v
Net.v
Connections.v
ConnectionProfile.v
Json.v
Images.v
Config.v
CloudIdentity.v
ConnectionPolicy.v
Store.v
Open.v
Attachment.v
StrictJson.v
BootstrapRun.v
Migrations.v
Forward.v
NixHost.v
NixServer.v
NixProtocol.v
NixRecords.v
NixSafety.v
NixSupervise.v
Runtime.v
RuntimeSafety.v
RuntimeWait.v
HostIPC.v
Deployment.v
BuildContext.v
BuildRecipe.v
Creation.v
