(* ===== verification/Prelude.v ===== *)
(** * A model of codefly's postgres service

    The repository is a codefly service agent written in Go.  Asked by the codefly
    command line it runs a postgres database for a service (in a container, or on
    a native server that all the services of one run share), brings its schema and
    its login roles up, packages the schema for a deployment, and renders that
    deployment.  Beside the agent it ships a Go library ([libs/go]) with which a
    service opens connections and runs transactions under an authenticated
    principal, and a managed bootstrap, a program that applies a packaged schema
    to a cloud database with a passwordless identity.

    ** How the program is modelled

    Go functions that compute are Rocq functions with the same name; a function
    that can fail returns [result], whose errors are the trees [errors.New],
    [fmt.Errorf] and [errors.Join] build ([Prelude]).  Integers of a width are [Z]
    with the wrap-around written out ([wrap64], [parse_uint 64], [uint16] ports);
    strings are bytes; maps are [gmap].  A function that acts on the outside is a
    program of the [io] monad, whose world is either a model of the state it
    changes (the private directory of [BootstrapPackage], the catalog of
    [ControlPlane]) or, where the outside is a database, a process or a host that
    answers, the list of the calls made so far with whether each succeeded
    ([Traces]).  In the second case the outside is a function from what has been
    called to the answer, quantified over in every theorem, so a theorem holds for
    every behaviour of the outside.  [defer] is [io_defer], and [keeping] adds the
    fields of a receiver to a program.  Safety is then stated with a protocol: a
    state computed from the trace and the calls allowed in each state ([moves] of
    [Traces] is the program logic).  [Forward] and [NixSupervise], whose
    goroutines interleave in an essential way, are step relations.

    ** The parts, and where they are

    - [GoStrings], [Sha256], [Url], [Net], [Json], [GoRegexp]: what the program uses of Go's standard
      library, executable: [strings], [strconv], [path], UTF-8, SHA-256 and HMAC,
      [net/url], addresses, [encoding/json]'s writer, and [regexp] by derivatives.
    - [Timeouts] (timeouts.go), [Settings] (the declared settings of main.go and
      schema.go), [MigrationFiles] and [Schema] (schema.go, migrations.go: which
      migration lineages and extensions a run applies), [RuntimeRoles]
      (runtime_access.go and LoadConfiguration of main.go: role names, logins,
      passwords), [Connections] (main.go: every connection string and template).
    - [SchemaPlan] (schemaplan.go, libs/go/schemaplan/plan.go): the
      content-addressed plan the builder packages.
    - [Images] (bootstrap_image.go, and the runtime image of main.go and builder.go),
      [BuildContext] and [BuildRecipe] (bootstrap_image.go, builder.go): the image
      locks, the tree that is staged for a bootstrap image, and the build.  Their
      disk is a tree on which any call may fail and leave anything where it writes.
    - [Deployment] (builder.go): external instances, the Secret references of a
      render, both output profiles, the name of the bootstrap Job.
    - [Creation] (builder.go, main.go): creating a service.
    - [BootstrapPackage] and [BootstrapRun] (libs/go/bootstrap): the managed
      bootstrap's verification of a package, and its run.
    - [ControlPlane] (libs/go/controlplane/access.go) and [RuntimeAccess]
      (runtime_access.go): what the reconciliation of roles, memberships and grants
      does to the database's catalog, for the bootstrap and for the agent.  A membership
      has a grantor, and a REVOKE takes back only the session's own grant.
    - [ConnectionProfile], [Config], [ConnectionPolicy], [Store], [Open] (libs/go):
      the connection contracts a service may declare, the options of the library,
      the checks on every pooled connection, the scoped transactions, and the
      constructors with the pools they own.
    - [Attachment], [StrictJson] (libs/go/workloadattachment/attachment.go): the
      attachment of a workload, its seal, its checks and its strict parser.
    - [Migrations] (migrations.go, hotreload.go): applying a lineage under its lock,
      the start-up run with its retries, and the forward-only hot reload.
    - [Forward] (forward.go): the per-service endpoint on the run's shared server.
    - [NixHost], [NixServer], [NixProtocol], [NixRecords], [NixSafety] (nixpg.go): the
      shared native server: its lock, records, processes and databases, the protocol
      that all of its operations keep to, and the records that they leave;
      [NixSupervise]: the goroutines that watch it.
    - [Runtime], [RuntimeSafety], [RuntimeWait] (runtime.go, runtime_native.go): the
      requests of the agent's runtime.  Their world is the trace of everything the
      agent does; the programs of [NixServer] and [Migrations] run inside on the
      part that is theirs ([embed] of [Traces]), so the runtime's theorems are about
      the composition.
    - [HostIPC] (hostipc_darwin.go, hostipc.go): collecting the System V resources a
      dead postmaster leaves on macOS.
    - [CloudIdentity] (gcpcloudsql.go, azureentra.go): the credential of each login,
      the exchange that mints another principal's, and the cache of those.
    - [MigrationInventory], [TestDatabases] (libs/go/migrationtest): the lineages a
      service tests, and the databases it tests them on.
    - [PgLog] (pglog.go): PostgreSQL's log stream cut into lines.

    ** What the theorems show

    - Transactions and connections: every transaction of a capability is a session of
      the contract that [Store] specifies, a refinement ([scoped_transactions]);
      connections are accepted, validated and opened only as profile, policy and
      options say, and no pool leaks ([ParseConnection_sound],
      [connection_validation], [open_owns_pools], [configured_valid],
      [cloud_sql_credentials], [connection_string_roundtrip]).
    - Schema: a start-up run, a hot reload and a managed bootstrap migrate under their
      locks, in order, forward only, and release everything on every path
      ([migrations_release_everything], [hot_reload_forward_only],
      [bootstrap_protocol], [bootstrap_outcome], [applySource_terminates]); lineages
      never share a ledger, and a test's inventory is its directory's
      ([lineage_ledgers_distinct], [LoadDirectory_exact]).
    - Access: a reconciliation leaves exactly the privileges and, of its own
      granting, exactly the memberships that are configured, for the bootstrap and for
      the agent ([reconcile_privileges], [reconcile_memberships],
      [ensureRuntimeAccess_correct]).
    - Packages and images: what is staged, built and run is what was attested
      ([snapshot_sound], [bootstrap_context], [build_correct], [recipe_binds_lock],
      [attestation_detects_mutation], [seal_binds_every_field], [Parse_roundtrip]).
    - Deployments: a portable render carries references and no secret
      ([restricted_deployment], [promotable_references], [bootstrap_job_name]).
    - The shared server and the agent's requests: what is signalled or erased has
      passed the tests the code makes (a failed inspection, or a Stat that fails, is
      one of them), the records an agent leaves are
      those of what it holds, a service changes its own database only, whatever the
      order of requests and whichever call fails, and nothing stays held
      ([acquire_protocol], [release_protocol], [provision_protocol],
      [lifecycle_invariant], [Start_protocol], [Init_protocol],
      [teardown_protocol], [WaitForReady_reaches]).
    - Concurrency: closing an endpoint always returns, and the loss of the server is
      reported once, unless the release came first
      ([Close_terminates], [supervision_reports_once]).
    - Host and tests: collecting System V resources removes orphans only, a test's
      databases are isolated, and logging does not depend on how the stream is cut
      ([removal_plan_safe], [isolated_databases], [log_stream]).

    Other theorems of the same weight support these: exactness of the budgets
    ([validate_sound_and_exact]), of the strict reader ([strictJSON_exact]), of a
    binding ([external_binding]) and of the packaged plan ([buildSchemaPlan_correct]),
    of the credentials ([validateCredentials_distinct]), the verdict of a removal
    ([removal_verdict]), a lineage applied up and down
    ([lineage_applied]), the end of the wait for a stopped server
    ([waitGone_decides]).  [orderly_release_deserts] and [Create_without_endpoint]
    state two places where the code does not do what it means to.

    ** Parameters

    What is not under src/ is a parameter, a class or a variable of a section, with
    what the code relies on as named laws: the listing of directories
    ([FileSystemLaws]: distinct names), the [unicode] tables ([UnicodeLaws]: what
    they say of ASCII), the driver's own connection-string parser, PEM and X.509
    decoding ([Driver]), the server of the control plane ([Transaction]), the pools
    ([Pools]), the clock ([Clock]).  Every property with such a hypothesis has a
    witness where the parameter is a concrete function.  SHA-256 is computed, not
    assumed: a theorem on digests says what follows unless SHA-256 collides on the
    very messages it names.

    ** Bounds and fuel

    Loops over data are structural.  [runes_fuel], [strip_all], [digits_fuel],
    [words] and [blocks] are given the length of their input (or of the number in
    binary), which each step decreases.  The retries of a lineage
    ([Migrations.applySource]) are given the attempts the lock budget affords, and
    [applySource_terminates] shows the deadline ends them earlier; the wait for a
    stopped server and the wait for the database are given the inspections their
    budgets afford, and [waitGone_decides] and [WaitForReady_reaches] show that they
    return by the deadline and that success is reached; [remove_batches] is given the
    number of operations, and every batch removes at least one.  [Forward] has no
    fuel: [Close_terminates] is by a measure on the interleaved steps.

    ** Not modelled

    The command of the managed bootstrap (flags, environment, exit code), the agent's
    registration, what it advertises, and the requests that only pass on to core
    (Load, Init, Update, Audit, Upgrade and Communicate of the builder, Information of
    the runtime); the text of the manifests and images under templates, rendered by
    core; the decoding of YAML and of JSON into Go's structures, X.509 and the driver's
    reading of connection strings, which are parameters; progress and log messages, apart from the errors returned.  Panics
    and exhausted memory are not modelled, and concurrent requests to one runtime only
    as the sequences that its lifecycle lock and its control plane allow. *)
From Stdlib Require Export ZArith Lia Ascii.
From stdpp Require Export base gmap strings list sets fin_maps relations.

#[global] Open Scope Z_scope.
#[global] Unset Printing Records.

(** ** Go errors

    An [error] value is the tree that [errors.New], [fmt.Errorf] (with and
    without a [%w] verb) and [errors.Join] build.  A message is kept as its
    format string and the arguments that are strings; the formatting itself is
    never observed by the program. *)
Inductive error :=
  | ENew (format : string) (args : list string)
  | EWrap (format : string) (args : list string) (cause : error)
  | EJoin (causes : list error).

(** [errors.Is]: does the sentinel [target] occur in the tree of [e]? *)
Fixpoint error_is (target : string) (e : error) : bool :=
  match e with
  | ENew f _ => bool_decide (f = target)
  | EWrap _ _ c => error_is target c
  | EJoin cs => existsb (error_is target) cs
  end.

(** [errors.Join] of optional errors: nil arguments are dropped, and the join of
    no error is nil. *)
Definition errors_join (es : list (option error)) : option error :=
  match omap id es with
  | [] => None
  | cs => Some (EJoin cs)
  end.

(** ** Results and the effect monad *)

Inductive result (A : Type) : Type :=
  | Ok (a : A)
  | Err (e : error).
Arguments Ok {A} a.
Arguments Err {A} e.

Definition is_ok {A} (r : result A) : bool :=
  match r with Ok _ => true | Err _ => false end.

#[global] Instance result_ret : MRet result := @Ok.
#[global] Instance result_bind : MBind result := λ A B k m,
  match m with Ok a => k a | Err e => Err e end.
#[global] Instance result_fmap : FMap result := λ A B f m,
  match m with Ok a => Ok (f a) | Err e => Err e end.

(** [guard_err b e]: the early return [if b { return e }]. *)
Definition guard_err (b : bool) (e : error) : result unit :=
  if b then Err e else Ok tt.

(** A fallible, effectful computation over a world [W]: as in Go, the effects
    made before an error stay made. *)
Definition io (W A : Type) : Type := W → result A * W.

#[global] Instance io_ret {W} : MRet (io W) := λ A a w, (Ok a, w).
#[global] Instance io_bind {W} : MBind (io W) := λ A B k m w,
  match m w with
  | (Ok a, w') => k a w'
  | (Err e, w') => (Err e, w')
  end.

Definition io_fail {W A} (e : error) : io W A := λ w, (Err e, w).
Definition io_lift {W A} (r : result A) : io W A := λ w, (r, w).
Definition io_get {W} : io W W := λ w, (Ok w, w).
Definition io_put {W} (w : W) : io W unit := λ _, (Ok tt, w).
Definition io_modify {W} (f : W → W) : io W unit := λ w, (Ok tt, f w).
Definition io_guard {W} (b : bool) (e : error) : io W unit :=
  io_lift (guard_err b e).

(** Run [m] and hand its outcome, error included, to the caller:
    [x, err := m()]. *)
Definition io_try {W A} (m : io W A) : io W (result A) := λ w,
  let '(r, w') := m w in (Ok r, w').

(** [defer d]: [d] runs on the way out of [m], whatever [m] returned. *)
Definition io_defer {W A} (m : io W A) (d : W → W) : io W A := λ w,
  let '(r, w') := m w in (r, d w').

(** [if err != nil { return fmt.Errorf(f, args..., err) }] *)
Definition wrap_err {A} (f : string) (args : list string) (r : result A) : result A :=
  match r with Ok a => Ok a | Err e => Err (EWrap f args e) end.
Definition io_wrap {W A} (f : string) (args : list string) (m : io W A) : io W A :=
  λ w, let '(r, w') := m w in (wrap_err f args r, w').

(** [for _, x := range l { if err := f(x); err != nil { return err } }] *)
Fixpoint io_each {W A} (f : A → io W unit) (l : list A) : io W unit :=
  match l with
  | [] => mret tt
  | x :: l => f x ≫= λ _, io_each f l
  end.

Fixpoint each {A} (f : A → result unit) (l : list A) : result unit :=
  match l with
  | [] => Ok tt
  | x :: l => f x ≫= λ _, each f l
  end.

Fixpoint fold_result {A S} (f : S → A → result S) (s : S) (l : list A) : result S :=
  match l with
  | [] => Ok s
  | x :: l => f s x ≫= λ s', fold_result f s' l
  end.

Fixpoint map_result {A B} (f : A → result B) (l : list A) : result (list B) :=
  match l with
  | [] => Ok []
  | x :: l => f x ≫= λ y, map_result f l ≫= λ ys, Ok (y :: ys)
  end.

(** ** Machine integers *)

(** Go's [int], [int64] and [time.Duration] wrap modulo [2^64]. *)
Definition wrap64 (z : Z) : Z := (z + 2^63) mod 2^64 - 2^63.
Definition min_int64 : Z := - 2^63.
Definition max_int64 : Z := 2^63 - 1.

Lemma wrap64_id z : min_int64 ≤ z ≤ max_int64 → wrap64 z = z.
Proof. unfold wrap64, min_int64, max_int64. intros ?. rewrite Z.mod_small; lia. Qed.

Lemma wrap64_range z : min_int64 ≤ wrap64 z ≤ max_int64.
Proof.
  unfold wrap64, min_int64, max_int64.
  pose proof (Z.mod_pos_bound (z + 2^63) (2^64) ltac:(lia)). lia.
Qed.

(** ** Inverting results *)

Section results.
  Context {A B : Type}.
  Implicit Types (r : result A) (k : A → result B).

Lemma bind_ok r k b : r ≫= k = Ok b ↔ ∃ a, r = Ok a ∧ k a = Ok b.
  Proof. destruct r; naive_solver. Qed.

Lemma bind_err r k e :
    r ≫= k = Err e ↔ r = Err e ∨ ∃ a, r = Ok a ∧ k a = Err e.
  Proof. destruct r; naive_solver. Qed.

Lemma wrap_err_ok f args r a : wrap_err f args r = Ok a ↔ r = Ok a.
  Proof. destruct r; naive_solver. Qed.
End results.

Lemma guard_ok b e u : guard_err b e = Ok u ↔ b = false.
Proof. destruct b, u; naive_solver. Qed.

Lemma guard_fail b e e' : guard_err b e = Err e' ↔ b = true ∧ e' = e.
Proof. destruct b; naive_solver. Qed.

Lemma fmap_ok {A B} (f : A → B) (r : result A) b :
  f <$> r = Ok b ↔ ∃ a, r = Ok a ∧ b = f a.
Proof. destruct r; naive_solver. Qed.

Lemma each_ok {A} (f : A → result unit) l u :
  each f l = Ok u ↔ Forall (λ x, f x = Ok tt) l.
Proof.
  destruct u. induction l as [|x l IH]; simpl; [by split; [constructor|]|].
  rewrite bind_ok, Forall_cons, <-IH. split.
  - intros ([] & ? & ?); auto.
  - intros [??]; eauto.
Qed.

Lemma map_result_ok {A B} (f : A → result B) l ys :
  map_result f l = Ok ys ↔ Forall2 (λ x y, f x = Ok y) l ys.
Proof.
  revert ys. induction l as [|x l IH]; simpl; intros ys.
  - split; [intros [= <-]; constructor|by inversion 1].
  - rewrite bind_ok. setoid_rewrite bind_ok. split.
    + intros (y & ? & zs & ?%IH & [= <-]). by constructor.
    + inversion 1; subst. setoid_rewrite IH. eauto.
Qed.

Lemma fold_result_app {A S} (f : S → A → result S) s l1 l2 :
  fold_result f s (l1 ++ l2) = fold_result f s l1 ≫= λ s', fold_result f s' l2.
Proof.
  revert s. induction l1 as [|x l1 IH]; simpl; intros s; [done|].
  destruct (f s x); simpl; auto.
Qed.

(** An invariant of the accumulator of a fallible loop. *)
Lemma fold_result_inv {A S} (f : S → A → result S) (P : list A → S → Prop) s l s' :
  P [] s →
  (∀ pre x t t', P pre t → x ∈ l → f t x = Ok t' → P (pre ++ [x]) t') →
  fold_result f s l = Ok s' → P l s'.
Proof.
  intros H0 Hstep. rewrite <-(app_nil_l l) at 2. revert s H0.
  generalize (@nil A) as pre. induction l as [|x l IH]; simpl; intros pre s H0.
  - intros [= <-]. by rewrite app_nil_r.
  - rewrite bind_ok. intros (t & Ht & Hrest).
    rewrite cons_middle, app_assoc.
    refine (IH _ (pre ++ [x]) t _ Hrest).
    + intros. eapply Hstep; eauto. by right.
    + eapply Hstep; eauto. by left.
Qed.

Section io.
  Context {W A B : Type}.

Lemma io_bind_ok (m : io W A) (k : A → io W B) w b w' :
    (m ≫= k) w = (Ok b, w') ↔ ∃ a w1, m w = (Ok a, w1) ∧ k a w1 = (Ok b, w').
  Proof. unfold mbind, io_bind. destruct (m w) as [[a|e] w1]; naive_solver. Qed.

Lemma io_bind_err (m : io W A) (k : A → io W B) w e w' :
    (m ≫= k) w = (Err e, w') ↔
    m w = (Err e, w') ∨ ∃ a w1, m w = (Ok a, w1) ∧ k a w1 = (Err e, w').
  Proof. unfold mbind, io_bind. destruct (m w) as [[a|e'] w1]; naive_solver. Qed.

Lemma io_lift_bind_ok (r : result A) (k : A → io W B) w b w' :
    (io_lift r ≫= k) w = (Ok b, w') ↔ ∃ a, r = Ok a ∧ k a w = (Ok b, w').
  Proof. rewrite io_bind_ok. unfold io_lift. destruct r; naive_solver. Qed.

Lemma io_lift_bind_err (r : result A) (k : A → io W B) w e w' :
    (io_lift r ≫= k) w = (Err e, w') ↔
    (r = Err e ∧ w' = w) ∨ ∃ a, r = Ok a ∧ k a w = (Err e, w').
  Proof. rewrite io_bind_err. unfold io_lift. destruct r; naive_solver. Qed.

Lemma io_defer_eq (m : io W A) d w r w' :
    io_defer m d w = (r, w') ↔ ∃ w1, m w = (r, w1) ∧ w' = d w1.
  Proof. unfold io_defer. destruct (m w); naive_solver. Qed.

Lemma io_wrap_ok f args (m : io W A) w a w' :
    io_wrap f args m w = (Ok a, w') ↔ m w = (Ok a, w').
  Proof.
    unfold io_wrap. destruct (m w) as [[?|?] ?]; naive_solver.
  Qed.
End io.

Lemma io_each_app {W A} (f : A → io W unit) l1 l2 w :
  io_each f (l1 ++ l2) w = (io_each f l1 ≫= λ _, io_each f l2) w.
Proof.
  revert w. induction l1 as [|x l1 IH]; intros w; simpl; [done|].
  unfold mbind, io_bind in *. destruct (f x w) as [[?|?] ?]; auto.
Qed.

(** ** What a computation leaves alone

    A computation preserves a relation on a view of the world when every
    successful run of it relates the view before to the one after. *)
Section preserves.
Context {W V : Type} (view : W → V).

Definition preserves {A} (R : V → V → Prop) (m : io W A) : Prop :=
  ∀ w x w', m w = (Ok x, w') → R (view w) (view w').

Context (R : V → V → Prop) `{!Reflexive R, !Transitive R}.

Lemma preserves_ret {A} (x : A) : preserves R (mret x).
Proof. intros w y w' [= _ <-]. done. Qed.
Lemma preserves_lift {A} (r : result A) : preserves R (io_lift r).
Proof. intros w y w' [= _ <-]. done. Qed.
Lemma preserves_fail {A} e : preserves R (io_fail (A := A) e).
Proof. intros w y w' [=]. Qed.
Lemma preserves_bind {A B} (m : io W A) (k : A → io W B) :
  preserves R m → (∀ x, preserves R (k x)) → preserves R (m ≫= k).
Proof.
  intros Hm Hk w y w' (x & w1 & H1 & H2)%io_bind_ok. etrans; [by eapply Hm|by eapply Hk].
Qed.
Lemma preserves_wrap {A} f args (m : io W A) : preserves R m → preserves R (io_wrap f args m).
Proof. intros Hm w x w' H%io_wrap_ok. by eapply Hm. Qed.
Lemma preserves_each {A} (f : A → io W unit) l :
  (∀ x, x ∈ l → preserves R (f x)) → preserves R (io_each f l).
Proof.
  induction l as [|x l IH]; intros Hf; simpl; [apply preserves_ret|].
  apply preserves_bind; [apply Hf; by left|]. intros _. apply IH. intros y ?. apply Hf. by right.
Qed.
(** [x, err := m()] whose error is always returned. *)
Lemma preserves_try {A B} (m : io W A) (k : result A → io W B) :
  (∀ x, preserves R (k (Ok x))) → (∀ e w x w', k (Err e) w ≠ (Ok x, w')) →
  preserves R m → preserves R (io_try m ≫= k).
Proof.
  intros Hok Herr Hr w x w' (y & w1 & H1 & H2)%io_bind_ok. unfold io_try in H1.
  destruct (m w) as [[row|e] w2] eqn:E; injection H1 as <- <-.
  - etrans; [by eapply Hr|by eapply Hok].
  - by destruct (Herr e w2 x w').
Qed.
End preserves.

(** ** Automation

    [res_inv] opens every successful computation in the context into the
    successes of its steps. *)
Ltac res_inv_step :=
  match goal with
  | H : (_ ≫= _) = Ok _ |- _ => apply bind_ok in H as (? & ? & H)
  | H : guard_err _ _ = Ok _ |- _ => apply guard_ok in H
  | H : wrap_err _ _ _ = Ok _ |- _ => apply wrap_err_ok in H
  | H : (_ <$> _) = Ok _ |- _ => apply fmap_ok in H as (? & H & ->)
  | H : each _ _ = Ok _ |- _ => apply each_ok in H
  | H : Ok _ = Ok _ |- _ => injection H as H; subst
  | H : mret _ = Ok _ |- _ => injection H as H; subst
  | H : Err _ = Ok _ |- _ => discriminate H
  | H : orb _ _ = false |- _ => apply orb_false_iff in H as [? H]
  | H : negb _ = false |- _ => apply negb_false_iff in H
  | H : negb _ = true |- _ => apply negb_true_iff in H
  | H : andb _ _ = true |- _ => apply andb_true_iff in H as [? H]
  | H : bool_decide _ = true |- _ => apply bool_decide_eq_true in H
  | H : bool_decide _ = false |- _ => apply bool_decide_eq_false in H
  | u : unit |- _ => destruct u
  end.
Ltac res_inv := repeat res_inv_step.

Create HintDb golib.
#[export] Hint Rewrite @bind_ok @guard_ok @wrap_err_ok @each_ok @map_result_ok : golib.

(** ** Lists *)

Lemma Forall_existsb_false {A} (f : A → bool) l :
  existsb f l = false ↔ Forall (λ x, f x = false) l.
Proof.
  induction l as [|x l IH]; simpl; [by split; [constructor|]|].
  by rewrite orb_false_iff, Forall_cons, IH.
Qed.

Lemma Forall_forallb {A} (f : A → bool) l :
  forallb f l = true ↔ Forall (λ x, f x = true) l.
Proof.
  induction l as [|x l IH]; simpl; [by split; [constructor|]|].
  by rewrite andb_true_iff, Forall_cons, IH.
Qed.

Lemma NoDup_snoc {A} (l : list A) x : NoDup (l ++ [x]) ↔ NoDup l ∧ x ∉ l.
Proof.
  rewrite NoDup_app. split.
  - intros (? & Hx & _). split; [done|]. intros Hin. apply (Hx x Hin). by left.
  - intros [? Hx]. split_and!; [done| |apply NoDup_singleton].
    intros y Hy Heq%list_elem_of_singleton. by subst.
Qed.

(** ** Loops that claim keys

    A loop that rejects an element failing [P] or whose key was claimed before,
    and claims its key otherwise. *)
Section claiming.
Context {A K : Type} `{Countable K} (f : gset K → A → result (gset K)) (P : A → Prop) (key : A → K).
Hypothesis Hf : ∀ seen x seen', f seen x = Ok seen' ↔
  P x ∧ key x ∉ seen ∧ seen' = {[key x]} ∪ seen.

Definition claim_all (seen : gset K) (l : list A) : gset K :=
  foldl (λ seen x, {[key x]} ∪ seen) seen l.

Lemma elem_of_claim_all seen l k : k ∈ claim_all seen l ↔ k ∈ key <$> l ∨ k ∈ seen.
Proof.
  revert seen. induction l as [|x l IH]; intros seen; simpl.
  - split; [by right|]. by intros [?%not_elem_of_nil|].
  - rewrite IH, elem_of_cons, elem_of_union, elem_of_singleton. tauto.
Qed.

Lemma claiming_ok seen l seen' :
  fold_result f seen l = Ok seen' ↔
  Forall P l ∧ NoDup (key <$> l) ∧ Forall (λ x, key x ∉ seen) l ∧ seen' = claim_all seen l.
Proof.
  revert seen. induction l as [|x l IH]; intros seen; simpl.
  - split; [intros [= <-]; by repeat constructor|by intros (_ & _ & _ & ->)].
  - rewrite bind_ok, !Forall_cons, NoDup_cons. setoid_rewrite Hf. setoid_rewrite IH.
    assert (Hx : Forall (λ y, key y ∉ {[key x]} ∪ seen) l ↔
                 key x ∉ key <$> l ∧ Forall (λ y, key y ∉ seen) l).
    { rewrite !Forall_forall. split.
      - intros Hall. split.
        + intros (y & Heq & Hy)%list_elem_of_fmap. apply (Hall y Hy). rewrite Heq. set_solver.
        + intros y Hy ?. apply (Hall y Hy). set_solver.
      - intros [Hx Hall] y Hy [Heq%elem_of_singleton|Hin]%elem_of_union; [|by apply (Hall y)].
        apply Hx, list_elem_of_fmap. eauto. }
    split.
    + intros (s & (HP & Hn & ->) & HPs & Hnd & Hall & ->). apply Hx in Hall as [? ?].
      by split_and!.
    + intros ([HP HPs] & [Hn Hnd] & [Hk Hall] & ->). eexists. split; [done|].
      split_and!; try done. by apply Hx.
Qed.
End claiming.

(** ** Step relations

    An invariant of a step relation holds in every reachable state. *)
Lemma rtc_invariant {S} (R : S → S → Prop) (P : S → Prop) s s' :
  (∀ x y, P x → R x y → P y) → P s → rtc R s s' → P s'.
Proof. intros Hstep Hs Hrtc. induction Hrtc; eauto. Qed.
