(* ===== verification/GoStrings.v ===== *)
(** The part of Go's [strings], [strconv], [unicode/utf8] and [path] packages
    that the program uses, on strings of bytes, with the lemmas on them that the
    components share. *)
From S2P Require Import Prelude.

(** ** Bytes *)

Definition bytes (s : string) : list ascii := String.list_ascii_of_string s.
Definition of_bytes (l : list ascii) : string := String.string_of_list_ascii l.
Definition code (c : ascii) : Z := Z.of_N (N_of_ascii c).
Definition chr (z : Z) : ascii := ascii_of_N (Z.to_N z).
Definition len (s : string) : Z := Z.of_nat (length (bytes s)).

Definition in_range (lo hi z : Z) : bool := (lo <=? z) && (z <=? hi).
Definition is_lower (r : Z) : bool := in_range 97 122 r.
Definition is_upper (r : Z) : bool := in_range 65 90 r.
Definition is_digit (r : Z) : bool := in_range 48 57 r.
Definition is_alnum (r : Z) : bool := is_lower r || is_upper r || is_digit r.

(** ** Runes: [for _, r := range s], i.e. [utf8.DecodeRune] repeated

    An invalid encoding yields [RuneError] (U+FFFD) and consumes one byte. *)
Definition rune_error : Z := 65533.
Definition is_cont (b : Z) : bool := in_range 128 191 b.

Definition decode_rune (l : list Z) : Z * nat :=
  match l with
  | [] => (rune_error, 0%nat)
  | b0 :: l =>
    if b0 <? 128 then (b0, 1%nat)
    else if in_range 194 223 b0 then
      match l with
      | b1 :: _ =>
        if is_cont b1 then ((b0 - 192) * 64 + (b1 - 128), 2%nat)
        else (rune_error, 1%nat)
      | _ => (rune_error, 1%nat)
      end
    else if in_range 224 239 b0 then
      match l with
      | b1 :: b2 :: _ =>
        if in_range (if b0 =? 224 then 160 else 128)
                    (if b0 =? 237 then 159 else 191) b1 && is_cont b2
        then ((b0 - 224) * 4096 + (b1 - 128) * 64 + (b2 - 128), 3%nat)
        else (rune_error, 1%nat)
      | _ => (rune_error, 1%nat)
      end
    else if in_range 240 244 b0 then
      match l with
      | b1 :: b2 :: b3 :: _ =>
        if in_range (if b0 =? 240 then 144 else 128)
                    (if b0 =? 244 then 143 else 191) b1 && is_cont b2 && is_cont b3
        then ((b0 - 240) * 262144 + (b1 - 128) * 4096 + (b2 - 128) * 64 + (b3 - 128),
              4%nat)
        else (rune_error, 1%nat)
      | _ => (rune_error, 1%nat)
      end
    else (rune_error, 1%nat)
  end.

Fixpoint runes_fuel (fuel : nat) (l : list Z) : list Z :=
  match fuel with
  | O => []
  | S fuel =>
    match l with
    | [] => []
    | _ => let '(r, n) := decode_rune l in r :: runes_fuel fuel (drop n l)
    end
  end.
Definition runes (s : string) : list Z :=
  let l := code <$> bytes s in runes_fuel (length l) l.

(** ** Prefixes and suffixes *)

Fixpoint strip_bytes (p l : list ascii) : option (list ascii) :=
  match p, l with
  | [], _ => Some l
  | a :: p, b :: l => if decide (a = b) then strip_bytes p l else None
  | _ :: _, [] => None
  end.

Definition has_prefix (s p : string) : bool :=
  bool_decide (is_Some (strip_bytes (bytes p) (bytes s))).
Definition has_suffix (s p : string) : bool :=
  bool_decide (is_Some (strip_bytes (reverse (bytes p)) (reverse (bytes s)))).
Definition trim_prefix (s p : string) : string :=
  from_option of_bytes s (strip_bytes (bytes p) (bytes s)).
Definition trim_suffix (s p : string) : string :=
  from_option (λ l, of_bytes (reverse l)) s (strip_bytes (reverse (bytes p)) (reverse (bytes s))).

(** [strings.ContainsAny] with a set of single-byte characters. *)
Definition contains_any (s chars : string) : bool :=
  existsb (λ c, bool_decide (c ∈ bytes chars)) (bytes s).

(** [strings.Contains]. *)
Fixpoint contains_bytes (p l : list ascii) : bool :=
  bool_decide (is_Some (strip_bytes p l)) ||
  match l with [] => false | _ :: l => contains_bytes p l end.
Definition contains (s p : string) : bool := contains_bytes (bytes p) (bytes s).

(** ** [strings.TrimSpace]

    The UTF-8 encodings of the runes [unicode.IsSpace] accepts. *)
Definition space_seqs : list (list ascii) :=
  map (map chr)
  [[9]; [10]; [11]; [12]; [13]; [32]; [194; 133]; [194; 160]; [225; 154; 128];
   [226; 128; 128]; [226; 128; 129]; [226; 128; 130]; [226; 128; 131];
   [226; 128; 132]; [226; 128; 133]; [226; 128; 134]; [226; 128; 135];
   [226; 128; 136]; [226; 128; 137]; [226; 128; 138]; [226; 128; 168];
   [226; 128; 169]; [226; 128; 175]; [226; 129; 159]; [227; 128; 128]].

Fixpoint strip_one (seqs : list (list ascii)) (l : list ascii) : option (list ascii) :=
  match seqs with
  | [] => None
  | p :: seqs =>
    match strip_bytes p l with Some l' => Some l' | None => strip_one seqs l end
  end.

Fixpoint strip_all (fuel : nat) (seqs : list (list ascii)) (l : list ascii) : list ascii :=
  match fuel with
  | O => l
  | S fuel =>
    match strip_one seqs l with Some l' => strip_all fuel seqs l' | None => l end
  end.

Definition trim_left_bytes (l : list ascii) : list ascii :=
  strip_all (length l) space_seqs l.
Definition trim_right_bytes (l : list ascii) : list ascii :=
  reverse (strip_all (length l) (map reverse space_seqs) (reverse l)).
Definition trim_space (s : string) : string :=
  of_bytes (trim_right_bytes (trim_left_bytes (bytes s))).

(** A value the program treats as absent: [strings.TrimSpace(s) == ""]. *)
Definition blank (s : string) : bool := bool_decide (trim_space s = "").

(** ** Splitting, joining and mapping bytes *)

Fixpoint split_bytes (sep : ascii) (acc l : list ascii) : list (list ascii) :=
  match l with
  | [] => [reverse acc]
  | c :: l =>
    if decide (c = sep) then reverse acc :: split_bytes sep [] l
    else split_bytes sep (c :: acc) l
  end.
(** [strings.Split] with a one-byte separator. *)
Definition split_on (sep : ascii) (s : string) : list string :=
  of_bytes <$> split_bytes sep [] (bytes s).

Fixpoint cut_bytes (sep : ascii) (acc l : list ascii) : option (list ascii * list ascii) :=
  match l with
  | [] => None
  | c :: l => if decide (c = sep) then Some (reverse acc, l) else cut_bytes sep (c :: acc) l
  end.
(** [strings.Cut] with a one-byte separator. *)
Definition cut (s : string) (sep : ascii) : option (string * string) :=
  prod_map of_bytes of_bytes <$> cut_bytes sep [] (bytes s).

Fixpoint join (sep : string) (l : list string) : string :=
  match l with
  | [] => ""
  | [x] => x
  | x :: l => x +:+ sep +:+ join sep l
  end.

Definition map_bytes (f : ascii → ascii) (s : string) : string := of_bytes (f <$> bytes s).
Definition replace_byte (a b : ascii) : string → string :=
  map_bytes (λ c, if decide (c = a) then b else c).
(** [strings.ToUpper] and [strings.ToLower] on ASCII input. *)
Definition upper_byte (c : ascii) : ascii :=
  if is_lower (code c) then chr (code c - 32) else c.
Definition lower_byte (c : ascii) : ascii :=
  if is_upper (code c) then chr (code c + 32) else c.

(** Go's [<] on strings: bytewise lexicographic. *)
Fixpoint lt_bytes (a b : list ascii) : bool :=
  match a, b with
  | _, [] => false
  | [], _ :: _ => true
  | x :: a, y :: b => (code x <? code y) || ((code x =? code y) && lt_bytes a b)
  end.
Definition str_ltb (a b : string) : bool := lt_bytes (bytes a) (bytes b).
Definition str_le (a b : string) : Prop := str_ltb b a = false.

(** ** Numbers *)

(** [strconv.ParseUint(s, 10, w)]: digits only, and below [2^w]. *)
Definition digits_value (l : list ascii) : Z :=
  foldl (λ acc c, acc * 10 + (code c - 48)) 0 l.
Definition parse_uint (w : Z) (s : string) : option Z :=
  let l := bytes s in
  if negb (bool_decide (l = [])) && forallb (λ c, is_digit (code c)) l
     && (digits_value l <? 2 ^ w)
  then Some (digits_value l) else None.

(** Decimal rendering of a natural number ([strconv.Itoa], [%d]). *)
Fixpoint digits_fuel (fuel : nat) (n : Z) (acc : list ascii) : list ascii :=
  match fuel with
  | O => acc
  | S fuel =>
    let acc := chr (48 + n mod 10) :: acc in
    if n <? 10 then acc else digits_fuel fuel (n / 10) acc
  end.
Definition itoa_nat (n : Z) : string :=
  of_bytes (digits_fuel (S (Z.to_nat (Z.log2 n))) n []).

(** ** Slash-separated paths ([path.Clean], [filepath] on Unix) *)

Definition slash : ascii := "/"%char.

Definition is_abs (p : string) : bool := has_prefix p "/".

(** One component of the path met by [path.Clean]; [out] is the output so far,
    last component first. *)
Definition clean_step (rooted : bool) (out : list string) (c : string) : list string :=
  if bool_decide (c = "") || bool_decide (c = ".") then out
  else if bool_decide (c = "..") then
    match out with
    | top :: out' =>
      if bool_decide (top = "..") then c :: out else out'
    | [] => if rooted then [] else [c]
    end
  else c :: out.

Definition path_clean (p : string) : string :=
  let rooted := is_abs p in
  let out := reverse (foldl (clean_step rooted) [] (split_on slash p)) in
  if rooted then "/" +:+ join "/" out
  else match out with [] => "." | _ => join "/" out end.

(** [filepath.Join]: empty elements are dropped, the rest joined and cleaned. *)
Definition path_join (l : list string) : string :=
  match filter (λ s, s ≠ "") l with
  | [] => ""
  | l => path_clean (join "/" l)
  end.

(** The longest prefix of bytes satisfying [p], and the rest. *)
Fixpoint span_bytes (p : ascii → bool) (l : list ascii) : list ascii * list ascii :=
  match l with
  | [] => ([], [])
  | c :: l' => if p c then let '(a, b) := span_bytes p l' in (c :: a, b) else ([], l)
  end.

(** [filepath.Dir] and [filepath.Base] of a cleaned absolute path. *)
Definition last_slash (p : list ascii) : list ascii * list ascii :=
  let '(base, rest) := span_bytes (λ c, negb (bool_decide (c = slash))) (reverse p) in (reverse rest, reverse base).
Definition path_dir (p : string) : string := path_clean (of_bytes (last_slash (bytes p)).1).
Definition path_base (p : string) : string :=
  let base := of_bytes (last_slash (bytes p)).2 in if bool_decide (base = "") then "/" else base.

(** ** Bytes of strings *)

Lemma bytes_of_bytes l : bytes (of_bytes l) = l.
Proof. apply String.list_ascii_of_string_of_list_ascii. Qed.
Lemma of_bytes_bytes s : of_bytes (bytes s) = s.
Proof. apply String.string_of_list_ascii_of_string. Qed.

#[export] Instance bytes_inj : Inj (=) (=) bytes.
Proof. intros a b H. by rewrite <-(of_bytes_bytes a), H, of_bytes_bytes. Qed.
#[export] Instance of_bytes_inj : Inj (=) (=) of_bytes.
Proof. intros a b H. by rewrite <-(bytes_of_bytes a), H, bytes_of_bytes. Qed.

Lemma bytes_app a b : bytes (a +:+ b) = bytes a ++ bytes b.
Proof.
  induction a as [|c a IH]; [done|].
  change (bytes (String c a +:+ b)) with (c :: bytes (a +:+ b)). by rewrite IH.
Qed.
Lemma bytes_nil s : bytes s = [] ↔ s = "".
Proof. split; [|by intros ->]. intros H. by apply (inj bytes). Qed.

#[export] Hint Rewrite bytes_app bytes_of_bytes of_bytes_bytes : golib.

Lemma len_app a b : len (a +:+ b) = len a + len b.
Proof. unfold len. rewrite bytes_app, length_app. lia. Qed.
Lemma len_nonneg s : 0 ≤ len s.
Proof. unfold len. lia. Qed.
Lemma len_zero s : len s = 0 ↔ s = "".
Proof.
  rewrite <-bytes_nil. unfold len. rewrite <-length_zero_iff_nil. lia.
Qed.

Lemma append_inj_r a b c : a +:+ b = a +:+ c → b = c.
Proof.
  intros H%(f_equal bytes). rewrite !bytes_app in H. by apply app_inv_head, (inj bytes) in H.
Qed.
Lemma append_inj_l a b c : b +:+ a = c +:+ a → b = c.
Proof.
  intros H%(f_equal bytes). rewrite !bytes_app in H. by apply app_inv_tail, (inj bytes) in H.
Qed.
Lemma append_assoc a b c : (a +:+ b) +:+ c = a +:+ b +:+ c.
Proof. apply (inj bytes). by rewrite !bytes_app, app_assoc. Qed.
Lemma append_nil_r a : a +:+ "" = a.
Proof. apply (inj bytes). by rewrite bytes_app, app_nil_r. Qed.

Lemma code_chr z : 0 ≤ z < 256 → code (chr z) = z.
Proof.
  intros ?. unfold code, chr. rewrite N_ascii_embedding; [|lia]. lia.
Qed.
Lemma code_range c : 0 ≤ code c < 256.
Proof. unfold code. pose proof (N_ascii_bounded c). lia. Qed.
#[export] Instance code_inj : Inj (=) (=) code.
Proof.
  intros a b H. unfold code in H. apply N2Z.inj in H.
  by rewrite <-(ascii_N_embedding a), H, ascii_N_embedding.
Qed.

(** ** The order of strings *)

Lemma lt_bytes_irrefl a : lt_bytes a a = false.
Proof. induction a as [|x a IH]; simpl; [done|]. by rewrite Z.ltb_irrefl, IH, andb_false_r. Qed.

Lemma lt_bytes_trans a b c : lt_bytes a b = true → lt_bytes b c = true → lt_bytes a c = true.
Proof.
  revert b c. induction a as [|x a IH]; intros [|y b] [|z c]; simpl; try done.
  rewrite !orb_true_iff, !andb_true_iff, !Z.ltb_lt, !Z.eqb_eq.
  intros [H1|[H1 H1']] [H2|[H2 H2']]; [left; lia..|]. right. split; [lia|]. by apply (IH b).
Qed.

Lemma lt_bytes_tricho a b : lt_bytes a b = false → lt_bytes b a = false → a = b.
Proof.
  revert b. induction a as [|x a IH]; intros [|y b]; simpl; try done.
  rewrite !orb_false_iff, !Z.ltb_ge. intros [? H1] [? H2].
  assert (code x = code y) as Hc by lia. rewrite Hc, Z.eqb_refl in *.
  f_equal; [by apply (inj code)|by apply IH].
Qed.

#[export] Instance str_le_dec a b : Decision (str_le a b).
Proof. unfold str_le. apply _. Defined.
#[export] Instance str_le_trans : Transitive str_le.
Proof.
  intros a b c. unfold str_le, str_ltb. intros H1 H2.
  destruct (lt_bytes (bytes c) (bytes a)) eqn:E; [|done].
  destruct (lt_bytes (bytes a) (bytes b)) eqn:E2.
  - by rewrite (lt_bytes_trans _ _ _ E E2) in H2.
  - by rewrite (lt_bytes_tricho _ _ E2 H1), H2 in E.
Qed.
#[export] Instance str_le_total : Total str_le.
Proof.
  intros a b. unfold str_le, str_ltb.
  destruct (lt_bytes (bytes b) (bytes a)) eqn:E; [right|by left].
  destruct (lt_bytes (bytes a) (bytes b)) eqn:E2; [|done].
  by rewrite <-(lt_bytes_trans _ _ _ E E2), lt_bytes_irrefl.
Qed.
#[export] Instance str_le_antisymm : AntiSymm (=) str_le.
Proof.
  intros a b. unfold str_le, str_ltb. intros H1 H2. by apply (inj bytes), lt_bytes_tricho.
Qed.
Lemma str_ltb_spec a b : str_ltb a b = true ↔ str_le a b ∧ a ≠ b.
Proof.
  unfold str_le. split.
  - intros H. split.
    + destruct (str_ltb b a) eqn:E; [|done]. unfold str_ltb in *.
      by rewrite <-(lt_bytes_trans _ _ _ H E), lt_bytes_irrefl.
    + intros ->. unfold str_ltb in H. by rewrite lt_bytes_irrefl in H.
  - intros [H Hne]. destruct (str_ltb a b) eqn:E; [done|]. destruct Hne.
    by apply (inj bytes), lt_bytes_tricho.
Qed.

(** ** Prefixes and suffixes *)

Lemma strip_bytes_spec p l r : strip_bytes p l = Some r ↔ l = p ++ r.
Proof.
  revert l. induction p as [|a p IH]; intros [|b l]; simpl; try naive_solver.
  case_decide; rewrite ?IH; naive_solver.
Qed.

Lemma strip_bytes_app p r : strip_bytes p (p ++ r) = Some r.
Proof. by apply strip_bytes_spec. Qed.

Lemma has_prefix_spec s p : has_prefix s p = true ↔ ∃ r, s = p +:+ r.
Proof.
  unfold has_prefix. rewrite bool_decide_eq_true. split.
  - intros [r H%strip_bytes_spec]. exists (of_bytes r). apply (inj bytes).
    by autorewrite with golib.
  - intros [r ->]. rewrite bytes_app, strip_bytes_app. eauto.
Qed.

Lemma has_suffix_spec s p : has_suffix s p = true ↔ ∃ r, s = r +:+ p.
Proof.
  unfold has_suffix. rewrite bool_decide_eq_true. split.
  - intros [r H%strip_bytes_spec]. exists (of_bytes (reverse r)). apply (inj bytes).
    autorewrite with golib. apply (inj reverse).
    by rewrite reverse_app, reverse_involutive.
  - intros [r ->]. rewrite bytes_app, reverse_app, strip_bytes_app. eauto.
Qed.

Lemma trim_prefix_app p r : trim_prefix (p +:+ r) p = r.
Proof.
  unfold trim_prefix. rewrite bytes_app, strip_bytes_app. apply of_bytes_bytes.
Qed.
Lemma trim_suffix_app r p : trim_suffix (r +:+ p) p = r.
Proof.
  unfold trim_suffix. rewrite bytes_app, reverse_app, strip_bytes_app. simpl.
  by rewrite reverse_involutive, of_bytes_bytes.
Qed.
Lemma trim_prefix_none s p : has_prefix s p = false → trim_prefix s p = s.
Proof.
  unfold has_prefix, trim_prefix. rewrite bool_decide_eq_false.
  destruct (strip_bytes _ _) eqn:E; simpl; naive_solver.
Qed.

(** ** [TrimSpace] *)

Lemma strip_one_spec seqs l r :
  strip_one seqs l = Some r → ∃ p, p ∈ seqs ∧ l = p ++ r.
Proof.
  induction seqs as [|p seqs IH]; simpl; [done|].
  destruct (strip_bytes p l) eqn:E.
  - intros [= <-]. apply strip_bytes_spec in E. exists p. by split; [left|].
  - intros (q & ? & ?)%IH. exists q. by split; [right|].
Qed.

Lemma strip_one_none seqs l :
  strip_one seqs l = None ↔ ∀ p r, p ∈ seqs → l ≠ p ++ r.
Proof.
  induction seqs as [|p seqs IH]; simpl.
  - split; [|done]. intros _ p r H. by apply not_elem_of_nil in H.
  - destruct (strip_bytes p l) eqn:E.
    + apply strip_bytes_spec in E. split; [done|]. intros H. by destruct (H p l0); [left|].
    + rewrite IH. split; [|intros H q r ?; apply H; by right].
      intros H q r [->|?]%elem_of_cons ->; [|by eapply H].
      by rewrite strip_bytes_app in E.
Qed.

Lemma strip_all_suffix fuel seqs l : ∃ pre, l = pre ++ strip_all fuel seqs l.
Proof.
  revert l. induction fuel as [|fuel IH]; intros l; simpl; [by exists []|].
  destruct (strip_one seqs l) as [r|] eqn:E; [|by exists []].
  apply strip_one_spec in E as (p & _ & ->). destruct (IH r) as [pre Hpre].
  exists (p ++ pre). by rewrite <-app_assoc, <-Hpre.
Qed.

Lemma strip_all_done fuel seqs l :
  ([] ∉ seqs) → (length l ≤ fuel)%nat → strip_one seqs (strip_all fuel seqs l) = None.
Proof.
  intros Hne. revert l. induction fuel as [|fuel IH]; intros l Hl; simpl.
  - destruct l; [|simpl in Hl; lia]. apply strip_one_none.
    intros [|a p] r Hp; [done|discriminate].
  - destruct (strip_one seqs l) as [r|] eqn:E; [|done].
    apply IH. apply strip_one_spec in E as ([|a p] & Hp & ->); [done|].
    rewrite length_app in Hl. simpl in Hl. lia.
Qed.

Lemma strip_all_id fuel seqs l : strip_one seqs l = None → strip_all fuel seqs l = l.
Proof. destruct fuel; simpl; [done|]. by intros ->. Qed.

Lemma space_seqs_nonempty : [] ∉ space_seqs.
Proof. by vm_compute; intros H; repeat (apply elem_of_cons in H as [?|H]; [done|]); apply not_elem_of_nil in H. Qed.
Lemma reverse_space_seqs_nonempty : [] ∉ map reverse space_seqs.
Proof. by vm_compute; intros H; repeat (apply elem_of_cons in H as [?|H]; [done|]); apply not_elem_of_nil in H. Qed.

Lemma trim_left_fixed l : strip_one space_seqs (trim_left_bytes l) = None.
Proof. apply strip_all_done; [apply space_seqs_nonempty|lia]. Qed.

Lemma trim_left_id l : strip_one space_seqs l = None → trim_left_bytes l = l.
Proof. apply strip_all_id. Qed.

Lemma trim_right_prefix l : ∃ suf, l = trim_right_bytes l ++ suf.
Proof.
  unfold trim_right_bytes.
  destruct (strip_all_suffix (length l) (map reverse space_seqs) (reverse l)) as [pre Hpre].
  exists (reverse pre). apply (inj reverse).
  by rewrite reverse_app, !reverse_involutive.
Qed.

Lemma trim_right_fixed l :
  strip_one (map reverse space_seqs) (reverse (trim_right_bytes l)) = None.
Proof.
  unfold trim_right_bytes. rewrite reverse_involutive.
  apply strip_all_done; [apply reverse_space_seqs_nonempty|by rewrite length_reverse].
Qed.

Lemma trim_right_id l :
  strip_one (map reverse space_seqs) (reverse l) = None → trim_right_bytes l = l.
Proof.
  intros H. unfold trim_right_bytes. rewrite strip_all_id; [|done].
  apply reverse_involutive.
Qed.

Lemma trim_space_idem s : trim_space (trim_space s) = trim_space s.
Proof.
  unfold trim_space. rewrite bytes_of_bytes. f_equal.
  set (L := trim_left_bytes (bytes s)).
  rewrite (trim_left_id (trim_right_bytes L)).
  - apply trim_right_id, trim_right_fixed.
  - destruct (trim_right_prefix L) as [suf HL].
    pose proof (trim_left_fixed (bytes s)) as Hfix. fold L in Hfix.
    apply strip_one_none. intros p r Hp Heq.
    eapply (proj1 (strip_one_none _ _) Hfix p (r ++ suf)); [done|].
    by rewrite HL at 1; rewrite Heq, <-app_assoc.
Qed.

(** Visible ASCII characters are never trimmed. *)
Definition graphic (c : ascii) : bool := in_range 33 126 (code c).
Definition all_bytes (p : ascii → bool) (s : string) : bool := forallb p (bytes s).

Definition head_not_graphic (p : list ascii) : bool :=
  match p with [] => false | a :: _ => negb (graphic a) end.

Lemma strip_one_graphic seqs l :
  forallb head_not_graphic seqs = true →
  (∀ a l', l = a :: l' → graphic a = true) → strip_one seqs l = None.
Proof.
  intros Hs Hl. apply strip_one_none. intros p r Hp ->.
  rewrite Forall_forallb, Forall_forall in Hs. specialize (Hs p Hp).
  destruct p as [|a p]; [done|]. simpl in Hs.
  rewrite (Hl a (p ++ r)) in Hs; done.
Qed.

Lemma trim_space_id s : all_bytes graphic s = true → trim_space s = s.
Proof.
  unfold all_bytes. rewrite Forall_forallb, Forall_forall. intros Hg.
  unfold trim_space. rewrite trim_left_id, trim_right_id.
  - apply of_bytes_bytes.
  - apply strip_one_graphic; [by vm_compute|]. intros a l' Ha. apply Hg.
    rewrite <-(reverse_involutive (bytes s)), Ha, reverse_cons. set_solver.
  - apply strip_one_graphic; [by vm_compute|]. intros a l' Ha. apply Hg.
    rewrite Ha. by left.
Qed.

Lemma all_bytes_impl (p q : ascii → bool) s :
  (∀ c, p c = true → q c = true) → all_bytes p s = true → all_bytes q s = true.
Proof.
  unfold all_bytes. rewrite !Forall_forallb. intros Hpq H. eapply Forall_impl; [done|]. auto.
Qed.
Lemma all_bytes_app p a b : all_bytes p (a +:+ b) = all_bytes p a && all_bytes p b.
Proof. unfold all_bytes. by rewrite bytes_app, forallb_app. Qed.

Lemma blank_empty : blank "" = true.
Proof. by vm_compute. Qed.
Lemma not_blank_nonempty s : blank s = false → s ≠ "".
Proof. intros H ->. by rewrite blank_empty in H. Qed.
(** A trimmed string stays so behind visible characters. *)
Lemma trim_space_prefix p s :
  all_bytes graphic p = true → p ≠ "" → trim_space s = s → trim_space (p +:+ s) = p +:+ s.
Proof.
  intros Hp Hne Hs. unfold all_bytes in Hp. rewrite Forall_forallb in Hp.
  assert (Hb : bytes p ≠ []). { intros E. apply Hne. apply (f_equal of_bytes) in E. by rewrite of_bytes_bytes in E. }
  assert (Hfix : strip_one (map reverse space_seqs) (reverse (bytes s)) = None).
  { rewrite <-Hs. unfold trim_space. rewrite bytes_of_bytes. apply trim_right_fixed. }
  unfold trim_space. rewrite bytes_app, trim_left_id, trim_right_id; [by rewrite <-bytes_app, of_bytes_bytes|..].
  - apply strip_one_none. intros q r Hq E. rewrite reverse_app in E.
    symmetry in E. apply app_eq_inv in E as [(k & -> & E)|(k & E & _)].
    + destruct k as [|c k].
      { rewrite app_nil_r in Hq. eapply (proj1 (strip_one_none _ _) Hfix (reverse (bytes s)) []); [done|].
        by rewrite app_nil_r. }
      assert (Hc : graphic c = true).
      { rewrite Forall_forall in Hp. apply Hp. apply elem_of_reverse. rewrite E. by left. }
      assert (Hall : forallb (forallb (λ c, negb (graphic c))) (map reverse space_seqs) = true) by (by vm_compute).
      rewrite Forall_forallb, Forall_forall in Hall. specialize (Hall _ Hq).
      rewrite Forall_forallb, Forall_forall in Hall. specialize (Hall c).
      rewrite Hc in Hall. discriminate Hall. apply elem_of_app. right. by left.
    + by eapply (proj1 (strip_one_none _ _) Hfix q k).
  - apply strip_one_graphic; [by vm_compute|]. intros a l' E. destruct (bytes p) as [|b l]; [done|].
    injection E as -> _. by apply Forall_inv in Hp.
Qed.

Lemma blank_trim s : blank (trim_space s) = blank s.
Proof. unfold blank. by rewrite trim_space_idem. Qed.

(** ** A loop over runes that accepts only ASCII is a loop over bytes *)

Lemma decode_rune_ascii b l :
  0 ≤ b < 256 → Forall (λ b, 0 ≤ b < 256) l →
  if b <? 128 then decode_rune (b :: l) = (b, 1%nat)
  else 128 ≤ (decode_rune (b :: l)).1.
Proof.
  intros Hb Hl. unfold decode_rune. destruct (Z.ltb_spec b 128); [done|].
  unfold is_cont, in_range, rune_error.
  repeat case_match; simpl in *; simplify_eq/=;
    repeat match goal with
    | H : Forall _ (_ :: _) |- _ => apply Forall_cons in H as [? H]
    end; lia.
Qed.

Lemma runes_fuel_ascii (p : Z → bool) l fuel :
  (∀ r, p r = true → r < 128) → Forall (λ b, 0 ≤ b < 256) l → (length l ≤ fuel)%nat →
  forallb p (runes_fuel fuel l) = forallb p l.
Proof.
  intros Hp. revert l. induction fuel as [|fuel IH]; intros [|b l] Hl Hf;
    try done; [simpl in Hf; lia|].
  apply Forall_cons in Hl as [Hb Hl].
  pose proof (decode_rune_ascii b l Hb Hl) as Hd.
  change (runes_fuel (S fuel) (b :: l)) with
    (let '(r, n) := decode_rune (b :: l) in r :: runes_fuel fuel (drop n (b :: l))).
  destruct (Z.ltb_spec b 128).
  - rewrite Hd. cbn [forallb drop]. f_equal. apply IH; [done|simpl in Hf; lia].
  - destruct (decode_rune (b :: l)) as [r n] eqn:Er. simpl in Hd.
    cbn [forallb]. replace (p r) with false; [replace (p b) with false; [done|]|];
      symmetry; apply not_true_iff_false; intros Habs%Hp; lia.
Qed.

Lemma forallb_runes (p : Z → bool) s :
  (∀ r, p r = true → r < 128) →
  forallb p (runes s) = all_bytes (λ c, p (code c)) s.
Proof.
  intros Hp. unfold runes, all_bytes. rewrite runes_fuel_ascii; [|done| |done].
  - induction (bytes s) as [|c l IH]; [done|]. simpl. by f_equal.
  - apply Forall_fmap, Forall_true. intros c. apply code_range.
Qed.

(** The runes of an ASCII string are its bytes. *)
Lemma runes_ascii s : all_bytes (λ c, code c <? 128) s = true → runes s = code <$> bytes s.
Proof.
  unfold runes, all_bytes. assert (H : ∀ l fuel, forallb (λ c, code c <? 128) l = true → (length l ≤ fuel)%nat →
    runes_fuel fuel (code <$> l) = code <$> l).
  { induction l as [|c l IH]; intros [|fuel] Hl Hf; try done; [simpl in Hf; lia|].
    simpl in Hl. apply andb_true_iff in Hl as [Hc Hl]. cbn [fmap list_fmap].
    change (runes_fuel (S fuel) (code c :: (code <$> l))) with
      (let '(r, n) := decode_rune (code c :: (code <$> l)) in r :: runes_fuel fuel (drop n (code c :: (code <$> l)))).
    unfold decode_rune. rewrite Hc. cbn [drop]. f_equal. apply IH; [done|]. simpl in Hf. lia. }
  intros Hs. apply H; [done|]. by rewrite length_fmap.
Qed.

(** ** Numbers *)

Lemma digits_value_nonneg l :
  forallb (λ c, is_digit (code c)) l = true → 0 ≤ digits_value l.
Proof.
  intros Hl. unfold digits_value. cut (∀ acc, 0 ≤ acc → 0 ≤ foldl (λ acc c, acc * 10 + (code c - 48)) acc l).
  { intros H. by apply H. }
  induction l as [|c l IH]; intros acc Hacc; simpl in *; [done|].
  apply andb_true_iff in Hl as [Hc Hl]. apply IH; [done|].
  unfold is_digit, in_range in Hc. lia.
Qed.

Lemma parse_uint_ok w s v :
  parse_uint w s = Some v ↔
  s ≠ "" ∧ all_bytes (λ c, is_digit (code c)) s = true ∧
  v = digits_value (bytes s) ∧ v < 2 ^ w.
Proof.
  unfold parse_uint, all_bytes.
  destruct (bool_decide_reflect (bytes s = [])) as [H|H]; rewrite bytes_nil in H; simpl.
  { naive_solver. }
  destruct (forallb _ _) eqn:Hd; simpl; [|naive_solver].
  destruct (Z.ltb_spec (digits_value (bytes s)) (2 ^ w)); naive_solver lia.
Qed.

Lemma parse_uint_range w s v : parse_uint w s = Some v → 0 ≤ v < 2 ^ w.
Proof.
  intros (_ & Hd & -> & ?)%parse_uint_ok. split; [|done]. by apply digits_value_nonneg.
Qed.

Lemma digits_value_snoc l c : digits_value (l ++ [c]) = digits_value l * 10 + (code c - 48).
Proof. unfold digits_value. by rewrite foldl_snoc. Qed.

Lemma digits_fuel_spec fuel n acc :
  0 ≤ n < 2 ^ Z.of_nat fuel →
  ∃ ds, digits_fuel fuel n acc = ds ++ acc ∧
    forallb (λ c, is_digit (code c)) ds = true ∧ digits_value ds = n.
Proof.
  revert n acc. induction fuel as [|fuel IH]; intros n acc Hn.
  { exists []. split_and!; try done. change (2 ^ Z.of_nat 0) with 1 in Hn.
    unfold digits_value. simpl. lia. }
  pose proof (Z.mod_pos_bound n 10 ltac:(lia)) as Hm.
  assert (Hd : is_digit (code (chr (48 + n mod 10))) = true ∧ code (chr (48 + n mod 10)) = 48 + n mod 10).
  { rewrite code_chr by lia. unfold is_digit, in_range. lia. }
  destruct Hd as [Hd Hc]. cbn [digits_fuel]. destruct (Z.ltb_spec n 10).
  - exists [chr (48 + n mod 10)]. split_and!; [done|cbn [forallb]; by rewrite Hd|].
    unfold digits_value. cbn [foldl]. rewrite Hc, Z.mod_small; lia.
  - assert (Hq : 0 ≤ n / 10 < 2 ^ Z.of_nat fuel).
    { split; [by apply Z.div_pos; lia|]. apply Z.div_lt_upper_bound; [lia|].
      rewrite Nat2Z.inj_succ, Z.pow_succ_r in Hn by lia. lia. }
    destruct (IH (n / 10) (chr (48 + n mod 10) :: acc) Hq) as (ds & -> & Hds & Hv).
    exists (ds ++ [chr (48 + n mod 10)]). split_and!.
    + by rewrite <-app_assoc.
    + rewrite forallb_app, Hds. cbn [forallb]. by rewrite Hd.
    + rewrite digits_value_snoc, Hv, Hc. pose proof (Z.div_mod n 10). lia.
Qed.

Lemma itoa_nat_spec n :
  0 ≤ n → all_bytes (λ c, is_digit (code c)) (itoa_nat n) = true ∧
  digits_value (bytes (itoa_nat n)) = n.
Proof.
  intros Hn. unfold itoa_nat, all_bytes. rewrite bytes_of_bytes.
  destruct (digits_fuel_spec (S (Z.to_nat (Z.log2 n))) n []) as (ds & -> & ? & ?).
  { split; [done|]. rewrite Nat2Z.inj_succ, Z2Nat.id by apply Z.log2_nonneg.
    destruct (decide (n = 0)) as [->|]; [by vm_compute|].
    by apply Z.log2_spec; lia. }
  by rewrite app_nil_r.
Qed.

Lemma digits_fuel_length fuel n acc : (length acc ≤ length (digits_fuel fuel n acc))%nat.
Proof.
  revert n acc. induction fuel as [|fuel IH]; intros n acc; cbn [digits_fuel]; [done|].
  case_match; [simpl; lia|]. etrans; [|apply IH]. simpl. lia.
Qed.
Lemma itoa_nat_nonempty n : itoa_nat n ≠ "".
Proof.
  rewrite <-bytes_nil. unfold itoa_nat. rewrite bytes_of_bytes. cbn [digits_fuel].
  case_match; [done|]. intros E. apply (f_equal length) in E.
  match type of E with length (digits_fuel ?f ?m ?acc) = _ =>
    pose proof (digits_fuel_length f m acc) end. simpl in *. lia.
Qed.

Lemma itoa_nat_inj a b : 0 ≤ a → 0 ≤ b → itoa_nat a = itoa_nat b → a = b.
Proof.
  intros Ha Hb H. rewrite <-(proj2 (itoa_nat_spec a Ha)), H. by apply itoa_nat_spec.
Qed.

Lemma len_bytes s : len s = Z.of_nat (length (bytes s)).
Proof. done. Qed.

(** The string functions are never unfolded by [simpl]. *)
(** Cleaning leaves something, and so does joining something. *)
Lemma path_clean_nonempty p : path_clean p ≠ "".
Proof.
  unfold path_clean. set (out := foldl _ _ _).
  assert (Hout : Forall (λ c, c ≠ "") out).
  { subst out. generalize (split_on slash p). assert (Forall (λ c : string, c ≠ "") []) as H by done. revert H.
    generalize (@nil string). intros out Hout l. revert out Hout. induction l as [|c l IH]; intros out Hout; [done|].
    cbn [foldl]. apply IH. unfold clean_step. repeat case_bool_decide; try done; cbn [orb].
    - destruct out as [|top out']; [by destruct (is_abs p); repeat constructor; subst|].
      case_bool_decide; [by constructor; subst|by inversion Hout].
    - by constructor. }
  destruct (is_abs p); [done|]. apply Forall_reverse in Hout. destruct (reverse out) as [|c l]; [done|].
  apply Forall_cons in Hout as [Hc _]. destruct l; cbn [join]; [done|]. by destruct c.
Qed.
Lemma path_join_nonempty l x : x ∈ l → x ≠ "" → path_join l ≠ "".
Proof.
  intros Hin Hx. unfold path_join. destruct (filter _ l) eqn:E; [|apply path_clean_nonempty].
  assert (H : x ∈ filter (λ s, s ≠ "") l) by (by apply list_elem_of_filter). rewrite E in H. by apply not_elem_of_nil in H.
Qed.
#[global] Opaque len trim_space runes parse_uint itoa_nat path_clean path_join.
#[global] Arguments bytes : simpl never.
#[global] Arguments of_bytes : simpl never.
#[global] Arguments len : simpl never.
#[global] Arguments runes : simpl never.
#[global] Arguments space_seqs : simpl never.
#[global] Arguments trim_space : simpl never.
#[global] Arguments blank : simpl never.
#[global] Arguments has_prefix : simpl never.
#[global] Arguments has_suffix : simpl never.
#[global] Arguments trim_prefix : simpl never.
#[global] Arguments trim_suffix : simpl never.
#[global] Arguments contains : simpl never.
#[global] Arguments contains_any : simpl never.
#[global] Arguments split_on : simpl never.
#[global] Arguments cut : simpl never.
#[global] Arguments parse_uint : simpl never.
#[global] Arguments itoa_nat : simpl never.
#[global] Arguments path_clean : simpl never.
#[global] Arguments path_join : simpl never.
#[global] Arguments is_abs : simpl never.
#[global] Arguments map_bytes : simpl never.
#[global] Arguments replace_byte : simpl never.
#[global] Arguments all_bytes : simpl never.

(** ** Spans *)

Lemma span_bytes_app p l : l = (span_bytes p l).1 ++ (span_bytes p l).2.
Proof.
  induction l as [|c l IH]; [done|]. simpl. destruct (p c); [|done].
  destruct (span_bytes p l). simpl in *. by rewrite IH at 1.
Qed.
Lemma span_bytes_all p l : forallb p (span_bytes p l).1 = true.
Proof.
  induction l as [|c l IH]; [done|]. simpl. destruct (p c) eqn:E; [|done].
  destruct (span_bytes p l). simpl in *. by rewrite E.
Qed.
Lemma span_bytes_stop p a c b :
  forallb p a = true → p c = false → span_bytes p (a ++ c :: b) = (a, c :: b).
Proof.
  intros Ha Hc. induction a as [|x a IH]; simpl in *; [by rewrite Hc|].
  apply andb_true_iff in Ha as [-> Ha]. by rewrite (IH Ha).
Qed.
