(* ===== verification/Traces.v ===== *)
(** Programs whose world is the list of the outside calls they have made, each
    with whether it succeeded: how one makes a call, and a small logic for what a
    program appends to that list. *)
From S2P Require Import Prelude.

Section traces.
Context {E : Type}.

(** A call and its outcome. *)
Definition trace : Type := list (E * bool).

(** Make the call [e], which the environment answers as it likes, knowing every
    call made before. *)
Definition call {A} (answer : trace → E → result A) (e : E) : io trace A := λ tr,
  let r := answer tr e in (r, tr ++ [(e, is_ok r)]).

(** A call whose reply the caller judges: the trace keeps whether it was [good]. *)
Definition observe {A} (good : result A → bool) (answer : trace → E → result A) (e : E) : io trace A := λ tr,
  let r := answer tr e in (r, tr ++ [(e, good r)]).

(** Ask what the outside holds: the trace keeps what it answered. *)
Definition inquire {A} (answer : trace → result A) (seen : result A → E) : io trace A := λ tr,
  let r := answer tr in (r, tr ++ [(seen r, is_ok r)]).

(** [if err := m(); err != nil { return errors.New(message) }] *)
Definition io_saying {W A} (message : string) (m : io W A) : io W A := λ w,
  match m w with (Ok a, w') => (Ok a, w') | (Err _, w') => (Err (ENew message []), w') end.

(** [defer d()] for a call whose own outcome is ignored. *)
Definition io_finally {W A} (m : io W A) (d : io W unit) : io W A := io_defer m (λ w, (d w).2).

(** [m] appends calls that, with its result, satisfy [P]. *)
Definition runs {A} (m : io trace A) (P : result A → trace → Prop) : Prop :=
  ∀ tr, ∃ new, (m tr).2 = tr ++ new ∧ P (m tr).1 new.

Lemma runs_mono {A} (m : io trace A) (P Q : result A → trace → Prop) :
  runs m P → (∀ r new, P r new → Q r new) → runs m Q.
Proof. intros Hm HPQ tr. destruct (Hm tr) as (new & ? & ?). eauto. Qed.

Lemma runs_ret {A} (a : A) : runs (mret a) (λ r new, r = Ok a ∧ new = []).
Proof. intros tr. exists []. by rewrite app_nil_r. Qed.
Lemma runs_lift {A} (r0 : result A) : runs (io_lift r0) (λ r new, r = r0 ∧ new = []).
Proof. intros tr. exists []. by rewrite app_nil_r. Qed.
Lemma runs_fail {A} e : runs (io_fail (A := A) e) (λ r new, r = Err e ∧ new = []).
Proof. intros tr. exists []. by rewrite app_nil_r. Qed.

Lemma runs_call {A} (answer : trace → E → result A) e :
  runs (call answer e) (λ r new, new = [(e, is_ok r)]).
Proof. intros tr. by eexists. Qed.

Lemma runs_bind {A B} (m : io trace A) (k : A → io trace B) P Q :
  runs m P → (∀ a, runs (k a) (Q a)) →
  runs (m ≫= k) (λ r new, (∃ e, P (Err e) new ∧ r = Err e) ∨
    ∃ a n1 n2, P (Ok a) n1 ∧ Q a r n2 ∧ new = n1 ++ n2).
Proof.
  intros Hm Hk tr. destruct (Hm tr) as (n1 & E1 & HP). unfold mbind, io_bind.
  destruct (m tr) as [[a|e] tr1]; simpl in *; subst.
  - destruct (Hk a (tr ++ n1)) as (n2 & E2 & HQ). exists (n1 ++ n2). rewrite app_assoc. split; [done|].
    right. by exists a, n1, n2.
  - exists n1. split; [done|]. left. eauto.
Qed.

Lemma runs_try {A} (m : io trace A) P :
  runs m P → runs (io_try m) (λ r new, ∃ r0, r = Ok r0 ∧ P r0 new).
Proof.
  intros Hm tr. destruct (Hm tr) as (new & E0 & HP). exists new. unfold io_try.
  destruct (m tr) as [r tr1]. simpl in *. eauto.
Qed.

Lemma runs_wrap {A} f args (m : io trace A) P :
  runs m P → runs (io_wrap f args m) (λ r new, ∃ r0, r = wrap_err f args r0 ∧ P r0 new).
Proof.
  intros Hm tr. destruct (Hm tr) as (new & E0 & HP). exists new. unfold io_wrap.
  destruct (m tr) as [r tr1]. simpl in *. eauto.
Qed.

Lemma runs_finally {A} (m : io trace A) (d : io trace unit) P Q :
  runs m P → runs d Q →
  runs (io_finally m d) (λ r new, ∃ n1 n2 rd, P r n1 ∧ Q rd n2 ∧ new = n1 ++ n2).
Proof.
  intros Hm Hd tr. destruct (Hm tr) as (n1 & E1 & HP). unfold io_finally, io_defer.
  destruct (m tr) as [r tr1]. simpl in *. subst. destruct (Hd (tr ++ n1)) as (n2 & E2 & HQ).
  exists (n1 ++ n2). rewrite app_assoc. split; [done|]. by exists n1, n2, (d (tr ++ n1)).1.
Qed.

(** Everything a loop appends satisfies what its body does. *)
Lemma runs_each {A} (f : A → io trace unit) l (P : A → result unit → trace → Prop) :
  (∀ x, x ∈ l → runs (f x) (P x)) →
  runs (io_each f l) (λ r new,
    (r = Ok tt ∧ ∃ ns, Forall2 (λ x n, P x (Ok tt) n) l ns ∧ new = concat ns) ∨
    ∃ e pre x post ns n, l = pre ++ x :: post ∧ Forall2 (λ x n, P x (Ok tt) n) pre ns ∧
      P x (Err e) n ∧ r = Err e ∧ new = concat ns ++ n).
Proof.
  induction l as [|x l IH]; intros Hf; simpl.
  - eapply runs_mono; [apply runs_ret|]. intros r new [-> ->]. left. split; [done|]. by exists [].
  - eapply runs_mono; [eapply runs_bind; [apply Hf; by left|intros u; apply IH; intros; apply Hf; by right]|].
    intros r new [(e & HP & Er)|([] & n1 & n2 & HP & Hr & ->)].
    + right. subst r. exists e, [], x, l, [], new. by repeat split.
    + destruct Hr as [(-> & ns & Hns & ->)|(e & pre & y & post & ns & n & El & Hns & Hn & -> & ->)].
      * left. split; [done|]. exists (n1 :: ns). by split; [constructor|].
      * right. exists e, (x :: pre), y, post, (n1 :: ns), n. simpl. rewrite app_assoc, El.
        split_and!; try done. by constructor.
Qed.
End traces.
#[global] Arguments trace E : clear implicits.

(** ** Traces as runs of a state machine

    A protocol gives each call a meaning on a state and says when it is allowed. *)
Section protocol.
Context {E S : Type} (step : S → E * bool → S) (allowed : S → E → Prop).

Fixpoint safe (s : S) (new : trace E) : Prop :=
  match new with
  | [] => True
  | e :: new => allowed s e.1 ∧ safe (step s e) new
  end.

Lemma safe_app s n1 n2 : safe s (n1 ++ n2) ↔ safe s n1 ∧ safe (foldl step s n1) n2.
Proof. revert s. induction n1 as [|e n1 IH]; intros s; cbn [app safe foldl]; [tauto|]. rewrite IH. tauto. Qed.

(** A safe run calls only what is allowed where it is called. *)
Lemma safe_spec s new :
  safe s new ↔ ∀ pre e b post, new = pre ++ (e, b) :: post → allowed (foldl step s pre) e.
Proof.
  revert s. induction new as [|[e b] new IH]; intros s; cbn [safe].
  - split; [|done]. by intros _ [].
  - rewrite IH. split.
    + intros [H1 H2] [|x pre] e' b' post; cbn [app foldl]; [by intros [= -> -> ->]|].
      intros [= <- ->]. by eapply H2.
    + intros H. split; [by apply (H [] e b new)|]. intros pre e' b' post ->. by apply (H ((e, b) :: pre) e' b' post).
Qed.

(** Started in [s], [m] makes allowed calls only and ends in a state that, with
    its result, satisfies [Q]. *)
Definition moves {A} (s : S) (m : io (trace E) A) (Q : result A → S → Prop) : Prop :=
  ∀ tr, ∃ new, (m tr).2 = tr ++ new ∧ safe s new ∧ Q (m tr).1 (foldl step s new).

Lemma moves_mono {A} s (m : io (trace E) A) (P Q : result A → S → Prop) :
  moves s m P → (∀ r s', P r s' → Q r s') → moves s m Q.
Proof. intros Hm HPQ tr. destruct (Hm tr) as (new & ? & ? & ?). eauto. Qed.

Lemma moves_allowed {A} (allowed' : S → E → Prop) s (m : io (trace E) A) (Q : result A → S → Prop) :
  (∀ s e, allowed s e → allowed' s e) → moves s m Q →
  ∀ tr, ∃ new, (m tr).2 = tr ++ new ∧ Q (m tr).1 (foldl step s new) ∧
    ∀ pre e b post, new = pre ++ (e, b) :: post → allowed' (foldl step s pre) e.
Proof.
  intros Ha Hm tr. destruct (Hm tr) as (new & E1 & Hs & HQ). exists new. split_and!; [done..|].
  intros pre e b post ->. eapply Ha, safe_spec; [exact Hs|done].
Qed.
Lemma moves_ret {A} s (a : A) (Q : result A → S → Prop) : Q (Ok a) s → moves s (mret a) Q.
Proof. intros HQ tr. exists []. by rewrite app_nil_r. Qed.
Lemma moves_lift {A} s (r : result A) (Q : result A → S → Prop) : Q r s → moves s (io_lift r) Q.
Proof. intros HQ tr. exists []. by rewrite app_nil_r. Qed.
Lemma moves_fail {A} s e (Q : result A → S → Prop) : Q (Err e) s → moves s (io_fail e) Q.
Proof. intros HQ tr. exists []. by rewrite app_nil_r. Qed.

Lemma moves_call {A} s (answer : trace E → E → result A) e (Q : result A → S → Prop) :
  allowed s e → (∀ tr, Q (answer tr e) (step s (e, is_ok (answer tr e)))) → moves s (call answer e) Q.
Proof. intros Ha HQ tr. exists [(e, is_ok (answer tr e))]. by cbn. Qed.

Lemma moves_observe {A} s (good : result A → bool) (answer : trace E → E → result A) e (Q : result A → S → Prop) :
  allowed s e →
  (∀ tr, Q (answer tr e) (step s (e, good (answer tr e)))) →
  moves s (observe good answer e) Q.
Proof. intros Ha HQ tr. eexists. by cbn. Qed.
Lemma moves_inquire {A} s (answer : trace E → result A) (seen : result A → E) (Q : result A → S → Prop) :
  (∀ r, allowed s (seen r) ∧ Q r (step s (seen r, is_ok r))) → moves s (inquire answer seen) Q.
Proof.
  intros H tr. exists [(seen (answer tr), is_ok (answer tr))]. destruct (H (answer tr)). by cbn.
Qed.
Lemma moves_get s (Q : result (trace E) → S → Prop) : (∀ tr, Q (Ok tr) s) → moves s io_get Q.
Proof. intros HQ tr. exists []. rewrite app_nil_r. split; [done|]. split; [done|apply HQ]. Qed.
Lemma moves_saying {A} s message (m : io (trace E) A) (Q : result A → S → Prop) :
  moves s m (λ r s', Q (match r with Ok a => Ok a | Err _ => Err (ENew message []) end) s') →
  moves s (io_saying message m) Q.
Proof.
  intros Hm tr. destruct (Hm tr) as (new & E1 & Hs & HQ). exists new. unfold io_saying.
  by destruct (m tr) as [[a|e] tr1].
Qed.

Lemma moves_bind {A B} s (m : io (trace E) A) (k : A → io (trace E) B) P Q :
  moves s m P → (∀ a s', P (Ok a) s' → moves s' (k a) Q) → (∀ e s', P (Err e) s' → Q (Err e) s') →
  moves s (m ≫= k) Q.
Proof.
  intros Hm Hk He tr. destruct (Hm tr) as (n1 & E1 & Hs & HP). unfold mbind, io_bind.
  destruct (m tr) as [[a|e] tr1]; simpl in *; subst; [|by exists n1; auto].
  destruct (Hk a _ HP (tr ++ n1)) as (n2 & E2 & Hs2 & HQ). exists (n1 ++ n2).
  rewrite app_assoc, safe_app, foldl_app. auto.
Qed.

Lemma moves_wrap {A} s f args (m : io (trace E) A) (Q : result A → S → Prop) :
  moves s m (λ r s', Q (wrap_err f args r) s') → moves s (io_wrap f args m) Q.
Proof.
  intros Hm tr. destruct (Hm tr) as (new & E1 & Hs & HQ). exists new. unfold io_wrap.
  by destruct (m tr) as [r tr1].
Qed.
Lemma moves_try {A} s (m : io (trace E) A) (Q : result (result A) → S → Prop) :
  moves s m (λ r s', Q (Ok r) s') → moves s (io_try m) Q.
Proof.
  intros Hm tr. destruct (Hm tr) as (new & E1 & Hs & HQ). exists new. unfold io_try.
  by destruct (m tr) as [r tr1].
Qed.
(** [x, err := m()], whatever the outcome. *)
Lemma moves_trying {A B} s (m : io (trace E) A) (k : result A → io (trace E) B) (P : result A → S → Prop) Q :
  moves s m P → (∀ r s', P r s' → moves s' (k r) Q) → moves s (io_try m ≫= k) Q.
Proof.
  intros Hm Hk. eapply moves_bind with (P := λ r s', ∃ x, r = Ok x ∧ P x s').
  - apply moves_try. eapply moves_mono; [exact Hm|]. eauto.
  - intros r s' (x & [= <-] & HP). by apply Hk.
  - by intros e s' (x & ? & _).
Qed.
Lemma moves_ignoring {A} s (m : io (trace E) A) (Q : result unit → S → Prop) :
  moves s m (λ _ s', Q (Ok tt) s') → moves s (_ ← io_try m; mret tt) Q.
Proof. intros Hm. eapply moves_trying; [exact Hm|]. intros r s' HQ. by apply moves_ret. Qed.
Lemma moves_reading {A} s (k : trace E → io (trace E) A) Q : (∀ tr, moves s (k tr) Q) → moves s (io_get ≫= k) Q.
Proof.
  intros Hk. eapply moves_bind with (P := λ r s', s' = s ∧ is_ok r = true); [by apply moves_get| |by intros e s' [_ ?]].
  intros tr s' [-> _]. apply Hk.
Qed.
Lemma moves_lifted {A B} s (r : result A) (k : A → io (trace E) B) Q :
  (∀ a, r = Ok a → moves s (k a) Q) → (∀ e, r = Err e → Q (Err e) s) → moves s (io_lift r ≫= k) Q.
Proof.
  intros Hk He. eapply moves_bind with (P := λ r' s', r' = r ∧ s' = s); [by apply moves_lift| |].
  - intros a s' [Ha ->]. by apply Hk.
  - intros e s' [Ha ->]. by apply He.
Qed.
Lemma moves_finally {A} s (m : io (trace E) A) (d : io (trace E) unit) (Q : result A → S → Prop) :
  moves s m (λ r s', moves s' d (λ _ s'', Q r s'')) → moves s (io_finally m d) Q.
Proof.
  intros Hm tr. destruct (Hm tr) as (n1 & E1 & Hs & Hd). unfold io_finally, io_defer.
  destruct (m tr) as [r tr1]. simpl in *. subst. destruct (Hd (tr ++ n1)) as (n2 & E2 & Hs2 & HQ).
  exists (n1 ++ n2). rewrite app_assoc, safe_app, foldl_app. auto.
Qed.
Lemma moves_each {A} (f : A → io (trace E) unit) l s (I : S → Prop) (Q : result unit → S → Prop) :
  I s → (∀ x s, x ∈ l → I s → moves s (f x) (λ r s', match r with Ok _ => I s' | Err e => Q (Err e) s' end)) →
  (∀ s, I s → Q (Ok tt) s) → moves s (io_each f l) Q.
Proof.
  intros Hi Hf HQ. revert s Hi. induction l as [|x l IH]; intros s Hi; simpl.
  - apply moves_ret. by apply HQ.
  - eapply moves_bind; [apply Hf; [by left|done]| |by intros e s' H].
    intros [] s' Hs'. apply IH; [|done]. intros y s2 Hy. apply Hf. by right.
Qed.
End protocol.

Lemma moves_weaken {E S A} step (allowed allowed' : S → E → Prop) s (m : io (trace E) A) (Q : result A → S → Prop) :
  (∀ s e, allowed s e → allowed' s e) → moves step allowed s m Q → moves step allowed' s m Q.
Proof.
  intros Ha Hm tr. destruct (moves_allowed step allowed allowed' s m Q Ha Hm tr) as (new & E1 & HQ & Hs).
  exists new. split_and!; [done| |done]. by apply safe_spec.
Qed.

(** Two accounts of one run. *)
Lemma moves_and {E S A} step (allowed allowed' : S → E → Prop) s (m : io (trace E) A) (P Q : result A → S → Prop) :
  moves step allowed s m P → moves step allowed' s m Q → moves step allowed s m (λ r s', P r s' ∧ Q r s').
Proof.
  intros H1 H2 tr. destruct (H1 tr) as (new & E1 & Hs & HP), (H2 tr) as (new' & E2 & _ & HQ).
  rewrite E1 in E2. apply app_inv_head in E2 as <-. by exists new.
Qed.

(** ** A component inside a system

    A program of one component, whose calls are some of the system's, run on the part
    of the system's trace that is its own; its environment may know all of it. *)
Section embedding.
Context {E F : Type} (inj : F → E) (prj : E → option F).

Definition part (tr : trace E) : trace F := omap (λ e, (λ f, (f, e.2)) <$> prj e.1) tr.
Definition embed {A} (m : trace E → io (trace F) A) : io (trace E) A := λ tr,
  let '(r, tr') := m tr (part tr) in
  (r, tr ++ ((λ e, (inj e.1, e.2)) <$> drop (length (part tr)) tr')).

Context {S T : Type} (stepE : S → E * bool → S) (allowedE : S → E → Prop).
Context (stepF : T → F * bool → T) (allowedF : T → F → Prop).
(** The component's state within the system's. *)
Context (get : S → T) (put : S → T → S).
Hypothesis get_put : ∀ s t, get (put s t) = t.
Hypothesis put_get : ∀ s, put s (get s) = s.
Hypothesis put_put : ∀ s t t', put (put s t) t' = put s t'.
Hypothesis step_own : ∀ s e, stepE s (inj e.1, e.2) = put s (stepF (get s) e).
(** What the rest of the system's state says, which the component leaves alone. *)
Context (around : S → Prop).
Hypothesis around_put : ∀ s t, around s → around (put s t).
Hypothesis allowed_own : ∀ s f, around s → allowedF (get s) f → allowedE s (inj f).

Lemma embedded_run s (new : trace F) :
  foldl stepE s ((λ e, (inj e.1, e.2)) <$> new) = put s (foldl stepF (get s) new)
  ∧ (around s → safe stepF allowedF (get s) new → safe stepE allowedE s ((λ e, (inj e.1, e.2)) <$> new)).
Proof.
  revert s. induction new as [|e new IH]; intros s.
  - cbn. by rewrite put_get.
  - rewrite fmap_cons. cbn [foldl safe fst]. rewrite step_own. destruct (IH (put s (stepF (get s) e))) as [E1 H1].
    rewrite get_put in E1, H1. rewrite E1, put_put. split; [done|]. intros Hr [Ha Hs]. split; [by apply allowed_own|auto].
Qed.

Lemma moves_embed {A} s (m : trace E → io (trace F) A) (P : result A → T → Prop) (Q : result A → S → Prop) :
  around s → (∀ tr, moves stepF allowedF (get s) (m tr) P) → (∀ r t, P r t → Q r (put s t)) →
  moves stepE allowedE s (embed m) Q.
Proof.
  intros Hr Hm HQ tr. destruct (Hm tr (part tr)) as (new & E1 & Hs & HP). unfold embed.
  destruct (m tr (part tr)) as [r tr1]. cbn [fst snd] in *. subst tr1. rewrite drop_app_length.
  destruct (embedded_run s new) as [E2 H2]. eexists. split; [done|]. split; [by apply H2|]. rewrite E2. by apply HQ.
Qed.
End embedding.

(** ** Programs that also keep a value

    The value survives an error, as the fields of a receiver do in Go. *)
Definition keeping (E K A : Type) : Type := K → io (trace E) (result A * K).
#[export] Instance keeping_ret {E K} : MRet (keeping E K) := λ A a k, mret (Ok a, k).
#[export] Instance keeping_bind {E K} : MBind (keeping E K) := λ A B f m k,
  '(r, k') ← m k; match r with Ok a => f a k' | Err e => mret (Err e, k') end.
Definition lift_io {E K A} (m : io (trace E) A) : keeping E K A := λ k, r ← io_try m; mret (r, k).
Definition k_get {E K} : keeping E K K := λ k, mret (Ok k, k).
Definition k_modify {E K} (f : K → K) : keeping E K unit := λ k, mret (Ok tt, f k).
Definition k_fail {E K A} (e : error) : keeping E K A := λ k, mret (Err e, k).
(** [x, err := m()] *)
Definition k_try {E K A} (m : keeping E K A) : keeping E K (result A) := λ k, '(r, k') ← m k; mret (Ok r, k').
(** [defer d()] *)
Definition k_finally {E K A} (m : keeping E K A) (d : io (trace E) unit) : keeping E K A := λ k,
  io_finally (m k) d.

Section keeping.
Context {E S K : Type} (step : S → E * bool → S) (allowed : S → E → Prop).

Definition kmoves {A} (s : S) (k : K) (m : keeping E K A) (Q : result A → K → S → Prop) : Prop :=
  moves step allowed s (m k) (λ r s', ∃ x k', r = Ok (x, k') ∧ Q x k' s').

Lemma kmoves_mono {A} s k (m : keeping E K A) (P Q : result A → K → S → Prop) :
  kmoves s k m P → (∀ r k' s', P r k' s' → Q r k' s') → kmoves s k m Q.
Proof. intros Hm HPQ. eapply moves_mono; [exact Hm|]. intros r s' (x & k' & -> & HP). eauto. Qed.

Lemma kmoves_ret {A} s k (a : A) (Q : result A → K → S → Prop) : Q (Ok a) k s → kmoves s k (mret a) Q.
Proof. intros HQ. apply moves_ret. eauto. Qed.
Lemma kmoves_fail {A} s k e (Q : result A → K → S → Prop) : Q (Err e) k s → kmoves s k (k_fail e) Q.
Proof. intros HQ. apply moves_ret. eauto. Qed.
Lemma kmoves_get s k (Q : result K → K → S → Prop) : Q (Ok k) k s → kmoves s k k_get Q.
Proof. intros HQ. apply moves_ret. eauto. Qed.
Lemma kmoves_modify s k f (Q : result unit → K → S → Prop) : Q (Ok tt) (f k) s → kmoves s k (k_modify f) Q.
Proof. intros HQ. apply moves_ret. eauto. Qed.

Lemma kmoves_bind {A B} s k (m : keeping E K A) (f : A → keeping E K B) P Q :
  kmoves s k m P → (∀ a k' s', P (Ok a) k' s' → kmoves s' k' (f a) Q) →
  (∀ e k' s', P (Err e) k' s' → Q (Err e) k' s') → kmoves s k (m ≫= f) Q.
Proof.
  intros Hm Hf He. eapply moves_bind; [exact Hm| |].
  - intros [r k'] s' (x & k'' & [= <- <-] & HP). destruct r as [a|e]; [by apply Hf|]. apply moves_ret. eauto.
  - by intros e s' (x & k' & ? & _).
Qed.
Lemma kmoves_lift {A} s k (m : io (trace E) A) (Q : result A → K → S → Prop) :
  moves step allowed s m (λ r s', Q r k s') → kmoves s k (lift_io m) Q.
Proof.
  intros Hm. eapply moves_bind with (P := λ r s', ∃ x, r = Ok x ∧ Q x k s').
  - apply moves_try. eapply moves_mono; [exact Hm|]. eauto.
  - intros x s' (? & [= <-] & HQ). apply moves_ret. eauto.
  - by intros e s' (x & ? & _).
Qed.
Lemma kmoves_getting {A} s k (f : K → keeping E K A) Q : kmoves s k (f k) Q → kmoves s k (k_get ≫= f) Q.
Proof.
  intros Hf. eapply kmoves_bind with (P := λ r k' s', r = Ok k ∧ k' = k ∧ s' = s); [by apply kmoves_get| |by intros e ? ? [? _]].
  by intros a k' s' ([= ->] & -> & ->).
Qed.
Lemma kmoves_modifying {A} s k g (f : unit → keeping E K A) Q : kmoves s (g k) (f tt) Q → kmoves s k (k_modify g ≫= f) Q.
Proof.
  intros Hf. eapply kmoves_bind with (P := λ r k' s', r = Ok tt ∧ k' = g k ∧ s' = s); [by apply kmoves_modify| |by intros e ? ? [? _]].
  by intros [] k' s' (_ & -> & ->).
Qed.
Lemma kmoves_lifting {A B} s k (m : io (trace E) A) (f : A → keeping E K B) P Q :
  moves step allowed s m P → (∀ a s', P (Ok a) s' → kmoves s' k (f a) Q) →
  (∀ e s', P (Err e) s' → Q (Err e) k s') → kmoves s k (lift_io m ≫= f) Q.
Proof.
  intros Hm Hf He. eapply kmoves_bind with (P := λ r k' s', k' = k ∧ P r s').
  - apply kmoves_lift. by eapply moves_mono; [exact Hm|].
  - intros a k' s' [-> HP]. by apply Hf.
  - intros e k' s' [-> HP]. by apply He.
Qed.
Lemma kmoves_lifted {A B} s k (r : result A) (f : A → keeping E K B) Q :
  (∀ a, r = Ok a → kmoves s k (f a) Q) → (∀ e, r = Err e → Q (Err e) k s) → kmoves s k (lift_io (io_lift r) ≫= f) Q.
Proof.
  intros Hf He. eapply kmoves_lifting with (P := λ r' s', r' = r ∧ s' = s); [by apply moves_lift| |].
  - intros a s' [Ha ->]. by apply Hf.
  - intros e s' [Ha ->]. by apply He.
Qed.
Lemma kmoves_try {A} s k (m : keeping E K A) (Q : result (result A) → K → S → Prop) :
  kmoves s k m (λ r k' s', Q (Ok r) k' s') → kmoves s k (k_try m) Q.
Proof.
  intros Hm. eapply moves_bind; [exact Hm| |].
  - intros [r k'] s' (x & k'' & [= <- <-] & HQ). apply moves_ret. eauto.
  - by intros e s' (x & k' & ? & _).
Qed.
Lemma kmoves_finally {A} s k (m : keeping E K A) d (Q : result A → K → S → Prop) :
  kmoves s k m (λ r k' s', moves step allowed s' d (λ _ s'', Q r k' s'')) → kmoves s k (k_finally m d) Q.
Proof.
  intros Hm. apply moves_finally. eapply moves_mono; [exact Hm|]. intros r s' (x & k' & -> & Hd).
  eapply moves_mono; [exact Hd|]. cbn beta. intros _ s'' HQ. eauto.
Qed.
End keeping.
