(* ===== verification/Timeouts.v ===== *)
(** Operation budgets ([timeouts.go]): the [Timeouts] settings, their defaults,
    their validation, and the durations derived from them. *)
From S2P Require Import Prelude GoStrings.

(** The configured whole seconds; zero asks for the default. *)
Record Timeouts := {
  Connect : Z;
  Readiness : Z;
  MigrationLock : Z;
  MigrationStatement : Z;
  BootstrapReadiness : Z;
  BootstrapJob : Z;
}.

Definition defaultConnectSeconds : Z := 5.
Definition defaultReadinessSeconds : Z := 90.
Definition defaultMigrationLockSeconds : Z := 30.
Definition defaultMigrationStatementSeconds : Z := 600.
Definition defaultBootstrapReadinessSeconds : Z := 300.
Definition defaultBootstrapJobSeconds : Z := 1800.
Definition maxTimeoutSeconds : Z := 86400.

(** [time.Second] and the conversion of a [time.Duration], in nanoseconds. *)
Definition Second : Z := 1000000000.
Definition Milliseconds (d : Z) : Z := Z.quot d 1000000.

Definition seconds (configured fallback : Z) : Z :=
  if configured =? 0 then fallback else configured.

Definition budget (configured fallback : Z) : Z :=
  wrap64 (seconds configured fallback * Second).

Definition connect (t : Timeouts) : Z := budget (Connect t) defaultConnectSeconds.
Definition readiness (t : Timeouts) : Z := budget (Readiness t) defaultReadinessSeconds.
Definition migrationLock (t : Timeouts) : Z :=
  budget (MigrationLock t) defaultMigrationLockSeconds.
Definition migrationStatement (t : Timeouts) : Z :=
  budget (MigrationStatement t) defaultMigrationStatementSeconds.
Definition BootstrapReadinessSeconds (t : Timeouts) : Z :=
  seconds (BootstrapReadiness t) defaultBootstrapReadinessSeconds.
Definition BootstrapJobSeconds (t : Timeouts) : Z :=
  seconds (BootstrapJob t) defaultBootstrapJobSeconds.

(** The budgets [validate] ranges over, in its order. *)
Definition configured_budgets (t : Timeouts) : list (string * Z) :=
  [("connect-seconds", Connect t); ("readiness-seconds", Readiness t);
   ("migration-lock-seconds", MigrationLock t);
   ("migration-statement-seconds", MigrationStatement t);
   ("bootstrap-readiness-seconds", BootstrapReadiness t);
   ("bootstrap-job-seconds", BootstrapJob t)].

Definition validate_budget (b : string * Z) : result unit :=
  _ ← guard_err (b.2 <? 0) (ENew "timeouts.%s must be positive, got %d" [b.1]);
  guard_err (maxTimeoutSeconds <? b.2)
    (ENew "timeouts.%s must not exceed %d seconds, got %d" [b.1]).

Definition validate (t : Timeouts) : result unit :=
  _ ← each validate_budget (configured_budgets t);
  guard_err (BootstrapJobSeconds t <? BootstrapReadinessSeconds t)
    (ENew "timeouts.bootstrap-job-seconds (%d) must not be below timeouts.bootstrap-readiness-seconds (%d)" []).

(** The whole seconds a server-side GUC or a rendered artifact receives. *)
Definition accepted (z : Z) : Prop := 0 ≤ z ≤ maxTimeoutSeconds.

Lemma validate_budget_ok b : validate_budget b = Ok tt ↔ accepted b.2.
Proof.
  unfold validate_budget, accepted, maxTimeoutSeconds.
  destruct b as [n z]; simpl.
  destruct (Z.ltb_spec z 0); simpl; [split; [done|lia]|].
  destruct (Z.ltb_spec 86400 z); simpl; split; try done; lia.
Qed.

Lemma seconds_bounds c f :
  accepted c → 0 < f ≤ maxTimeoutSeconds → 1 ≤ seconds c f ≤ maxTimeoutSeconds.
Proof. unfold seconds, accepted. destruct (Z.eqb_spec c 0); lia. Qed.

Lemma budget_exact c f :
  accepted c → 0 < f ≤ maxTimeoutSeconds → budget c f = seconds c f * Second.
Proof.
  intros Hc Hf. pose proof (seconds_bounds c f Hc Hf).
  unfold budget, Second, maxTimeoutSeconds in *.
  apply wrap64_id. unfold min_int64, max_int64. lia.
Qed.

Lemma validate_ok t :
  validate t = Ok tt ↔
    Forall (λ b, accepted b.2) (configured_budgets t) ∧
    BootstrapReadinessSeconds t ≤ BootstrapJobSeconds t.
Proof.
  assert (Hb : Forall (λ b, accepted b.2) (configured_budgets t) ↔
               Forall (λ b, validate_budget b = Ok tt) (configured_budgets t)).
  { split; intros H; (eapply Forall_impl; [exact H|]); intros b; apply validate_budget_ok. }
  rewrite Hb. unfold validate. split.
  - intros H. res_inv. apply Z.ltb_ge in H. done.
  - intros [Ha ?]. apply each_ok with (u := tt) in Ha. rewrite Ha. simpl.
    apply guard_ok, Z.ltb_ge. done.
Qed.
#[export] Hint Resolve seconds_bounds budget_exact : golib.

(** [validate] accepts exactly the settings whose every budget is between
    zero and one day and whose bootstrap Job outlasts its readiness wait; and an
    accepted setting derives durations that are at least one second, at most one
    day, exact in nanoseconds (no [int64] wrap-around) and exact in the
    milliseconds the session GUCs are rendered with. *)
Theorem validate_sound_and_exact t :
  (validate t = Ok tt ↔
     Forall (λ b, 0 ≤ b.2 ≤ 86400) (configured_budgets t) ∧
     BootstrapReadinessSeconds t ≤ BootstrapJobSeconds t) ∧
  (validate t = Ok tt →
     Forall (λ d, ∃ s, 1 ≤ s ≤ 86400 ∧ d = s * Second ∧ Milliseconds d = s * 1000)
       [connect t; readiness t; migrationLock t; migrationStatement t] ∧
     1 ≤ BootstrapReadinessSeconds t ≤ BootstrapJobSeconds t ∧
     BootstrapJobSeconds t ≤ 86400).
Proof.
  split; [apply validate_ok|].
  intros [Hall Hjob]%validate_ok. unfold configured_budgets in Hall.
  rewrite !Forall_cons in Hall. simpl in Hall. destruct_and!.
  assert (∀ c f, accepted c → 0 < f ≤ maxTimeoutSeconds →
    ∃ s, 1 ≤ s ≤ 86400 ∧ budget c f = s * Second ∧ Milliseconds (budget c f) = s * 1000)
    as Hb.
  { intros c f Hc Hf. exists (seconds c f). rewrite (budget_exact c f Hc Hf).
    pose proof (seconds_bounds c f Hc Hf). unfold maxTimeoutSeconds in *.
    split_and!; try done; try lia. unfold Milliseconds, Second. replace 1000000000 with (1000 * 1000000) by lia.
    rewrite Z.mul_assoc, Z.quot_mul; lia. }
  pose proof (seconds_bounds (BootstrapReadiness t) defaultBootstrapReadinessSeconds).
  pose proof (seconds_bounds (BootstrapJob t) defaultBootstrapJobSeconds).
  unfold BootstrapReadinessSeconds, BootstrapJobSeconds, maxTimeoutSeconds,
    defaultBootstrapReadinessSeconds, defaultBootstrapJobSeconds in *.
  split_and!; [|naive_solver lia..].
  repeat (constructor; [apply Hb; [done|by vm_compute]|]). constructor.
Qed.

(** The shipped defaults (an omitted [timeouts:] block) are accepted. *)
Lemma validate_sound_and_exact_witness :
  validate (Build_Timeouts 0 0 0 0 0 0) = Ok tt ∧
  1 ≤ BootstrapReadinessSeconds (Build_Timeouts 0 0 0 0 0 0).
Proof.
  split; [vm_compute; reflexivity|].
  destruct (validate_sound_and_exact (Build_Timeouts 0 0 0 0 0 0)) as [_ H].
  destruct (H eq_refl) as (_ & [Hr _] & _). exact Hr.
Defined.
