(* ===== verification/Sha256.v ===== *)
(** The digests the program computes with Go's [crypto/sha256], [crypto/hmac] and
    [encoding/hex] (FIPS 180-4, RFC 2104), executable on strings of bytes, with
    the length laws the components rely on.  No collision resistance is assumed
    anywhere: the theorems on digests are stated on the digested bytes. *)
From S2P Require Import Prelude GoStrings.

(** ** 32-bit words *)

Definition mask32 (z : Z) : Z := z mod 2 ^ 32.
Definition rotr (n x : Z) : Z :=
  Z.lor (Z.shiftr x n) (mask32 (Z.shiftl x (32 - n))).
Definition not32 (x : Z) : Z := Z.lxor x (2 ^ 32 - 1).

Definition big_sigma0 (x : Z) : Z := Z.lxor (rotr 2 x) (Z.lxor (rotr 13 x) (rotr 22 x)).
Definition big_sigma1 (x : Z) : Z := Z.lxor (rotr 6 x) (Z.lxor (rotr 11 x) (rotr 25 x)).
Definition small_sigma0 (x : Z) : Z := Z.lxor (rotr 7 x) (Z.lxor (rotr 18 x) (Z.shiftr x 3)).
Definition small_sigma1 (x : Z) : Z := Z.lxor (rotr 17 x) (Z.lxor (rotr 19 x) (Z.shiftr x 10)).
Definition choose (x y z : Z) : Z := Z.lxor (Z.land x y) (Z.land (not32 x) z).
Definition majority (x y z : Z) : Z :=
  Z.lxor (Z.land x y) (Z.lxor (Z.land x z) (Z.land y z)).

(** The constants are the first 32 bits of the fractional parts of the cube roots
    of the first 64 primes, and of the square roots of the first 8. *)
Definition is_prime (n : Z) : bool :=
  forallb (λ d, negb (n mod d =? 0)) (seqZ 2 (Z.sqrt n - 1)).
Definition primes : list Z := filter is_prime (seqZ 2 310).

(** The integer cube root, bit by bit from [2^bit]. *)
Fixpoint cube_root_from (bit : nat) (root z : Z) : Z :=
  let r := root + 2 ^ Z.of_nat bit in
  let root := if r ^ 3 <=? z then r else root in
  match bit with O => root | S bit => cube_root_from bit root z end.

Definition round_constants : list Z :=
  Eval vm_compute in (λ p, mask32 (cube_root_from 35 0 (p * 2 ^ 96))) <$> primes.
Definition initial_state : list Z :=
  Eval vm_compute in (λ p, mask32 (Z.sqrt (p * 2 ^ 64))) <$> take 8 primes.

(** ** Compression *)

(** The schedule, newest word first: [w] holds at least the last 16 words. *)
Fixpoint extend (n : nat) (w : list Z) : list Z :=
  match n with
  | O => w
  | S n =>
    let word := mask32 (small_sigma1 (nth 1 w 0) + nth 6 w 0
                        + small_sigma0 (nth 14 w 0) + nth 15 w 0) in
    extend n (word :: w)
  end.
Definition schedule (block : list Z) : list Z := reverse (extend 48 (reverse block)).

Definition sha_round (st : list Z) (kw : Z * Z) : list Z :=
  match st with
  | [a; b; c; d; e; f; g; h] =>
    let t1 := h + big_sigma1 e + choose e f g + kw.1 + kw.2 in
    let t2 := big_sigma0 a + majority a b c in
    [mask32 (t1 + t2); a; b; c; mask32 (d + t1); e; f; g]
  | _ => st
  end.

Definition compress (st block : list Z) : list Z :=
  let st' := foldl sha_round st (zip round_constants (schedule block)) in
  zip_with (λ a b, mask32 (a + b)) st st'.

(** ** Padding and rendering *)

Definition byte_of (w : Z) (i : Z) : Z := Z.shiftr w (8 * i) mod 256.
Definition word_bytes (w : Z) : list Z := [byte_of w 3; byte_of w 2; byte_of w 1; byte_of w 0].

Definition padded (m : list Z) : list Z :=
  let n := Z.of_nat (length m) in
  let zeros := Z.to_nat ((55 - n) mod 64) in
  m ++ [128] ++ replicate zeros 0 ++ word_bytes (Z.shiftr (8 * n) 32 mod 2 ^ 32)
    ++ word_bytes (8 * n mod 2 ^ 32).

Fixpoint words (fuel : nat) (l : list Z) : list Z :=
  match fuel, l with
  | S fuel, a :: b :: c :: d :: l =>
    (a * 2 ^ 24 + b * 2 ^ 16 + c * 2 ^ 8 + d) :: words fuel l
  | _, _ => []
  end.

Fixpoint blocks (fuel : nat) (l : list Z) : list (list Z) :=
  match fuel, l with
  | S fuel, _ :: _ => take 16 l :: blocks fuel (drop 16 l)
  | _, _ => []
  end.

Definition sha256_bytes (m : list Z) : list Z :=
  let p := padded m in
  let ws := words (length p) p in
  concat (word_bytes <$> foldl compress initial_state (blocks (length ws) ws)).

(** [sha256.Sum256]. *)
Definition sha256 (s : string) : string :=
  of_bytes (chr <$> sha256_bytes (code <$> bytes s)).

(** [hex.EncodeToString]. *)
Definition hex_digit (n : Z) : ascii := if n <? 10 then chr (48 + n) else chr (87 + n).
Definition hex_bytes (l : list ascii) : list ascii :=
  concat ((λ c, [hex_digit (code c / 16); hex_digit (code c mod 16)]) <$> l).
Definition hex (s : string) : string := of_bytes (hex_bytes (bytes s)).

Definition sha256_hex (s : string) : string := hex (sha256 s).

(** [hmac.New(sha256.New, key)] over one message. *)
Definition hmac_pad (key : list Z) (x : Z) : list Z :=
  (λ b, Z.lxor b x) <$> (key ++ replicate (64 - length key) 0).
Definition hmac_sha256 (key message : string) : string :=
  let k := code <$> bytes key in
  let k := if 64 <? Z.of_nat (length k) then sha256_bytes k else k in
  of_bytes (chr <$> sha256_bytes
    (hmac_pad k 0x5c ++ sha256_bytes (hmac_pad k 0x36 ++ (code <$> bytes message)))).

(** The standard test vectors. *)
Example sha256_abc :
  sha256_hex "abc" = "ba7816bf8f01cfea414140de5dae2223b00361a396177a9cb410ff61f20015ad".
Proof. vm_compute. reflexivity. Qed.
Example sha256_two_blocks :
  sha256_hex "abcdbcdecdefdefgefghfghighijhijkijkljklmklmnlmnomnopnopq" =
  "248d6a61d20638b8e5c026930c3e6039a33ce45964ff2167f6ecedd419db06c1".
Proof. vm_compute. reflexivity. Qed.
Example hmac_jefe :
  hex (hmac_sha256 "Jefe" "what do ya want for nothing?") =
  "5bdcc146bf60754e6a042426089575c75a003f089d2739839dec58b964ec3843".
Proof. vm_compute. reflexivity. Qed.

(** ** Laws *)

Lemma sha_round_length st kw : length st = 8%nat → length (sha_round st kw) = 8%nat.
Proof. intros H. repeat (destruct st as [|? st]; try done). Qed.

Lemma sha_rounds_length st l : length st = 8%nat → length (foldl sha_round st l) = 8%nat.
Proof.
  revert st. induction l as [|kw l IH]; intros st H; [done|].
  simpl. by apply IH, sha_round_length.
Qed.

Lemma compress_length st b : length st = 8%nat → length (compress st b) = 8%nat.
Proof.
  intros H. unfold compress. rewrite length_zip_with_l_eq; [done|].
  by rewrite H, sha_rounds_length.
Qed.

Lemma sha256_bytes_length m : length (sha256_bytes m) = 32%nat.
Proof.
  unfold sha256_bytes. set (bs := blocks _ _). clearbody bs.
  assert (H : ∀ st, length st = 8%nat → length (foldl compress st bs) = 8%nat).
  { induction bs as [|b bs IH]; intros st Hst; [done|]. simpl. by apply IH, compress_length. }
  specialize (H initial_state eq_refl). set (st := foldl _ _ _) in *. clearbody st.
  by do 9 (destruct st as [|? st]; try done).
Qed.

Lemma len_sha256 s : len (sha256 s) = 32.
Proof.
  rewrite len_bytes. unfold sha256. rewrite bytes_of_bytes, length_fmap, sha256_bytes_length. done.
Qed.

Lemma hex_bytes_cons c l :
  hex_bytes (c :: l) = hex_digit (code c / 16) :: hex_digit (code c mod 16) :: hex_bytes l.
Proof. done. Qed.

Lemma hex_bytes_length l : length (hex_bytes l) = (2 * length l)%nat.
Proof.
  induction l as [|c l IH]; [done|].
  rewrite hex_bytes_cons.
  simpl. rewrite IH. lia.
Qed.

Lemma len_hex s : len (hex s) = 2 * len s.
Proof. rewrite !len_bytes. unfold hex. rewrite bytes_of_bytes, hex_bytes_length. lia. Qed.

Lemma hex_digit_inj a b : 0 ≤ a < 16 → 0 ≤ b < 16 → hex_digit a = hex_digit b → a = b.
Proof.
  intros Ha Hb H%(f_equal code). unfold hex_digit in H.
  destruct (Z.ltb_spec a 10), (Z.ltb_spec b 10); rewrite !code_chr in H; lia.
Qed.

Lemma hex_bytes_inj l l' : hex_bytes l = hex_bytes l' → l = l'.
Proof.
  revert l'. induction l as [|c l IH]; intros [|c' l']; try done.
  rewrite !hex_bytes_cons. intros [= H1 H2 H3].
  pose proof (code_range c). pose proof (code_range c').
  apply hex_digit_inj in H1; [|split; [apply Z.div_pos|apply Z.div_lt_upper_bound]; lia..].
  apply hex_digit_inj in H2; [|apply Z.mod_pos_bound; lia..].
  f_equal; [|by apply IH]. apply (inj code).
  rewrite (Z.div_mod (code c) 16), (Z.div_mod (code c') 16) by done. congruence.
Qed.

#[export] Instance hex_inj : Inj (=) (=) hex.
Proof.
  intros a b H%(f_equal bytes). unfold hex in H. rewrite !bytes_of_bytes in H.
  by apply (inj bytes), hex_bytes_inj.
Qed.

(** Hexadecimal digits are lower-case letters and digits. *)
Definition hex_byte (c : ascii) : bool := in_range 48 57 (code c) || in_range 97 102 (code c).
Lemma hex_digit_byte n : 0 ≤ n < 16 → hex_byte (hex_digit n) = true.
Proof.
  intros Hn. unfold hex_byte, hex_digit, in_range.
  destruct (Z.ltb_spec n 10); rewrite code_chr; lia.
Qed.
Lemma hex_all s : all_bytes hex_byte (hex s) = true.
Proof.
  unfold all_bytes, hex. rewrite bytes_of_bytes. induction (bytes s) as [|c l IH]; [done|].
  rewrite hex_bytes_cons.
  pose proof (code_range c). cbn [forallb]. rewrite IH.
  rewrite !hex_digit_byte; [done|apply Z.mod_pos_bound; lia|].
  split; [apply Z.div_pos|apply Z.div_lt_upper_bound]; lia.
Qed.

#[global] Opaque sha256 hmac_sha256 hex.
#[global] Arguments sha256_hex : simpl never.
