(* ===== verification/Settings.v ===== *)
(** The service settings ([main.go], [schema.go]): the declarations a user
    writes, the identifier predicates they are validated with, and the view of
    the file system the resolution of those declarations reads. *)
From S2P Require Import Prelude GoStrings Timeouts.

Record RuntimeLogin := { RL_Name : string; RL_ReadWriteRoles : list string }.

Record ExternalInstance := {
  EI_Host : string;
  EI_Port : Z;
  EI_DatabaseName : string;
  EI_RuntimeReadWriteRoles : list string;
}.

Record MigrationSource := { MS_Name : string; MS_Path : string; MS_Optional : bool }.

Record Extension := { EX_Name : string; EX_Optional : bool }.

Record Settings := {
  DatabaseName : string;
  HotReload : bool;
  ExternalInstances : gmap string ExternalInstance;
  AuthMode : string;
  WithoutSSL : bool;
  NoMigration : bool;
  KeepRunning : bool;
  LogLevel : string;
  Image : string;
  ImagePlatforms : list string;
  Extensions : list Extension;
  RuntimeSchemas : list string;
  RuntimeReadWriteRoles : list string;
  RuntimeLogins : list RuntimeLogin;
  MigrationSources : list MigrationSource;
  STimeouts : Timeouts;
}.

(** The settings of a service whose YAML declares only its database. *)
Definition default_settings (database : string) : Settings := {|
  DatabaseName := database; HotReload := false; ExternalInstances := ∅;
  AuthMode := ""; WithoutSSL := false; NoMigration := false; KeepRunning := false;
  LogLevel := ""; Image := ""; ImagePlatforms := []; Extensions := [];
  RuntimeSchemas := []; RuntimeReadWriteRoles := []; RuntimeLogins := [];
  MigrationSources := []; STimeouts := Build_Timeouts 0 0 0 0 0 0 |}.

Definition defaultExtensions : list string :=
  ["vector"; "pgcrypto"; "uuid-ossp"; "pg_trgm"; "citext"; "btree_gin"].

(** ** Identifier predicates

    Each is a loop over the runes of the name that accepts ASCII only. *)
Definition identifier_rune (r : Z) : bool := (r =? 95) || is_alnum r.
Definition extension_rune (r : Z) : bool := (r =? 95) || (r =? 45) || is_alnum r.

Definition validSourceName (name : string) : bool :=
  forallb identifier_rune (runes name) && negb (bool_decide (name = "")).

Definition validSQLIdentifier (value : string) : bool :=
  negb (bool_decide (value = "")) && forallb identifier_rune (runes value).

Definition validExtName (name : string) : bool :=
  negb (bool_decide (name = "")) && forallb extension_rune (runes name).

Definition ident_byte (c : ascii) : bool := identifier_rune (code c).
Definition ext_byte (c : ascii) : bool := extension_rune (code c).

(** A name of identifier bytes: what [validSourceName] and [validSQLIdentifier]
    both decide. *)
Definition safe_identifier (s : string) : Prop := s ≠ "" ∧ all_bytes ident_byte s = true.

Lemma identifier_rune_ascii r : identifier_rune r = true → r < 128.
Proof.
  unfold identifier_rune, is_alnum, is_lower, is_upper, is_digit, in_range. lia.
Qed.
Lemma extension_rune_ascii r : extension_rune r = true → r < 128.
Proof.
  unfold extension_rune, is_alnum, is_lower, is_upper, is_digit, in_range. lia.
Qed.

Lemma validSourceName_spec s : validSourceName s = true ↔ safe_identifier s.
Proof.
  unfold validSourceName, safe_identifier.
  rewrite (forallb_runes _ s identifier_rune_ascii), andb_true_iff, negb_true_iff,
    bool_decide_eq_false.
  unfold ident_byte. tauto.
Qed.

Lemma validSQLIdentifier_spec s : validSQLIdentifier s = true ↔ safe_identifier s.
Proof.
  rewrite <-validSourceName_spec. unfold validSourceName, validSQLIdentifier.
  by rewrite andb_comm.
Qed.

Lemma validExtName_spec s :
  validExtName s = true ↔ s ≠ "" ∧ all_bytes ext_byte s = true.
Proof.
  unfold validExtName.
  rewrite (forallb_runes _ s extension_rune_ascii), andb_true_iff, negb_true_iff,
    bool_decide_eq_false.
  done.
Qed.

Lemma ident_byte_graphic c : ident_byte c = true → graphic c = true.
Proof.
  unfold ident_byte, identifier_rune, graphic, is_alnum, is_lower, is_upper, is_digit,
    in_range. lia.
Qed.
Lemma ext_byte_graphic c : ext_byte c = true → graphic c = true.
Proof.
  unfold ext_byte, extension_rune, graphic, is_alnum, is_lower, is_upper, is_digit,
    in_range. lia.
Qed.

Lemma safe_identifier_trim s : safe_identifier s → trim_space s = s.
Proof.
  intros [_ H]. apply trim_space_id. revert H. apply all_bytes_impl, ident_byte_graphic.
Qed.
#[export] Hint Resolve safe_identifier_trim : golib.

(** ** The file system

    [os.ReadDir] and [os.Lstat] are the operating system's; a listing is sorted
    by name and names an entry once. *)
Inductive FileType := Regular | Directory | Symlink | Irregular.
#[export] Instance FileType_eq_dec : EqDecision FileType.
Proof. solve_decision. Defined.

Record DirEntry := { Name : string; Type_ : FileType }.
Definition IsDir (e : DirEntry) : bool := bool_decide (Type_ e = Directory).

Definition ErrNotExist : string := "file does not exist".

Class FileSystem := {
  ReadDir : string → result (list DirEntry);
  LstatMissing : string → bool;
}.
Class FileSystemLaws (fs : FileSystem) := {
  readdir_names : ∀ d es, ReadDir d = Ok es → NoDup (Name <$> es);
}.

(** A file system given by its directories: what the witnesses run on. *)
Fixpoint table_lookup (d : string) (t : list (string * list DirEntry)) :
    option (list DirEntry) :=
  match t with
  | [] => None
  | (d', es) :: t => if decide (d = d') then Some es else table_lookup d t
  end.
Definition table_fs (t : list (string * list DirEntry)) : FileSystem := {|
  ReadDir d :=
    match table_lookup d t with Some es => Ok es | None => Err (ENew ErrNotExist []) end;
  LstatMissing d := bool_decide (table_lookup d t = None) |}.
Lemma table_fs_laws t :
  Forall (λ p, NoDup (Name <$> p.2)) t → FileSystemLaws (table_fs t).
Proof.
  intros Ht. split. simpl. intros d es. induction Ht as [|[d' es'] t Hes _ IH]; simpl; [done|].
  case_decide; [by intros [= <-]|done].
Qed.

Definition file (n : string) : DirEntry := {| Name := n; Type_ := Regular |}.
#[global] Arguments validSourceName : simpl never.
#[global] Arguments validSQLIdentifier : simpl never.
#[global] Arguments validExtName : simpl never.
