(* ===== verification/MigrationFiles.v ===== *)
(** Migration file names and the inventory of one directory ([migrations.go],
    [schema.go] and [hotreload.go]): the one definition of a conventional
    golang-migrate file name, the conflict check of the source driver, and the
    count the prerequisite resolution is based on. *)
From S2P Require Import Prelude GoStrings Settings.

(** ** The file name pattern

    [^([0-9]+)_.+\.(up|down)\.[A-Za-z0-9]+$], matched from both ends: the digits
    run up to the first underscore, the extension is the longest alphanumeric
    suffix, and the direction stands between the last two dots. *)
Definition digit_byte (c : ascii) : bool := is_digit (code c).
Definition alnum_byte (c : ascii) : bool := is_alnum (code c).
Definition newline_byte (c : ascii) : bool := code c =? 10.
Definition dot : ascii := "."%char.
Definition underscore : ascii := "_"%char.

Definition up_rev : list ascii := reverse (bytes "up").
Definition down_rev : list ascii := reverse (bytes "down").

(** The [\.(up|down)\.[A-Za-z0-9]+$] tail of a reversed name: the direction and
    the reversed bytes before the tail. *)
Definition parse_tail (l : list ascii) : option (string * list ascii) :=
  let '(ext, l) := span_bytes alnum_byte l in
  match ext, l with
  | [], _ | _, [] => None
  | _, c :: l =>
    if decide (c = dot) then
      match strip_bytes (up_rev ++ [dot]) l with
      | Some mid => Some ("up", mid)
      | None =>
        match strip_bytes (down_rev ++ [dot]) l with
        | Some mid => Some ("down", mid)
        | None => None
        end
      end
    else None
  end.

(** [migrationFileName.FindStringSubmatch]: the version digits and the
    direction. *)
Definition migrationFileName (name : string) : option (string * string) :=
  let '(ds, rest) := span_bytes digit_byte (bytes name) in
  match ds, rest with
  | [], _ | _, [] => None
  | _, c :: rest =>
    if decide (c = underscore) then
      match parse_tail (reverse rest) with
      | Some (dir, mid) =>
        if negb (bool_decide (mid = [])) && negb (existsb newline_byte mid)
        then Some (of_bytes ds, dir) else None
      | None => None
      end
    else None
  end.

(** [migrationLikeName.MatchString]. *)
Definition migrationLikeName (name : string) : bool :=
  bool_decide (is_Some (parse_tail (reverse (bytes name)))).

(** ** The inventory of a directory *)

(** The entries [openSource] exposes to the source driver. *)
Definition is_migration (e : DirEntry) : bool :=
  negb (IsDir e) && bool_decide (is_Some (migrationFileName (Name e))).

(** The (version, direction) an entry claims: [fmt.Sprintf("%d.%s", ...)], or
    nothing when the version does not fit an [uint64]. *)
Definition claim_key (name : string) : option (Z * string) :=
  '(digits, dir) ← migrationFileName name;
  v ← parse_uint 64 digits;
  Some (v, dir).

Definition check_conflict (claimed : gmap (Z * string) string) (e : DirEntry) :
    result (gmap (Z * string) string) :=
  match claim_key (Name e) with
  | None => Ok claimed
  | Some key =>
    match claimed !! key with
    | Some first =>
      Err (ENew "migration version %d has two %s files: %q and %q" [key.2; first; Name e])
    | None => Ok (<[key := Name e]> claimed)
    end
  end.

Definition checkConflicts (migrations : list DirEntry) : result unit :=
  _ ← fold_result check_conflict ∅ migrations; Ok tt.

Section directory.
Context {fs : FileSystem}.

(** [openSource]: the snapshot handed to the source driver. *)
Definition openSource (dir : string) : result (list DirEntry) :=
  entries ← ReadDir dir;
  let migrations := filter is_migration entries in
  _ ← checkConflicts migrations;
  Ok migrations.

Definition count_entry (dir : string) (up : Z) (e : DirEntry) : result Z :=
  if IsDir e then Ok up
  else match migrationFileName (Name e) with
  | None =>
    if migrationLikeName (Name e)
    then Err (ENew "migration file %s is ignored by the migration engine: name it <version>_<title>.up.sql or <version>_<title>.down.sql" [path_join [dir; Name e]])
    else Ok up
  | Some (_, d) => Ok (if bool_decide (d = "up") then up + 1 else up)
  end.

Definition countMigrations (dir : string) : result Z :=
  entries ← wrap_err "cannot read migration directory %s: %w" [dir] (ReadDir dir);
  fold_result (count_entry dir) 0 entries.
End directory.

(** ** Hot reload's view of one file name *)

Record migrationFile := { mf_version : Z; mf_forward : bool }.

Definition parseMigrationFile (name : string) : option migrationFile :=
  '(digits, dir) ← migrationFileName name;
  v ← parse_uint 64 digits;
  Some {| mf_version := v; mf_forward := bool_decide (dir = "up") |}.

(** ** The pattern as a relation *)

Definition direction (d : string) : Prop := d = "up" ∨ d = "down".

(** [name] decomposes the way the regular expression reads it. *)
Definition conventional (name d mid dir ext : string) : Prop :=
  name = d +:+ "_" +:+ mid +:+ "." +:+ dir +:+ "." +:+ ext ∧
  (d ≠ "" ∧ all_bytes digit_byte d = true) ∧
  (mid ≠ "" ∧ all_bytes (λ c, negb (newline_byte c)) mid = true) ∧
  direction dir ∧
  (ext ≠ "" ∧ all_bytes alnum_byte ext = true).

Lemma dot_not_alnum : alnum_byte dot = false. Proof. by vm_compute. Qed.
Lemma underscore_not_digit : digit_byte underscore = false. Proof. by vm_compute. Qed.

Lemma parse_tail_spec l dir mid :
  parse_tail l = Some (dir, mid) ↔
  direction dir ∧ ∃ ext, ext ≠ [] ∧ forallb alnum_byte ext = true ∧
    l = ext ++ dot :: reverse (bytes dir) ++ dot :: mid.
Proof.
  unfold parse_tail. split.
  - pose proof (span_bytes_app alnum_byte l) as Hl.
    pose proof (span_bytes_all alnum_byte l) as Ha.
    destruct (span_bytes alnum_byte l) as [[|x ext] [|c rest]]; simpl in Hl, Ha; try done.
    case_decide as Hc; [subst c|done].
    destruct (strip_bytes (up_rev ++ [dot]) rest) eqn:Eu.
    { intros [= <- <-]. split; [by left|]. exists (x :: ext). split_and!; try done.
      apply strip_bytes_spec in Eu. rewrite Hl, Eu, <-app_assoc. done. }
    destruct (strip_bytes (down_rev ++ [dot]) rest) eqn:Ed; [|done].
    intros [= <- <-]. split; [by right|]. exists (x :: ext). split_and!; try done.
    apply strip_bytes_spec in Ed. rewrite Hl, Ed, <-app_assoc. done.
  - intros (Hdir & ext & Hne & Hall & ->).
    rewrite (span_bytes_stop _ _ _ _ Hall dot_not_alnum).
    destruct ext as [|x ext]; [done|]. rewrite decide_True by done.
    destruct Hdir as [-> | ->].
    + change (reverse (bytes "up") ++ dot :: mid) with (up_rev ++ [dot] ++ mid).
      by rewrite app_assoc, strip_bytes_app.
    + change (reverse (bytes "down") ++ dot :: mid) with (down_rev ++ [dot] ++ mid).
      rewrite app_assoc, strip_bytes_app. by vm_compute.
Qed.

Lemma existsb_reverse {A} (f : A → bool) l : existsb f (reverse l) = existsb f l.
Proof.
  induction l as [|x l IH]; [done|].
  rewrite reverse_cons, existsb_app, IH. simpl. by rewrite orb_false_r, orb_comm.
Qed.
Lemma forallb_reverse {A} (f : A → bool) l : forallb f (reverse l) = forallb f l.
Proof.
  induction l as [|x l IH]; [done|].
  rewrite reverse_cons, forallb_app, IH. simpl. by rewrite andb_true_r, andb_comm.
Qed.
Lemma existsb_forallb_negb {A} (f : A → bool) l :
  existsb f l = negb (forallb (λ x, negb (f x)) l).
Proof. induction l as [|x l IH]; simpl; [done|]. rewrite IH. by destruct (f x). Qed.
Lemma reverse_nil_iff {A} (l : list A) : reverse l = [] ↔ l = [].
Proof.
  split; [|by intros ->]. intros H. by rewrite <-(reverse_involutive l), H.
Qed.

Lemma migrationFileName_complete name d mid dir ext :
  conventional name d mid dir ext → migrationFileName name = Some (d, dir).
Proof.
  intros (-> & [Hd Hdd] & [Hm Hmm] & Hdir & [He Hee]).
  unfold migrationFileName, all_bytes in *. rewrite !bytes_app.
  change (bytes "_" ++ ?l) with (underscore :: l).
  rewrite (span_bytes_stop _ _ _ _ Hdd underscore_not_digit).
  destruct (bytes d) as [|x ds] eqn:Ed; [by apply bytes_nil in Ed|].
  rewrite decide_True by done. rewrite <-Ed, of_bytes_bytes.
  rewrite (proj2 (parse_tail_spec _ dir (reverse (bytes mid)))).
  - rewrite existsb_reverse, existsb_forallb_negb, Hmm.
    rewrite bool_decide_eq_false_2; [done|].
    by rewrite reverse_nil_iff, bytes_nil.
  - split; [done|]. exists (reverse (bytes ext)). split_and!.
    + by rewrite reverse_nil_iff, bytes_nil.
    + by rewrite forallb_reverse.
    + apply (inj reverse). rewrite !reverse_involutive.
      rewrite !reverse_app, !reverse_cons, !reverse_app, !reverse_cons, !reverse_involutive.
      by rewrite <-!app_assoc.
Qed.

Lemma migrationFileName_sound name d dir :
  migrationFileName name = Some (d, dir) → ∃ mid ext, conventional name d mid dir ext.
Proof.
  unfold migrationFileName.
  pose proof (span_bytes_app digit_byte (bytes name)) as Hl.
  pose proof (span_bytes_all digit_byte (bytes name)) as Ha.
  destruct (span_bytes digit_byte (bytes name)) as [[|x ds] [|c rest]]; simpl in Hl, Ha; try done.
  case_decide as Hc; [subst c|done].
  destruct (parse_tail (reverse rest)) as [[dir' mid]|] eqn:Et; [|done].
  case_match eqn:Em; [|done]. intros [= <- <-].
  apply parse_tail_spec in Et as (Hdir & ext & Hne & Hall & Hr).
  apply andb_true_iff in Em as [Hm1%negb_true_iff Hm2%negb_true_iff].
  apply bool_decide_eq_false in Hm1.
  exists (of_bytes (reverse mid)), (of_bytes (reverse ext)).
  unfold conventional, all_bytes. rewrite !bytes_of_bytes.
  assert (rest = reverse mid ++ dot :: bytes dir' ++ dot :: reverse ext) as ->.
  { apply (inj reverse). rewrite Hr.
    rewrite reverse_app, reverse_cons, reverse_app, reverse_cons, !reverse_involutive.
    by rewrite <-!app_assoc. }
  rewrite !forallb_reverse. split_and!; try done.
  - apply (inj bytes). rewrite Hl. by autorewrite with golib.
  - intros H%bytes_nil. by rewrite bytes_of_bytes, reverse_nil_iff in H.
  - rewrite existsb_forallb_negb in Hm2. by apply negb_false_iff in Hm2.
  - intros H%bytes_nil. by rewrite bytes_of_bytes, reverse_nil_iff in H.
Qed.

(** The matcher accepts exactly the names of the conventional shape, and the
    version digits and direction it captures are the only ones the shape
    admits. *)
Theorem migrationFileName_correct name :
  (∀ d dir, migrationFileName name = Some (d, dir) ↔
     ∃ mid ext, conventional name d mid dir ext) ∧
  (∀ d mid dir ext d' mid' dir' ext',
     conventional name d mid dir ext → conventional name d' mid' dir' ext' →
     d = d' ∧ dir = dir').
Proof.
  split.
  - intros d dir. split; [apply migrationFileName_sound|].
    intros (mid & ext & H). by eapply migrationFileName_complete.
  - intros * H1%migrationFileName_complete H2%migrationFileName_complete. naive_solver.
Qed.

Lemma migrationFileName_correct_witness :
  (∃ mid ext, conventional "0012_add.index.up.sql" "0012" mid "up" ext) ∧
  migrationFileName "0012_add.index.up.sql~" = None.
Proof.
  split; [|vm_compute; reflexivity].
  apply (proj1 (migrationFileName_correct "0012_add.index.up.sql") "0012" "up").
  vm_compute. reflexivity.
Defined.

(** ** Conflicts *)

Definition keys (es : list DirEntry) : list (Z * string) :=
  omap (λ e, claim_key (Name e)) es.

Lemma keys_cons e es :
  keys (e :: es) = match claim_key (Name e) with Some k => k :: keys es | None => keys es end.
Proof. unfold keys. simpl. by destruct (claim_key (Name e)). Qed.

Lemma check_conflicts_from m es :
  is_ok (fold_result check_conflict m es) = true ↔
  NoDup (keys es) ∧ Forall (λ k, m !! k = None) (keys es).
Proof.
  revert m. induction es as [|e es IH]; intros m; [|rewrite keys_cons].
  { split; [|done]. by repeat constructor. }
  cbn [fold_result]. set (c := check_conflict m e). unfold check_conflict in c. subst c.
  destruct (claim_key (Name e)) as [key|] eqn:Ek; simpl; [|apply IH].
  rewrite NoDup_cons, Forall_cons.
  destruct (m !! key) eqn:Em; simpl; [naive_solver|].
  rewrite IH, !Forall_forall. split.
  - intros [Hnd Hall]. split_and!; try done.
    + intros Hin%Hall. by simplify_map_eq.
    + intros k Hin. specialize (Hall k Hin). by apply lookup_insert_None in Hall as [? _].
  - intros [[Hnotin Hnd] [_ Hall]]. split; [done|]. intros k Hin.
    rewrite lookup_insert_ne; [by apply Hall|]. by intros ->.
Qed.

Lemma checkConflicts_ok es : checkConflicts es = Ok tt ↔ NoDup (keys es).
Proof.
  pose proof (check_conflicts_from ∅ es) as H. unfold checkConflicts.
  assert (Hn : Forall (λ k, (∅ : gmap (Z * string) string) !! k = None) (keys es)).
  { apply Forall_true. intros. apply lookup_empty. }
  destruct (fold_result _ _ _); simpl in *; naive_solver.
Qed.

(** The error branch: what is reported is a real collision of two entries. *)
Lemma check_conflict_err m e x :
  check_conflict m e = Err x → ∃ k, claim_key (Name e) = Some k ∧ is_Some (m !! k).
Proof. unfold check_conflict. repeat case_match; naive_solver. Qed.

(** ** Counting *)

Definition is_up (e : DirEntry) : bool :=
  negb (IsDir e) &&
  match migrationFileName (Name e) with Some (_, d) => bool_decide (d = "up") | None => false end.

(** A file that claims to be a migration but carries no version. *)
Definition unversioned (e : DirEntry) : bool :=
  negb (IsDir e) && negb (bool_decide (is_Some (migrationFileName (Name e))))
  && migrationLikeName (Name e).

Lemma count_entry_ok dir up e n :
  count_entry dir up e = Ok n ↔
  unversioned e = false ∧ n = if is_up e then up + 1 else up.
Proof.
  unfold count_entry, unversioned, is_up.
  destruct (IsDir e); simpl; [naive_solver|].
  destruct (migrationFileName (Name e)) as [[d' d]|]; simpl.
  - destruct (bool_decide _); naive_solver.
  -
    destruct (migrationLikeName _); naive_solver.
Qed.

Lemma count_fold_ok dir es up n :
  fold_result (count_entry dir) up es = Ok n ↔
  Forall (λ e, unversioned e = false) es ∧
  n = up + Z.of_nat (length (filter is_up es)).
Proof.
  revert up. induction es as [|e es IH]; intros up; cbn [fold_result].
  { split; [intros [= <-]; split; [constructor|]|intros [_ ->]; f_equal]; simpl; lia. }
  rewrite bind_ok, Forall_cons, filter_cons. split.
  - intros (m & [Hu ->]%count_entry_ok & [Hall ->]%IH). split_and!; try done.
    destruct (is_up e); simpl; lia.
  - intros [[Hu Hall] ->]. eexists. rewrite count_entry_ok, IH. split_and!; try done.
    destruct (is_up e); simpl; lia.
Qed.

Section directory_facts.
Context {fs : FileSystem}.

Lemma countMigrations_ok dir n :
  countMigrations dir = Ok n ↔
  ∃ es, ReadDir dir = Ok es ∧ Forall (λ e, unversioned e = false) es ∧
        n = Z.of_nat (length (filter is_up es)).
Proof.
  unfold countMigrations. rewrite bind_ok. setoid_rewrite wrap_err_ok.
  setoid_rewrite count_fold_ok. simpl. naive_solver.
Qed.

Lemma openSource_ok dir ms :
  openSource dir = Ok ms ↔
  ∃ es, ReadDir dir = Ok es ∧ ms = filter is_migration es ∧ NoDup (keys ms).
Proof.
  unfold openSource. split.
  - intros H. res_inv. eexists. split_and!; [done..|]. by apply checkConflicts_ok.
  - intros (es & -> & -> & Hnd%checkConflicts_ok). simpl. by rewrite Hnd.
Qed.

Lemma is_up_is_migration e : is_up e = true → is_migration e = true.
Proof.
  unfold is_up, is_migration. destruct (IsDir e); simpl; [done|].
  destruct (migrationFileName _); [|done]. intros _. by apply bool_decide_eq_true_2.
Qed.

Lemma filter_up_migrations (es : list DirEntry) :
  filter is_up (filter is_migration es) = filter is_up es.
Proof.
  induction es as [|e es IH]; [done|]. rewrite !filter_cons.
  pose proof (is_up_is_migration e).
  destruct (is_migration e) eqn:Em; simpl; rewrite ?filter_cons;
    destruct (is_up e) eqn:Eu; simpl; rewrite ?IH; naive_solver.
Qed.

(** On one listing, the driver's view and the resolution's count agree: the
    exposed entries are exactly the regular-name migrations, pairwise distinct
    in version and direction, the count is the number of forward ones among
    them, and no entry that claims to be a migration is hidden from both. *)
Theorem count_agrees_with_source dir n ms :
  countMigrations dir = Ok n → openSource dir = Ok ms →
  n = Z.of_nat (length (filter is_up ms)) ∧
  NoDup (keys ms) ∧
  ∃ es, ReadDir dir = Ok es ∧
    ∀ e, e ∈ es → IsDir e = false →
      (e ∈ ms ↔ is_Some (migrationFileName (Name e))) ∧
      (e ∉ ms → migrationLikeName (Name e) = false).
Proof.
  intros (es & Hes & Hall & ->)%countMigrations_ok (es' & Hes' & -> & Hnd)%openSource_ok.
  rewrite Hes in Hes'. injection Hes' as <-.
  rewrite filter_up_migrations. split_and!; try done.
  exists es. split; [done|]. intros e Hin Hdir.
  rewrite Forall_forall in Hall. specialize (Hall e Hin).
  unfold unversioned in Hall. rewrite Hdir in Hall. simpl in Hall.
  assert (Hiff : e ∈ filter is_migration es ↔ is_Some (migrationFileName (Name e))).
  { rewrite list_elem_of_filter. unfold is_migration. rewrite Hdir. simpl.
    rewrite Is_true_true, bool_decide_eq_true. naive_solver. }
  split; [done|]. rewrite Hiff. intros Hno.
  rewrite bool_decide_eq_false_2 in Hall; done.
Qed.

(** Hot reload and the source driver recognise the same files: a name parses
    for hot reload exactly when it claims a (version, direction), with the same
    version below [2^64] and the same direction. *)
Theorem parseMigrationFile_agrees name :
  (∀ m, parseMigrationFile name = Some m ↔
     ∃ dir, claim_key name = Some (mf_version m, dir) ∧ mf_forward m = bool_decide (dir = "up")) ∧
  (∀ m, parseMigrationFile name = Some m →
     0 ≤ mf_version m < 2 ^ 64 ∧ is_Some (migrationFileName name)).
Proof.
  unfold parseMigrationFile, claim_key.
  destruct (migrationFileName name) as [[ds dir]|] eqn:Em; simpl; [|naive_solver].
  destruct (parse_uint 64 ds) as [v|] eqn:Ev; simpl; [|naive_solver].
  split; [intros [v' f]; naive_solver|].
  intros m [= <-]. simpl. split; [|eauto].
  by apply parse_uint_range in Ev.
Qed.
End directory_facts.

Definition example_fs : FileSystem :=
  table_fs [("/m", [file "1_init.down.sql"; file "1_init.up.sql";
                    file "2_add.up.sql"; file "2_add.up.sql~"; file "README.md"]);
            ("/big", [file "99999999999999999999_late.up.sql"])].

Lemma count_agrees_with_source_witness :
  countMigrations (fs := example_fs) "/m" = Ok 2 ∧
  ∃ ms, openSource (fs := example_fs) "/m" = Ok ms ∧ NoDup (keys ms).
Proof.
  split; [vm_compute; reflexivity|].
  exists [file "1_init.down.sql"; file "1_init.up.sql"; file "2_add.up.sql"].
  split; [vm_compute; reflexivity|].
  apply (count_agrees_with_source (fs := example_fs) "/m" 2); vm_compute; reflexivity.
Defined.

Lemma parseMigrationFile_agrees_witness :
  parseMigrationFile "7_x.up.sql" = Some {| mf_version := 7; mf_forward := true |} ∧
  0 ≤ 7 < 2 ^ 64.
Proof.
  split; [vm_compute; reflexivity|].
  apply (proj2 (parseMigrationFile_agrees "7_x.up.sql")
           {| mf_version := 7; mf_forward := true |}).
  vm_compute. reflexivity.
Defined.

(** The count is not what gets applied when a version does not fit an
    [uint64]: the directory counts as holding one forward migration, so its
    lineage is kept for application, while neither the conflict check nor any
    parser of 64-bit versions sees a migration in what is exposed. *)
Theorem count_exceeds_parseable :
  countMigrations (fs := example_fs) "/big" = Ok 1 ∧
  ∃ ms, openSource (fs := example_fs) "/big" = Ok ms ∧ keys ms = [] ∧
        Forall (λ e, parseMigrationFile (Name e) = None) ms.
Proof.
  split; [vm_compute; reflexivity|].
  exists [file "99999999999999999999_late.up.sql"].
  split; [vm_compute; reflexivity|]. split; [vm_compute; reflexivity|].
  constructor; [vm_compute; reflexivity|constructor].
Qed.

#[global] Arguments migrationFileName : simpl never.
#[global] Arguments migrationLikeName : simpl never.
#[global] Arguments claim_key : simpl never.
