(* ===== verification/MigrationInventory.v ===== *)
(** The migration lineages a service tests ([libs/go/migrationtest/inventory.go]):
    the inventory of a directory, and applying its migrations up and down, each in a
    transaction of its own. *)
From stdpp Require Import sorting.
From S2P Require Import Prelude GoStrings Settings MigrationFiles.

Record Migration := { M_Version : Z; M_Name : string; UpSQL : string; DownSQL : string }.

(** ** The inventory *)

(** [^([0-9]+)_(.+)\.(up|down)\.sql$]: the digits, the title and the direction. *)
Definition migrationFilename (name : string) : option (string * string * string) :=
  let '(ds, rest) := span_bytes digit_byte (bytes name) in
  match ds, rest with
  | [], _ | _, [] => None
  | _, c :: rest =>
    if decide (c = underscore) then
      let titled direction :=
        match strip_bytes (reverse (bytes ("." +:+ direction +:+ ".sql"))) (reverse rest) with
        | Some title => if negb (bool_decide (title = [])) && negb (existsb newline_byte title)
                        then Some (of_bytes ds, of_bytes (reverse title), direction) else None
        | None => None
        end in
      match titled "up" with Some r => Some r | None => titled "down" end
    else None
  end.

(** [strconv.Atoi] of decimal digits. *)
Definition Atoi (digits : string) : result Z :=
  match parse_uint 63 digits with
  | Some v => Ok v
  | None => Err (ENew "strconv.Atoi: parsing %q: value out of range" [digits])
  end.

Record partial := {
  pt_version : Z;
  pt_name : string;
  pt_UpSQL : string;
  pt_DownSQL : string;
  pt_upFile : string;
  pt_downFile : string;
}.
Definition new_partial (version : Z) (name : string) : partial :=
  {| pt_version := version; pt_name := name; pt_UpSQL := ""; pt_DownSQL := ""; pt_upFile := ""; pt_downFile := "" |}.
Definition set_up (file body : string) (p : partial) : partial :=
  {| pt_version := pt_version p; pt_name := pt_name p; pt_UpSQL := body; pt_DownSQL := pt_DownSQL p;
     pt_upFile := file; pt_downFile := pt_downFile p |}.
Definition set_down (file body : string) (p : partial) : partial :=
  {| pt_version := pt_version p; pt_name := pt_name p; pt_UpSQL := pt_UpSQL p; pt_DownSQL := body;
     pt_upFile := pt_upFile p; pt_downFile := file |}.
Definition migration_of (p : partial) : Migration :=
  {| M_Version := pt_version p; M_Name := pt_name p; UpSQL := pt_UpSQL p; DownSQL := pt_DownSQL p |}.

(** The entries that are read at all. *)
Definition sql_entry (e : DirEntry) : bool := negb (IsDir e) && has_suffix (Name e) ".sql".

Section load.
Context {fs : FileSystem} (ReadFile : string → result string).

Definition load_entry (directory : string) (byVersion : gmap Z partial) (e : DirEntry) : result (gmap Z partial) :=
  if negb (sql_entry e) then Ok byVersion
  else match migrationFilename (Name e) with
  | None => Err (ENew "invalid migration filename %q" [Name e])
  | Some (digits, name, direction) =>
    version ← wrap_err "parse migration version in %q: %w" [Name e] (Atoi digits);
    _ ← guard_err (version <? 1) (ENew "migration version in %q must be positive" [Name e]);
    candidate ←
      match byVersion !! version with
      | None => Ok (new_partial version name)
      | Some candidate =>
        _ ← guard_err (bool_decide (pt_name candidate ≠ name))
              (ENew "migration %d direction names differ: %q and %q" [pt_name candidate; name]);
        Ok candidate
      end;
    body ← wrap_err "read migration %q: %w" [Name e] (ReadFile (path_join [directory; Name e]));
    _ ← guard_err (blank body) (ENew "migration %q is empty" [Name e]);
    if bool_decide (direction = "up") then
      _ ← guard_err (bool_decide (pt_upFile candidate ≠ ""))
            (ENew "migration %d has duplicate up files %q and %q" [pt_upFile candidate; Name e]);
      Ok (<[version := set_up (Name e) body candidate]> byVersion)
    else
      _ ← guard_err (bool_decide (pt_downFile candidate ≠ ""))
            (ENew "migration %d has duplicate down files %q and %q" [pt_downFile candidate; Name e]);
      Ok (<[version := set_down (Name e) body candidate]> byVersion)
  end.

(** [want] is the version the inventory needs next. *)
Fixpoint assemble (byVersion : gmap Z partial) (want : Z) (versions : list Z) : result (list Migration) :=
  match versions with
  | [] => Ok []
  | version :: versions =>
    _ ← guard_err (bool_decide (version ≠ want))
          (ENew "migration inventory is not contiguous: found version %d, want %d" [itoa_nat version; itoa_nat want]);
    match byVersion !! version with
    | None => Err (ENew "runtime error: invalid memory address or nil pointer dereference" [])
    | Some candidate =>
      _ ← guard_err (bool_decide (pt_upFile candidate = "") || bool_decide (pt_downFile candidate = ""))
            (ENew "migration %d %q requires both up and down files" [pt_name candidate]);
      rest ← assemble byVersion (want + 1) versions;
      Ok (migration_of candidate :: rest)
    end
  end.

Definition LoadDirectory (directory : string) : result (list Migration) :=
  let directory := trim_space directory in
  _ ← guard_err (bool_decide (directory = "")) (ENew "migration directory is required" []);
  entries ← wrap_err "read migration directory %q: %w" [directory] (ReadDir directory);
  byVersion ← fold_result (load_entry directory) ∅ entries;
  _ ← guard_err (bool_decide (byVersion = ∅)) (ENew "migration directory %q contains no migrations" [directory]);
  assemble byVersion 1 (merge_sort Z.le (elements (dom byVersion))).
End load.

(** ** The file name *)

Definition title_ok (title : string) : Prop :=
  title ≠ "" ∧ all_bytes (λ c, negb (newline_byte c)) title = true.
Definition digits_ok (digits : string) : Prop := digits ≠ "" ∧ all_bytes digit_byte digits = true.

(** The text of a name, as the pattern reads it. *)
Definition written_name (digits title direction : string) : string :=
  digits +:+ "_" +:+ title +:+ "." +:+ direction +:+ ".sql".

Lemma titled_spec (rest : list ascii) direction title :
  strip_bytes (reverse (bytes ("." +:+ direction +:+ ".sql"))) (reverse rest) = Some title ↔
  rest = reverse title ++ bytes ("." +:+ direction +:+ ".sql").
Proof.
  rewrite strip_bytes_spec. split; intros H.
  - apply (f_equal reverse) in H. by rewrite reverse_involutive, reverse_app, reverse_involutive in H.
  - by rewrite H, reverse_app, reverse_involutive.
Qed.

Lemma title_reversed (t : list ascii) :
  negb (bool_decide (t = [])) && negb (existsb newline_byte t) = true ↔ title_ok (of_bytes (reverse t)).
Proof.
  unfold title_ok, all_bytes. rewrite bytes_of_bytes, forallb_reverse, existsb_forallb_negb, negb_involutive,
    andb_true_iff, negb_true_iff, bool_decide_eq_false.
  split; intros [H1 H2]; (split; [|done]); contradict H1.
  - apply bytes_nil in H1. rewrite bytes_of_bytes in H1. exact (proj1 (reverse_nil_iff t) H1).
  - by subst t.
Qed.

Lemma migrationFilename_sound name digits title direction :
  migrationFilename name = Some (digits, title, direction) →
  name = written_name digits title direction ∧ digits_ok digits ∧ title_ok title ∧ (direction = "up" ∨ direction = "down").
Proof.
  unfold migrationFilename.
  pose proof (span_bytes_app digit_byte (bytes name)) as Hl.
  pose proof (span_bytes_all digit_byte (bytes name)) as Ha.
  destruct (span_bytes digit_byte (bytes name)) as [[|x ds] [|c rest]]; simpl in Hl, Ha; try done.
  case_decide as Hc; [subst c|done]. intros H.
  assert (Ht : ∃ t, strip_bytes (reverse (bytes ("." +:+ direction +:+ ".sql"))) (reverse rest) = Some t ∧
                    title_ok (of_bytes (reverse t)) ∧ title = of_bytes (reverse t) ∧ digits = of_bytes (x :: ds) ∧
                    (direction = "up" ∨ direction = "down")).
  { destruct (strip_bytes (reverse (bytes ("." +:+ "up" +:+ ".sql"))) (reverse rest)) as [t|] eqn:Eu;
      [destruct (negb (bool_decide (t = [])) && negb (existsb newline_byte t)) eqn:Ek|].
    - injection H as <- <- <-. exists t. apply title_reversed in Ek. split_and!; auto.
    - destruct (strip_bytes (reverse (bytes ("." +:+ "down" +:+ ".sql"))) (reverse rest)) as [t'|] eqn:Ed; [|done].
      destruct (negb (bool_decide (t' = [])) && negb (existsb newline_byte t')) eqn:Ek'; [|done].
      injection H as <- <- <-. exists t'. apply title_reversed in Ek'. split_and!; auto.
    - destruct (strip_bytes (reverse (bytes ("." +:+ "down" +:+ ".sql"))) (reverse rest)) as [t'|] eqn:Ed; [|done].
      destruct (negb (bool_decide (t' = [])) && negb (existsb newline_byte t')) eqn:Ek'; [|done].
      injection H as <- <- <-. exists t'. apply title_reversed in Ek'. split_and!; auto. }
  destruct Ht as (t & Hs%titled_spec & Hk & -> & -> & Hd). split_and!; [|split|done|done].
  - apply (inj bytes). rewrite Hl, Hs. unfold written_name. rewrite !bytes_app, !bytes_of_bytes. done.
  - intros E%(f_equal bytes). by rewrite bytes_of_bytes in E.
  - unfold all_bytes. by rewrite bytes_of_bytes.
Qed.

(** The two suffixes exclude one another. *)
Lemma directions_apart (t t' : list ascii) :
  t ++ bytes ("." +:+ "up" +:+ ".sql") ≠ t' ++ bytes ("." +:+ "down" +:+ ".sql").
Proof.
  intros E%(f_equal reverse). rewrite !reverse_app in E. cbn in E. discriminate E.
Qed.

Lemma migrationFilename_complete digits title direction : digits_ok digits → title_ok title →
  direction = "up" ∨ direction = "down" →
  migrationFilename (written_name digits title direction) = Some (digits, title, direction).
Proof.
  intros [Hn Hd] Ht Hdir. unfold migrationFilename, written_name, all_bytes in *. rewrite !(bytes_app digits), (bytes_app "_").
  change (bytes "_" ++ ?l) with (underscore :: l).
  rewrite (span_bytes_stop _ _ _ _ Hd underscore_not_digit).
  destruct (bytes digits) as [|x ds] eqn:Ed; [by apply bytes_nil in Ed|].
  rewrite decide_True by done. rewrite <-Ed, of_bytes_bytes, (bytes_app title). cbv zeta beta.
  assert (Hk : title_ok (of_bytes (reverse (reverse (bytes title))))) by by rewrite reverse_involutive, of_bytes_bytes.
  apply title_reversed in Hk.
  assert (Hs : strip_bytes (reverse (bytes ("." +:+ direction +:+ ".sql")))
                 (reverse (bytes title ++ bytes ("." +:+ direction +:+ ".sql"))) = Some (reverse (bytes title))).
  { apply titled_spec. by rewrite reverse_involutive. }
  destruct Hdir as [-> | ->].
  - rewrite Hs, Hk. by rewrite reverse_involutive, of_bytes_bytes.
  - destruct (strip_bytes (reverse (bytes ("." +:+ "up" +:+ ".sql"))) _) as [t|] eqn:Eu.
    + exfalso. apply titled_spec in Eu. by apply (directions_apart (reverse t) (bytes title)).
    + rewrite Hs, Hk. by rewrite reverse_involutive, of_bytes_bytes.
Qed.

Lemma migrationFilename_spec name digits title direction :
  migrationFilename name = Some (digits, title, direction) ↔
  name = written_name digits title direction ∧ digits_ok digits ∧ title_ok title ∧ (direction = "up" ∨ direction = "down").
Proof.
  split; [apply migrationFilename_sound|]. intros (-> & ? & ? & ?). by apply migrationFilename_complete.
Qed.

(** ** The inventory is exactly the directory's files *)

Record lineage_file := { lf_version : Z; lf_name : string; lf_up : bool; lf_body : string }.
Definition direction_of (up : bool) : string := if up then "up" else "down".

(** The two files of a migration. *)
Definition both (m : Migration) : list lineage_file :=
  [{| lf_version := M_Version m; lf_name := M_Name m; lf_up := true; lf_body := UpSQL m |};
   {| lf_version := M_Version m; lf_name := M_Name m; lf_up := false; lf_body := DownSQL m |}].

Section exact.
Context {fs : FileSystem} (ReadFile : string → result string) (directory : string).

(** An entry of the directory is the file [f]: its name says so, and it has a body. *)
Definition file_of (e : DirEntry) (f : lineage_file) : Prop :=
  ∃ digits, Name e = written_name digits (lf_name f) (direction_of (lf_up f)) ∧
    digits_ok digits ∧ title_ok (lf_name f) ∧ lf_version f = digits_value (bytes digits) ∧
    1 ≤ lf_version f < 2 ^ 63 ∧
    ReadFile (path_join [directory; Name e]) = Ok (lf_body f) ∧ blank (lf_body f) = false.

Definition slot (up : bool) (p : partial) : string := if up then pt_upFile p else pt_downFile p.
Definition sql (up : bool) (p : partial) : string := if up then pt_UpSQL p else pt_DownSQL p.
Definition filled (up : bool) (file body : string) (p : partial) : partial :=
  if up then set_up file body p else set_down file body p.

(** The file a version's slot holds. *)
Definition held (up : bool) (p : partial) : list lineage_file :=
  if bool_decide (slot up p = "") then []
  else [{| lf_version := pt_version p; lf_name := pt_name p; lf_up := up; lf_body := sql up p |}].
Definition contents (p : partial) : list lineage_file := held true p ++ held false p.

Definition candidate_of (m : gmap Z partial) (f : lineage_file) : partial :=
  default (new_partial (lf_version f) (lf_name f)) (m !! lf_version f).

Lemma Atoi_ok digits v : digits_ok digits → Atoi digits = Ok v ↔ v = digits_value (bytes digits) ∧ v < 2 ^ 63.
Proof.
  intros [Hn Hd]. unfold Atoi. destruct (parse_uint 63 digits) as [v'|] eqn:E.
  - apply parse_uint_ok in E as (_ & _ & -> & ?). split; [by intros [= <-]|by intros [-> _]].
  - split; [done|]. intros [-> Hv]. exfalso. apply eq_None_ne_Some_1 with (x := digits_value (bytes digits)) in E.
    apply E, parse_uint_ok. done.
Qed.

Lemma file_name_nonempty e f : file_of e f → Name e ≠ "".
Proof.
  intros (digits & -> & [Hn _] & _) E. apply Hn, bytes_nil. apply (f_equal bytes) in E. unfold written_name in E.
  rewrite bytes_app in E. by apply app_eq_nil in E as [E _].
Qed.

Lemma direction_of_inj a b : direction_of a = direction_of b → a = b.
Proof. by destruct a, b. Qed.

(** One step of the loop: the file joins the version's candidate, whose name it bears
    and whose slot for it is free. *)
Lemma load_entry_ok m e m' : sql_entry e = true →
  load_entry ReadFile directory m e = Ok m' ↔
  ∃ f, file_of e f ∧ pt_name (candidate_of m f) = lf_name f ∧ slot (lf_up f) (candidate_of m f) = "" ∧
    m' = <[lf_version f := filled (lf_up f) (Name e) (lf_body f) (candidate_of m f)]> m.
Proof.
  intros He. unfold load_entry. rewrite He. cbn [negb]. split.
  - destruct (migrationFilename (Name e)) as [[[digits title] direction]|] eqn:En; [|done].
    apply migrationFilename_spec in En as (Hname & Hd & Ht & Hdir). intros H.
    apply bind_ok in H as (v & [-> Hv]%wrap_err_ok%(Atoi_ok _ _ Hd) & H). apply bind_ok in H as ([] & Hpos%guard_ok & H).
    apply bind_ok in H as (c & Hc & H). apply bind_ok in H as (body & Hb%wrap_err_ok & H).
    apply bind_ok in H as ([] & Hblank%guard_ok & H).
    set (f := {| lf_version := digits_value (bytes digits); lf_name := title; lf_up := bool_decide (direction = "up"); lf_body := body |}).
    assert (Hf : file_of e f).
    { exists digits. cbn. split_and!; try done; [|lia]. rewrite Hname. by destruct Hdir as [-> | ->]. }
    assert (Hcand : candidate_of m f = c ∧ pt_name c = title).
    { unfold candidate_of. cbn. destruct (m !! digits_value (bytes digits)) as [p|]; cbn.
      - apply bind_ok in Hc as ([] & Hg%guard_ok%bool_decide_eq_false & [= ->]). split; [done|]. by apply dec_stable.
      - by injection Hc as <-. }
    destruct Hcand as [Hcand Hcn]. exists f. rewrite Hcand. split; [done|]. split; [done|].
    cbn [lf_up f]. case_bool_decide; cbn [lf_version lf_body f]; apply bind_ok in H as ([] & Hg%guard_ok%bool_decide_eq_false & [= <-]);
      (split; [by apply dec_stable|done]).
  - intros (f & Hf & Hn & Hs & ->). pose proof Hf as (digits & Hname & Hd & Ht & Hv & Hr & Hb & Hblank).
    rewrite (proj2 (migrationFilename_spec _ digits (lf_name f) (direction_of (lf_up f)))).
    2:{ split_and!; try done. destruct (lf_up f); auto. }
    rewrite (proj2 (Atoi_ok digits (lf_version f) Hd)) by (split; [done|lia]). cbn [wrap_err mbind result_bind].
    rewrite (proj2 (Z.ltb_ge _ _)) by lia. cbn [guard_err mbind result_bind].
    assert (Hc : match m !! lf_version f with
                 | None => Ok (new_partial (lf_version f) (lf_name f))
                 | Some candidate => guard_err (bool_decide (pt_name candidate ≠ lf_name f))
                     (ENew "migration %d direction names differ: %q and %q" [pt_name candidate; lf_name f]) ≫= λ _, Ok candidate
                 end = Ok (candidate_of m f)).
    { unfold candidate_of in *. destruct (m !! lf_version f); [|done]. cbn in Hn |- *. by rewrite bool_decide_eq_false_2 by tauto. }
    rewrite Hc. cbn [mbind result_bind]. rewrite Hb. cbn [wrap_err mbind result_bind]. rewrite Hblank. cbn [guard_err mbind result_bind].
    destruct (lf_up f); cbn in Hs |- *; by rewrite Hs.
Qed.

(** *** What the map of candidates holds *)

Definition all_held (m : gmap Z partial) : list lineage_file := map_to_list m ≫= λ vp, contents vp.2.

Record represents (m : gmap Z partial) (files : list lineage_file) : Prop := {
  rp_files : files ≡ₚ all_held m;
  rp_version : ∀ v p, m !! v = Some p → pt_version p = v ∧ contents p ≠ [];
}.

Lemma all_held_insert m v p : all_held (<[v := p]> m) ≡ₚ contents p ++ all_held (delete v m).
Proof.
  unfold all_held. rewrite <-insert_delete_eq, map_to_list_insert by apply lookup_delete_eq. done.
Qed.
Lemma all_held_lookup m v p : m !! v = Some p → all_held m ≡ₚ contents p ++ all_held (delete v m).
Proof. intros H. rewrite <-(insert_id _ _ _ H) at 1. apply all_held_insert. Qed.

Lemma held_contents up p x : x ∈ held up p → x ∈ contents p.
Proof. unfold contents. rewrite elem_of_app. destruct up; auto. Qed.
Lemma held_elem up p x : x ∈ held up p ↔
  slot up p ≠ "" ∧ x = {| lf_version := pt_version p; lf_name := pt_name p; lf_up := up; lf_body := sql up p |}.
Proof.
  unfold held. case_bool_decide as E.
  - split; [by intros ?%elem_of_nil|by intros [? _]].
  - rewrite list_elem_of_singleton. tauto.
Qed.
Lemma contents_elem p x : x ∈ contents p → x ∈ held (lf_up x) p.
Proof. unfold contents. rewrite elem_of_app, !held_elem. intros [[? ->]|[? ->]]; by split. Qed.
Lemma all_held_elem m x : (∀ v p, m !! v = Some p → pt_version p = v) →
  x ∈ all_held m ↔ ∃ p, m !! lf_version x = Some p ∧ x ∈ held (lf_up x) p.
Proof.
  intros Hv. unfold all_held. rewrite list_elem_of_bind. split.
  - intros ([v p] & Hx & Hin%elem_of_map_to_list). cbn in Hx. exists p. pose proof (contents_elem _ _ Hx) as Hh.
    split; [|exact Hh]. apply held_elem in Hh as [_ ->]. cbn. by rewrite (Hv _ _ Hin).
  - intros (p & Hp & Hh). exists (lf_version x, p). split; [by eapply held_contents|by apply elem_of_map_to_list].
Qed.

Lemma contents_filled f file p : file ≠ "" → pt_version p = lf_version f → pt_name p = lf_name f → slot (lf_up f) p = "" →
  contents (filled (lf_up f) file (lf_body f) p) ≡ₚ f :: contents p.
Proof.
  intros Hfile Hv Hn Hs. destruct f as [v n [] b]; cbn in *; subst; unfold contents, held; cbn; rewrite Hs;
    rewrite (bool_decide_eq_false_2 (file = "")), (bool_decide_eq_true_2 ("" = "")) by done; cbn; [done|].
  rewrite app_nil_r. apply Permutation_app_comm.
Qed.

Lemma candidate_version m f : (∀ v p, m !! v = Some p → pt_version p = v) → pt_version (candidate_of m f) = lf_version f.
Proof. intros H. unfold candidate_of. destruct (m !! lf_version f) eqn:E; [by eapply H|done]. Qed.

Lemma represents_step m files f file : represents m files → file ≠ "" →
  pt_name (candidate_of m f) = lf_name f → slot (lf_up f) (candidate_of m f) = "" →
  represents (<[lf_version f := filled (lf_up f) file (lf_body f) (candidate_of m f)]> m) (files ++ [f]).
Proof.
  intros [Hp Hv] Hfile Hn Hs. assert (Hv' : ∀ v p, m !! v = Some p → pt_version p = v) by (intros; by eapply Hv).
  pose proof (contents_filled f file _ Hfile (candidate_version m f Hv') Hn Hs) as Hc. split.
  - rewrite all_held_insert, Hc, <-Permutation_cons_append. cbn. constructor. rewrite Hp.
    unfold candidate_of in *. destruct (m !! lf_version f) as [p|] eqn:E; cbn.
    + by apply all_held_lookup.
    + by rewrite delete_id.
  - intros v p [[<- <-]|[Hne Hl]]%lookup_insert_Some; [|by eapply Hv]. split.
    + rewrite <-(candidate_version m f Hv'). by destruct (lf_up f).
    + intros E. rewrite E in Hc. by apply Permutation_nil_cons in Hc.
Qed.

Lemma represents_empty : represents ∅ [].
Proof. split; [done|]. intros v p H. by rewrite lookup_empty in H. Qed.

(** The loop over the entries, forwards. *)
Lemma load_entries_sound entries m0 files0 m : represents m0 files0 →
  fold_result (load_entry ReadFile directory) m0 entries = Ok m →
  ∃ files, Forall2 file_of (filter (λ e, sql_entry e = true) entries) files ∧ represents m (files0 ++ files).
Proof.
  revert m0 files0. induction entries as [|e entries IH]; intros m0 files0 Hr H; cbn [fold_result] in H.
  { injection H as <-. exists []. rewrite app_nil_r. by split; [constructor|]. }
  apply bind_ok in H as (m1 & H1 & H). destruct (sql_entry e) eqn:Es.
  - apply (load_entry_ok _ _ _ Es) in H1 as (f & Hf & Hn & Hs & ->).
    pose proof (represents_step _ _ f (Name e) Hr (file_name_nonempty _ _ Hf) Hn Hs) as Hr'.
    destruct (IH _ _ Hr' H) as (files & Hall & Hrep). exists (f :: files). rewrite filter_cons_True by done.
    split; [by constructor|]. by rewrite <-app_assoc in Hrep.
  - unfold load_entry in H1. rewrite Es in H1. injection H1 as <-.
    destruct (IH _ _ Hr H) as (files & Hall & Hrep). exists files. rewrite filter_cons_False by by rewrite Es. by split.
Qed.

(** *** Files that make up one lineage *)

Definition slot_of (f : lineage_file) : Z * bool := (lf_version f, lf_up f).

Record coherent (files : list lineage_file) : Prop := {
  ch_slots : NoDup (slot_of <$> files);
  ch_names : ∀ f g, f ∈ files → g ∈ files → lf_version f = lf_version g → lf_name f = lf_name g;
}.

Lemma coherent_perm files files' : files ≡ₚ files' → coherent files' → coherent files.
Proof.
  intros Hp [Hn Hc]. split; [by rewrite Hp|]. intros f g. rewrite Hp. apply Hc.
Qed.

Lemma both_elem ms f : f ∈ ms ≫= both → ∃ m, m ∈ ms ∧ lf_version f = M_Version m ∧ lf_name f = M_Name m.
Proof.
  intros (m & Hf & Hm)%list_elem_of_bind. exists m. split; [done|].
  unfold both in Hf. rewrite !elem_of_cons, elem_of_nil in Hf. by destruct Hf as [->|[->|[]]].
Qed.

Lemma NoDup_versions ms : NoDup (M_Version <$> ms) → ∀ m m', m ∈ ms → m' ∈ ms → M_Version m = M_Version m' → m = m'.
Proof.
  intros Hn m m' [i Hi]%list_elem_of_lookup [j Hj]%list_elem_of_lookup E.
  assert (i = j) as ->; [|congruence]. apply (NoDup_lookup (M_Version <$> ms) i j (M_Version m)); [done| |].
  - by rewrite list_lookup_fmap, Hi.
  - by rewrite list_lookup_fmap, Hj, E.
Qed.

Lemma coherent_both ms : NoDup (M_Version <$> ms) → coherent (ms ≫= both).
Proof.
  intros Hn. split.
  - pose proof Hn as Hn'. clear Hn. induction ms as [|m ms IH]; [constructor|]. cbn in Hn' |- *.
    apply NoDup_cons in Hn' as [Hm Hn']. specialize (IH Hn').
    assert (Hout : ∀ b, (M_Version m, b) ∉ slot_of <$> (ms ≫= both)).
    { intros b (f & E & (m' & Hm' & Ev & _)%both_elem)%list_elem_of_fmap. apply Hm, list_elem_of_fmap. exists m'.
      split; [|done]. rewrite <-Ev. unfold slot_of in E. congruence. }
    constructor; [|constructor; [apply Hout|done]]. rewrite elem_of_cons. intros [[=]|Hin]. by apply (Hout true).
  - intros f g (m & Hm & Ev & En)%both_elem (m' & Hm' & Ev' & En')%both_elem E.
    rewrite En, En'. f_equal. apply (NoDup_versions ms); congruence.
Qed.

Lemma coherent_fits m files f rest : represents m files → coherent (files ++ f :: rest) →
  pt_name (candidate_of m f) = lf_name f ∧ slot (lf_up f) (candidate_of m f) = "".
Proof.
  intros [Hp Hv] [Hn Hc]. unfold candidate_of. destruct (m !! lf_version f) as [p|] eqn:E; cbn; [|by destruct (lf_up f)].
  destruct (Hv _ _ E) as [Hpv Hne].
  assert (Hin : ∀ x, x ∈ contents p → x ∈ files).
  { intros x Hx. rewrite Hp, (all_held_lookup _ _ _ E). apply elem_of_app. by left. }
  split.
  - destruct (contents p) as [|g l] eqn:Eg; [done|]. assert (Hg : g ∈ contents p) by (rewrite Eg; by left).
    pose proof (contents_elem _ _ Hg) as [_ Hge]%held_elem.
    replace (pt_name p) with (lf_name g) by by rewrite Hge.
    apply Hc; [apply elem_of_app; left; apply Hin; by left|apply elem_of_app; right; by left|]. by rewrite Hge.
  - destruct (decide (slot (lf_up f) p = "")) as [?|Hs]; [done|]. exfalso.
    set (g := {| lf_version := pt_version p; lf_name := pt_name p; lf_up := lf_up f; lf_body := sql (lf_up f) p |}).
    assert (Hg : g ∈ files) by (apply Hin, (held_contents (lf_up f)), held_elem; done).
    rewrite fmap_app, fmap_cons in Hn. apply NoDup_app in Hn as (_ & Hd & _). apply (Hd (slot_of g)).
    + by apply list_elem_of_fmap_2.
    + assert (slot_of g = slot_of f) as -> by by unfold slot_of; cbn; rewrite Hpv. by left.
Qed.

(** The loop, from the files. *)
Lemma load_entries_complete entries files m0 files0 : represents m0 files0 → coherent (files0 ++ files) →
  Forall2 file_of (filter (λ e, sql_entry e = true) entries) files →
  ∃ m, fold_result (load_entry ReadFile directory) m0 entries = Ok m ∧ represents m (files0 ++ files).
Proof.
  revert m0 files0 files. induction entries as [|e entries IH]; intros m0 files0 files Hr Hc Hall; cbn [fold_result].
  { rewrite filter_nil in Hall. inversion Hall; subst. exists m0. by rewrite app_nil_r. }
  destruct (sql_entry e) eqn:Es.
  - rewrite filter_cons_True in Hall by done. inversion Hall as [|? f ? files' Hf Hall']; subst.
    destruct (coherent_fits _ _ _ _ Hr Hc) as [Hn Hs].
    rewrite (proj2 (load_entry_ok _ _ _ Es) (ex_intro _ f (conj Hf (conj Hn (conj Hs eq_refl))))). cbn [mbind result_bind].
    change (f :: files') with ([f] ++ files') in Hc |- *. rewrite (app_assoc files0 [f] files'). apply IH; [|by rewrite <-app_assoc|done].
    apply represents_step; [done|by eapply file_name_nonempty|done..].
  - rewrite filter_cons_False in Hall by by rewrite Es.
    replace (load_entry ReadFile directory m0 e) with (@Ok (gmap Z partial) m0) by by unfold load_entry; rewrite Es.
    by apply IH.
Qed.

(** *** Assembling *)

Definition whole (m : gmap Z partial) (v : Z) (x : Migration) : Prop :=
  ∃ p, m !! v = Some p ∧ pt_upFile p ≠ "" ∧ pt_downFile p ≠ "" ∧ x = migration_of p.

Lemma assemble_ok m want versions ms : assemble m want versions = Ok ms ↔
  versions = seqZ want (Z.of_nat (length ms)) ∧ Forall2 (whole m) versions ms.
Proof.
  revert want ms. induction versions as [|v versions IH]; intros want ms; cbn [assemble].
  { split; [by intros [= <-]|]. intros [_ H]. by inversion H. }
  split.
  - intros H. apply bind_ok in H as ([] & Hg%guard_ok%bool_decide_eq_false & H).
    destruct (m !! v) as [p|] eqn:E; [|done].
    apply bind_ok in H as ([] & Hw%guard_ok & H). apply bind_ok in H as (rest & Hr & [= <-]).
    apply IH in Hr as [Hvs Hall]. apply dec_stable in Hg as ->.
    apply orb_false_iff in Hw as [H1%bool_decide_eq_false H2%bool_decide_eq_false]. split.
    + cbn [length]. rewrite seqZ_cons by lia. rewrite Hvs at 1. f_equal. f_equal; lia.
    + constructor; [by exists p|done].
  - intros [Hvs Hall]. inversion Hall as [|? x ? rest (p & E & H1 & H2 & Hx) Hrest]; subst. cbn [length] in Hvs. rewrite seqZ_cons in Hvs by lia. injection Hvs as -> Hvs.
    rewrite bool_decide_eq_false_2 by tauto. cbn [guard_err mbind result_bind]. rewrite E.
    rewrite !bool_decide_eq_false_2 by done. cbn [orb guard_err mbind result_bind].
    rewrite (proj2 (IH (want + 1) rest)); [done|]. split; [|done]. rewrite Hvs. f_equal; lia.
Qed.

Lemma contents_whole p : pt_upFile p ≠ "" → pt_downFile p ≠ "" → contents p = both (migration_of p).
Proof. intros H1 H2. unfold contents, held. cbn. by rewrite !bool_decide_eq_false_2. Qed.

Lemma dom_versions (m : gmap Z partial) : elements (dom m) ≡ₚ (map_to_list m).*1.
Proof.
  apply NoDup_Permutation; [apply NoDup_elements|apply NoDup_fst_map_to_list|]. intros v.
  rewrite elem_of_elements, elem_of_dom, list_elem_of_fmap. split.
  - intros [p Hp]. exists (v, p). split; [done|]. by apply elem_of_map_to_list.
  - intros ([v' p] & -> & Hp%elem_of_map_to_list). by exists p.
Qed.

Lemma all_held_versions m versions : versions ≡ₚ elements (dom m) →
  all_held m ≡ₚ versions ≫= λ v, default [] (contents <$> m !! v).
Proof.
  intros ->. rewrite dom_versions. unfold all_held.
  assert (H : ∀ l, (∀ vp, vp ∈ l → m !! vp.1 = Some vp.2) →
    (l ≫= λ vp : Z * partial, contents vp.2) = l.*1 ≫= λ v, default [] (contents <$> m !! v)).
  { induction l as [|[v p] l IH]; intros Hl; [done|]. cbn. pose proof (Hl (v, p) (list_elem_of_here _ _)) as Hv. cbn in Hv. rewrite Hv. cbn. f_equal.
    apply IH. intros vp Hvp. apply Hl. by right. }
  rewrite H; [done|]. intros [v p] Hvp. by apply elem_of_map_to_list in Hvp.
Qed.

Lemma whole_contents m versions ms : Forall2 (whole m) versions ms →
  (versions ≫= λ v, default [] (contents <$> m !! v)) = ms ≫= both.
Proof.
  induction 1 as [|v x versions ms (p & E & H1 & H2 & ->) _ IH]; [done|]. cbn. rewrite E. cbn.
  by rewrite contents_whole, IH.
Qed.

Lemma versions_sorted a n : Sorted Z.le (seqZ a (Z.of_nat n)).
Proof.
  revert a. induction n as [|n IH]; intros a; [constructor|]. rewrite seqZ_cons by lia.
  replace (Z.pred (Z.of_nat (S n))) with (Z.of_nat n) by lia. constructor; [apply IH|].
  destruct n; [constructor|]. rewrite seqZ_cons by lia. constructor. lia.
Qed.

(** The whole candidates of a lineage's files. *)
Lemma represents_whole m ms : represents m (ms ≫= both) → NoDup (M_Version <$> ms) →
  merge_sort Z.le (elements (dom m)) = merge_sort Z.le (M_Version <$> ms) ∧ ∀ x, x ∈ ms → whole m (M_Version x) x.
Proof.
  intros [Hp Hv] Hn. assert (Hv' : ∀ v p, m !! v = Some p → pt_version p = v) by (intros; by eapply Hv).
  assert (Hin : ∀ x up, x ∈ ms → ∃ p, m !! M_Version x = Some p ∧ slot up p ≠ "" ∧ pt_name p = M_Name x ∧
                        sql up p = (if up then UpSQL x else DownSQL x)).
  { intros x up Hx. set (f := {| lf_version := M_Version x; lf_name := M_Name x; lf_up := up;
                                lf_body := if up then UpSQL x else DownSQL x |}).
    assert (Hf : f ∈ all_held m).
    { rewrite <-Hp. apply list_elem_of_bind. exists x. split; [|done]. unfold both, f. destruct up; [left|right; left]. }
    apply (all_held_elem _ _ Hv') in Hf as (p & E & Hh). exists p. cbn in E, Hh. split; [done|].
    apply held_elem in Hh as [Hs Hf]. unfold f in Hf. injection Hf as _ Hf2 Hf3. by rewrite Hf2, Hf3. }
  split.
  - apply (Sorted_unique Z.le); [apply Sorted_merge_sort, _|apply Sorted_merge_sort, _|].
    rewrite !merge_sort_Permutation. apply NoDup_Permutation; [apply NoDup_elements|done|]. intros v.
    rewrite elem_of_elements, elem_of_dom, list_elem_of_fmap. split.
    + intros [p E]. destruct (Hv _ _ E) as [Hpv Hne]. destruct (contents p) as [|g l] eqn:Eg; [done|].
      assert (Hg : g ∈ contents p) by (rewrite Eg; by left).
      assert (Hg' : g ∈ ms ≫= both) by (rewrite Hp, (all_held_lookup _ _ _ E); apply elem_of_app; by left).
      apply both_elem in Hg' as (x & Hx & Exv & _). exists x. split; [|done]. rewrite <-Exv, <-Hpv.
      apply contents_elem, held_elem in Hg as [_ ->]. done.
    + intros (x & -> & Hx). destruct (Hin x true Hx) as (p & E & _). by exists p.
  - intros x Hx. destruct (Hin x true Hx) as (p & E & H1 & Hn1 & Hs1). destruct (Hin x false Hx) as (p' & E' & H2 & _ & Hs2).
    assert (p' = p) as -> by congruence. exists p. split_and!; [done..|].
    destruct x, p; cbn in *. unfold migration_of. cbn. rewrite <-(Hv' _ _ E). cbn. congruence.
Qed.

(** The inventory of [entries] is [ms]. *)
Lemma inventory_ok entries ms :
  (∃ m, fold_result (load_entry ReadFile directory) ∅ entries = Ok m ∧ m ≠ ∅ ∧
        assemble m 1 (merge_sort Z.le (elements (dom m))) = Ok ms) ↔
  ms ≠ [] ∧ M_Version <$> ms = seqZ 1 (Z.of_nat (length ms)) ∧
  ∃ files, Forall2 file_of (filter (λ e, sql_entry e = true) entries) files ∧ files ≡ₚ ms ≫= both.
Proof.
  split.
  - intros (m & Hm & Hne & Ha). destruct (load_entries_sound _ _ _ _ represents_empty Hm) as (files & Hall & [Hp Hv]).
    apply assemble_ok in Ha as [Hvs Hw]. split_and!.
    + intros ->. cbn in Hvs. apply Hne. apply map_empty. intros v. apply not_elem_of_dom. rewrite <-elem_of_elements.
      intros Hv'. pose proof (merge_sort_Permutation Z.le (elements (dom m))) as Hperm. rewrite Hvs in Hperm.
      apply Permutation_nil in Hperm. rewrite Hperm in Hv'. by apply elem_of_nil in Hv'.
    + rewrite <-Hvs. clear -Hw Hv. induction Hw as [|v x vs ms (p & E & _ & _ & ->) _ IH]; [done|]. cbn. f_equal; [|done].
      by apply Hv.
    + exists files. split; [done|]. cbn in Hp. rewrite Hp, (all_held_versions m _ (merge_sort_Permutation Z.le _)).
      by rewrite (whole_contents _ _ _ Hw).
  - intros (Hne & Hvs & files & Hall & Hp). assert (Hnd : NoDup (M_Version <$> ms)) by (rewrite Hvs; apply NoDup_seqZ).
    pose proof (coherent_perm _ _ Hp (coherent_both _ Hnd)) as Hc.
    destruct (load_entries_complete _ _ _ _ represents_empty Hc Hall) as (m & Hm & Hr). cbn in Hr.
    assert (Hr' : represents m (ms ≫= both)) by (destruct Hr as [Hr ?]; split; [by rewrite <-Hp|done]).
    destruct (represents_whole _ _ Hr' Hnd) as [Hsort Hw]. exists m. split_and!; [done| |].
    + intros ->. destruct ms as [|x ms]; [done|]. destruct (Hw x) as (p & E & _); [by left|]. by rewrite lookup_empty in E.
    + rewrite Hsort. assert (merge_sort Z.le (M_Version <$> ms) = M_Version <$> ms) as ->.
      { apply (Sorted_unique Z.le); [apply Sorted_merge_sort, _|rewrite Hvs; apply versions_sorted|apply merge_sort_Permutation]. }
      apply assemble_ok. split; [done|]. apply Forall2_fmap_l, Forall_Forall2_diag, Forall_forall. done.
Qed.
End exact.

Lemma LoadDirectory_ok {fs : FileSystem} (ReadFile : string → result string) directory ms :
  LoadDirectory ReadFile directory = Ok ms ↔
  blank directory = false ∧ ms ≠ [] ∧ M_Version <$> ms = seqZ 1 (Z.of_nat (length ms)) ∧
  ∃ entries files, ReadDir (trim_space directory) = Ok entries ∧
    Forall2 (file_of ReadFile (trim_space directory)) (filter (λ e, sql_entry e = true) entries) files ∧
    files ≡ₚ ms ≫= both.
Proof.
  unfold LoadDirectory, blank. split.
  - intros H. apply bind_ok in H as ([] & Hb%guard_ok & H). apply bind_ok in H as (entries & He%wrap_err_ok & H).
    apply bind_ok in H as (m & Hm & H). apply bind_ok in H as ([] & Hne%guard_ok%bool_decide_eq_false & Ha).
    destruct (proj1 (inventory_ok ReadFile (trim_space directory) entries ms) (ex_intro _ m (conj Hm (conj Hne Ha))))
      as (H1 & H2 & files & Hall & Hp). split_and!; [done..|]. by exists entries, files.
  - intros (Hb & H1 & H2 & entries & files & He & Hall & Hp).
    destruct (proj2 (inventory_ok ReadFile (trim_space directory) entries ms)) as (m & Hm & Hne & Ha).
    { split_and!; [done..|]. by exists files. }
    rewrite Hb, He. cbn [guard_err wrap_err mbind result_bind]. rewrite Hm. cbn [mbind result_bind].
    by rewrite bool_decide_eq_false_2.
Qed.

Lemma LoadDirectory_bodies {fs : FileSystem} (ReadFile : string → result string) directory ms :
  LoadDirectory ReadFile directory = Ok ms → Forall (λ m, blank (UpSQL m) = false ∧ blank (DownSQL m) = false) ms.
Proof.
  intros (_ & _ & _ & entries & files & _ & Hall & Hp)%LoadDirectory_ok. apply Forall_forall. intros m Hm.
  assert (H : ∀ f, f ∈ both m → blank (lf_body f) = false).
  { intros f Hf. assert (Hin : f ∈ files) by (rewrite Hp; apply list_elem_of_bind; by exists m).
    apply list_elem_of_lookup in Hin as [i Hi]. destruct (Forall2_lookup_r _ _ _ _ _ Hall Hi) as (e & _ & He).
    by destruct He as (? & _ & _ & _ & _ & _ & _ & Hb). }
  split; [apply (H _ (list_elem_of_here _ _))|]. apply (H _ (list_elem_of_further _ _ _ (list_elem_of_here _ _))).
Qed.

(** C37: a directory is accepted as a lineage exactly when its SQL files are, each once,
    the up and the down file of migrations numbered from one without a gap, each
    file named after its version and its migration's one title and holding more
    than white space; the inventory then is those migrations in order, with the
    bodies read.  Whatever else the directory holds is left alone. *)
Theorem LoadDirectory_exact {fs : FileSystem} (ReadFile : string → result string) directory ms :
  LoadDirectory ReadFile directory = Ok ms ↔
  blank directory = false ∧ ms ≠ [] ∧ M_Version <$> ms = seqZ 1 (Z.of_nat (length ms)) ∧
  ∃ entries files, ReadDir (trim_space directory) = Ok entries ∧
    Forall2 (file_of ReadFile (trim_space directory)) (filter (λ e, sql_entry e = true) entries) files ∧
    files ≡ₚ ms ≫= both.
Proof. exact (LoadDirectory_ok ReadFile directory ms). Qed.

Definition example_lineage_dir : FileSystem :=
  table_fs [("/svc/migrations", [file "0001_create.initial.down.sql"; file "0001_create.initial.up.sql";
                                 file "2_extend.down.sql"; file "2_extend.up.sql"; file "README.md"])].
Definition example_body (p : string) : result string := Ok ("-- " +:+ p).

Example two_migrations : LoadDirectory (fs := example_lineage_dir) example_body " /svc/migrations " =
  Ok [{| M_Version := 1; M_Name := "create.initial"; UpSQL := "-- /svc/migrations/0001_create.initial.up.sql";
         DownSQL := "-- /svc/migrations/0001_create.initial.down.sql" |};
      {| M_Version := 2; M_Name := "extend"; UpSQL := "-- /svc/migrations/2_extend.up.sql";
         DownSQL := "-- /svc/migrations/2_extend.down.sql" |}].
Proof. vm_compute. reflexivity. Qed.

(** ** Applying a lineage *)

Section apply.
(** The database: what a statement text does to it inside a transaction, and which
    calls fail; a commit that fails may have happened all the same. *)
Context {S : Type} (run : string → S → result S) (fault : nat → option error) (lands : nat → bool).

Record db := { db_state : S; db_tx : option S; db_calls : nat }.

Definition BeginTx : io db unit := λ d,
  match fault (db_calls d) with
  | Some e => (Err e, {| db_state := db_state d; db_tx := db_tx d; db_calls := Datatypes.S (db_calls d) |})
  | None => (Ok tt, {| db_state := db_state d; db_tx := Some (db_state d); db_calls := Datatypes.S (db_calls d) |})
  end.
Definition ExecContext (body : string) : io db unit := λ d,
  let failed e := (Err e, {| db_state := db_state d; db_tx := db_tx d; db_calls := Datatypes.S (db_calls d) |}) in
  match fault (db_calls d), db_tx d with
  | Some e, _ => failed e
  | None, None => failed (ENew "sql: transaction has already been committed or rolled back" [])
  | None, Some st =>
    match run body st with
    | Ok st' => (Ok tt, {| db_state := db_state d; db_tx := Some st'; db_calls := Datatypes.S (db_calls d) |})
    | Err e => failed e
    end
  end.
Definition Commit : io db unit := λ d,
  let after st := {| db_state := st; db_tx := None; db_calls := Datatypes.S (db_calls d) |} in
  let written := default (db_state d) (db_tx d) in
  match fault (db_calls d) with
  | Some e => (Err e, after (if lands (db_calls d) then written else db_state d))
  | None => (Ok tt, after written)
  end.
(** Whatever it answers, and a no-op once the transaction is over. *)
Definition Rollback (d : db) : db := {| db_state := db_state d; db_tx := None; db_calls := db_calls d |}.

(** [has_context], [has_db]: whether they are not nil. *)
Definition ApplySQL (has_context has_db : bool) (body label : string) : io db unit :=
  _ ← io_guard (negb has_context) (ENew "migration context is required" []);
  _ ← io_guard (negb has_db) (ENew "migration database is required" []);
  _ ← io_guard (blank body) (ENew "migration %q body is empty" [label]);
  _ ← io_wrap "migration %s begin: %w" [label] BeginTx;
  io_defer (_ ← io_wrap "migration %s execute: %w" [label] (ExecContext body);
            io_wrap "migration %s commit: %w" [label] Commit) Rollback.

Definition step_label (direction : string) (m : Migration) : string :=
  direction +:+ " " +:+ itoa_nat (M_Version m) +:+ " (" +:+ M_Name m +:+ ")".

Definition ApplyUp (has_context has_db : bool) (migrations : list Migration) : io db unit :=
  io_each (λ m, ApplySQL has_context has_db (UpSQL m) (step_label "up" m)) migrations.

(** From the last to the first. *)
Definition ApplyDown (has_context has_db : bool) (migrations : list Migration) : io db unit :=
  io_each (λ m, ApplySQL has_context has_db (DownSQL m) (step_label "down" m)) (reverse migrations).

Definition runs (bodies : list string) (st : S) : result S := fold_result (λ st body, run body st) st bodies.

(** A migration happens whole or not at all. *)
Lemma ApplySQL_atomic c d body label x r x' : ApplySQL c d body label x = (r, x') → db_tx x = None →
  db_tx x' = None ∧ (db_state x' = db_state x ∧ is_ok r = false ∨ run body (db_state x) = Ok (db_state x')).
Proof.
  unfold ApplySQL, io_guard. intros H Htx.
  destruct c; [|injection H as <- <-; auto]. destruct d; [|injection H as <- <-; auto].
  unfold mbind, io_bind at 1 2 3, io_lift in H. cbn [negb guard_err] in H.
  destruct (blank body); [injection H as <- <-; auto|]. cbn [guard_err] in H. unfold io_bind at 1, io_wrap at 1, BeginTx in H.
  destruct (fault (db_calls x)) as [e|]; cbn [wrap_err] in H; [injection H as <- <-; auto|].
  unfold io_defer, io_bind, io_wrap, ExecContext in H. cbn [db_tx db_calls db_state] in H.
  destruct (fault (Datatypes.S (db_calls x))) as [e|]; cbn [wrap_err] in H; [injection H as <- <-; auto|].
  destruct (run body (db_state x)) as [st'|e] eqn:Er; cbn [wrap_err] in H; [|injection H as <- <-; auto].
  unfold Commit in H. cbn [db_tx db_calls db_state] in H.
  destruct (fault _) as [e|]; cbn in H; injection H as <- <-; cbn; [|auto].
  split; [done|]. destruct (lands _); auto.
Qed.

Lemma apply_each_atomic (f : Migration → string * string) c d ms x r x' : db_tx x = None →
  io_each (λ m, ApplySQL c d (f m).1 (f m).2) ms x = (r, x') →
  db_tx x' = None ∧ ∃ k, runs (take k ((λ m, (f m).1) <$> ms)) (db_state x) = Ok (db_state x') ∧
    (r = Ok tt → k = length ms).
Proof.
  revert x. induction ms as [|m ms IH]; intros x Htx H; cbn [io_each] in H.
  { injection H as <- <-. split; [done|]. by exists 0%nat. }
  unfold mbind, io_bind in H. destruct (ApplySQL c d (f m).1 (f m).2 x) as [[[]|e] x1] eqn:E;
    apply ApplySQL_atomic in E as (Htx1 & Hs); try done.
  - destruct Hs as [[_ ?]|Hrun]; [done|]. destruct (IH _ Htx1 H) as (Htx' & k & Hk & Hlen). split; [done|].
    exists (Datatypes.S k). cbn [fmap list_fmap take]. unfold runs in *. cbn [fold_result]. rewrite Hrun. cbn [mbind result_bind].
    split; [done|]. intros Hr. cbn [length]. by rewrite Hlen.
  - injection H as <- <-. split; [done|]. destruct Hs as [[Hs _]|Hrun].
    + exists 0%nat. cbn. by rewrite Hs.
    + exists 1%nat. cbn [fmap list_fmap take]. unfold runs. cbn [fold_result]. rewrite Hrun. split; [|done].
      cbn [mbind result_bind]. by rewrite take_0.
Qed.

(** Without a failing call a migration whose text runs is applied. *)
Lemma ApplySQL_runs body label x st : (∀ n, fault n = None) → blank body = false → run body (db_state x) = Ok st →
  ∃ n, ApplySQL true true body label x = (Ok tt, {| db_state := st; db_tx := None; db_calls := n |}).
Proof.
  intros Hf Hb Hr. eexists. unfold ApplySQL, io_guard, mbind, io_bind, io_lift, io_wrap, io_defer, BeginTx, ExecContext, Commit.
  cbn [negb guard_err]. rewrite Hb. cbn [guard_err]. rewrite Hf. cbn [wrap_err db_calls db_tx db_state]. rewrite Hf, Hr.
  cbn [wrap_err db_calls db_tx db_state]. rewrite Hf. cbn. reflexivity.
Qed.

Lemma apply_each_runs (f : Migration → string * string) ms x st : (∀ n, fault n = None) →
  Forall (λ m, blank (f m).1 = false) ms → runs ((λ m, (f m).1) <$> ms) (db_state x) = Ok st →
  ∃ x', io_each (λ m, ApplySQL true true (f m).1 (f m).2) ms x = (Ok tt, x') ∧ db_state x' = st.
Proof.
  intros Hf Hb. revert x. induction Hb as [|m ms Hm Hb IH]; intros x H; unfold runs in H; cbn in H.
  { injection H as <-. by exists x. }
  apply bind_ok in H as (st1 & H1 & H). destruct (ApplySQL_runs (f m).1 (f m).2 x st1 Hf Hm H1) as [n E].
  cbn [io_each]. unfold mbind, io_bind. rewrite E. by apply IH.
Qed.

(** Downs that undo their ups, in the reverse order, undo the whole. *)
Lemma runs_undone ms st st' :
  (∀ m st1 st2, m ∈ ms → run (UpSQL m) st1 = Ok st2 → run (DownSQL m) st2 = Ok st1) →
  runs (UpSQL <$> ms) st = Ok st' → runs (DownSQL <$> reverse ms) st' = Ok st.
Proof.
  revert st. induction ms as [|m ms IH]; intros st Hu H; unfold runs in *; cbn in H.
  { by injection H as <-. }
  apply bind_ok in H as (st1 & H1 & H). rewrite reverse_cons, fmap_app, fold_result_app.
  rewrite (IH st1); [|intros; eapply Hu; [by right|done]|done]. cbn. rewrite (Hu m st st1); [done|by left|done].
Qed.
End apply.

(** Applying a lineage, one transaction a migration.  Whatever call fails, and
    whether or not a failing commit landed, the database afterwards is what the first
    migrations, each whole, make of it, and no transaction is left open; a success is
    all of them.  For a lineage loaded from a directory whose downs undo its ups,
    going up and down again without a failing call succeeds and gives the database
    back as it was. *)
Theorem lineage_applied {S : Type} (run : string → S → result S) fault lands ms x : db_tx x = None →
  (∀ c d r x', ApplyUp run fault lands c d ms x = (r, x') → db_tx x' = None ∧
     ∃ k, runs run (take k (UpSQL <$> ms)) (db_state x) = Ok (db_state x') ∧ (r = Ok tt → k = length ms)) ∧
  (∀ c d r x', ApplyDown run fault lands c d ms x = (r, x') → db_tx x' = None ∧
     ∃ k, runs run (take k (DownSQL <$> reverse ms)) (db_state x) = Ok (db_state x') ∧ (r = Ok tt → k = length ms)) ∧
  (∀ (fs : FileSystem) ReadFile directory st, LoadDirectory ReadFile directory = Ok ms → (∀ n, fault n = None) →
     (∀ m st1 st2, m ∈ ms → run (UpSQL m) st1 = Ok st2 → run (DownSQL m) st2 = Ok st1) →
     runs run (UpSQL <$> ms) (db_state x) = Ok st →
     ∃ x1 x2, ApplyUp run fault lands true true ms x = (Ok tt, x1) ∧ db_state x1 = st ∧
       ApplyDown run fault lands true true ms x1 = (Ok tt, x2) ∧ db_state x2 = db_state x).
Proof.
  intros Htx. split_and!.
  - intros c d r x' H. by apply (apply_each_atomic run fault lands (λ m, (UpSQL m, step_label "up" m)) c d).
  - intros c d r x' H. rewrite <-(length_reverse ms).
    by apply (apply_each_atomic run fault lands (λ m, (DownSQL m, step_label "down" m)) c d (reverse ms)).
  - intros fs ReadFile directory st Hl Hf Hu Hr. apply LoadDirectory_bodies in Hl.
    destruct (apply_each_runs run fault lands (λ m, (UpSQL m, step_label "up" m)) ms x st Hf) as (x1 & H1 & Hs1).
    { eapply Forall_impl; [exact Hl|]. by intros m [? _]. }
    { exact Hr. }
    destruct (apply_each_runs run fault lands (λ m, (DownSQL m, step_label "down" m)) (reverse ms) x1 (db_state x) Hf)
      as (x2 & H2 & Hs2).
    { apply Forall_reverse. eapply Forall_impl; [exact Hl|]. by intros m [_ ?]. }
    { rewrite Hs1. by apply runs_undone. }
    by exists x1, x2.
Qed.

(** A database that keeps the statements it ran; the down of a statement removes it. *)
Definition example_run (body : string) (st : list string) : result (list string) :=
  let up := of_bytes (filter (λ c, c ≠ "!"%char) (bytes body)) in
  if bool_decide (up = body) then Ok (body :: st)
  else match st with b :: st => if bool_decide (b = up) then Ok st else Err (ENew "not there" []) | [] => Err (ENew "empty" []) end.
Definition example_directory : FileSystem := table_fs [("/m", [file "1_a.down.sql"; file "1_a.up.sql"])].
Definition example_texts (p : string) : result string :=
  Ok (if bool_decide (p = "/m/1_a.up.sql") then "CREATE" else "CREATE!").
Definition example_ms : list Migration := [{| M_Version := 1; M_Name := "a"; UpSQL := "CREATE"; DownSQL := "CREATE!" |}].

Lemma lineage_applied_witness : ∃ x1 x2 : db (S := list string),
  ApplyUp example_run (λ _, None) (λ _, false) true true example_ms {| db_state := []; db_tx := None; db_calls := 0 |} = (Ok tt, x1) ∧
  db_state x1 = ["CREATE"] ∧
  ApplyDown example_run (λ _, None) (λ _, false) true true example_ms x1 = (Ok tt, x2) ∧ db_state x2 = [].
Proof.
  destruct (lineage_applied example_run (λ _, None) (λ _, false) example_ms {| db_state := []; db_tx := None; db_calls := 0 |} eq_refl)
    as (_ & _ & H).
  apply (H example_directory example_texts "/m" ["CREATE"]).
  - vm_compute. reflexivity.
  - reflexivity.
  - intros m st1 st2 Hm. unfold example_ms in Hm. apply list_elem_of_singleton in Hm as ->. intros E.
    vm_compute in E. injection E as <-. vm_compute. reflexivity.
  - vm_compute. reflexivity.
Defined.
