(* ===== verification/Schema.v ===== *)
(** Schema prerequisites ([schema.go] and the lineage naming of
    [migrations.go]): which migration lineages and extensions a run applies,
    resolved and validated before any database is opened. *)
From S2P Require Import Prelude GoStrings Settings MigrationFiles.

(** ** Lineages *)

Record migrationSource := {
  ms_name : string;      (* "" for this service's own migrations *)
  ms_dir : string;
  ms_table : string;     (* "" is the driver's default ledger *)
  ms_optional : bool;
}.

(** [postgres.DefaultMigrationsTable] of golang-migrate. *)
Definition DefaultMigrationsTable : string := "schema_migrations".
Definition migrationTablePrefix : string := "schema_migrations_".
Definition maxIdentifierBytes : Z := 63.

Definition label (m : migrationSource) : string :=
  if bool_decide (ms_name m = "") then "store" else ms_name m.

Definition trackingTable (m : migrationSource) : string :=
  if bool_decide (ms_table m = "") then DefaultMigrationsTable else ms_table m.

(** ** Extensions *)

Record extensionRequest := { er_name : string; er_required : bool }.

(** ** Reported skips *)

Definition prerequisiteMigrationSource : string := "migration-source".
Definition prerequisiteExtension : string := "extension".
Record skippedPrerequisite := { sk_kind : string; sk_name : string; sk_reason : error }.

Record schemaPrerequisites := {
  sp_sources : list migrationSource;
  sp_extensions : list extensionRequest;
  sp_skipped : list skippedPrerequisite;
}.

#[global] Arguments migrationTablePrefix : simpl never.
#[global] Arguments maxIdentifierBytes : simpl never.
#[global] Arguments DefaultMigrationsTable : simpl never.

Section service.
(** [s.Location] and [s.Local("migrations")] of the loaded service. *)
Context {fs : FileSystem} (location own_dir : string).

Definition migrationDirectory (name path : string) : string :=
  let path := if bool_decide (path = "") then path_join [".."; name; "migrations"] else path in
  let path := if is_abs path then path else path_join [location; path] in
  path_clean path.

(** One iteration of the loop of [declaredMigrationSources]: the ledgers
    claimed so far, and the lineages. *)
Definition declare_source (st : gmap string string * list migrationSource)
    (d : nat * MigrationSource) : result (gmap string string * list migrationSource) :=
  let '(declaring, sources) := st in
  let name := trim_space (MS_Name d.2) in
  _ ← guard_err (bool_decide (name = ""))
        (ENew "migration source #%d declares an empty name" [itoa_nat (Z.of_nat d.1 + 1)]);
  _ ← guard_err (negb (validSourceName name))
        (ENew "migration source %q has an unsafe name: only letters, digits and underscore are allowed" [name]);
  let table := migrationTablePrefix +:+ name in
  _ ← guard_err (maxIdentifierBytes <? len table)
        (ENew "migration source %q is too long: its tracking table %q is %d bytes and PostgreSQL truncates identifiers at %d, so a source name may be at most %d characters" [name; table]);
  match declaring !! table with
  | Some other =>
    Err (ENew "migration sources %q and %q both track their versions in %q: give each lineage a distinct name" [other; name; table])
  | None =>
    Ok (<[table := name]> declaring,
        sources ++ [{| ms_name := name; ms_dir := migrationDirectory name (MS_Path d.2);
                       ms_table := table; ms_optional := MS_Optional d.2 |}])
  end.

Definition declaredMigrationSources (decls : list MigrationSource) :
    result (list migrationSource) :=
  st ← fold_result declare_source (∅, []) (imap pair decls); Ok st.2.

Definition skipped_source (lineage : migrationSource) (reason : string) :
    skippedPrerequisite :=
  {| sk_kind := prerequisiteMigrationSource; sk_name := ms_name lineage;
     sk_reason := ENew reason [ms_dir lineage] |}.

(** One iteration of the loop of [resolveMigrationSources]: what it appends to
    the applied sources and to the reported skips. *)
Definition resolve_source (lineage : migrationSource) :
    result (list migrationSource * list skippedPrerequisite) :=
  let own := bool_decide (ms_name lineage = "") in
  if own && LstatMissing (ms_dir lineage) then Ok ([], [])
  else
    match countMigrations (ms_dir lineage) with
    | Err err =>
      if own then Err (EWrap "migration source %q: %w" [label lineage] err)
      else if error_is ErrNotExist err then
        if negb (ms_optional lineage) then
          Err (ENew "migration source %q declares directory %s, which does not exist: fix the path, or declare the source optional if it may ship no migrations yet" [ms_name lineage; ms_dir lineage])
        else Ok ([], [skipped_source lineage "optional source directory %s does not exist"])
      else Err (EWrap "migration source %q: %w" [ms_name lineage] err)
    | Ok count =>
      if count =? 0 then
        if own then Ok ([], [])
        else if negb (ms_optional lineage) then
          Err (ENew "migration source %q declares directory %s, which holds no migration: add a <version>_<title>.up.sql file, or declare the source optional" [ms_name lineage; ms_dir lineage])
        else Ok ([], [skipped_source lineage "optional source directory %s holds no migration"])
      else Ok ([lineage], [])
    end.

Definition resolve_step (st : list migrationSource * list skippedPrerequisite)
    (lineage : migrationSource) : result (list migrationSource * list skippedPrerequisite) :=
  r ← resolve_source lineage; Ok (st.1 ++ r.1, st.2 ++ r.2).

Definition own_source : migrationSource :=
  {| ms_name := ""; ms_dir := own_dir; ms_table := ""; ms_optional := false |}.

Definition resolveMigrationSources (decls : list MigrationSource) :
    result (list migrationSource * list skippedPrerequisite) :=
  declared ← declaredMigrationSources decls;
  fold_result resolve_step ([], []) (own_source :: declared).

Definition declare_extension (st : gmap string nat * list extensionRequest)
    (d : nat * Extension) : result (gmap string nat * list extensionRequest) :=
  let '(position, requests) := st in
  let name := trim_space (EX_Name d.2) in
  _ ← guard_err (bool_decide (name = ""))
        (ENew "extension #%d declares an empty name" [itoa_nat (Z.of_nat d.1 + 1)]);
  _ ← guard_err (negb (validExtName name))
        (ENew "extension %q has an unsafe name: only letters, digits, underscore and dash are allowed" [name]);
  let request := {| er_name := name; er_required := negb (EX_Optional d.2) |} in
  match position !! name with
  | Some at_ => Ok (position, <[at_ := request]> requests)
  | None => Ok (<[name := length requests]> position, requests ++ [request])
  end.

Definition default_extension (st : gmap string nat * list extensionRequest) (name : string) :
    gmap string nat * list extensionRequest :=
  (<[name := length st.2]> st.1, st.2 ++ [{| er_name := name; er_required := false |}]).

Definition resolveExtensions (declared : list Extension) : result (list extensionRequest) :=
  st ← fold_result declare_extension (foldl default_extension (∅, []) defaultExtensions)
         (imap pair declared);
  Ok st.2.

Definition resolveSchemaPrerequisites (s : Settings) : result schemaPrerequisites :=
  r ← resolveMigrationSources (MigrationSources s);
  extensions ← resolveExtensions (Extensions s);
  Ok {| sp_sources := r.1; sp_extensions := extensions; sp_skipped := r.2 |}.
End service.

(** ** Declared lineages *)

Definition decl_name (d : MigrationSource) : string := trim_space (MS_Name d).
Definition decl_table (d : MigrationSource) : string := migrationTablePrefix +:+ decl_name d.

Definition decl_ok (d : MigrationSource) : Prop :=
  safe_identifier (decl_name d) ∧ len (decl_table d) ≤ maxIdentifierBytes.

Definition decl_source (location : string) (d : MigrationSource) : migrationSource :=
  {| ms_name := decl_name d; ms_dir := migrationDirectory location (decl_name d) (MS_Path d);
     ms_table := decl_table d; ms_optional := MS_Optional d |}.

Section declared.
Context {fs : FileSystem} (location : string).

Lemma declare_source_ok st d st' :
  declare_source location st d = Ok st' ↔
  decl_ok d.2 ∧ st.1 !! decl_table d.2 = None ∧
  st' = (<[decl_table d.2 := decl_name d.2]> st.1, st.2 ++ [decl_source location d.2]).
Proof.
  destruct st as [declaring sources], d as [i d]. unfold declare_source, decl_ok. cbn [fst snd].
  fold (decl_name d). fold (decl_table d). split.
  - intros H. res_inv. destruct (declaring !! decl_table d) eqn:E; [done|]. res_inv.
    rewrite <-validSourceName_spec. split_and!; try done.
    match goal with H : (_ <? _) = false |- _ => apply Z.ltb_ge in H end. done.
  - intros ([[Hne Hv] Hlen] & Hnone & ->).
    rewrite bool_decide_eq_false_2 by done. simpl.
    replace (validSourceName (decl_name d)) with true
      by (symmetry; by apply validSourceName_spec). simpl.
    replace (maxIdentifierBytes <? len (decl_table d)) with false
      by (symmetry; by apply Z.ltb_ge). simpl. by rewrite Hnone.
Qed.

Lemma decl_table_inj d d' : decl_table d = decl_table d' → decl_name d = decl_name d'.
Proof. apply append_inj_r. Qed.

Lemma declared_from st i decls st' :
  dom st.1 = list_to_set (ms_table <$> st.2) →
  fold_result (declare_source location) st (imap (λ j d, (i + j, d)%nat) decls) = Ok st' ↔
  Forall decl_ok decls ∧ NoDup (decl_table <$> decls) ∧
  Forall (λ d, decl_table d ∉ ms_table <$> st.2) decls ∧
  st'.2 = st.2 ++ (decl_source location <$> decls) ∧
  st'.1 = foldl (λ m d, <[decl_table d := decl_name d]> m) st.1 decls.
Proof.
  revert st i. induction decls as [|d decls IH]; intros st i Hdom; simpl.
  { destruct st, st'; simpl. rewrite app_nil_r. split; [|naive_solver].
    intros [= -> ->]. by repeat constructor. }
  rewrite bind_ok. rewrite !Forall_cons, NoDup_cons.
  assert (Himap : imap ((λ j d, (i + j, d)%nat) ∘ S) decls =
                  imap (λ j d, (S i + j, d)%nat) decls).
  { apply imap_ext. intros j x _. simpl. f_equal. lia. }
  rewrite Himap. clear Himap. setoid_rewrite declare_source_ok. simpl. split.
  - intros (st1 & (Hok & Hnone & ->) & Hrest). apply (IH _ (S i)) in Hrest; simpl in *.
    + destruct Hrest as (Hall & Hnd & Hnot & -> & ->). simpl in *.
      rewrite fmap_app in Hnot. simpl in Hnot.
      apply not_elem_of_dom in Hnone. rewrite Hdom in Hnone.
      split_and!; try done.
      * intros (d' & Heq & Hin)%list_elem_of_fmap.
        rewrite Forall_forall in Hnot. apply (Hnot d' Hin). rewrite <-Heq. set_solver.
      * by rewrite elem_of_list_to_set in Hnone.
      * eapply Forall_impl; [exact Hnot|]. intros x Hx. set_solver.
      * by rewrite <-app_assoc.
    + rewrite dom_insert_L, Hdom, fmap_app, list_to_set_app_L. simpl. set_solver.
  - intros ([Hok Hall] & [Hnotin Hnd] & [Hd Hnot] & Hst2 & Hst1).
    eexists. split; [split_and!; [done| |done]|].
    + apply not_elem_of_dom. rewrite Hdom. by rewrite elem_of_list_to_set.
    + apply (IH _ (S i)); simpl.
      { rewrite dom_insert_L, Hdom, fmap_app, list_to_set_app_L. simpl. set_solver. }
      split_and!; try done; [|by rewrite <-app_assoc].
      rewrite Forall_forall. intros x Hx. rewrite fmap_app, elem_of_app. simpl.
      rewrite list_elem_of_singleton. rewrite Forall_forall in Hnot.
      intros [?|Heq]; [by eapply Hnot|]. apply Hnotin. rewrite <-Heq.
      by apply list_elem_of_fmap_2.
Qed.

(** The declarations are accepted exactly when every name is safe and its ledger
    fits PostgreSQL's identifiers, and no two share a ledger; each then owns the
    lineage its declaration spells, in order. *)
Lemma declaredMigrationSources_ok decls srcs :
  declaredMigrationSources location decls = Ok srcs ↔
  Forall decl_ok decls ∧ NoDup (decl_table <$> decls) ∧
  srcs = decl_source location <$> decls.
Proof.
  unfold declaredMigrationSources. rewrite bind_ok.
  assert (Hdom : dom ((∅, []) : gmap string string * list migrationSource).1 =
                 list_to_set (ms_table <$> [])) by done.
  pose proof (λ st', declared_from (∅, []) 0 decls st' Hdom) as Hfrom.
  simpl in Hfrom. change (imap (λ (j : nat) (d : MigrationSource), (j, d)) decls)
    with (imap pair decls) in Hfrom. setoid_rewrite Hfrom. split.
  - intros (st & (? & ? & _ & Hst & _) & [= <-]). by rewrite Hst.
  - intros (? & ? & ->). eexists (_, _). split; [|done]. simpl. split_and!; try done.
    apply Forall_true. intros x. by apply not_elem_of_nil.
Qed.

Lemma trackingTable_decl d : trackingTable (decl_source location d) = decl_table d.
Proof.
  unfold trackingTable. rewrite bool_decide_eq_false_2; [done|].
  simpl. intros H%len_zero. unfold decl_table in H. rewrite len_app in H.
  pose proof (len_nonneg (decl_name d)).
  assert (len migrationTablePrefix = 18) by (by vm_compute). lia.
Qed.

Lemma decl_table_not_default d : decl_name d ≠ "" → decl_table d ≠ DefaultMigrationsTable.
Proof.
  intros Hne Heq. apply (f_equal len) in Heq. unfold decl_table in Heq.
  rewrite len_app in Heq. assert (len migrationTablePrefix = 18) by (by vm_compute).
  assert (len DefaultMigrationsTable = 17) by (by vm_compute).
  pose proof (len_nonneg (decl_name d)). lia.
Qed.
End declared.

Section resolution.
Context {fs : FileSystem} (location own_dir : string).

Lemma decl_table_length d : decl_ok d → 0 < len (decl_table d) ≤ maxIdentifierBytes.
Proof.
  intros [_ Hlen]. split; [|done]. unfold decl_table. rewrite len_app.
  assert (len migrationTablePrefix = 18) by (by vm_compute).
  pose proof (len_nonneg (decl_name d)). lia.
Qed.

Lemma decl_table_safe d : decl_ok d → safe_identifier (decl_table d).
Proof.
  intros Hok. pose proof (decl_table_length d Hok). destruct Hok as [[Hne Hall] _]. split.
  - intros H0%len_zero. lia.
  - unfold decl_table. rewrite all_bytes_app, Hall. by vm_compute.
Qed.

Lemma ledgers_NoDup decls :
  Forall decl_ok decls → NoDup (decl_table <$> decls) →
  NoDup (trackingTable <$> own_source own_dir :: (decl_source location <$> decls)).
Proof.
  intros Hall Hnd.
  assert (Htab : trackingTable <$> (decl_source location <$> decls) = decl_table <$> decls).
  { rewrite <-list_fmap_compose. apply list_fmap_ext. intros i d _.
    apply trackingTable_decl. }
  rewrite fmap_cons, Htab. constructor; [|done].
  intros (d & Heq & Hin)%list_elem_of_fmap.
  rewrite Forall_forall in Hall. destruct (Hall d Hin) as [[Hne _] _].
  by apply (decl_table_not_default d Hne).
Qed.

(** C28: whatever is declared, an accepted set of lineages never shares a version
    ledger, neither among the declared sources nor with this service's own: the
    tracking tables are pairwise distinct, are safe identifiers, and are short
    enough that PostgreSQL does not truncate them onto one another; and a set is
    rejected only for an unsafe name, an over-long ledger or a shared one. *)
Theorem lineage_ledgers_distinct decls :
  (∀ srcs, declaredMigrationSources location decls = Ok srcs →
     NoDup (trackingTable <$> own_source own_dir :: srcs) ∧
     Forall (λ t, safe_identifier t ∧ 0 < len t ≤ 63)
       (trackingTable <$> own_source own_dir :: srcs)) ∧
  (is_ok (declaredMigrationSources location decls) = true ↔
     Forall decl_ok decls ∧ NoDup (decl_name <$> decls)).
Proof.
  assert (Hnames : NoDup (decl_name <$> decls) ↔ NoDup (decl_table <$> decls)).
  { change (decl_table <$> decls) with ((λ d, migrationTablePrefix +:+ decl_name d) <$> decls).
    rewrite (list_fmap_compose decl_name (String.append migrationTablePrefix)).
    assert (Inj (=) (=) (String.append migrationTablePrefix)).
    { intros a b. apply append_inj_r. }
    split; [by apply NoDup_fmap_2|by apply NoDup_fmap_1]. }
  split.
  - intros srcs (Hall & Hnd & ->)%declaredMigrationSources_ok.
    split; [by apply ledgers_NoDup|].
    rewrite fmap_cons, Forall_cons, !Forall_fmap. split; [by vm_compute|].
    eapply Forall_impl; [exact Hall|]. intros d Hd. simpl. rewrite trackingTable_decl.
    by split; [apply decl_table_safe|apply decl_table_length].
  - rewrite Hnames. destruct (declaredMigrationSources location decls) as [srcs|e] eqn:E;
      simpl; split; try done.
    + intros _. by apply declaredMigrationSources_ok in E as (? & ? & _).
    + intros [Hall Hnd]. assert (Hok : declaredMigrationSources location decls =
        Ok (decl_source location <$> decls)) by by apply declaredMigrationSources_ok.
      by rewrite E in Hok.
Qed.

(** ** Resolution *)

Lemma resolve_loop_ok st ls st' :
  fold_result resolve_step st ls = Ok st' ↔
  ∃ rs, Forall2 (λ l r, resolve_source l = Ok r) ls rs ∧
        st' = (st.1 ++ concat (fst <$> rs), st.2 ++ concat (snd <$> rs)).
Proof.
  revert st. induction ls as [|l ls IH]; intros st; simpl.
  - split.
    + intros [= <-]. exists []. split; [constructor|]. simpl.
      rewrite !app_nil_r. by destruct st.
    + intros (rs & H%Forall2_nil_inv_l & ->). subst. simpl. rewrite !app_nil_r. by destruct st.
  - rewrite bind_ok. split.
    + intros (st1 & H1 & H2). unfold resolve_step in H1. res_inv.
      apply IH in H2 as (rs & Hrs & ->). simpl in *. eexists (_ :: rs).
      split; [by constructor|]. simpl. by rewrite !app_assoc.
    + intros (rs & Hrs & ->). apply Forall2_cons_inv_l in Hrs as (r & rs' & Hr & Hrs & ->).
      eexists. unfold resolve_step at 1. rewrite Hr. split; [done|].
      apply IH. exists rs'. split; [done|]. simpl. by rewrite !app_assoc.
Qed.

(** What the resolution of one lineage may answer. *)
Lemma resolve_source_ok l r :
  resolve_source l = Ok r →
  (r = ([l], []) ∧ ∃ n, countMigrations (ms_dir l) = Ok n ∧ n ≠ 0) ∨
  (r = ([], []) ∧ ms_name l = "") ∨
  (∃ why, r = ([], [skipped_source l why]) ∧ ms_name l ≠ "" ∧ ms_optional l = true ∧
     (countMigrations (ms_dir l) = Ok 0 ∨
      ∃ e, countMigrations (ms_dir l) = Err e ∧ error_is ErrNotExist e = true)).
Proof.
  unfold resolve_source. case_bool_decide as Hown; simpl.
  - destruct (LstatMissing (ms_dir l)); [naive_solver|].
    destruct (countMigrations (ms_dir l)) as [n|e] eqn:E; [|done].
    destruct (Z.eqb_spec n 0); naive_solver.
  - destruct (countMigrations (ms_dir l)) as [n|e] eqn:E.
    + destruct (Z.eqb_spec n 0); [|naive_solver]. subst.
      destruct (ms_optional l) eqn:Eo; [|done]. simpl. intros [= <-]. right. right. eauto 10.
    + destruct (error_is ErrNotExist e) eqn:En; [|done].
      destruct (ms_optional l) eqn:Eo; [|done]. simpl. intros [= <-]. right. right. eauto 10.
Qed.

Definition lineages (decls : list MigrationSource) : list migrationSource :=
  own_source own_dir :: (decl_source location <$> decls).

Lemma resolveMigrationSources_ok decls r :
  resolveMigrationSources location own_dir decls = Ok r ↔
  is_ok (declaredMigrationSources location decls) = true ∧
  ∃ rs, Forall2 (λ l r, resolve_source l = Ok r) (lineages decls) rs ∧
        r = (concat (fst <$> rs), concat (snd <$> rs)).
Proof.
  unfold resolveMigrationSources. rewrite bind_ok. setoid_rewrite resolve_loop_ok. simpl.
  destruct (declaredMigrationSources location decls) as [srcs|e] eqn:E; [|naive_solver].
  apply declaredMigrationSources_ok in E as (_ & _ & ->). unfold lineages. naive_solver.
Qed.

(** The answers of the loop, element by element. *)
Lemma resolved_sublist ls rs :
  Forall2 (λ l r, resolve_source l = Ok r) ls rs → concat (fst <$> rs) `sublist_of` ls.
Proof.
  induction 1 as [|l r ls rs Hr _ IH]; simpl; [done|].
  apply resolve_source_ok in Hr as [[-> _]|[[-> _]|(? & -> & _)]]; simpl;
    by constructor.
Qed.

Lemma resolved_answer ls rs l :
  Forall2 (λ l r, resolve_source l = Ok r) ls rs → l ∈ ls →
  ∃ r, resolve_source l = Ok r ∧ r.1 ⊆ concat (fst <$> rs) ∧ r.2 ⊆ concat (snd <$> rs).
Proof.
  induction 1 as [|l' r ls rs Hr _ IH]; [by intros ?%not_elem_of_nil|].
  intros [->|Hin]%elem_of_cons; simpl.
  - exists r. split_and!; [done|set_solver..].
  - destruct (IH Hin) as (r' & ? & ? & ?). exists r'. split_and!; [done|set_solver..].
Qed.

Lemma resolved_origin ls rs :
  Forall2 (λ l r, resolve_source l = Ok r) ls rs →
  (∀ l, l ∈ concat (fst <$> rs) → ∃ n, countMigrations (ms_dir l) = Ok n ∧ n ≠ 0) ∧
  (∀ k, k ∈ concat (snd <$> rs) → ∃ l why, l ∈ ls ∧ k = skipped_source l why ∧
     ms_optional l = true).
Proof.
  induction 1 as [|l r ls rs Hr _ [IH1 IH2]]; simpl.
  { split; intros ? ?%not_elem_of_nil; done. }
  apply resolve_source_ok in Hr as [[-> ?]|[[-> _]|(why & -> & _ & ? & _)]]; simpl.
  - split; [intros ? [->|?]%elem_of_cons; eauto|].
    intros k (l' & w & ? & ?)%IH2. exists l', w. split; [by right|done].
  - split; [done|]. intros k (l' & w & ? & ?)%IH2. exists l', w. split; [by right|done].
  - split; [done|]. intros k [->|(l' & w & ? & ?)%IH2]%elem_of_cons.
    + exists l, why. split_and!; [by left|done..].
    + exists l', w. split; [by right|done].
Qed.

Lemma countMigrations_nonneg dir n : countMigrations dir = Ok n → 0 ≤ n.
Proof. intros (? & _ & _ & ->)%countMigrations_ok. lia. Qed.

(** A resolution that succeeds applies lineages in declared order, own
    lineage first, each holding at least one forward migration; it never drops a
    declared source silently: one that is not applied was declared optional, is
    absent or empty, and is reported; nothing else is reported; and the applied
    lineages have pairwise distinct ledgers. *)
Theorem resolution_faithful decls sources skipped :
  resolveMigrationSources location own_dir decls = Ok (sources, skipped) →
  sources `sublist_of` lineages decls ∧
  NoDup (trackingTable <$> sources) ∧
  Forall (λ l, ∃ n, countMigrations (ms_dir l) = Ok n ∧ 0 < n) sources ∧
  (∀ d, d ∈ decls →
     decl_source location d ∈ sources ∨
     MS_Optional d = true ∧
     (∃ why, skipped_source (decl_source location d) why ∈ skipped) ∧
     (countMigrations (ms_dir (decl_source location d)) = Ok 0 ∨
      ∃ e, countMigrations (ms_dir (decl_source location d)) = Err e ∧
           error_is ErrNotExist e = true)) ∧
  (∀ k, k ∈ skipped → ∃ d, d ∈ decls ∧ sk_name k = decl_name d ∧ MS_Optional d = true).
Proof.
  intros (Hdecl & rs & Hrs & [= -> ->])%resolveMigrationSources_ok.
  destruct (declaredMigrationSources location decls) as [srcs|] eqn:E; [clear Hdecl|done].
  apply declaredMigrationSources_ok in E as (Hall & Hnd & _).
  rewrite Forall_forall in Hall. pose proof (resolved_sublist _ _ Hrs) as Hsub.
  pose proof (resolved_origin _ _ Hrs) as [Hsrc Hskip]. split_and!; try done.
  - eapply sublist_NoDup; [|by apply fmap_sublist, Hsub].
    apply ledgers_NoDup; [by rewrite Forall_forall|done].
  - apply Forall_forall. intros l (n & Hn & ?)%Hsrc. exists n. split; [done|].
    apply countMigrations_nonneg in Hn. lia.
  - intros d Hd. assert (Hin : decl_source location d ∈ lineages decls).
    { right. by apply list_elem_of_fmap_2. }
    destruct (resolved_answer _ _ _ Hrs Hin) as (r & Hr & H1 & H2).
    destruct (Hall d Hd) as [[Hne _] _].
    apply resolve_source_ok in Hr as [[-> _]|[[-> ?]|(why & -> & _ & ? & ?)]]; simpl in *.
    + left. set_solver.
    + done.
    + right. split_and!; [done| |done]. exists why. set_solver.
  - intros k (l & why & Hl & -> & Hopt)%Hskip.
    apply elem_of_cons in Hl as [->|(d & -> & Hd)%list_elem_of_fmap]; [done|].
    exists d. by split_and!.
Qed.
End resolution.

(** ** Extensions *)

Definition ext_name (d : Extension) : string := trim_space (EX_Name d).
Definition ext_ok (d : Extension) : Prop := validExtName (ext_name d) = true.

(** The declaration of an extension that counts: its last one. *)
Definition last_declaration (n : string) (decls : list Extension) : option Extension :=
  last (filter (λ d, ext_name d = n) decls).
Definition required_by (n : string) (decls : list Extension) : bool :=
  match last_declaration n decls with Some d => negb (EX_Optional d) | None => false end.

Lemma required_by_snoc n decls d :
  required_by n (decls ++ [d]) =
  if decide (ext_name d = n) then negb (EX_Optional d) else required_by n decls.
Proof.
  unfold required_by, last_declaration. rewrite filter_app, filter_cons, filter_nil.
  case_decide; [by rewrite last_snoc|by rewrite app_nil_r].
Qed.

(** The accumulator of the loop: [position] is the index of every request. *)
Record requests_inv (decls : list Extension)
    (st : gmap string nat * list extensionRequest) : Prop := {
  ri_position : ∀ n i, st.1 !! n = Some i ↔ (er_name <$> st.2) !! i = Some n;
  ri_default : defaultExtensions `prefix_of` (er_name <$> st.2);
  ri_names : ∀ n, n ∈ er_name <$> st.2 ↔ n ∈ defaultExtensions ∨ n ∈ ext_name <$> decls;
  ri_required : Forall (λ r, er_required r = required_by (er_name r) decls) st.2;
}.

Lemma requests_inv_default :
  requests_inv [] (foldl default_extension (∅, []) defaultExtensions).
Proof.
  split.
  - intros n i.
    change (foldl default_extension (∅, []) defaultExtensions).1
      with (<["btree_gin" := 5%nat]> (<["citext" := 4%nat]> (<["pg_trgm" := 3%nat]>
            (<["uuid-ossp" := 2%nat]> (<["pgcrypto" := 1%nat]>
            (<["vector" := 0%nat]> (∅ : gmap string nat))))))).
    split.
    + intros H. repeat (apply lookup_insert_Some in H as [[<- <-]|[_ H]]; [done|]).
      by destruct (lookup_empty_Some n i H).
    + intros H. change (er_name <$> _) with defaultExtensions in H.
      do 6 (destruct i as [|i]; [by injection H as <-|]). done.
  - by exists [].
  - intros n. change (er_name <$> _) with defaultExtensions. simpl. set_solver.
  - by repeat constructor.
Qed.

Lemma declare_extension_ok st d st' :
  declare_extension st d = Ok st' ↔
  ext_ok d.2 ∧
  let r := {| er_name := ext_name d.2; er_required := negb (EX_Optional d.2) |} in
  st' = match st.1 !! ext_name d.2 with
        | Some i => (st.1, <[i := r]> st.2)
        | None => (<[ext_name d.2 := length st.2]> st.1, st.2 ++ [r])
        end.
Proof.
  destruct st as [position requests], d as [i d]. unfold declare_extension, ext_ok. cbn [fst snd].
  fold (ext_name d). split.
  - intros H. res_inv. split; [done|]. destruct (position !! _); by res_inv.
  - intros [Hv ->]. assert (ext_name d ≠ "") as Hne by (by apply validExtName_spec in Hv as [? _]).
    rewrite bool_decide_eq_false_2 by done. rewrite Hv. simpl.
    by destruct (position !! _).
Qed.

Lemma requests_inv_step decls st d st' :
  requests_inv decls st → declare_extension st d = Ok st' →
  requests_inv (decls ++ [d.2]) st'.
Proof.
  intros [Hpos Hdef Hnames Hreq] [_ ->]%declare_extension_ok.
  destruct st as [position requests], d as [j d]; simpl in *.
  destruct (position !! ext_name d) as [i|] eqn:E.
  - pose proof E as Hi. apply Hpos in Hi.
    assert (Hsame : er_name <$> <[i := {| er_name := ext_name d; er_required := negb (EX_Optional d) |}]> requests
                    = er_name <$> requests).
    { rewrite list_fmap_insert. simpl. by apply list_insert_id. }
    split; simpl; rewrite ?Hsame; try done.
    + intros n. rewrite Hnames, fmap_app, elem_of_app. simpl.
      rewrite list_elem_of_singleton.
      assert (ext_name d ∈ er_name <$> requests) as Hin by (by eapply list_elem_of_lookup_2).
      apply Hnames in Hin. naive_solver.
    + apply Forall_lookup. intros k r Hk. rewrite required_by_snoc.
      apply list_lookup_insert_Some in Hk as [(<- & <- & _)|[Hne Hk]]; simpl.
      { by rewrite decide_True. }
      rewrite decide_False; [by eapply (proj1 (Forall_lookup _ _) Hreq)|].
      intros Heq. apply Hne.
      assert ((er_name <$> requests) !! k = Some (ext_name d)) as Hk'%Hpos.
      { by rewrite list_lookup_fmap, Hk, Heq. }
      congruence.
  - assert (Hout : ext_name d ∉ er_name <$> requests).
    { intros [i Hi]%list_elem_of_lookup. apply Hpos in Hi. congruence. }
    split; simpl; rewrite ?fmap_app; simpl.
    + intros n i. rewrite lookup_insert_Some, lookup_app_Some, Hpos, length_fmap. split.
      * intros [[<- <-]|[? Hi]]; [|by left]. right. split; [done|].
        by rewrite Nat.sub_diag.
      * intros [Hi|[Hlen Hi]].
        -- right. split; [|done]. intros <-. apply Hout. by eapply list_elem_of_lookup_2.
        -- left. apply list_lookup_singleton_Some in Hi as [? <-]. split; [done|lia].
    + by apply prefix_app_r.
    + intros n. rewrite !elem_of_app, Hnames. simpl. tauto.
    + apply Forall_app. split; [|constructor; [|constructor]].
      * apply Forall_forall. intros r Hr. rewrite required_by_snoc, decide_False.
        { by apply (proj1 (Forall_forall _ _) Hreq). }
        intros Heq. apply Hout. rewrite Heq. by apply list_elem_of_fmap_2.
      * simpl. by rewrite required_by_snoc, decide_True.
Qed.

Lemma imap_pair_snd {A} (l : list A) : (imap pair l).*2 = l.
Proof.
  rewrite fmap_imap. transitivity (id <$> l); [|apply list_fmap_id].
  rewrite <-imap_const. by apply imap_ext.
Qed.

Lemma resolveExtensions_inv decls reqs :
  resolveExtensions decls = Ok reqs → ∃ m, requests_inv decls (m, reqs).
Proof.
  unfold resolveExtensions. rewrite bind_ok. intros ([m rs] & H & [= <-]). exists m.
  simpl. rewrite <-(imap_pair_snd decls).
  revert H. refine (fold_result_inv declare_extension (λ pre st, requests_inv pre.*2 st)
    _ _ _ requests_inv_default _).
  intros pre d t t' Hinv _ Hd. rewrite fmap_app. by eapply requests_inv_step.
Qed.

Lemma extension_fold_is_ok st ds :
  is_ok (fold_result declare_extension st ds) = true ↔ Forall (λ d, ext_ok d.2) ds.
Proof.
  revert st. induction ds as [|d ds IH]; intros st; simpl; [by split|].
  rewrite Forall_cons. destruct (declare_extension st d) as [st'|e] eqn:E; simpl.
  - rewrite IH. apply declare_extension_ok in E as [? _]. naive_solver.
  - split; [done|]. intros [Hd _].
    assert (declare_extension st d = Ok _) as E2 by (apply declare_extension_ok; by split).
    by rewrite E in E2.
Qed.

Lemma requests_inv_NoDup decls m reqs : requests_inv decls (m, reqs) → NoDup (er_name <$> reqs).
Proof.
  intros [Hpos _ _ _]. simpl in *. apply NoDup_alt. intros i j n Hi%Hpos Hj%Hpos. congruence.
Qed.

(** The extension list is rejected only for an unsafe name; otherwise each
    extension is requested once, the convenience defaults come first in their
    order, nothing else but the declared ones is requested, and an extension is
    required exactly when its last declaration is not optional: a declaration
    upgrades a default, and an undeclared default stays a convenience. *)
Theorem resolveExtensions_correct decls :
  (is_ok (resolveExtensions decls) = true ↔ Forall ext_ok decls) ∧
  (∀ reqs, resolveExtensions decls = Ok reqs →
     NoDup (er_name <$> reqs) ∧
     defaultExtensions `prefix_of` (er_name <$> reqs) ∧
     (∀ n, n ∈ er_name <$> reqs ↔ n ∈ defaultExtensions ∨ n ∈ ext_name <$> decls) ∧
     Forall (λ r, er_required r = required_by (er_name r) decls) reqs).
Proof.
  split.
  - unfold resolveExtensions.
    transitivity (Forall (λ d, ext_ok d.2) (imap pair decls)).
    + rewrite <-(extension_fold_is_ok (foldl default_extension (∅, []) defaultExtensions)).
      by destruct (fold_result _ _ _).
    + change (Forall (λ d, ext_ok d.2) (imap pair decls))
        with (Forall (ext_ok ∘ snd) (imap pair decls)).
      by rewrite <-Forall_fmap, imap_pair_snd.
  - intros reqs [m Hinv]%resolveExtensions_inv.
    split; [by eapply requests_inv_NoDup|]. by destruct Hinv.
Qed.

(** ** Witnesses *)

Definition schema_fs : FileSystem :=
  table_fs [("/svc/migrations", [file "1_init.up.sql"]);
            ("/svc/../billing/migrations", []);
            ("/billing/migrations", [file "1_bill.up.sql"; file "1_bill.down.sql"])].
Definition example_decls : list MigrationSource :=
  [{| MS_Name := " billing "; MS_Path := ""; MS_Optional := false |};
   {| MS_Name := "audit"; MS_Path := "/nowhere"; MS_Optional := true |}].

Lemma lineage_ledgers_distinct_witness :
  NoDup (trackingTable <$> own_source "/svc/migrations" ::
    (decl_source "/svc" <$> example_decls)) ∧
  is_ok (declaredMigrationSources "/svc"
    (example_decls ++ [{| MS_Name := "audit"; MS_Path := ""; MS_Optional := false |}])) = false.
Proof.
  split; [|vm_compute; reflexivity].
  apply (proj1 (lineage_ledgers_distinct "/svc" "/svc/migrations" example_decls)).
  vm_compute. reflexivity.
Defined.

Lemma resolution_faithful_witness :
  ∃ sources skipped,
    resolveMigrationSources (fs := schema_fs) "/svc" "/svc/migrations" example_decls
      = Ok (sources, skipped) ∧
    label <$> sources = ["store"; "billing"] ∧ sk_name <$> skipped = ["audit"] ∧
    NoDup (trackingTable <$> sources).
Proof.
  eexists _, _. split; [vm_compute; reflexivity|]. split; [vm_compute; reflexivity|].
  split; [vm_compute; reflexivity|].
  eapply (resolution_faithful (fs := schema_fs) "/svc" "/svc/migrations" example_decls).
  vm_compute. reflexivity.
Defined.

Lemma resolveExtensions_correct_witness :
  ∃ reqs, resolveExtensions [{| EX_Name := "postgis"; EX_Optional := true |};
                             {| EX_Name := "vector"; EX_Optional := false |}] = Ok reqs ∧
    NoDup (er_name <$> reqs) ∧ er_required <$> reqs = [true; false; false; false; false; false; false].
Proof.
  eexists. split; [vm_compute; reflexivity|]. split; [|vm_compute; reflexivity].
  eapply (resolveExtensions_correct
    [{| EX_Name := "postgis"; EX_Optional := true |}; {| EX_Name := "vector"; EX_Optional := false |}]).
  vm_compute. reflexivity.
Defined.
