(* ===== verification/RuntimeRoles.v ===== *)
(** The runtime roles and credentials of one database ([runtime_access.go], and
    [LoadConfiguration] of [main.go]): the role names derived from the database
    name, the normalisation of the declared schemas and delegated roles, the
    declared logins, and the passwords loaded for them. *)
From S2P Require Import Prelude GoStrings Sha256 Timeouts Settings.

(** ** Keys and modes *)

Definition ownerConnectionKey : string := "owner-connection".
Definition readOnlyConnectionKey : string := "read-only-connection".
Definition readWriteConnectionKey : string := "read-write-connection".
Definition authModePassword : string := "password".
Definition authModeExternalIdentity : string := "external-identity".

Definition externalIdentity (s : Settings) : bool :=
  bool_decide (AuthMode s = authModeExternalIdentity).

Definition validateAuthMode (s : Settings) : result unit :=
  guard_err (negb (bool_decide (AuthMode s ∈ [""; authModePassword; authModeExternalIdentity])))
    (ENew "unsupported postgres auth mode %q" [AuthMode s]).

(** ** Unicode

    The tables of Go's [unicode] package: lower-casing of one rune and the
    letter and decimal digit classes. *)
Class Unicode := {
  lower_rune : Z → Z;
  is_letter : Z → bool;
  is_unicode_digit : Z → bool;
}.
Class UnicodeLaws (u : Unicode) := {
  letter_ascii : ∀ r, 0 ≤ r < 128 → is_letter r = is_lower r || is_upper r;
  digit_ascii : ∀ r, 0 ≤ r < 128 → is_unicode_digit r = is_digit r;
  rune_nonneg : ∀ r, is_letter r || is_unicode_digit r = true → 0 ≤ r;
}.

(** The tables restricted to ASCII. *)
Definition ascii_unicode : Unicode := {|
  lower_rune r := if is_upper r then r + 32 else r;
  is_letter r := is_lower r || is_upper r;
  is_unicode_digit := is_digit |}.

#[export] Instance ascii_unicode_laws : UnicodeLaws ascii_unicode.
Proof.
  split; try done. simpl. intros r. unfold is_lower, is_upper, is_digit, in_range. lia.
Qed.

(** ** Role names *)

Section roles.
Context {u : Unicode}.

(** One rune of [strings.ToLower(database)] met by the slug loop. *)
Definition slug_step (slug : list ascii) (r : Z) : list ascii :=
  if is_letter r || is_unicode_digit r then
    if r <=? 127 then slug ++ [chr r] else slug
  else
    match last slug with
    | None => slug
    | Some c => if decide (c = "_"%char) then slug else slug ++ ["_"%char]
    end.

Fixpoint drop_underscores (l : list ascii) : list ascii :=
  match l with
  | c :: l' => if decide (c = "_"%char) then drop_underscores l' else l
  | [] => []
  end.
(** [strings.Trim(s, "_")]. *)
Definition trim_underscores (l : list ascii) : list ascii :=
  reverse (drop_underscores (reverse (drop_underscores l))).

Definition runtimeRolePrefix (database : string) : string :=
  let slug := foldl slug_step [] (lower_rune <$> runes database) in
  let base := trim_underscores slug in
  let base := if bool_decide (base = []) then bytes "database" else base in
  let base := take 24 base in
  let digest := hex (of_bytes (take 4 (bytes (sha256 database)))) in
  "codefly_" +:+ of_bytes base +:+ "_" +:+ digest.

Definition runtimeRoleNames (database : string) : string * string :=
  let prefix := runtimeRolePrefix database in (prefix +:+ "_ro", prefix +:+ "_rw").
End roles.

(** ** Normalisation of the declared names *)

Definition normalize_schema (st : gset string * list string) (raw : string) :
    result (gset string * list string) :=
  let schema := trim_space raw in
  _ ← guard_err (negb (validSQLIdentifier schema))
        (ENew "runtime schema %q is not a safe SQL identifier" [raw]);
  if decide (schema ∈ st.1) then Ok st else Ok ({[schema]} ∪ st.1, st.2 ++ [schema]).

Definition normalizedRuntimeSchemas (configured : list string) : result (list string) :=
  if bool_decide (configured = []) then Ok ["public"]
  else
    st ← fold_result normalize_schema (∅, []) configured;
    _ ← guard_err (bool_decide (st.2 = [])) (ENew "at least one runtime schema is required" []);
    Ok st.2.

Definition normalize_role (managed : gset string) (st : gset string * list string)
    (raw : string) : result (gset string * list string) :=
  let role := trim_space raw in
  _ ← guard_err (negb (validSQLIdentifier role))
        (ENew "runtime read-write role %q is not a safe SQL identifier" [raw]);
  _ ← guard_err (bool_decide (role ∈ managed))
        (ENew "runtime read-write role %q conflicts with a managed login role" [role]);
  if decide (role ∈ st.1) then Ok st else Ok ({[role]} ∪ st.1, st.2 ++ [role]).

Definition normalizedRuntimeReadWriteRoles (configured managedRoles : list string) :
    result (list string) :=
  st ← fold_result (normalize_role (list_to_set managedRoles)) (∅, []) configured;
  Ok st.2.

Definition defaultRuntimeReadWriteRole (roles : list string) : string :=
  match roles with [] => "" | role :: _ => role end.

(** ** Declared logins *)

Record runtimeLogin := {
  rl_name : string;
  rl_role : string;
  rl_passwordKey : string;
  rl_connectionKey : string;
  rl_readWriteRoles : list string;
}.

Definition maxRuntimeLoginNameLength : Z := 16.
Definition reservedRuntimeLoginNames : list string := ["owner"; "read-only"; "read-write"].

Definition login_rune (r : Z) : bool := is_lower r || is_digit r || (r =? 45).

Definition validRuntimeLoginName (name : string) : bool :=
  match bytes name with
  | [] => false
  | c :: _ =>
    negb ((maxRuntimeLoginNameLength <? len name) || (code c <? 97) || (122 <? code c)
          || has_suffix name "-")
    && forallb login_rune (runes name)
  end.

Section logins.
Context {u : Unicode}.

Definition login_slug (name : string) : string := replace_byte "-"%char "_"%char name.

(** One iteration of the loop of [resolveRuntimeLogins]. *)
Definition resolve_login (readOnlyRole readWriteRole prefix : string)
    (st : gset string * list runtimeLogin) (declared : RuntimeLogin) :
    result (gset string * list runtimeLogin) :=
  let name := RL_Name declared in
  _ ← guard_err (negb (validRuntimeLoginName name))
        (ENew "runtime login name %q must be 1-%d lower-case letters, digits and dashes, starting with a letter" [name]);
  _ ← guard_err (bool_decide (name ∈ reservedRuntimeLoginNames))
        (ENew "runtime login name %q is reserved for a managed credential" [name]);
  _ ← guard_err (bool_decide (name ∈ st.1)) (ENew "runtime login %q is declared twice" [name]);
  let slug := login_slug name in
  let role := prefix +:+ "_" +:+ slug in
  _ ← guard_err (bool_decide (role = readOnlyRole) || bool_decide (role = readWriteRole))
        (ENew "runtime login %q collides with a managed login role" [name]);
  roles ← wrap_err "runtime login %q: %w" [name]
            (normalizedRuntimeReadWriteRoles (RL_ReadWriteRoles declared)
               [readOnlyRole; readWriteRole; role]);
  _ ← guard_err (bool_decide (roles = []))
        (ENew "runtime login %q must declare at least one read-write role: a login's only write authority is delegated" [name]);
  Ok ({[name]} ∪ st.1,
      st.2 ++ [{| rl_name := name; rl_role := role;
                  rl_passwordKey := "POSTGRES_" +:+ map_bytes upper_byte slug +:+ "_PASSWORD";
                  rl_connectionKey := name +:+ "-connection";
                  rl_readWriteRoles := roles |}]).

Definition resolveRuntimeLogins (s : Settings) : result (list runtimeLogin) :=
  if bool_decide (RuntimeLogins s = []) then Ok []
  else
    _ ← guard_err (externalIdentity s)
          (ENew "runtime-logins are password principals; external-identity mode provisions its logins outside this service" []);
    _ ← guard_err (bool_decide (ExternalInstances s ≠ ∅))
          (ENew "runtime-logins are not supported with external-instances: the external binding carries one read-write principal" []);
    let '(readOnlyRole, readWriteRole) := runtimeRoleNames (DatabaseName s) in
    let prefix := trim_suffix readWriteRole "_rw" in
    st ← fold_result (resolve_login readOnlyRole readWriteRole prefix) (∅, []) (RuntimeLogins s);
    Ok st.2.
End logins.

(** ** Credentials *)

(** The [Service] fields the credentials are held in. *)
Record Credentials := {
  cr_settings : Settings;
  postgresUser : string;
  postgresPassword : string;
  readOnlyPassword : string;
  readWritePassword : string;
  loginPasswords : gmap string string;
}.

Definition nul : string := of_bytes [chr 0].

(** The bytes [deriveRuntimePassword] authenticates. *)
Definition derivation_message (database capability : string) : string :=
  ("codefly/service-postgres/runtime-password/v1" +:+ nul) +:+ database +:+ nul +:+ capability.

Definition deriveRuntimePassword (ownerPassword database capability : string) : string :=
  if blank ownerPassword then ""
  else hex (hmac_sha256 ownerPassword (derivation_message database capability)).

Section credentials.
Context {u : Unicode}.

Definition runtimeAccess (c : Credentials) : result (string * string) :=
  let s := cr_settings c in
  let '(readOnlyRole, readWriteRole) := runtimeRoleNames (DatabaseName s) in
  _ ← guard_err (bool_decide (postgresUser c = readOnlyRole) || bool_decide (postgresUser c = readWriteRole))
        (ENew "postgres owner user conflicts with a managed runtime role" []);
  _ ← normalizedRuntimeSchemas (RuntimeSchemas s);
  _ ← normalizedRuntimeReadWriteRoles (RuntimeReadWriteRoles s) [readOnlyRole; readWriteRole];
  Ok (readOnlyRole, readWriteRole).

Definition validate_login_password (c : Credentials) (used : gmap string string)
    (login : runtimeLogin) : result (gmap string string) :=
  let password := default "" (loginPasswords c !! rl_name login) in
  _ ← guard_err (blank password) (ENew "%s must not be empty" [rl_passwordKey login]);
  match used !! password with
  | Some other =>
    Err (ENew "the %s login password must be distinct from the %s password" [rl_name login; other])
  | None => Ok (<[password := rl_name login]> used)
  end.

Definition validateCredentials (c : Credentials) : result unit :=
  let s := cr_settings c in
  _ ← guard_err (blank (DatabaseName s)) (ENew "database name is required" []);
  _ ← guard_err (blank (postgresUser c)) (ENew "postgres owner user is required" []);
  _ ← validateAuthMode s;
  _ ← (if externalIdentity s then Ok tt
       else
         _ ← each (λ p : string * string,
                     guard_err (blank p.2) (ENew "%s must not be empty" [p.1]))
               [("POSTGRES_PASSWORD", postgresPassword c);
                ("POSTGRES_READ_ONLY_PASSWORD", readOnlyPassword c);
                ("POSTGRES_READ_WRITE_PASSWORD", readWritePassword c)];
         guard_err (bool_decide (postgresPassword c = readOnlyPassword c)
                    || bool_decide (postgresPassword c = readWritePassword c)
                    || bool_decide (readOnlyPassword c = readWritePassword c))
           (ENew "owner, read-only, and read-write passwords must be distinct" []));
  _ ← runtimeAccess c;
  logins ← resolveRuntimeLogins s;
  (* a map literal evaluated in order: a later equal key wins *)
  let used := <[readWritePassword c := "read-write"]> (<[readOnlyPassword c := "read-only"]>
                (<[postgresPassword c := "owner"]> ∅)) in
  _ ← fold_result (validate_login_password c) used logins;
  Ok tt.

(** [resources.GetConfigurationValue] on the "postgres" configuration, the
    native owner that replaces the configured one when set, and the settings of
    the loaded service. *)
Context (get : string → result string) (nativeOwner : string) (s : Settings).

Definition load_login_password (owner : string) (passwords : gmap string string)
    (login : runtimeLogin) : result (gmap string string) :=
  password ← wrap_err "cannot get the %s login password" [rl_name login] (get (rl_passwordKey login));
  let password := if blank password
    then deriveRuntimePassword owner (DatabaseName s) (rl_connectionKey login) else password in
  Ok (<[rl_name login := password]> passwords).

Definition LoadConfiguration : result Credentials :=
  user ← wrap_err "cannot get user" [] (get "POSTGRES_USER");
  let user := if bool_decide (nativeOwner ≠ "") then nativeOwner else user in
  owner ← wrap_err "cannot get password" [] (get "POSTGRES_PASSWORD");
  ro ← wrap_err "cannot get read-only runtime password" [] (get "POSTGRES_READ_ONLY_PASSWORD");
  rw ← wrap_err "cannot get read-write runtime password" [] (get "POSTGRES_READ_WRITE_PASSWORD");
  let ro := if blank ro then deriveRuntimePassword owner (DatabaseName s) readOnlyConnectionKey else ro in
  let rw := if blank rw then deriveRuntimePassword owner (DatabaseName s) readWriteConnectionKey else rw in
  logins ← resolveRuntimeLogins s;
  passwords ← fold_result (load_login_password owner) ∅ logins;
  let c := {| cr_settings := s; postgresUser := user; postgresPassword := owner;
              readOnlyPassword := ro; readWritePassword := rw; loginPasswords := passwords |} in
  _ ← validateCredentials c;
  Ok c.
End credentials.

(** ** Role names are bounded, safe identifiers *)

Lemma ident_chr r : is_alnum r = true → ident_byte (chr r) = true.
Proof.
  intros H. unfold ident_byte, identifier_rune. rewrite code_chr; [by rewrite H, orb_true_r|].
  unfold is_alnum, is_lower, is_upper, is_digit, in_range in H. lia.
Qed.

Lemma drop_underscores_suffix l : ∃ pre, l = pre ++ drop_underscores l.
Proof.
  induction l as [|c l [pre IH]]; [by exists []|]. simpl.
  case_decide; [|by exists []]. exists (c :: pre). by rewrite IH at 1.
Qed.

Lemma forallb_trim_underscores p l :
  forallb p l = true → forallb p (trim_underscores l) = true.
Proof.
  assert (Hd : ∀ l, forallb p l = true → forallb p (drop_underscores l) = true).
  { intros l0 H. destruct (drop_underscores_suffix l0) as [pre Hl]. rewrite Hl, forallb_app in H.
    by apply andb_true_iff in H as [_ ?]. }
  assert (Hr : ∀ l, forallb p (reverse l) = forallb p l).
  { intros l0. induction l0 as [|x l0 IH]; [done|].
    rewrite reverse_cons, forallb_app, IH. simpl. by rewrite andb_true_r, andb_comm. }
  intros H. unfold trim_underscores. rewrite Hr. apply Hd. rewrite Hr. by apply Hd.
Qed.

Lemma forallb_take {A} (p : A → bool) n l : forallb p l = true → forallb p (take n l) = true.
Proof.
  rewrite !Forall_forallb. apply Forall_take.
Qed.

Section role_names.
Context {u : Unicode} `{!UnicodeLaws u}.

Lemma slug_step_ident slug r :
  forallb ident_byte slug = true → forallb ident_byte (slug_step slug r) = true.
Proof.
  intros Hs. unfold slug_step. destruct (is_letter r || is_unicode_digit r) eqn:E.
  - destruct (Z.leb_spec r 127); [|done]. rewrite forallb_app, Hs. simpl.
    rewrite andb_true_r. apply ident_chr. pose proof (rune_nonneg r E).
    rewrite letter_ascii, digit_ascii in E by lia. done.
  - destruct (last slug); [|done]. case_decide; [done|]. rewrite forallb_app, Hs. by vm_compute.
Qed.

Lemma slug_ident rs slug :
  forallb ident_byte slug = true → forallb ident_byte (foldl slug_step slug rs) = true.
Proof. revert slug. induction rs as [|r rs IH]; intros slug H; [done|]. by apply IH, slug_step_ident. Qed.

Lemma runtimeRolePrefix_parts database :
  ∃ base digest, runtimeRolePrefix database = "codefly_" +:+ base +:+ "_" +:+ digest ∧
    0 ≤ len base ≤ 24 ∧ len digest = 8 ∧
    all_bytes ident_byte base = true ∧ all_bytes ident_byte digest = true.
Proof.
  unfold runtimeRolePrefix. eexists (of_bytes (take 24 _)), _. split; [reflexivity|]. split_and!.
  - apply len_nonneg.
  - rewrite len_bytes, bytes_of_bytes, length_take. lia.
  - rewrite len_hex, !len_bytes, bytes_of_bytes, length_take.
    pose proof (len_sha256 database) as H. rewrite len_bytes in H. lia.
  - unfold all_bytes. rewrite bytes_of_bytes. apply forallb_take.
    case_bool_decide; [by vm_compute|]. by apply forallb_trim_underscores, slug_ident.
  - eapply all_bytes_impl; [|apply hex_all]. intros c.
    unfold hex_byte, ident_byte, identifier_rune, is_alnum, is_lower, is_upper, is_digit, in_range.
    lia.
Qed.

Lemma runtimeRolePrefix_bound database :
  17 ≤ len (runtimeRolePrefix database) ≤ 41 ∧
  all_bytes ident_byte (runtimeRolePrefix database) = true.
Proof.
  destruct (runtimeRolePrefix_parts database) as (base & digest & -> & Hb & Hd & Hbi & Hdi).
  rewrite !len_app, !all_bytes_app, Hbi, Hdi.
  assert (len "codefly_" = 8) by (by vm_compute). assert (len "_" = 1) by (by vm_compute).
  split; [lia|]. by vm_compute.
Qed.

Lemma derived_role_safe database suffix :
  all_bytes ident_byte suffix = true →
  safe_identifier (runtimeRolePrefix database +:+ suffix) ∧
  len (runtimeRolePrefix database +:+ suffix) ≤ 41 + len suffix.
Proof.
  intros Hs. destruct (runtimeRolePrefix_bound database) as [Hl Hi].
  rewrite len_app. split; [split|lia].
  - intros H%(f_equal len). rewrite len_app in H. pose proof (len_nonneg suffix).
    change (len "") with 0 in H. lia.
  - by rewrite all_bytes_app, Hi, Hs.
Qed.

(** For every database name, the two managed role names derived from it are
    distinct identifiers PostgreSQL keeps whole: safe characters only, at most 44
    of 63 bytes (a stem of at most 41), whatever the name contains. *)
Theorem runtimeRoleNames_safe database :
  let '(ro, rw) := runtimeRoleNames database in
  safe_identifier ro ∧ safe_identifier rw ∧ ro ≠ rw ∧
  len ro ≤ 44 ∧ len rw ≤ 44 ∧
  len (runtimeRolePrefix database) ≤ 41 ∧ has_prefix ro "codefly_" = true.
Proof.
  unfold runtimeRoleNames.
  destruct (derived_role_safe database "_ro") as [H1 H2]; [by vm_compute|].
  destruct (derived_role_safe database "_rw") as [H3 H4]; [by vm_compute|].
  assert (len "_ro" = 3) by (by vm_compute). assert (len "_rw" = 3) by (by vm_compute).
  destruct (runtimeRolePrefix_bound database) as [? _].
  split_and!; try done; try lia.
  - intros Heq%append_inj_r. discriminate Heq.
Qed.
End role_names.

Lemma runtimeRoleNames_safe_witness :
  runtimeRoleNames (u := ascii_unicode) "My-Store (prod)"
    = ("codefly_my_store_prod_5df7d525_ro", "codefly_my_store_prod_5df7d525_rw") ∧
  safe_identifier "codefly_my_store_prod_5df7d525_ro".
Proof.
  split; [vm_compute; reflexivity|].
  destruct (runtimeRoleNames_safe (u := ascii_unicode) "My-Store (prod)") as [H _]. exact H.
Defined.

(** ** Normalisation keeps first occurrences *)

Fixpoint first_occurrences (seen : gset string) (l : list string) : list string :=
  match l with
  | [] => []
  | x :: l => if decide (x ∈ seen) then first_occurrences seen l
              else x :: first_occurrences ({[x]} ∪ seen) l
  end.

Lemma first_occurrences_elem seen l x :
  x ∈ first_occurrences seen l ↔ x ∈ l ∧ x ∉ seen.
Proof.
  revert seen. induction l as [|y l IH]; intros seen; simpl; [set_solver|].
  case_decide; rewrite ?elem_of_cons, IH; [naive_solver|].
  destruct (decide (x = y)); set_solver.
Qed.
Lemma first_occurrences_NoDup seen l : NoDup (first_occurrences seen l).
Proof.
  revert seen. induction l as [|y l IH]; intros seen; simpl; [constructor|].
  case_decide; [done|]. constructor; [|done]. rewrite first_occurrences_elem. set_solver.
Qed.
Lemma first_occurrences_nil seen l : first_occurrences seen l = [] → ∀ x, x ∈ l → x ∈ seen.
Proof.
  intros H x Hx. destruct (decide (x ∈ seen)) as [|Hn]; [done|].
  assert (Hin : x ∈ first_occurrences seen l) by by apply first_occurrences_elem.
  rewrite H in Hin. by apply not_elem_of_nil in Hin.
Qed.

Lemma normalize_role_ok managed st raw st' :
  normalize_role managed st raw = Ok st' ↔
  (safe_identifier (trim_space raw) ∧ trim_space raw ∉ managed) ∧
  st' = if decide (trim_space raw ∈ st.1) then st
        else ({[trim_space raw]} ∪ st.1, st.2 ++ [trim_space raw]).
Proof.
  unfold normalize_role. rewrite <-validSQLIdentifier_spec. split.
  - intros H. res_inv. split; [done|]. case_decide; by injection H as <-.
  - intros [[-> Hm] ->]. simpl. rewrite bool_decide_eq_false_2 by done. simpl.
    by case_decide.
Qed.

Lemma normalize_schema_ok st raw st' :
  normalize_schema st raw = Ok st' ↔
  safe_identifier (trim_space raw) ∧
  st' = if decide (trim_space raw ∈ st.1) then st
        else ({[trim_space raw]} ∪ st.1, st.2 ++ [trim_space raw]).
Proof.
  unfold normalize_schema. rewrite <-validSQLIdentifier_spec. split.
  - intros H. res_inv. split; [done|]. case_decide; by injection H as <-.
  - intros [-> ->]. simpl. by case_decide.
Qed.

Section normalize_fold.
Context (f : gset string * list string → string → result (gset string * list string))
  (P : string → Prop).
Hypothesis Hf : ∀ st raw st', f st raw = Ok st' ↔
  P (trim_space raw) ∧
  st' = if decide (trim_space raw ∈ st.1) then st
        else ({[trim_space raw]} ∪ st.1, st.2 ++ [trim_space raw]).

Definition seen_after (seen : gset string) (l : list string) : gset string :=
  foldl (λ seen x, if decide (x ∈ seen) then seen else {[x]} ∪ seen) seen l.

Lemma normalize_fold_ok st configured st' :
  fold_result f st configured = Ok st' ↔
  Forall P (trim_space <$> configured) ∧
  st'.1 = seen_after st.1 (trim_space <$> configured) ∧
  st'.2 = st.2 ++ first_occurrences st.1 (trim_space <$> configured).
Proof.
  revert st. induction configured as [|raw l IH]; intros st; simpl.
  { rewrite app_nil_r. split; [intros [= <-]; by repeat split|].
    destruct st, st'. simpl. by intros (_ & -> & ->). }
  rewrite bind_ok, Forall_cons. setoid_rewrite Hf. setoid_rewrite IH.
  case_decide as Hin.
  - split; [naive_solver|]. intros ([? ?] & ? & ?). eexists. by split.
  - split.
    + intros (? & [? ->] & (? & -> & ->)). simpl. by rewrite <-(assoc_L (++)).
    + intros ([? ?] & H1 & H2). eexists. split; [done|]. simpl.
      by rewrite <-(assoc_L (++)).
Qed.
End normalize_fold.

Lemma normalizedRuntimeReadWriteRoles_ok configured managed roles :
  normalizedRuntimeReadWriteRoles configured managed = Ok roles ↔
  Forall (λ r, safe_identifier r ∧ r ∉ managed) (trim_space <$> configured) ∧
  roles = first_occurrences ∅ (trim_space <$> configured).
Proof.
  unfold normalizedRuntimeReadWriteRoles. rewrite bind_ok.
  setoid_rewrite (normalize_fold_ok _
    (λ r, safe_identifier r ∧ r ∉ list_to_set (C := gset string) managed)
    (normalize_role_ok (list_to_set managed))). simpl.
  setoid_rewrite elem_of_list_to_set. split.
  - intros ([a b] & (? & ? & ?) & [= <-]). by simpl in *.
  - intros [? ->]. by eexists (_, _).
Qed.

Lemma normalizedRuntimeSchemas_ok configured schemas :
  normalizedRuntimeSchemas configured = Ok schemas ↔
  (configured = [] ∧ schemas = ["public"]) ∨
  (configured ≠ [] ∧ Forall safe_identifier (trim_space <$> configured) ∧
   schemas = first_occurrences ∅ (trim_space <$> configured)).
Proof.
  unfold normalizedRuntimeSchemas. case_bool_decide as He; [naive_solver|].
  rewrite bind_ok. setoid_rewrite (normalize_fold_ok _ safe_identifier normalize_schema_ok). simpl. split.
  - intros ([a b] & (? & _ & Hb) & Hr). simpl in *. res_inv. naive_solver.
  - intros [?|(_ & ? & ->)]; [naive_solver|].
    eexists (_, _). simpl. split; [by split_and!|].
    rewrite bool_decide_eq_false_2; [done|]. intros Hnil.
    destruct configured as [|raw l]; [done|].
    by pose proof (first_occurrences_nil _ _ Hnil (trim_space raw) ltac:(left)) as ?%not_elem_of_empty.
Qed.

(** The declared schemas and delegated roles are accepted exactly when each,
    trimmed, is a safe identifier (and, for a role, not a managed login role);
    the result is then the declarations in order with repetitions dropped, and
    never an empty schema list. *)
Theorem normalization_correct configured managed :
  (∀ roles, normalizedRuntimeReadWriteRoles configured managed = Ok roles ↔
     Forall (λ r, safe_identifier r ∧ r ∉ managed) (trim_space <$> configured) ∧
     roles = first_occurrences ∅ (trim_space <$> configured)) ∧
  (∀ schemas, normalizedRuntimeSchemas configured = Ok schemas →
     schemas ≠ [] ∧ NoDup schemas ∧ Forall safe_identifier schemas ∧
     (configured ≠ [] → ∀ x, x ∈ schemas ↔ x ∈ trim_space <$> configured)) ∧
  (is_ok (normalizedRuntimeSchemas configured) = true ↔
     Forall safe_identifier (trim_space <$> configured)).
Proof.
  split; [apply normalizedRuntimeReadWriteRoles_ok|]. split.
  - intros schemas [[-> ->]|(Hne & Hall & ->)]%normalizedRuntimeSchemas_ok.
    + split_and!; [done|apply NoDup_singleton| |done].
      constructor; [|constructor]. split; [done|by vm_compute].
    + assert (Hiff : ∀ x, x ∈ first_occurrences ∅ (trim_space <$> configured) ↔
                          x ∈ trim_space <$> configured).
      { intros x. rewrite first_occurrences_elem. set_solver. }
      split_and!; [|apply first_occurrences_NoDup| |done].
      * intros Hnil. destruct configured as [|raw l]; [done|].
        by pose proof (first_occurrences_nil _ _ Hnil (trim_space raw) ltac:(left)) as ?%not_elem_of_empty.
      * rewrite Forall_forall in Hall |- *. intros x Hx%Hiff. by apply Hall.
  - destruct (normalizedRuntimeSchemas configured) as [schemas|e] eqn:E; simpl.
    + apply normalizedRuntimeSchemas_ok in E as [[-> _]|(_ & ? & _)]; [by split|naive_solver].
    + split; [done|]. intros Hall. exfalso.
      destruct (decide (configured = [])) as [->|Hne]; [done|].
      assert (Hok : normalizedRuntimeSchemas configured = Ok (first_occurrences ∅ (trim_space <$> configured))).
      { apply normalizedRuntimeSchemas_ok. right. by split_and!. }
      by rewrite E in Hok.
Qed.

Lemma normalization_correct_witness :
  normalizedRuntimeSchemas ["app "; "audit"; " app"] = Ok ["app"; "audit"] ∧ NoDup ["app"; "audit"].
Proof.
  split; [vm_compute; reflexivity|].
  apply (normalization_correct ["app "; "audit"; " app"] []). vm_compute. reflexivity.
Defined.

(** ** Declared logins own their names *)

Definition login_byte (c : ascii) : bool := login_rune (code c).
Definition slug_byte (c : ascii) : ascii := if decide (c = "-"%char) then "_"%char else c.
Definition key_byte (c : ascii) : ascii := upper_byte (slug_byte c).

(** Left inverses of the two renderings on login bytes. *)
Definition unslug_byte (c : ascii) : ascii := if decide (c = "_"%char) then "-"%char else c.

Lemma unslug_slug c : login_byte c = true → unslug_byte (slug_byte c) = c.
Proof. by destruct c as [[] [] [] [] [] [] [] []]; vm_compute. Qed.
Lemma unkey_key c : login_byte c = true → unslug_byte (lower_byte (key_byte c)) = c.
Proof. by destruct c as [[] [] [] [] [] [] [] []]; vm_compute. Qed.
Lemma slug_byte_ident c : login_byte c = true → ident_byte (slug_byte c) = true.
Proof. by destruct c as [[] [] [] [] [] [] [] []]; vm_compute. Qed.

Lemma map_bytes_cancel (f g : ascii → ascii) (p : ascii → bool) a b :
  (∀ c, p c = true → g (f c) = c) → all_bytes p a = true → all_bytes p b = true →
  map_bytes f a = map_bytes f b → a = b.
Proof.
  intros Hg Ha Hb Heq.
  assert (Hinv : ∀ s, all_bytes p s = true → map_bytes g (map_bytes f s) = s).
  { intros s Hs. unfold map_bytes, all_bytes in *. rewrite bytes_of_bytes.
    rewrite <-(of_bytes_bytes s) at 2. f_equal. rewrite Forall_forallb in Hs.
    induction Hs as [|c l Hc _ IH]; [done|].
    rewrite !fmap_cons. f_equal; [by apply Hg|done]. }
  by rewrite <-(Hinv a Ha), Heq, Hinv.
Qed.

Lemma map_bytes_all (f : ascii → ascii) (p q : ascii → bool) s :
  (∀ c, p c = true → q (f c) = true) → all_bytes p s = true → all_bytes q (map_bytes f s) = true.
Proof.
  intros Hf Hs. unfold map_bytes, all_bytes in *. rewrite bytes_of_bytes.
  rewrite !Forall_forallb in *. apply Forall_fmap. eapply Forall_impl; [exact Hs|]. exact Hf.
Qed.
Lemma len_map_bytes f s : len (map_bytes f s) = len s.
Proof. unfold map_bytes. by rewrite !len_bytes, bytes_of_bytes, length_fmap. Qed.
Lemma len_login_slug name : len (login_slug name) = len name.
Proof. apply len_map_bytes. Qed.
Lemma map_bytes_compose f g s : map_bytes f (map_bytes g s) = map_bytes (f ∘ g) s.
Proof. unfold map_bytes. rewrite bytes_of_bytes. f_equal. symmetry. apply list_fmap_compose. Qed.

Lemma validRuntimeLoginName_ok name :
  validRuntimeLoginName name = true →
  1 ≤ len name ≤ maxRuntimeLoginNameLength ∧ all_bytes login_byte name = true.
Proof.
  unfold validRuntimeLoginName. destruct (bytes name) as [|c l] eqn:E; [done|].
  intros [Hl Hr]%andb_true_iff. apply negb_true_iff in Hl.
  repeat (apply orb_false_iff in Hl as [Hl ?]). apply Z.ltb_ge in Hl.
  rewrite forallb_runes in Hr.
  - split; [|done]. split; [|done]. rewrite len_bytes, E. simpl. lia.
  - intros r. unfold login_rune, is_lower, is_digit, in_range. lia.
Qed.

Section login_facts.
Context {u : Unicode} `{!UnicodeLaws u} (database : string).
Let prefix := runtimeRolePrefix database.
Let ro := prefix +:+ "_ro".
Let rw := prefix +:+ "_rw".

Definition login_key (name : string) : string :=
  "POSTGRES_" +:+ map_bytes upper_byte (login_slug name) +:+ "_PASSWORD".

(** What one accepted declaration becomes. *)
Record resolved_login (l : runtimeLogin) : Prop := {
  rsl_name : validRuntimeLoginName (rl_name l) = true;
  rsl_reserved : rl_name l ∉ reservedRuntimeLoginNames;
  rsl_role : rl_role l = prefix +:+ "_" +:+ login_slug (rl_name l);
  rsl_managed : rl_role l ≠ ro ∧ rl_role l ≠ rw;
  rsl_password : rl_passwordKey l = login_key (rl_name l);
  rsl_connection : rl_connectionKey l = rl_name l +:+ "-connection";
  rsl_roles : rl_readWriteRoles l ≠ [] ∧ NoDup (rl_readWriteRoles l) ∧
    Forall (λ r, safe_identifier r ∧ r ∉ [ro; rw; rl_role l]) (rl_readWriteRoles l);
}.

Lemma resolve_login_ok st d st' :
  resolve_login ro rw prefix st d = Ok st' →
  ∃ l, rl_name l = RL_Name d ∧ RL_Name d ∉ st.1 ∧ resolved_login l ∧
       st' = ({[RL_Name d]} ∪ st.1, st.2 ++ [l]).
Proof.
  unfold resolve_login. intros H. res_inv.
  match goal with H : normalizedRuntimeReadWriteRoles _ _ = Ok ?rs |- _ =>
    rename rs into roles; apply normalizedRuntimeReadWriteRoles_ok in H as [Hall Hroles] end.
  eexists. split; [|split; [|split; [|reflexivity]]]; try done. split; try done; simpl in *.
  split_and!; [done|rewrite Hroles; apply first_occurrences_NoDup|].
  apply Forall_forall. intros r Hr. rewrite Hroles in Hr. apply first_occurrences_elem in Hr as [Hr _].
  by apply (proj1 (Forall_forall _ _) Hall).
Qed.

Lemma resolve_logins_fold ds st :
  fold_result (resolve_login ro rw prefix) (∅, []) ds = Ok st →
  rl_name <$> st.2 = RL_Name <$> ds ∧ NoDup (rl_name <$> st.2) ∧ Forall resolved_login st.2.
Proof.
  intros H. cut (rl_name <$> st.2 = RL_Name <$> ds ∧ NoDup (rl_name <$> st.2) ∧
    st.1 = list_to_set (rl_name <$> st.2) ∧ Forall resolved_login st.2); [naive_solver|].
  revert H. refine (fold_result_inv _ (λ pre st, rl_name <$> st.2 = RL_Name <$> pre ∧
    NoDup (rl_name <$> st.2) ∧ st.1 = list_to_set (rl_name <$> st.2) ∧
    Forall resolved_login st.2) _ _ _ _ _).
  { split_and!; try done; constructor. }
  intros pre d t t' (Hn & Hnd & Hs & Hall) _ (l & Hl & Hnotin & Hr & ->)%resolve_login_ok.
  simpl. rewrite !fmap_app, Hn. simpl. rewrite Hl. split_and!; try done.
  - apply NoDup_snoc. rewrite <-Hn. split; [done|]. rewrite Hs in Hnotin.
    by rewrite elem_of_list_to_set in Hnotin.
  - rewrite list_to_set_app_L, Hs, Hn. simpl. set_solver.
  - apply Forall_app. by split; [|constructor].
Qed.

Lemma resolved_login_inj {B} (f : runtimeLogin → B) ls :
  (∀ a b, resolved_login a → resolved_login b → f a = f b → rl_name a = rl_name b) →
  Forall resolved_login ls → NoDup (rl_name <$> ls) → NoDup (f <$> ls).
Proof.
  intros Hf. induction ls as [|l ls IH]; intros Hall Hnd; [constructor|].
  apply Forall_cons in Hall as [Hl Hall]. simpl in *. apply NoDup_cons in Hnd as [Hnotin Hnd].
  constructor; [|by apply IH]. intros (l' & Heq & Hin)%list_elem_of_fmap.
  apply Hnotin. rewrite Forall_forall in Hall. apply list_elem_of_fmap.
  exists l'. split; [|done]. by apply Hf; [|apply Hall|].
Qed.

Lemma login_slug_inj a b :
  validRuntimeLoginName a = true → validRuntimeLoginName b = true →
  login_slug a = login_slug b → a = b.
Proof.
  intros [_ Ha]%validRuntimeLoginName_ok [_ Hb]%validRuntimeLoginName_ok.
  apply (map_bytes_cancel slug_byte unslug_byte login_byte); [apply unslug_slug|done..].
Qed.

Lemma login_upper_inj a b :
  all_bytes login_byte a = true → all_bytes login_byte b = true →
  map_bytes upper_byte (login_slug a) = map_bytes upper_byte (login_slug b) → a = b.
Proof.
  intros Ha Hb. unfold login_slug, replace_byte. rewrite !map_bytes_compose.
  apply (map_bytes_cancel key_byte (unslug_byte ∘ lower_byte) login_byte); try done.
  apply unkey_key.
Qed.

Lemma login_key_inj a b :
  all_bytes login_byte a = true → all_bytes login_byte b = true →
  login_key a = login_key b → a = b.
Proof.
  intros Ha Hb H%append_inj_r%append_inj_l. by apply login_upper_inj.
Qed.

Lemma resolved_password_managed l : resolved_login l →
  rl_passwordKey l ∉ ["POSTGRES_PASSWORD"; "POSTGRES_READ_ONLY_PASSWORD"; "POSTGRES_READ_WRITE_PASSWORD"].
Proof.
  intros [Hv Hres _ _ -> _ _]. apply validRuntimeLoginName_ok in Hv as [Hlen Hall].
  rewrite !not_elem_of_cons. split_and!; [| | |apply not_elem_of_nil].
  - intros H%(f_equal len). unfold login_key in H.
    rewrite !len_app, len_map_bytes, len_login_slug in H.
    assert (len "POSTGRES_" = 9) by (by vm_compute). assert (len "_PASSWORD" = 9) by (by vm_compute).
    assert (len "POSTGRES_PASSWORD" = 17) by (by vm_compute). lia.
  - change "POSTGRES_READ_ONLY_PASSWORD" with (login_key "read-only").
    intros H%login_key_inj; [|done|by vm_compute]. apply Hres. rewrite H. by vm_compute; set_solver.
  - change "POSTGRES_READ_WRITE_PASSWORD" with (login_key "read-write").
    intros H%login_key_inj; [|done|by vm_compute]. apply Hres. rewrite H. by vm_compute; set_solver.
Qed.

Lemma resolved_connection_managed l : resolved_login l →
  rl_connectionKey l ∉ [ownerConnectionKey; readOnlyConnectionKey; readWriteConnectionKey].
Proof.
  intros [_ Hres _ _ _ -> _] Hin. apply Hres. unfold reservedRuntimeLoginNames.
  rewrite !elem_of_cons in *.
  destruct Hin as [H|[H|[H|?%not_elem_of_nil]]]; [| | |done].
  - left. by apply (append_inj_l "-connection").
  - right; left. by apply (append_inj_l "-connection").
  - right; right; left. by apply (append_inj_l "-connection").
Qed.

Lemma resolved_role_bound l : resolved_login l → safe_identifier (rl_role l) ∧ len (rl_role l) ≤ 58.
Proof.
  intros [Hv _ -> _ _ _ _]. apply validRuntimeLoginName_ok in Hv as [Hlen Hall].
  destruct (derived_role_safe database ("_" +:+ login_slug (rl_name l))) as [Hs Hl].
  - rewrite all_bytes_app. apply andb_true_iff. split; [by vm_compute|].
    by apply (map_bytes_all slug_byte login_byte ident_byte), Hall; apply slug_byte_ident.
  - split; [done|]. rewrite (len_app "_"), len_login_slug in Hl. assert (len "_" = 1) by (by vm_compute).
    unfold maxRuntimeLoginNameLength in Hlen. fold prefix in Hl. lia.
Qed.
End login_facts.

Lemma resolveRuntimeLogins_inv {u : Unicode} `{!UnicodeLaws u} s logins :
  resolveRuntimeLogins s = Ok logins →
  rl_name <$> logins = RL_Name <$> RuntimeLogins s ∧ NoDup (rl_name <$> logins) ∧
  Forall (resolved_login (DatabaseName s)) logins ∧
  (logins ≠ [] → externalIdentity s = false ∧ ExternalInstances s = ∅).
Proof.
  unfold resolveRuntimeLogins, runtimeRoleNames. case_bool_decide as He.
  { intros [= <-]. rewrite He. split_and!; try done; constructor. }
  intros H. res_inv. match goal with H : fold_result _ _ _ = Ok _ |- _ =>
    rewrite trim_suffix_app in H; apply resolve_logins_fold in H as (? & ? & ?) end.
  split_and!; try done. intros _. split; [done|]. by apply dec_stable.
Qed.

(** The declared logins resolve, in order, to principals that never share
    anything with one another or with the managed credentials: roles, password
    keys and connection keys are pairwise distinct and outside the managed ones,
    every role is a safe identifier PostgreSQL keeps whole, and every login has
    at least one delegated role, none of which is a managed role or itself; and
    logins never resolve in external-identity mode or with external instances. *)
Theorem resolveRuntimeLogins_distinct {u : Unicode} `{!UnicodeLaws u} s logins :
  resolveRuntimeLogins s = Ok logins →
  let '(ro, rw) := runtimeRoleNames (DatabaseName s) in
  rl_name <$> logins = RL_Name <$> RuntimeLogins s ∧
  NoDup (ro :: rw :: (rl_role <$> logins)) ∧
  NoDup ("POSTGRES_PASSWORD" :: "POSTGRES_READ_ONLY_PASSWORD" :: "POSTGRES_READ_WRITE_PASSWORD"
         :: (rl_passwordKey <$> logins)) ∧
  NoDup (ownerConnectionKey :: readOnlyConnectionKey :: readWriteConnectionKey
         :: (rl_connectionKey <$> logins)) ∧
  Forall (λ l, safe_identifier (rl_role l) ∧ len (rl_role l) ≤ 63 ∧
    rl_readWriteRoles l ≠ [] ∧ NoDup (rl_readWriteRoles l) ∧
    Forall (λ r, safe_identifier r ∧ r ∉ [ro; rw; rl_role l]) (rl_readWriteRoles l)) logins ∧
  (logins ≠ [] → externalIdentity s = false ∧ ExternalInstances s = ∅).
Proof.
  intros (Hn & Hnd & Hall & Hmode)%resolveRuntimeLogins_inv. unfold runtimeRoleNames.
  assert (Hin : ∀ {B} (f : runtimeLogin → B) x, x ∈ f <$> logins →
            ∃ l, resolved_login (DatabaseName s) l ∧ x = f l).
  { intros B f x (l & -> & Hl)%list_elem_of_fmap. rewrite Forall_forall in Hall. eauto. }
  assert (Hout : ∀ {B} (f : runtimeLogin → B) (managed : list B), NoDup managed →
    NoDup (f <$> logins) → (∀ l, resolved_login (DatabaseName s) l → f l ∉ managed) →
    NoDup (managed ++ (f <$> logins))).
  { intros B f managed H1 H2 H3. apply NoDup_app. split_and!; try done.
    intros x Hx (l & Hl & ->)%Hin. by apply (H3 l). }
  split_and!; try done.
  - apply (Hout _ rl_role [_; _]).
    + rewrite !NoDup_cons, list_elem_of_singleton. split_and!; [|apply not_elem_of_nil|constructor].
      intros H%append_inj_r. discriminate H.
    + apply (resolved_login_inj (DatabaseName s)); [|done..].
      intros a b [Ha _ -> _ _ _ _] [Hb _ -> _ _ _ _] H%append_inj_r%append_inj_r.
      by apply login_slug_inj.
    + intros l [_ _ _ [? ?] _ _ _]. rewrite !not_elem_of_cons.
      split_and!; [done..|apply not_elem_of_nil].
  - apply (Hout _ rl_passwordKey [_; _; _]).
    + rewrite !NoDup_cons. split_and!; try constructor; by vm_compute; set_solver.
    + apply (resolved_login_inj (DatabaseName s)); [|done..].
      intros a b [Ha _ _ _ -> _ _] [Hb _ _ _ -> _ _].
      by apply login_key_inj; apply validRuntimeLoginName_ok.
    + apply resolved_password_managed.
  - apply (Hout _ rl_connectionKey [_; _; _]).
    + rewrite !NoDup_cons. split_and!; try constructor; by vm_compute; set_solver.
    + apply (resolved_login_inj (DatabaseName s)); [|done..].
      intros a b [_ _ _ _ _ -> _] [_ _ _ _ _ -> _]. apply append_inj_l.
    + apply resolved_connection_managed.
  - eapply Forall_impl; [exact Hall|]. intros l Hl.
    destruct (resolved_role_bound _ l Hl) as [? ?]. destruct Hl as [_ _ _ _ _ _ (?&?&?)].
    split_and!; try done. lia.
Qed.

Definition example_settings : Settings :=
  {| DatabaseName := "store"; HotReload := false; ExternalInstances := ∅; AuthMode := "";
     WithoutSSL := false; NoMigration := false; KeepRunning := false; LogLevel := "";
     Image := ""; ImagePlatforms := []; Extensions := []; RuntimeSchemas := [];
     RuntimeReadWriteRoles := ["app_rw"];
     RuntimeLogins := [{| RL_Name := "worker"; RL_ReadWriteRoles := ["app_worker"; "app_rw"] |};
                       {| RL_Name := "audit-log"; RL_ReadWriteRoles := ["app_audit"] |}];
     MigrationSources := []; STimeouts := Build_Timeouts 0 0 0 0 0 0 |}.

Lemma resolveRuntimeLogins_distinct_witness :
  ∃ logins, resolveRuntimeLogins (u := ascii_unicode) example_settings = Ok logins ∧
    rl_passwordKey <$> logins = ["POSTGRES_WORKER_PASSWORD"; "POSTGRES_AUDIT_LOG_PASSWORD"] ∧
    rl_name <$> logins = ["worker"; "audit-log"].
Proof.
  eexists. split; [vm_compute; reflexivity|]. split; [vm_compute; reflexivity|].
  refine (proj1 (resolveRuntimeLogins_distinct (u := ascii_unicode) example_settings _ _)).
  vm_compute. reflexivity.
Defined.

(** ** Credentials *)

Definition login_password (c : Credentials) (l : runtimeLogin) : string :=
  default "" (loginPasswords c !! rl_name l).

Lemma validate_login_password_ok c used l used' :
  validate_login_password c used l = Ok used' ↔
  blank (login_password c l) = false ∧ used !! login_password c l = None ∧
  used' = <[login_password c l := rl_name l]> used.
Proof.
  unfold validate_login_password. fold (login_password c l). split.
  - intros H. res_inv. destruct (used !! _) eqn:E; [done|]. by res_inv.
  - intros (-> & Hn & ->). simpl. by rewrite Hn.
Qed.

Lemma validate_login_passwords_ok c used logins used' :
  fold_result (validate_login_password c) used logins = Ok used' →
  Forall (λ l, blank (login_password c l) = false) logins ∧
  NoDup (login_password c <$> logins) ∧
  Forall (λ l, used !! login_password c l = None) logins.
Proof.
  revert used. induction logins as [|l logins IH]; intros used; simpl.
  { intros _. split_and!; constructor. }
  rewrite bind_ok. intros (? & (Hb & Hn & ->)%validate_login_password_ok & (H1 & H2 & H3)%IH).
  split_and!.
  - by constructor.
  - constructor; [|done]. intros (l' & Heq & Hin)%list_elem_of_fmap.
    rewrite Forall_forall in H3. specialize (H3 l' Hin). rewrite <-Heq in H3.
    by rewrite lookup_insert_eq in H3.
  - constructor; [done|]. eapply Forall_impl; [exact H3|].
    intros l' [? _]%lookup_insert_None. done.
Qed.

Section credential_facts.
Context {u : Unicode} `{!UnicodeLaws u}.

(** What [validateCredentials] establishes. *)
Record valid_credentials (c : Credentials) : Prop := {
  vc_database : blank (DatabaseName (cr_settings c)) = false;
  vc_user : blank (postgresUser c) = false;
  vc_mode : AuthMode (cr_settings c) ∈ [""; authModePassword; authModeExternalIdentity];
  vc_owner : postgresUser c ∉ [(runtimeRoleNames (DatabaseName (cr_settings c))).1;
                               (runtimeRoleNames (DatabaseName (cr_settings c))).2];
  vc_passwords : ∃ logins, resolveRuntimeLogins (cr_settings c) = Ok logins ∧
    if externalIdentity (cr_settings c) then logins = []
    else
      let passwords := postgresPassword c :: readOnlyPassword c :: readWritePassword c
                       :: (login_password c <$> logins) in
      NoDup passwords ∧ Forall (λ p, blank p = false) passwords;
}.

Lemma runtimeAccess_owner c r : runtimeAccess c = Ok r →
  postgresUser c ∉ [(runtimeRoleNames (DatabaseName (cr_settings c))).1;
                    (runtimeRoleNames (DatabaseName (cr_settings c))).2].
Proof.
  unfold runtimeAccess. destruct (runtimeRoleNames _) as [ro rw]. intros H. res_inv. simpl.
  rewrite !not_elem_of_cons. split_and!; [done..|apply not_elem_of_nil].
Qed.

(** The three managed passwords seed the map of used ones. *)
Lemma managed_passwords_used (o ro rw x : string) :
  (<[rw := "read-write"]> (<[ro := "read-only"]> (<[o := "owner"]> ∅)) : gmap string string) !! x
    = None → x ∉ [o; ro; rw].
Proof.
  rewrite !lookup_insert_None. intros ((( _ & ?) & ?) & ?).
  rewrite !not_elem_of_cons. split_and!; [done..|apply not_elem_of_nil].
Qed.

Lemma valid_passwords c logins used' :
  Forall (λ p : string * string, guard_err (blank p.2) (ENew "%s must not be empty" [p.1]) = Ok tt)
    [("POSTGRES_PASSWORD", postgresPassword c); ("POSTGRES_READ_ONLY_PASSWORD", readOnlyPassword c);
     ("POSTGRES_READ_WRITE_PASSWORD", readWritePassword c)] →
  postgresPassword c ≠ readOnlyPassword c → postgresPassword c ≠ readWritePassword c →
  readOnlyPassword c ≠ readWritePassword c →
  fold_result (validate_login_password c)
    (<[readWritePassword c := "read-write"]> (<[readOnlyPassword c := "read-only"]>
       (<[postgresPassword c := "owner"]> ∅))) logins = Ok used' →
  let passwords := postgresPassword c :: readOnlyPassword c :: readWritePassword c
                   :: (login_password c <$> logins) in
  NoDup passwords ∧ Forall (λ p, blank p = false) passwords.
Proof.
  intros Hb ? ? ? (H1 & H2 & H3)%validate_login_passwords_ok.
  rewrite !Forall_cons in Hb. destruct Hb as (?%guard_ok & ?%guard_ok & ?%guard_ok & _).
  assert (Hout : ∀ p, p ∈ [postgresPassword c; readOnlyPassword c; readWritePassword c] →
                      p ∉ login_password c <$> logins).
  { intros p Hp (l & -> & Hl)%list_elem_of_fmap. rewrite Forall_forall in H3.
    by apply (managed_passwords_used _ _ _ _ (H3 l Hl)). }
  split.
  - rewrite !NoDup_cons. rewrite !elem_of_cons. split_and!; try done.
    + intros [?|[?|?%Hout]]; try done. set_solver.
    + intros [?|?%Hout]; try done. set_solver.
    + apply Hout. set_solver.
  - repeat (constructor; [done|]). by apply Forall_fmap.
Qed.

Lemma validateCredentials_valid c : validateCredentials c = Ok tt → valid_credentials c.
Proof.
  unfold validateCredentials. intros H. res_inv.
  match goal with H : validateAuthMode _ = Ok _ |- _ =>
    unfold validateAuthMode in H; apply guard_ok in H; res_inv end.
  split; try done; [by eapply runtimeAccess_owner|].
  eexists. split; [done|]. destruct (externalIdentity (cr_settings c)) eqn:Em.
  - match goal with H : resolveRuntimeLogins _ = Ok ?l |- _ =>
      apply resolveRuntimeLogins_inv in H as (_ & _ & _ & Hm); destruct l as [|l0 ls]; [done|] end.
    destruct (Hm ltac:(done)) as [? _]. congruence.
  - res_inv. by eapply valid_passwords.
Qed.
End credential_facts.

(** Credentials that pass validation are complete and never shared: the
    database and owner are named, the owner is neither managed role, the mode is
    a supported one, and, unless an identity provider authenticates the
    principals (in which case there is no login), the owner, read-only,
    read-write and every declared login's password are non-blank and pairwise
    distinct. *)
Theorem validateCredentials_distinct {u : Unicode} `{!UnicodeLaws u} c :
  validateCredentials c = Ok tt →
  let s := cr_settings c in
  blank (DatabaseName s) = false ∧ blank (postgresUser c) = false ∧
  AuthMode s ∈ [""; "password"; "external-identity"] ∧
  postgresUser c ≠ (runtimeRoleNames (DatabaseName s)).1 ∧
  postgresUser c ≠ (runtimeRoleNames (DatabaseName s)).2 ∧
  ∃ logins, resolveRuntimeLogins s = Ok logins ∧
    if externalIdentity s then logins = []
    else
      let passwords := postgresPassword c :: readOnlyPassword c :: readWritePassword c
                       :: (login_password c <$> logins) in
      NoDup passwords ∧ Forall (λ p, blank p = false) passwords.
Proof.
  intros [? ? ? Ho ?]%validateCredentials_valid. rewrite !not_elem_of_cons in Ho.
  destruct Ho as (? & ? & _). by split_and!.
Qed.

(** ** Loading *)

(** The password a key supplies: the configured one, or when it is blank the one
    derived from the owner's for that capability. *)
Definition effective_password (get : string → result string) (owner database key capability p : string) : Prop :=
  ∃ configured, get key = Ok configured ∧
    p = if blank configured then deriveRuntimePassword owner database capability else configured.

Lemma load_login_passwords_ok get s owner m logins m' :
  fold_result (load_login_password get s owner) m logins = Ok m' → NoDup (rl_name <$> logins) →
  (∀ n, n ∉ rl_name <$> logins → m' !! n = m !! n) ∧
  Forall (λ l, ∃ p, m' !! rl_name l = Some p ∧
    effective_password get owner (DatabaseName s) (rl_passwordKey l) (rl_connectionKey l) p) logins.
Proof.
  revert m. induction logins as [|l logins IH]; intros m; simpl.
  { intros [= <-] _. by split. }
  rewrite bind_ok. intros (m1 & H1 & H2) [Hnotin Hnd]%NoDup_cons.
  unfold load_login_password in H1. res_inv. destruct (IH _ H2 Hnd) as [Hm Hall]. split.
  - intros n [Hne Hn]%not_elem_of_cons. rewrite Hm, lookup_insert_ne by done. done.
  - constructor; [|done]. rewrite Hm, lookup_insert_eq by done.
    eexists. split; [done|]. by eexists.
Qed.

(** A configuration that loads is the configured one, completed and
    validated: the owner is the native owner when there is one, every blank
    runtime or login password is the one derived from the owner's for its own
    capability and every other is kept verbatim, and the result passed the
    credential validation (so a blank owner password never loads in password
    mode). *)
Theorem LoadConfiguration_correct {u : Unicode} `{!UnicodeLaws u} get nativeOwner s c :
  LoadConfiguration get nativeOwner s = Ok c →
  cr_settings c = s ∧ get "POSTGRES_PASSWORD" = Ok (postgresPassword c) ∧
  (if bool_decide (nativeOwner ≠ "") then postgresUser c = nativeOwner
   else get "POSTGRES_USER" = Ok (postgresUser c)) ∧
  effective_password get (postgresPassword c) (DatabaseName s)
    "POSTGRES_READ_ONLY_PASSWORD" readOnlyConnectionKey (readOnlyPassword c) ∧
  effective_password get (postgresPassword c) (DatabaseName s)
    "POSTGRES_READ_WRITE_PASSWORD" readWriteConnectionKey (readWritePassword c) ∧
  (∃ logins, resolveRuntimeLogins s = Ok logins ∧
     Forall (λ l, effective_password get (postgresPassword c) (DatabaseName s)
       (rl_passwordKey l) (rl_connectionKey l) (login_password c l)) logins) ∧
  valid_credentials c ∧
  (externalIdentity s = false → blank (postgresPassword c) = false).
Proof.
  intros H. unfold LoadConfiguration in H. res_inv. simpl in *.
  match goal with H : validateCredentials _ = Ok _ |- _ =>
    apply validateCredentials_valid in H; rename H into Hv end.
  match goal with H : resolveRuntimeLogins _ = Ok _ |- _ =>
    rename H into Hl; pose proof (resolveRuntimeLogins_inv _ _ Hl) as (_ & Hnd & _ & _) end.
  match goal with H : fold_result _ _ _ = Ok _ |- _ =>
    destruct (load_login_passwords_ok _ _ _ _ _ _ H Hnd) as [_ Hall] end.
  split_and!; try done; try by eexists.
  - by case_bool_decide.
  - eexists. split; [done|]. eapply Forall_impl; [exact Hall|]. intros l (p & Hp & ?).
    unfold login_password. simpl. by rewrite Hp.
  - intros Hm. destruct (vc_passwords _ Hv) as (logins & _ & Hp). simpl in Hp.
    rewrite Hm in Hp. destruct Hp as [_ Hp]. by apply Forall_cons in Hp as [? _].
Qed.

Definition example_get (key : string) : result string :=
  if bool_decide (key = "POSTGRES_USER") then Ok "owner"
  else if bool_decide (key = "POSTGRES_PASSWORD") then Ok "owner-secret" else Ok "".

Lemma LoadConfiguration_correct_witness :
  ∃ c, LoadConfiguration (u := ascii_unicode) example_get "" example_settings = Ok c ∧
    loginPasswords c !! "worker" =
      Some (deriveRuntimePassword "owner-secret" "store" "worker-connection") ∧
    blank (postgresPassword c) = false.
Proof.
  eexists. split; [vm_compute; reflexivity|]. split; [vm_compute; reflexivity|].
  refine (proj2 (proj2 (proj2 (proj2 (proj2 (proj2 (proj2
    (LoadConfiguration_correct (u := ascii_unicode) example_get "" example_settings _ _))))))) _);
    vm_compute; reflexivity.
Defined.

Lemma validateCredentials_distinct_witness :
  ∃ c, LoadConfiguration (u := ascii_unicode) example_get "" example_settings = Ok c ∧
    blank (postgresUser c) = false.
Proof.
  eexists. split; [vm_compute; reflexivity|].
  refine (proj1 (proj2 (validateCredentials_distinct (u := ascii_unicode) _ _))).
  vm_compute. reflexivity.
Defined.

(** ** Domain separation of the derivation *)

Definition nul_free (s : string) : Prop := chr 0 ∉ bytes s.

Lemma nul_split_unique (a b c d : list ascii) x :
  x ∉ b → x ∉ d → a ++ x :: b = c ++ x :: d → a = c ∧ b = d.
Proof.
  intros Hb Hd. revert c. induction a as [|y a IH]; intros [|z c]; simpl; intros Heq;
    simplify_eq; try done; set_solver.
Qed.

Lemma derivation_message_inj db cap db' cap' :
  nul_free cap → nul_free cap' →
  derivation_message db cap = derivation_message db' cap' → db = db' ∧ cap = cap'.
Proof.
  intros Hc Hc' H%append_inj_r%(f_equal bytes). rewrite !bytes_app in H.
  change (bytes nul) with [chr 0] in H.
  apply nul_split_unique in H as [H1%(inj bytes) H2%(inj bytes)]; done.
Qed.

Lemma ident_nul_free s (p : ascii → bool) :
  p (chr 0) = false → all_bytes p s = true → nul_free s.
Proof.
  unfold all_bytes, nul_free. rewrite Forall_forallb, Forall_forall. intros Hp H Hin.
  specialize (H _ Hin). congruence.
Qed.

Lemma connection_key_nul_free name :
  validRuntimeLoginName name = true → nul_free (name +:+ "-connection").
Proof.
  intros [_ H]%validRuntimeLoginName_ok. apply (ident_nul_free _ login_byte); [by vm_compute|].
  rewrite all_bytes_app, H. by vm_compute.
Qed.

(** The capability passwords of one owner are derived from pairwise distinct
    messages, whatever logins are declared; and a message determines the database
    and capability it was derived for, so two databases never derive from the
    same message either. *)
Theorem derivation_separated {u : Unicode} `{!UnicodeLaws u} s logins :
  resolveRuntimeLogins s = Ok logins →
  let capabilities := readOnlyConnectionKey :: readWriteConnectionKey :: (rl_connectionKey <$> logins) in
  NoDup (derivation_message (DatabaseName s) <$> capabilities) ∧
  (∀ cap cap' db', cap ∈ capabilities → nul_free cap' →
     derivation_message (DatabaseName s) cap = derivation_message db' cap' →
     DatabaseName s = db' ∧ cap = cap').
Proof.
  intros (_ & Hnd & Hall & _)%resolveRuntimeLogins_inv. cbv zeta.
  set (caps := readOnlyConnectionKey :: readWriteConnectionKey :: (rl_connectionKey <$> logins)).
  assert (Hnul : ∀ cap, cap ∈ caps → nul_free cap).
  { intros cap [->|[->|(l & -> & Hl)%list_elem_of_fmap]%elem_of_cons]%elem_of_cons.
    - by apply (ident_nul_free _ login_byte); vm_compute.
    - by apply (ident_nul_free _ login_byte); vm_compute.
    - rewrite Forall_forall in Hall. destruct (Hall l Hl) as [Hv _ _ _ _ -> _].
      by apply connection_key_nul_free. }
  assert (Hcaps : NoDup caps).
  { assert (Hm : ∀ k, k ∈ [ownerConnectionKey; readOnlyConnectionKey; readWriteConnectionKey] →
              k ∉ rl_connectionKey <$> logins).
    { intros k Hk (l & -> & Hl)%list_elem_of_fmap. rewrite Forall_forall in Hall.
      by apply (resolved_connection_managed (DatabaseName s) l (Hall l Hl)). }
    constructor; [|constructor].
    - apply not_elem_of_cons. split; [done|]. apply Hm. set_solver.
    - apply Hm. set_solver.
    - apply (resolved_login_inj (DatabaseName s)); [|done..].
      intros a b [_ _ _ _ _ -> _] [_ _ _ _ _ -> _]. apply append_inj_l. }
  split; [|intros; by apply derivation_message_inj; auto].
  clear -Hnul Hcaps. induction Hcaps as [|cap l Hnotin _ IH]; simpl; constructor.
  - intros (cap' & Heq & Hin)%list_elem_of_fmap.
    apply derivation_message_inj in Heq as [_ ->]; [done|apply Hnul; set_solver..].
  - apply IH. intros cap' ?. apply Hnul. by right.
Qed.

Lemma derivation_separated_witness :
  ∃ logins, resolveRuntimeLogins (u := ascii_unicode) example_settings = Ok logins ∧
    NoDup (derivation_message "store" <$>
      readOnlyConnectionKey :: readWriteConnectionKey :: (rl_connectionKey <$> logins)).
Proof.
  eexists. split; [vm_compute; reflexivity|].
  refine (proj1 (derivation_separated (u := ascii_unicode) example_settings _ _)).
  vm_compute. reflexivity.
Defined.

#[global] Arguments runtimeRolePrefix : simpl never.
#[global] Arguments runtimeRoleNames : simpl never.
#[global] Arguments deriveRuntimePassword : simpl never.
#[global] Arguments derivation_message : simpl never.
#[global] Arguments normalizedRuntimeSchemas : simpl never.
#[global] Arguments normalizedRuntimeReadWriteRoles : simpl never.
