(* ===== verification/SchemaPlan.v ===== *)
(** The packaged schema plan ([schemaplan.go] and [libs/go/schemaplan/plan.go]):
    the content-addressed artifact shared by the builder and the managed
    bootstrap, and its assembly from the resolved prerequisites. *)
From stdpp Require Import sorting.
From S2P Require Import Prelude GoStrings Sha256 Timeouts Settings MigrationFiles Schema RuntimeRoles.

(** ** The artifact *)

Definition ContractVersion : string := "codefly.dev/postgres-schema-plan/v1".
Definition ReaderRolesContractVersion : string := "codefly.dev/postgres-schema-plan/v2".

Record PlanExtension := { X_Name : string; X_Required : bool }.
Record File := { F_Name : string; F_Digest : string }.
Record Lineage := {
  L_Label : string; L_Ledger : string; L_Stage : string; L_Digest : string;
  L_Files : list File;
}.
(** [ReadOnlyRoles] is optional in the JSON: [None] is the nil slice. *)
Record Access := {
  A_ReadOnlyRole : string; A_ReadWriteRole : string;
  A_Schemas : list string; A_ReadWriteRoles : list string;
  A_ReadOnlyRoles : option (list string);
}.
Record Plan := {
  P_ContractVersion : string; P_Database : string;
  P_Extensions : list PlanExtension; P_Lineages : list Lineage;
  P_Access : Access; P_Digest : string;
}.

(** ** Content digests

    [h.Write] appends to the digested bytes: the digest of a sequence of writes
    is the digest of their concatenation. *)
Definition frame (v : string) : string := v +:+ nul.
Definition write (values : list string) : string := foldr (λ v h, frame v +:+ h) "" values.
Definition sprint_bool (b : bool) : string := if b then "true" else "false".
Definition digest_prefix : string := "sha256:".

(** The values [Plan.ContentDigest] writes, in order. *)
Definition plan_values (p : Plan) : list string :=
  [P_ContractVersion p; P_Database p]
  ++ concat ((λ e, [X_Name e; sprint_bool (X_Required e)]) <$> P_Extensions p)
  ++ [A_ReadOnlyRole (P_Access p); A_ReadWriteRole (P_Access p)]
  ++ A_Schemas (P_Access p)
  ++ A_ReadWriteRoles (P_Access p)
  ++ (if bool_decide (P_ContractVersion p = ReaderRolesContractVersion) then
        let roles := default [] (A_ReadOnlyRoles (P_Access p)) in
        ["read-only-roles"; itoa_nat (Z.of_nat (length roles))] ++ roles
      else [])
  ++ concat ((λ l, [L_Label l; L_Ledger l; L_Stage l; L_Digest l]) <$> P_Lineages p).

Definition plan_ContentDigest (p : Plan) : string :=
  digest_prefix +:+ sha256_hex (write (plan_values p)).

Definition lineage_values (l : Lineage) : list string :=
  [L_Label l; L_Ledger l] ++ concat ((λ f, [F_Name f; F_Digest f]) <$> L_Files l).

Definition lineage_ContentDigest (l : Lineage) : string :=
  digest_prefix +:+ sha256_hex (write (lineage_values l)).

(** ** The plan before it is published *)

Record schemaFile := { sf_name : string; sf_digest : string }.
Record schemaLineage := {
  sl_source : migrationSource;
  sl_stage : string;
  sl_files : list schemaFile;
  sl_digest : string;
}.
Record schemaAccess := {
  sa_readOnlyRole : string; sa_readWriteRole : string;
  sa_schemas : list string; sa_readWriteRoles : list string;
}.
Record schemaPlan := {
  pl_database : string;
  pl_lineages : list schemaLineage;
  pl_extensions : list extensionRequest;
  pl_access : schemaAccess;
}.

(** ** Reading the source tree

    [filepath.EvalSymlinks], [os.Stat] and the bytes of a file are the operating
    system's. *)
Class StagingFS := {
  staging_dirs :: FileSystem;
  EvalSymlinks : string → result string;
  StatRegular : string → result bool;
  ReadBytes : string → result string;
}.

(** The components of a cleaned path; "." has none. *)
Definition components (p : string) : list string :=
  filter (λ c, c ≠ "" ∧ c ≠ ".") (split_on slash (path_clean p)).

Fixpoint strip_common (base target : list string) : list string * list string :=
  match base, target with
  | b :: base', t :: target' =>
    if decide (b = t) then strip_common base' target' else (base, target)
  | _, _ => (base, target)
  end.

(** [filepath.Rel]. *)
Definition path_rel (base target : string) : result string :=
  let '(b, t) := strip_common (components base) (components target) in
  if negb (bool_decide (is_abs base = is_abs target)) || bool_decide (head b = Some "..")
  then Err (ENew "Rel: can't make path relative" [base; target])
  else match ((λ _ : string, "..") <$> b) ++ t with
       | [] => Ok "."
       | cs => Ok (join "/" cs)
       end.

Section staging.
Context {fs : StagingFS}.

Definition outside_error (name target : string) : error :=
  ENew "migration source entry %q links outside its source root; declare %s as its own migration source instead" [name; target].

(** [symlinkStaysInside], reporting whether the target is a regular file. *)
Definition symlinkStaysInside (dir name : string) : result bool :=
  root ← EvalSymlinks dir;
  target ← wrap_err "migration source entry %q does not resolve: %w" [name]
             (EvalSymlinks (path_join [dir; name]) : result string);
  match path_rel root target with
  | Err _ => Err (outside_error name target)
  | Ok relative =>
    if bool_decide (relative = "..") || has_prefix relative "../"
    then Err (outside_error name target)
    else StatRegular target
  end.

Definition staged_if (regular : bool) (name : string) : list schemaFile :=
  if regular then [{| sf_name := name; sf_digest := "" |}] else [].

(** One iteration of the loop of [stagedFiles]: the file it appends, if any. *)
Definition stage_entry (dir : string) (e : DirEntry) : result (list schemaFile) :=
  if IsDir e || negb (bool_decide (is_Some (migrationFileName (Name e)))) then Ok []
  else if bool_decide (Type_ e = Symlink) then
    regular ← symlinkStaysInside dir (Name e);
    Ok (staged_if regular (Name e))
  else
    _ ← guard_err (negb (bool_decide (Type_ e = Regular)))
          (ENew "entry %q is not a regular file" [Name e]);
    Ok (staged_if true (Name e)).

Definition name_le (a b : schemaFile) : Prop := str_le (sf_name a) (sf_name b).
#[global] Instance name_le_dec a b : Decision (name_le a b).
Proof. unfold name_le. apply _. Defined.

Definition stagedFiles (dir : string) : result (list schemaFile) :=
  entries ← ReadDir dir;
  files ← map_result (stage_entry dir) entries;
  Ok (merge_sort name_le (concat files)).

(** [fmt.Sprintf("%02d-%s", n, label)]. *)
Definition pad2 (n : nat) : string :=
  if (n <? 10)%nat then "0" +:+ itoa_nat (Z.of_nat n) else itoa_nat (Z.of_nat n).
Definition stage_name (n : nat) (label : string) : string := pad2 n +:+ "-" +:+ label.

Definition add_lineage (lineages : list schemaLineage) (source : migrationSource) :
    result (list schemaLineage) :=
  files ← wrap_err "cannot inventory migration source %q: %w" [label source]
            (stagedFiles (ms_dir source));
  Ok (lineages ++ [{| sl_source := source;
                      sl_stage := stage_name (length lineages) (label source);
                      sl_files := files; sl_digest := "" |}]).

Section building.
Context {u : Unicode}.

Definition resolveSchemaAccess (settings : Settings) : result schemaAccess :=
  let '(readOnlyRole, readWriteRole) := runtimeRoleNames (DatabaseName settings) in
  schemas ← normalizedRuntimeSchemas (RuntimeSchemas settings);
  readWriteRoles ← normalizedRuntimeReadWriteRoles (RuntimeReadWriteRoles settings)
                     [readOnlyRole; readWriteRole];
  Ok {| sa_readOnlyRole := readOnlyRole; sa_readWriteRole := readWriteRole;
        sa_schemas := schemas; sa_readWriteRoles := readWriteRoles |}.

Definition buildSchemaPlan (prerequisites : schemaPrerequisites) (settings : Settings) :
    result schemaPlan :=
  access ← resolveSchemaAccess settings;
  lineages ← (if NoMigration settings then Ok []
              else fold_result add_lineage [] (sp_sources prerequisites));
  Ok {| pl_database := DatabaseName settings; pl_lineages := lineages;
        pl_extensions := sp_extensions prerequisites; pl_access := access |}.
End building.

(** ** Attestation *)

Definition fileDigest (path : string) : result string :=
  content ← ReadBytes path; Ok (digest_prefix +:+ sha256_hex content).

Definition file_artifact (f : schemaFile) : File :=
  {| F_Name := sf_name f; F_Digest := sf_digest f |}.

Definition lineageDigest (l : schemaLineage) : string :=
  lineage_ContentDigest
    {| L_Label := label (sl_source l); L_Ledger := trackingTable (sl_source l);
       L_Stage := ""; L_Digest := ""; L_Files := file_artifact <$> sl_files l |}.

Definition attest_file (dir : string) (f : schemaFile) : result schemaFile :=
  digest ← fileDigest (path_join [dir; sf_name f]);
  Ok {| sf_name := sf_name f; sf_digest := digest |}.

Definition attest_lineage (l : schemaLineage) : result schemaLineage :=
  files ← wrap_err "cannot digest migration source %q: %w" [label (sl_source l)]
            (map_result (attest_file (ms_dir (sl_source l))) (sl_files l));
  let l := {| sl_source := sl_source l; sl_stage := sl_stage l;
              sl_files := files; sl_digest := sl_digest l |} in
  Ok {| sl_source := sl_source l; sl_stage := sl_stage l; sl_files := sl_files l;
        sl_digest := lineageDigest l |}.

Definition attest (p : schemaPlan) : result schemaPlan :=
  lineages ← map_result attest_lineage (pl_lineages p);
  Ok {| pl_database := pl_database p; pl_lineages := lineages;
        pl_extensions := pl_extensions p; pl_access := pl_access p |}.
End staging.

(** ** Rendering *)

Definition stagedChecksums (p : schemaPlan) : string :=
  foldr String.append ""
    ((λ l, foldr String.append ""
        ((λ f, trim_prefix (sf_digest f) "sha256:" +:+ "  sources/" +:+ sl_stage l
               +:+ "/" +:+ sf_name f +:+ of_bytes [chr 10]) <$> sl_files l))
     <$> pl_lineages p).

Definition artifactWithoutDigest (p : schemaPlan) : Plan :=
  {| P_ContractVersion := ContractVersion;
     P_Database := pl_database p;
     P_Extensions := (λ e, {| X_Name := er_name e; X_Required := er_required e |}) <$> pl_extensions p;
     P_Lineages := (λ l, {| L_Label := label (sl_source l); L_Ledger := trackingTable (sl_source l);
                            L_Stage := sl_stage l; L_Digest := sl_digest l;
                            L_Files := file_artifact <$> sl_files l |}) <$> pl_lineages p;
     P_Access := {| A_ReadOnlyRole := sa_readOnlyRole (pl_access p);
                    A_ReadWriteRole := sa_readWriteRole (pl_access p);
                    A_Schemas := sa_schemas (pl_access p);
                    A_ReadWriteRoles := sa_readWriteRoles (pl_access p);
                    A_ReadOnlyRoles := None |};
     P_Digest := "" |}.

Definition digest (p : schemaPlan) : string := plan_ContentDigest (artifactWithoutDigest p).

Definition artifact (p : schemaPlan) : Plan :=
  let a := artifactWithoutDigest p in
  {| P_ContractVersion := P_ContractVersion a; P_Database := P_Database a;
     P_Extensions := P_Extensions a; P_Lineages := P_Lineages a; P_Access := P_Access a;
     P_Digest := plan_ContentDigest a |}.

(** ** Staged lineages *)

Lemma pad2_spec n :
  all_bytes (λ c, is_digit (code c)) (pad2 n) = true ∧ digits_value (bytes (pad2 n)) = Z.of_nat n.
Proof.
  destruct (itoa_nat_spec (Z.of_nat n)) as [Hd Hv]; [lia|]. unfold pad2.
  case_match; [|done]. rewrite all_bytes_app, Hd, bytes_app. split; [by vm_compute|].
  change (bytes "0") with ["0"%char]. unfold digits_value in *. done.
Qed.

Lemma stage_name_inj n m a b : stage_name n a = stage_name m b → n = m ∧ a = b.
Proof.
  unfold stage_name. intros H. destruct (pad2_spec n) as [Hn Vn], (pad2_spec m) as [Hm Vm].
  assert (Hp : pad2 n = pad2 m ∧ a = b).
  { apply (f_equal (span_bytes digit_byte ∘ bytes)) in H. simpl in H. rewrite !bytes_app in H.
    change (bytes "-") with ["-"%char] in H. simpl in H.
    rewrite !span_bytes_stop in H by done. injection H as H1%(inj bytes) H2%(inj bytes). done. }
  destruct Hp as [Hp ->]. split; [|done]. rewrite Hp in Vn. lia.
Qed.

Section built.
Context {fs : StagingFS} {u : Unicode}.

(** The staged file of an entry. *)
Definition staged (dir : string) (e : DirEntry) : Prop :=
  IsDir e = false ∧ is_Some (migrationFileName (Name e)) ∧
  (Type_ e = Regular ∨ Type_ e = Symlink ∧ symlinkStaysInside dir (Name e) = Ok true).

Lemma stage_entry_ok dir e fs' :
  stage_entry dir e = Ok fs' →
  (staged dir e ∧ fs' = [{| sf_name := Name e; sf_digest := "" |}]) ∨
  (¬ staged dir e ∧ fs' = [] ∧ (IsDir e = false → is_Some (migrationFileName (Name e)) →
     symlinkStaysInside dir (Name e) = Ok false)).
Proof.
  unfold stage_entry, staged. destruct (IsDir e) eqn:Ed; simpl; [naive_solver|].
  case_bool_decide as Hm; simpl; [|naive_solver].
  case_bool_decide as Ht.
  - intros H. res_inv. match goal with b : bool |- _ => destruct b end; simpl.
    + left. split_and!; auto.
    + right. split_and!; [intros (_ & _ & [?|[_ ?]]); congruence|done|done].
  - intros H. res_inv. naive_solver.
Qed.

#[local] Instance name_le_total : Total name_le.
Proof. intros a b. apply str_le_total. Qed.
#[local] Instance name_le_trans : Transitive name_le.
Proof. intros a b c. apply str_le_trans. Qed.

Lemma stagedFiles_ok dir files :
  stagedFiles dir = Ok files →
  ∃ es, ReadDir dir = Ok es ∧ Sorted str_le (sf_name <$> files) ∧
    (∀ f, f ∈ files ↔ sf_digest f = "" ∧ ∃ e, e ∈ es ∧ staged dir e ∧ sf_name f = Name e) ∧
    (∀ e, e ∈ es → IsDir e = false → is_Some (migrationFileName (Name e)) →
       staged dir e ∨ symlinkStaysInside dir (Name e) = Ok false) ∧
    (NoDup (Name <$> es) → NoDup (sf_name <$> files)).
Proof.
  unfold stagedFiles. intros H. res_inv. rename x into es, x0 into fss.
  match goal with H : ReadDir _ = Ok _ |- _ => rename H into H0 end.
  match goal with H : map_result _ _ = Ok _ |- _ => apply map_result_ok in H; rename H into Hall end.
  assert (Hperm := merge_sort_Permutation name_le (concat fss)).
  exists es. split_and!; [done| | | |].
  - apply (Sorted_fmap sf_name name_le str_le); [done|]. apply Sorted_merge_sort, _.
  - intros f. rewrite Hperm. clear Hperm H0. induction Hall as [|e fs1 es fss He _ IH]; simpl.
    { set_solver. }
    rewrite elem_of_app, IH.
    apply stage_entry_ok in He as [[Hs ->]|(Hs & -> & _)].
    + rewrite list_elem_of_singleton. setoid_rewrite elem_of_cons. split.
      * intros [->|(? & e' & ? & ?)]; naive_solver.
      * intros (Hd & e' & [->|?] & ? & ?); [left; by destruct f; simplify_eq/=|naive_solver].
    + setoid_rewrite elem_of_cons. split; [|naive_solver].
      intros [?%not_elem_of_nil|?]; naive_solver.
  - clear Hperm H0. intros e He Hd Hm. induction Hall as [|e' fs1 es fss He' _ IH]; [set_solver|].
    apply elem_of_cons in He as [->|He]; [|by apply IH].
    apply stage_entry_ok in He' as [[Hs _]|(_ & _ & Hs)]; [by left|right; auto].
  - intros Hnd. rewrite Hperm. clear Hperm H0. induction Hall as [|e fs1 es fss He Hall IH]; [constructor|].
    apply NoDup_cons in Hnd as [Hnotin Hnd]. simpl. rewrite fmap_app.
    assert (Hsub : sf_name <$> concat fss ⊆ Name <$> es).
    { clear -Hall. induction Hall as [|e fs1 es fss He _ IH]; [done|]. simpl. rewrite fmap_app.
      apply stage_entry_ok in He as [[_ ->]|(_ & -> & _)]; simpl; set_solver. }
    apply stage_entry_ok in He as [[_ ->]|(_ & -> & _)]; simpl; [|by apply IH].
    constructor; [set_solver|by apply IH].
Qed.

Lemma add_lineages_ok ls sources ls' :
  fold_result add_lineage ls sources = Ok ls' →
  ∃ new, ls' = ls ++ new ∧ sl_source <$> new = sources ∧
    (∀ i l, new !! i = Some l →
       sl_stage l = stage_name (length ls + i) (label (sl_source l)) ∧
       stagedFiles (ms_dir (sl_source l)) = Ok (sl_files l)).
Proof.
  revert ls. induction sources as [|s sources IH]; intros ls; simpl.
  { intros [= <-]. exists []. by rewrite app_nil_r. }
  rewrite bind_ok. intros (ls1 & H1 & (new & -> & Hsrc & Hnew)%IH).
  unfold add_lineage in H1. res_inv.
  eexists (_ :: new). rewrite <-app_assoc. split; [reflexivity|]. simpl.
  split; [done|]. intros [|i] l.
  - intros [= <-]. simpl. by rewrite Nat.add_0_r.
  - intros Hl. destruct (Hnew i l Hl) as [-> Hf]. split; [|done].
    rewrite length_app. simpl. f_equal. lia.
Qed.

(** The built plan packages exactly what was resolved: no lineage when
    migrations are off, otherwise every resolved source, in order, each under a
    stage name of its own; the staged files of a lineage are the migration files
    of its directory, each once, sorted by name, regular or linked inside the
    root, none dropped but a link to something that is not a file; and the roles
    are those of the runtime. *)
Theorem buildSchemaPlan_correct prerequisites settings plan :
  FileSystemLaws staging_dirs →
  buildSchemaPlan prerequisites settings = Ok plan →
  pl_database plan = DatabaseName settings ∧
  pl_extensions plan = sp_extensions prerequisites ∧
  (sl_source <$> pl_lineages plan =
     if NoMigration settings then [] else sp_sources prerequisites) ∧
  NoDup (sl_stage <$> pl_lineages plan) ∧
  Forall (λ l, ∃ es, ReadDir (ms_dir (sl_source l)) = Ok es ∧
    Sorted str_le (sf_name <$> sl_files l) ∧ NoDup (sf_name <$> sl_files l) ∧
    (∀ n, n ∈ sf_name <$> sl_files l ↔
       ∃ e, e ∈ es ∧ staged (ms_dir (sl_source l)) e ∧ n = Name e) ∧
    (∀ e, e ∈ es → IsDir e = false → is_Some (migrationFileName (Name e)) →
       Name e ∈ sf_name <$> sl_files l ∨
       symlinkStaysInside (ms_dir (sl_source l)) (Name e) = Ok false))
    (pl_lineages plan) ∧
  (sa_readOnlyRole (pl_access plan), sa_readWriteRole (pl_access plan))
    = runtimeRoleNames (DatabaseName settings) ∧
  normalizedRuntimeSchemas (RuntimeSchemas settings) = Ok (sa_schemas (pl_access plan)).
Proof.
  intros Hlaws H. unfold buildSchemaPlan, resolveSchemaAccess in H.
  destruct (runtimeRoleNames (DatabaseName settings)) as [ro rw]. res_inv. simpl.
  match goal with H : (if NoMigration _ then _ else _) = Ok ?ls |- _ => rename H into Hl, ls into ls0 end.
  assert (Hnew : (sl_source <$> ls0 = if NoMigration settings then [] else sp_sources prerequisites) ∧
    ∀ i l, ls0 !! i = Some l → sl_stage l = stage_name i (label (sl_source l)) ∧
       stagedFiles (ms_dir (sl_source l)) = Ok (sl_files l)).
  { destruct (NoMigration settings); [by injection Hl as <-|].
    apply add_lineages_ok in Hl as (new & -> & ? & ?). by split. }
  destruct Hnew as [Hsrc Hnew]. split_and!; try done.
  - apply NoDup_alt. intros i j n. rewrite !list_lookup_fmap.
    intros (l & Hi & ->)%fmap_Some (l' & Hj & Heq)%fmap_Some.
    destruct (Hnew i l Hi) as [Hs _], (Hnew j l' Hj) as [Hs' _].
    rewrite Hs, Hs' in Heq. by apply stage_name_inj in Heq as [-> _].
  - apply Forall_lookup. intros i l Hi. destruct (Hnew i l Hi) as [_ Hf].
    apply stagedFiles_ok in Hf as (es & Hes & Hsort & Hin & Hcov & Hnd). exists es.
    assert (Hiff : ∀ n, n ∈ sf_name <$> sl_files l ↔
       ∃ e, e ∈ es ∧ staged (ms_dir (sl_source l)) e ∧ n = Name e).
    { intros n. rewrite list_elem_of_fmap. split.
      - intros (f & -> & (_ & e & ? & ? & ?)%Hin). eauto.
      - intros (e & ? & ? & ->). exists {| sf_name := Name e; sf_digest := "" |}.
        split; [done|]. apply Hin. eauto. }
    split_and!; try done; [by apply Hnd; eapply readdir_names|].
    intros e He Hd Hm. destruct (Hcov e He Hd Hm) as [|]; [left|by right].
    apply Hiff. eauto.
Qed.
End built.

(** ** Content identity *)

Lemma first_split_unique {A} (a b c d : list A) x :
  x ∉ a → x ∉ c → a ++ x :: b = c ++ x :: d → a = c ∧ b = d.
Proof.
  revert c. induction a as [|y a IH]; intros [|z c]; simpl; intros Ha Hc Heq;
    rewrite ?not_elem_of_cons in *; simplify_eq; naive_solver.
Qed.

Lemma write_cons_ne w ws : write [] = write (w :: ws) → False.
Proof.
  intros H%(f_equal len). simpl in H. unfold frame in H. rewrite !len_app in H.
  change (len "") with 0 in H. change (len nul) with 1 in H.
  pose proof (len_nonneg w). pose proof (len_nonneg (write ws)). lia.
Qed.

Lemma write_inj vs ws :
  Forall nul_free vs → Forall nul_free ws → write vs = write ws → vs = ws.
Proof.
  revert ws. induction vs as [|v vs IH]; intros [|w ws] Hv Hw H; [done| | |].
  - by apply write_cons_ne in H.
  - symmetry in H. by apply write_cons_ne in H.
  - apply Forall_cons in Hv as [Hv Hvs], Hw as [Hw Hws].
    apply (f_equal bytes) in H. simpl in H. unfold frame in H. rewrite !bytes_app in H.
    rewrite <-!app_assoc in H. change (bytes nul) with [chr 0] in H. simpl in H.
    apply first_split_unique in H as [H1%(inj bytes) H2%(inj bytes)]; [|done..].
    f_equal; [done|by apply IH].
Qed.

Lemma sprint_bool_inj a b : sprint_bool a = sprint_bool b → a = b.
Proof. by destruct a, b. Qed.

(** Blocks of a fixed number of values. *)
Lemma concat_blocks_inj {A} (f : A → list string) l l' :
  (∀ a b, f a = f b → a = b) → (∀ a b, length (f a) = length (f b)) →
  length l = length l' → concat (f <$> l) = concat (f <$> l') → l = l'.
Proof.
  intros Hf Hlen. revert l'. induction l as [|a l IH]; intros [|b l'] Hl; try done.
  simpl. intros H. apply app_inj_1 in H as [H1%Hf H2]; [|apply Hlen].
  f_equal; [done|]. apply IH; [by injection Hl|done].
Qed.

Lemma length_concat_blocks {A} (f : A → list string) k l :
  (∀ a, length (f a) = k) → length (concat (f <$> l)) = (k * length l)%nat.
Proof.
  intros Hf. induction l as [|a l IH]; [simpl; lia|].
  change (concat (f <$> a :: l)) with (f a ++ concat (f <$> l)).
  rewrite length_app, Hf, IH. simpl. lia.
Qed.

(** The identity-bearing fields of a lineage row. *)
Definition lineage_row (l : Lineage) : list string := [L_Label l; L_Ledger l; L_Stage l; L_Digest l].

Definition same_shape (p q : Plan) : Prop :=
  length (P_Extensions p) = length (P_Extensions q) ∧
  length (A_Schemas (P_Access p)) = length (A_Schemas (P_Access q)) ∧
  length (A_ReadWriteRoles (P_Access p)) = length (A_ReadWriteRoles (P_Access q)).

Lemma concat_rows_inj ls ls' :
  concat (lineage_row <$> ls) = concat (lineage_row <$> ls') → lineage_row <$> ls = lineage_row <$> ls'.
Proof.
  revert ls'. induction ls as [|l ls IH]; intros [|l' ls']; try done.
  simpl. intros H. unfold lineage_row at 1 2 in H. simpl in H. simplify_eq.
  unfold lineage_row at 1 3. f_equal; [congruence|by apply IH].
Qed.

(** Plans of the same shape are determined by what they digest. *)
Lemma plan_values_inj p q :
  same_shape p q → plan_values p = plan_values q →
  P_ContractVersion p = P_ContractVersion q ∧ P_Database p = P_Database q ∧
  P_Extensions p = P_Extensions q ∧
  A_Schemas (P_Access p) = A_Schemas (P_Access q) ∧
  A_ReadWriteRoles (P_Access p) = A_ReadWriteRoles (P_Access q) ∧
  lineage_row <$> P_Lineages p = lineage_row <$> P_Lineages q.
Proof.
  intros (He & Hs & Hr) H. unfold plan_values in H. simpl in H.
  injection H as Hv Hd H. rewrite Hv in H.
  apply app_inj_1 in H as [Hext H].
  2:{ transitivity (2 * length (P_Extensions p))%nat; [by apply length_concat_blocks|].
      rewrite He. symmetry. by apply length_concat_blocks. }
  simpl in H. injection H as Hro Hrw H.
  apply app_inj_1 in H as [Hsch H]; [|done].
  apply app_inj_1 in H as [Hrole H]; [|done].
  assert (Hlin : concat (lineage_row <$> P_Lineages p) = concat (lineage_row <$> P_Lineages q)).
  { case_bool_decide; [|done]. simpl in H. injection H as Hn H.
    apply itoa_nat_inj in Hn; [|lia..]. apply app_inj_1 in H as [_ H]; [done|lia]. }
  split_and!; try done; [|by apply concat_rows_inj].
  eapply concat_blocks_inj; [| |done|exact Hext]; [|done].
  intros [na ra] [nb rb]. simpl. intros [= -> Hb]. by apply sprint_bool_inj in Hb as ->.
Qed.

Lemma lineage_values_inj l l' :
  lineage_values l = lineage_values l' →
  L_Label l = L_Label l' ∧ L_Ledger l = L_Ledger l' ∧ L_Files l = L_Files l'.
Proof.
  unfold lineage_values. simpl. intros [= Hl Hg Hf]. split_and!; [done..|].
  generalize (L_Files l) (L_Files l') Hf. clear.
  induction l as [|[n d] fs' IH]; intros [|[n' d'] gs]; try done.
  simpl. intros [= -> -> ?]. f_equal. by apply IH.
Qed.

Lemma content_digest_inj a b : digest_prefix +:+ sha256_hex a = digest_prefix +:+ sha256_hex b →
  sha256 a = sha256 b.
Proof. intros H%append_inj_r. by apply (inj hex). Qed.

(** The messages an attested plan digests: itself, its lineages and its files. *)
Section attested.
Context {fs : StagingFS}.

Definition lineage_artifact (l : schemaLineage) : Lineage :=
  {| L_Label := label (sl_source l); L_Ledger := trackingTable (sl_source l);
     L_Stage := sl_stage l; L_Digest := sl_digest l; L_Files := file_artifact <$> sl_files l |}.

Definition file_path (l : schemaLineage) (f : schemaFile) : string :=
  path_join [ms_dir (sl_source l); sf_name f].

Lemma attest_ok p p' :
  attest p = Ok p' →
  pl_database p' = pl_database p ∧ pl_extensions p' = pl_extensions p ∧
  pl_access p' = pl_access p ∧
  Forall2 (λ l l', sl_source l' = sl_source l ∧ sl_stage l' = sl_stage l ∧
    sl_digest l' = lineageDigest l' ∧
    Forall2 (λ f f', sf_name f' = sf_name f ∧
      ∃ content, ReadBytes (file_path l f) = Ok content ∧
        sf_digest f' = digest_prefix +:+ sha256_hex content)
      (sl_files l) (sl_files l')) (pl_lineages p) (pl_lineages p').
Proof.
  unfold attest. intros H. res_inv. simpl. split_and!; try done.
  match goal with H : map_result _ _ = Ok _ |- _ => apply map_result_ok in H; rename H into Hall end.
  eapply Forall2_impl; [exact Hall|]. intros l l' Hl. unfold attest_lineage in Hl. res_inv.
  simpl. split_and!; try done.
  match goal with H : map_result _ _ = Ok _ |- _ => apply map_result_ok in H; rename H into Hf end.
  eapply Forall2_impl; [exact Hf|]. intros f f' Hff. unfold attest_file, fileDigest in Hff.
  res_inv. simpl. split; [done|]. eauto.
Qed.
End attested.

#[local] Instance file_artifact_inj : Inj (=) (=) file_artifact.
Proof. intros [] []. unfold file_artifact. simpl. congruence. Qed.

(** Every message an attested plan digests. *)
Definition digested (p : schemaPlan) : list string :=
  write (plan_values (artifactWithoutDigest p))
  :: ((λ l, write (lineage_values (lineage_artifact l))) <$> pl_lineages p).

Definition plan_nul_free (p : schemaPlan) : Prop :=
  Forall nul_free (plan_values (artifactWithoutDigest p)) ∧
  Forall (λ l, Forall nul_free (lineage_values (lineage_artifact l))) (pl_lineages p).

(** The bytes of the staged files of a plan. *)
Definition file_contents (fs : StagingFS) (p : schemaPlan) : list string :=
  concat ((λ l, concat ((λ f, match ReadBytes (file_path l f) with Ok c => [c] | Err _ => [] end)
                          <$> sl_files l)) <$> pl_lineages p).

Definition collision_free (messages : list string) : Prop :=
  ∀ x y, x ∈ messages → y ∈ messages → sha256 x = sha256 y → x = y.

Lemma elem_of_concat_fmap {A B} (f : A → list B) l x :
  x ∈ concat (f <$> l) ↔ ∃ a, a ∈ l ∧ x ∈ f a.
Proof.
  induction l as [|a l IH].
  { split; [by intros ?%not_elem_of_nil|]. by intros (? & ?%not_elem_of_nil & _). }
  change (concat (f <$> a :: l)) with (f a ++ concat (f <$> l)).
  rewrite elem_of_app, IH. set_solver.
Qed.

Lemma file_contents_elem fs p l f c :
  l ∈ pl_lineages p → f ∈ sl_files l → ReadBytes (file_path l f) = Ok c → c ∈ file_contents fs p.
Proof.
  intros Hl Hf Hc. apply elem_of_concat_fmap. exists l. split; [done|].
  apply elem_of_concat_fmap. exists f. split; [done|]. rewrite Hc. by left.
Qed.

Lemma digested_lineage p i l :
  pl_lineages p !! i = Some l → write (lineage_values (lineage_artifact l)) ∈ digested p.
Proof.
  intros Hl. right. apply list_elem_of_fmap. exists l. split; [done|].
  by eapply list_elem_of_lookup_2.
Qed.

(** Equal plan digests make the lineage rows, and so the lineage digests,
    equal. *)
Lemma digest_rows p1 p2 :
  pl_database p1 = pl_database p2 → pl_extensions p1 = pl_extensions p2 →
  pl_access p1 = pl_access p2 → plan_nul_free p1 → plan_nul_free p2 →
  collision_free (digested p1 ++ digested p2) → digest p1 = digest p2 →
  lineage_row ∘ lineage_artifact <$> pl_lineages p1 = lineage_row ∘ lineage_artifact <$> pl_lineages p2.
Proof.
  intros Hd He Ha [Hn1 _] [Hn2 _] Hcol Hdig%content_digest_inj.
  apply Hcol in Hdig; [|unfold digested; set_solver..].
  apply write_inj in Hdig; [|done..].
  apply plan_values_inj in Hdig as (_ & _ & _ & _ & _ & Hrows).
  - rewrite !list_fmap_compose. exact Hrows.
  - unfold same_shape. simpl. by rewrite He, Ha.
Qed.

(** Equal lineage digests make the files equal, name and digest. *)
Lemma lineage_digest_files p1 p2 i j l1 l2 :
  collision_free (digested p1 ++ digested p2) → plan_nul_free p1 → plan_nul_free p2 →
  pl_lineages p1 !! i = Some l1 → pl_lineages p2 !! j = Some l2 →
  lineageDigest l1 = lineageDigest l2 → sl_files l1 = sl_files l2.
Proof.
  intros Hcol [_ Hn1] [_ Hn2] H1 H2 Hd%content_digest_inj.
  apply (Hcol (write (lineage_values (lineage_artifact l1)))
              (write (lineage_values (lineage_artifact l2)))) in Hd;
    [|apply elem_of_app; left; by eapply digested_lineage
     |apply elem_of_app; right; by eapply digested_lineage].
  rewrite Forall_lookup in Hn1, Hn2.
  apply write_inj in Hd; [|by eapply Hn1|by eapply Hn2].
  apply lineage_values_inj in Hd as (_ & _ & Hf). simpl in Hf.
  by apply (inj (fmap file_artifact)) in Hf.
Qed.

(** C29: the plan digest identifies every staged byte: two attestations of one
    plan over two states of the tree publish the same digest only if every staged
    file has the same content in both, unless SHA-256 collides on two of the very
    messages they digest. *)
Theorem attestation_detects_mutation (fs1 fs2 : StagingFS) p p1 p2 :
  attest (fs := fs1) p = Ok p1 → attest (fs := fs2) p = Ok p2 →
  plan_nul_free p1 → plan_nul_free p2 →
  collision_free (digested p1 ++ digested p2) →
  collision_free (file_contents fs1 p ++ file_contents fs2 p) →
  digest p1 = digest p2 →
  ∀ l f, l ∈ pl_lineages p → f ∈ sl_files l →
    ∃ content, ReadBytes (StagingFS := fs1) (file_path l f) = Ok content ∧
               ReadBytes (StagingFS := fs2) (file_path l f) = Ok content.
Proof.
  intros (Hd1 & He1 & Ha1 & Hl1)%attest_ok (Hd2 & He2 & Ha2 & Hl2)%attest_ok
    Hn1 Hn2 Hcol Hcolf Hdig l f Hl Hf.
  pose proof (digest_rows p1 p2 ltac:(congruence) ltac:(congruence) ltac:(congruence)
    Hn1 Hn2 Hcol Hdig) as Hrows.
  pose proof Hl as [i Hi]%list_elem_of_lookup.
  destruct (Forall2_lookup_l _ _ _ _ _ Hl1 Hi) as (l1 & Hi1 & Hs1 & _ & Hg1 & Hf1).
  destruct (Forall2_lookup_l _ _ _ _ _ Hl2 Hi) as (l2 & Hi2 & Hs2 & _ & Hg2 & Hf2).
  assert (Hfiles : sl_files l1 = sl_files l2).
  { eapply lineage_digest_files; try done. rewrite <-Hg1, <-Hg2.
    apply (f_equal (lookup i)) in Hrows. rewrite !list_lookup_fmap, Hi1, Hi2 in Hrows.
    simpl in Hrows. by injection Hrows. }
  pose proof Hf as [j Hj]%list_elem_of_lookup.
  destruct (Forall2_lookup_l _ _ _ _ _ Hf1 Hj) as (g1 & Hj1 & _ & c1 & Hc1 & Hx1).
  destruct (Forall2_lookup_l _ _ _ _ _ Hf2 Hj) as (g2 & Hj2 & _ & c2 & Hc2 & Hx2).
  assert (Hg : g1 = g2) by congruence. rewrite Hg, Hx2 in Hx1.
  apply content_digest_inj, Hcolf in Hx1 as ->; [by exists c1| |];
    apply elem_of_app; [right|left]; by eapply file_contents_elem.
Qed.

(** ** Witnesses *)

Definition staging_fs (dirs : list (string * list DirEntry)) (contents : list (string * string)) :
    StagingFS := {|
  staging_dirs := table_fs dirs;
  EvalSymlinks p := Ok p;
  StatRegular p := Ok true;
  ReadBytes p :=
    match list_find (λ c, c.1 = p) contents with
    | Some (_, c) => Ok c.2 | None => Err (ENew ErrNotExist []) end |}.

Definition example_tree : list (string * list DirEntry) :=
  [("/svc/migrations", [file "1_init.up.sql"; file "2_more.up.sql"; file "notes.md"])].
Definition example_contents (second : string) : list (string * string) :=
  [("/svc/migrations/1_init.up.sql", "create table t();"); ("/svc/migrations/2_more.up.sql", second)].
Definition example_staging (second : string) : StagingFS :=
  staging_fs example_tree (example_contents second).

Definition example_prerequisites : schemaPrerequisites :=
  {| sp_sources := [own_source "/svc/migrations"];
     sp_extensions := [{| er_name := "vector"; er_required := true |}]; sp_skipped := [] |}.
Definition example_plan : schemaPlan :=
  match buildSchemaPlan (fs := example_staging "") (u := ascii_unicode)
          example_prerequisites (default_settings "store") with
  | Ok p => p
  | Err _ => {| pl_database := ""; pl_lineages := []; pl_extensions := [];
                pl_access := Build_schemaAccess "" "" [] [] |}
  end.

Lemma buildSchemaPlan_correct_witness :
  buildSchemaPlan (fs := example_staging "") (u := ascii_unicode)
    example_prerequisites (default_settings "store") = Ok example_plan ∧
  (λ l, (sl_stage l, sf_name <$> sl_files l)) <$> pl_lineages example_plan
    = [("00-store", ["1_init.up.sql"; "2_more.up.sql"])] ∧
  NoDup (sl_stage <$> pl_lineages example_plan).
Proof.
  split; [vm_compute; reflexivity|]. split; [vm_compute; reflexivity|].
  refine (proj1 (proj2 (proj2 (proj2 (buildSchemaPlan_correct (fs := example_staging "")
    (u := ascii_unicode) example_prerequisites (default_settings "store") example_plan _ _))))).
  - apply table_fs_laws. apply (bool_decide_unpack _). vm_compute. exact I.
  - vm_compute. reflexivity.
Defined.

Definition collision_freeb (messages : list string) : bool :=
  let ds := (λ x, (x, sha256 x)) <$> messages in
  forallb (λ p, forallb (λ q, negb (bool_decide (p.2 = q.2)) || bool_decide (p.1 = q.1)) ds) ds.
Lemma collision_freeb_spec messages : collision_freeb messages = true → collision_free messages.
Proof.
  unfold collision_freeb. rewrite Forall_forallb, Forall_fmap, Forall_forall. intros H x y Hx Hy Heq.
  specialize (H x Hx). simpl in H. rewrite Forall_forallb, Forall_fmap, Forall_forall in H.
  specialize (H y Hy). simpl in H.
  rewrite bool_decide_eq_true_2 in H by done. by apply bool_decide_eq_true in H.
Qed.

Definition nul_freeb (s : string) : bool := forallb (λ c, negb (bool_decide (c = chr 0))) (bytes s).
Definition plan_nul_freeb (p : schemaPlan) : bool :=
  forallb nul_freeb (plan_values (artifactWithoutDigest p))
  && forallb (λ l, forallb nul_freeb (lineage_values (lineage_artifact l))) (pl_lineages p).
Lemma nul_freeb_spec s : nul_freeb s = true → nul_free s.
Proof.
  unfold nul_freeb, nul_free. rewrite Forall_forallb, Forall_forall. intros H Hin.
  by specialize (H _ Hin); rewrite bool_decide_eq_true_2 in H.
Qed.
Lemma plan_nul_freeb_spec p : plan_nul_freeb p = true → plan_nul_free p.
Proof.
  intros [H1%Forall_forallb H2%Forall_forallb]%andb_true_iff. split.
  - eapply Forall_impl; [exact H1|]. apply nul_freeb_spec.
  - eapply Forall_impl; [exact H2|]. intros l Hl%Forall_forallb.
    eapply Forall_impl; [exact Hl|]. apply nul_freeb_spec.
Qed.

Definition attested_example (second : string) : schemaPlan :=
  match attest (fs := example_staging second) example_plan with Ok p => p | Err _ => example_plan end.

Definition example_lineage : schemaLineage :=
  {| sl_source := own_source "/svc/migrations"; sl_stage := "00-store";
     sl_files := [{| sf_name := "1_init.up.sql"; sf_digest := "" |};
                  {| sf_name := "2_more.up.sql"; sf_digest := "" |}]; sl_digest := "" |}.
Definition example_file : schemaFile := {| sf_name := "2_more.up.sql"; sf_digest := "" |}.

Lemma attestation_detects_mutation_witness :
  ∃ content, ReadBytes (StagingFS := example_staging "a") (file_path example_lineage example_file)
    = Ok content.
Proof.
  destruct (attestation_detects_mutation (example_staging "a") (example_staging "a") example_plan
    (attested_example "a") (attested_example "a")) with (l := example_lineage) (f := example_file)
    as (content & H & _).
  - vm_compute. reflexivity.
  - vm_compute. reflexivity.
  - apply plan_nul_freeb_spec. vm_compute. reflexivity.
  - apply plan_nul_freeb_spec. vm_compute. reflexivity.
  - apply collision_freeb_spec. vm_compute. reflexivity.
  - apply collision_freeb_spec. vm_compute. reflexivity.
  - reflexivity.
  - vm_compute. left.
  - right. left.
  - exists content. exact H.
Defined.
