(* ===== verification/BootstrapPackage.v ===== *)
(** The managed bootstrap's package verification
    ([libs/go/bootstrap/package.go]): the binding of a plan to a deployment, and
    the snapshot of the attested files into a private directory. *)
From stdpp Require Import sorting.
From S2P Require Import Prelude GoStrings Sha256 Settings MigrationFiles RuntimeRoles SchemaPlan.

Record Binding := {
  B_PlanSHA256 : string; B_PlanDigest : string; B_OwnerRole : string;
  B_ReadOnlyPrincipals : list string; B_ReadWritePrincipals : list string;
}.

(** ** Names *)

Definition component (s : string) : bool :=
  negb (bool_decide (s = "")) && negb (bool_decide (s = ".")) && negb (bool_decide (s = ".."))
  && negb (contains_any s ("/\" +:+ nul)).

Definition identifier (s : string) : bool :=
  negb (blank s) && (len s <=? 63) && negb (contains_any s nul).

Definition ledger_head (c : ascii) : bool :=
  (code c =? 95) || is_lower (code c) || is_upper (code c).
(** [ledgerName]: [^[A-Za-z_][A-Za-z0-9_]{0,62}$]. *)
Definition ledgerName (s : string) : bool :=
  match bytes s with
  | [] => false
  | c :: l => ledger_head c && forallb ident_byte l && (Z.of_nat (length l) <=? 62)
  end.

(** ** The binding *)

Definition claim_group (seen : gset string) (group : string) : result (gset string) :=
  _ ← guard_err (bool_decide (group ∈ seen)) (ENew "owner and managed groups must differ" []);
  Ok ({[group]} ∪ seen).

Definition claim_role (seen : gset string) (r : string) : result (gset string) :=
  _ ← guard_err (negb (identifier r) || bool_decide (r ∈ seen))
        (ENew "role bindings must be distinct valid identifiers" []);
  Ok ({[r]} ∪ seen).

(** The schema loop: [previous] is the schema before in sorted order. *)
Definition check_schema (previous : option string) (s : string) : result (option string) :=
  _ ← guard_err (negb (identifier s) || bool_decide (previous = Some s))
        (ENew "invalid or duplicate runtime schema" []);
  Ok (Some s).

Definition validateBinding (p : Plan) (b : Binding) : result unit :=
  let a := P_Access p in
  _ ← guard_err (negb (identifier (P_Database p)) || negb (identifier (B_OwnerRole b))
                 || negb (identifier (A_ReadOnlyRole a)) || negb (identifier (A_ReadWriteRole a))
                 || bool_decide (A_Schemas a = []))
        (ENew "database, owner, groups and schemas are required" []);
  seen ← fold_result claim_group {[B_OwnerRole b]} [A_ReadOnlyRole a; A_ReadWriteRole a];
  _ ← fold_result claim_role seen
        (concat [default [] (A_ReadOnlyRoles a); A_ReadWriteRoles a;
                 B_ReadOnlyPrincipals b; B_ReadWritePrincipals b]);
  _ ← guard_err (bool_decide (B_ReadOnlyPrincipals b = []) || bool_decide (B_ReadWritePrincipals b = []))
        (ENew "explicit reader and writer principals are required" []);
  _ ← fold_result check_schema None (merge_sort str_le (A_Schemas a));
  Ok tt.

(** ** The package directory

    [os.ReadFile] of the plan, the [os.Root] of the package directory, and the
    success of creating the private directory, of what is put into it and of removing
    it are the operating system's; [decode] is [encoding/json] with unknown fields
    refused. *)
Class PackageFS := {
  ReadPlan : result string;
  decodeJSON : string → result Plan;
  OpenRoot : result unit;
  RootLstat : string → result FileType;
  RootReadDir : string → result (list DirEntry);
  RootReadFile : string → result string;
  MkdirTemp : result unit;
  Mkdir : string → result unit;
  WriteFile : string * string → result unit;
  (* what [os.RemoveAll] leaves of a directory: nothing, when it succeeds *)
  RemoveAll : gmap (string * string) string → option (gmap (string * string) string);
}.

(** The private directory: absent, or the files under each stage. *)
Definition Private : Type := option (gmap (string * string) string).

Section snapshot.
Context {fs : PackageFS}.

Definition fail {A} (message : string) : result A := Err (ENew message []).

Definition read_plan (binding : Binding) : result Plan :=
  data ← match ReadPlan with Ok d => if 4194304 <? len d then fail "cannot read bounded schema plan" else Ok d
                           | Err _ => fail "cannot read bounded schema plan" end;
  _ ← guard_err (bool_decide (B_PlanSHA256 binding ≠ sha256_hex data))
        (ENew "schema plan file identity mismatch" []);
  p ← decodeJSON data;
  _ ← guard_err
        ((bool_decide (P_ContractVersion p ≠ ContractVersion)
          && bool_decide (P_ContractVersion p ≠ ReaderRolesContractVersion))
         || (bool_decide (P_ContractVersion p = ContractVersion)
             && bool_decide (is_Some (A_ReadOnlyRoles (P_Access p))))
         || bool_decide (P_Digest p ≠ plan_ContentDigest p)
         || bool_decide (P_Digest p ≠ B_PlanDigest binding))
        (ENew "schema plan identity mismatch" []);
  _ ← validateBinding p binding;
  Ok p.

(** The state of the loop over the files of one lineage: the previous name, the
    names and the version keys met. *)
Record inventory := {
  iv_previous : string; iv_names : gset string; iv_versions : gset (Z * string);
}.

Definition check_file (iv : inventory) (f : File) : result inventory :=
  match migrationFileName (F_Name f) with
  | None => fail "invalid or unordered migration inventory"
  | Some (digits, dir) =>
    _ ← guard_err (negb (component (F_Name f)) || negb (str_ltb (iv_previous iv) (F_Name f))
                   || bool_decide (F_Name f ∈ iv_names iv))
          (ENew "invalid or unordered migration inventory" []);
    match parse_uint 64 digits with
    | None => fail "invalid migration version"
    | Some version =>
      _ ← guard_err (bool_decide ((version, dir) ∈ iv_versions iv))
            (ENew "duplicate migration version and direction" []);
      Ok {| iv_previous := F_Name f; iv_names := {[F_Name f]} ∪ iv_names iv;
            iv_versions := {[(version, dir)]} ∪ iv_versions iv |}
    end
  end.

(** Reading one file of the package: its attested bytes. *)
Definition read_file (source : string) (f : File) : result string :=
  let path := source +:+ "/" +:+ F_Name f in
  _ ← match RootLstat path with
      | Ok t => guard_err (negb (bool_decide (t = Regular))) (ENew "migration must be a regular file" [])
      | Err _ => fail "migration must be a regular file"
      end;
  data ← match RootReadFile path with Ok d => Ok d | Err _ => fail "cannot read migration" end;
  _ ← guard_err (bool_decide (digest_prefix +:+ sha256_hex data ≠ F_Digest f))
        (ENew "migration content identity mismatch" []);
  Ok data.

Definition put (stage name data : string) : io Private unit := λ w,
  match WriteFile (stage, name) with
  | Ok _ => (Ok tt, (λ m, <[(stage, name) := data]> m) <$> w)
  | Err e => (Err e, w)
  end.

Definition stage_file (stage : string) (iv : inventory) (f : File) : io Private inventory :=
  iv' ← io_lift (check_file iv f);
  data ← io_lift (read_file ("sources/" +:+ stage) f);
  _ ← put stage (F_Name f) data;
  mret iv'.

Fixpoint stage_files (stage : string) (iv : inventory) (files : list File) : io Private unit :=
  match files with
  | [] => mret tt
  | f :: files => stage_file stage iv f ≫= λ iv', stage_files stage iv' files
  end.

Definition check_directory (path : string) : result unit :=
  match RootLstat path with
  | Ok t => guard_err (negb (bool_decide (t = Directory))) (ENew "invalid schema source directory" [])
  | Err _ => fail "invalid schema source directory"
  end.

Definition claims := (gset string * gset string)%type.

Definition check_lineage (st : claims) (l : Lineage) : result claims :=
  _ ← guard_err (negb (component (L_Stage l)) || negb (component (L_Label l))
                 || negb (ledgerName (L_Ledger l)) || bool_decide (L_Stage l ∈ st.1)
                 || bool_decide (L_Ledger l ∈ st.2) || bool_decide (L_Files l = [])
                 || bool_decide (L_Digest l ≠ lineage_ContentDigest l))
        (ENew "invalid or duplicate schema lineage" []);
  let source := "sources/" +:+ L_Stage l in
  _ ← each check_directory ["sources"; source];
  _ ← match RootReadDir source with
      | Ok entries => guard_err (negb (bool_decide (length entries = length (L_Files l))))
                        (ENew "schema source inventory mismatch" [])
      | Err _ => fail "schema source inventory mismatch"
      end;
  _ ← Mkdir (L_Stage l);
  Ok ({[L_Stage l]} ∪ st.1, {[L_Ledger l]} ∪ st.2).

Definition stage_lineage (st : claims) (l : Lineage) : io Private claims :=
  st' ← io_lift (check_lineage st l);
  _ ← stage_files (L_Stage l) {| iv_previous := ""; iv_names := ∅; iv_versions := ∅ |} (L_Files l);
  mret st'.

Fixpoint stage_lineages (st : claims) (ls : list Lineage) : io Private unit :=
  match ls with
  | [] => mret tt
  | l :: ls => stage_lineage st l ≫= λ st', stage_lineages st' ls
  end.

Definition check_extension (seen : gset string) (e : PlanExtension) : result (gset string) :=
  _ ← guard_err (negb (identifier (X_Name e)) || bool_decide (X_Name e ∈ seen))
        (ENew "invalid extension declaration" []);
  Ok ({[X_Name e]} ∪ seen).

Definition stage_package (p : Plan) : io Private unit :=
  _ ← stage_lineages (∅, ∅) (P_Lineages p);
  io_lift (_ ← fold_result check_extension ∅ (P_Extensions p); Ok tt).

(** [defer func() { if !success { os.RemoveAll(temp) } }()]: its error is dropped, so
    what it could not remove stays. *)
Definition remove_on_failure {A} (m : io Private A) : io Private A := λ w,
  match m w with
  | (Ok a, w') => (Ok a, w')
  | (Err e, w') => (Err e, w' ≫= RemoveAll)
  end.

Definition snapshot (binding : Binding) : io Private Plan :=
  p ← io_lift (read_plan binding);
  _ ← io_lift (match OpenRoot with Ok _ => Ok tt | Err _ => fail "cannot open schema package" end);
  _ ← io_lift MkdirTemp;
  _ ← io_put (Some ∅);
  _ ← remove_on_failure (stage_package p);
  mret p.
End snapshot.

(** ** The binding accepts exactly the distinct, valid, complete ones *)

Lemma guard_claim_ok (b : bool) e (seen : gset string) k seen' :
  (guard_err b e ≫= λ _, Ok ({[k]} ∪ seen)) = Ok seen' ↔ b = false ∧ seen' = {[k]} ∪ seen.
Proof.
  destruct b; cbn [guard_err mbind result_bind]; [by split; [|intros [? _]]|].
  split; [by intros [= <-]|by intros [_ ->]].
Qed.

Lemma claim_group_ok seen g seen' :
  claim_group seen g = Ok seen' ↔ True ∧ id g ∉ seen ∧ seen' = {[id g]} ∪ seen.
Proof. unfold claim_group. rewrite guard_claim_ok, bool_decide_eq_false. by unfold id; tauto. Qed.
Lemma claim_role_ok seen r seen' :
  claim_role seen r = Ok seen' ↔ identifier r = true ∧ id r ∉ seen ∧ seen' = {[id r]} ∪ seen.
Proof.
  unfold claim_role. rewrite guard_claim_ok, orb_false_iff, negb_false_iff, bool_decide_eq_false.
  unfold id. tauto.
Qed.
Lemma check_extension_ok seen e seen' :
  check_extension seen e = Ok seen' ↔
  identifier (X_Name e) = true ∧ X_Name e ∉ seen ∧ seen' = {[X_Name e]} ∪ seen.
Proof.
  unfold check_extension.
  rewrite guard_claim_ok, orb_false_iff, negb_false_iff, bool_decide_eq_false. tauto.
Qed.

Lemma check_schemas_ok previous l :
  StronglySorted str_le l → (∀ x, previous = Some x → Forall (str_le x) l) →
  (∃ st, fold_result check_schema previous l = Ok st) ↔
  Forall (λ s, identifier s = true) l ∧ NoDup l ∧ (∀ x, previous = Some x → x ∉ l).
Proof.
  intros Hs. revert previous. induction Hs as [|s l Hs IH Hall]; intros previous Hle; simpl.
  { split; [|by eauto]. intros _. split_and!; [constructor..|]. intros x _. apply not_elem_of_nil. }
  rewrite Forall_cons, NoDup_cons.
  set (c := check_schema previous s). unfold check_schema in c. subst c.
  destruct (identifier s); simpl; [|by split; [intros [? ?]|intros [[? _] _]]].
  case_bool_decide as Hp; simpl.
  { split; [by intros [? ?]|]. intros (_ & _ & Hx). exfalso. apply (Hx s Hp). by left. }
  rewrite IH by (intros x [= <-]; done). split.
  - intros (Hi & Hnd & Hsl). split_and!; try done; [by apply Hsl|].
    intros x Hx [->|Hin]%elem_of_cons; [done|].
    specialize (Hle x Hx). apply Forall_cons in Hle as [Hxs _].
    assert (Hsx : str_le s x) by by apply (proj1 (Forall_forall _ _) Hall).
    assert (x = s) as -> by by apply (anti_symm str_le). done.
  - intros ([_ Hi] & [Hn Hnd] & _). split_and!; try done. by intros x [= <-].
Qed.

Lemma schemas_sorted_ok l :
  (∃ st, fold_result check_schema None (merge_sort str_le l) = Ok st) ↔
  Forall (λ s, identifier s = true) l ∧ NoDup l.
Proof.
  rewrite check_schemas_ok; [|apply StronglySorted_merge_sort; apply _|done].
  rewrite (merge_sort_Permutation str_le l). naive_solver.
Qed.

(** The roles a binding names, in the order they are claimed. *)
Definition bound_roles (p : Plan) (b : Binding) : list string :=
  default [] (A_ReadOnlyRoles (P_Access p)) ++ A_ReadWriteRoles (P_Access p)
  ++ B_ReadOnlyPrincipals b ++ B_ReadWritePrincipals b.

Definition valid_binding (p : Plan) (b : Binding) : Prop :=
  identifier (P_Database p) = true ∧
  Forall (λ r, identifier r = true)
    (B_OwnerRole b :: A_ReadOnlyRole (P_Access p) :: A_ReadWriteRole (P_Access p) :: bound_roles p b) ∧
  NoDup (B_OwnerRole b :: A_ReadOnlyRole (P_Access p) :: A_ReadWriteRole (P_Access p) :: bound_roles p b) ∧
  B_ReadOnlyPrincipals b ≠ [] ∧ B_ReadWritePrincipals b ≠ [] ∧
  A_Schemas (P_Access p) ≠ [] ∧
  Forall (λ s, identifier s = true) (A_Schemas (P_Access p)) ∧ NoDup (A_Schemas (P_Access p)).

Lemma distinct_claims owner groups (rest : list string) :
  (NoDup groups ∧ Forall (λ x, x ∉ ({[owner]} : gset string)) groups) ∧
  (NoDup rest ∧ Forall (λ x, x ∉ claim_all id ({[owner]} : gset string) groups) rest) ↔
  NoDup (owner :: groups ++ rest).
Proof.
  rewrite NoDup_cons, NoDup_app, !Forall_forall. split.
  - intros ([Hg Hgo] & [Hr Hro]). split_and!; try done.
    + intros [Hin|Hin]%elem_of_app; [by apply (Hgo owner Hin); set_solver|].
      apply (Hro owner Hin). apply elem_of_claim_all. set_solver.
    + intros x Hx Hin. apply (Hro x Hin). apply elem_of_claim_all. left.
      by rewrite list_fmap_id.
  - intros (Ho & Hg & Hgr & Hr). split_and!; try done.
    + intros x Hx ->%elem_of_singleton. set_solver.
    + intros x Hx [Hin|Hin%elem_of_singleton]%elem_of_claim_all.
      * rewrite list_fmap_id in Hin. by apply (Hgr x).
      * set_solver.
Qed.

Lemma validateBinding_ok p b : validateBinding p b = Ok tt ↔ valid_binding p b.
Proof.
  unfold validateBinding, valid_binding. cbv zeta.
  set (ro := A_ReadOnlyRole (P_Access p)). set (rw := A_ReadWriteRole (P_Access p)).
  assert (Hconcat : concat [default [] (A_ReadOnlyRoles (P_Access p)); A_ReadWriteRoles (P_Access p);
      B_ReadOnlyPrincipals b; B_ReadWritePrincipals b] = bound_roles p b).
  { simpl. by rewrite app_nil_r. }
  rewrite Hconcat.
  change (NoDup (B_OwnerRole b :: ro :: rw :: bound_roles p b))
    with (NoDup (B_OwnerRole b :: [ro; rw] ++ bound_roles p b)).
  rewrite <-distinct_claims, <-schemas_sorted_ok, !Forall_cons.
  rewrite bind_ok. setoid_rewrite bind_ok.
  setoid_rewrite (claiming_ok claim_group _ id claim_group_ok).
  split.
  - intros ([] & Hg%guard_ok & seen & (_ & Hgn & Hgo & ->) & Hrest). res_inv.
    match goal with H : fold_result claim_role _ _ = Ok _ |- _ =>
      apply (claiming_ok claim_role _ id claim_role_ok) in H as (? & Hrn & Hro & _) end.
    rewrite list_fmap_id in Hgn, Hrn. 
    rewrite !Forall_cons in Hgo. destruct Hgo as (? & ? & _). split_and!; try done. by eexists.
  - intros (Hd & (Ho & Hro & Hrw & Hall) & [[Hgn Hgo] [Hrn Hrr]] & Hp1 & Hp2 & Hs & [st Hst]).
    exists tt. rewrite Hd, Ho, Hro, Hrw. simpl. rewrite bool_decide_eq_false_2 by done.
    split; [done|]. eexists. split.
    { destruct Hgo as (? & ? & ?). split_and!; try done; by repeat constructor. }
    rewrite bind_ok. eexists. split.
    { apply (claiming_ok claim_role _ id claim_role_ok).
      split_and!; [done|by rewrite list_fmap_id|done|done]. }
    rewrite !bool_decide_eq_false_2 by done. simpl. by rewrite Hst.
Qed.

(** A binding is accepted exactly when every name in it is a valid
    identifier and the owner, the two groups, the delegated readers and writers
    and the reader and writer principals are pairwise distinct, both kinds of
    principal are named, and the schemas are named, valid and distinct. *)
Theorem validateBinding_exact p b :
  validateBinding p b = Ok tt ↔
  identifier (P_Database p) = true ∧
  (let roles := B_OwnerRole b :: A_ReadOnlyRole (P_Access p) :: A_ReadWriteRole (P_Access p)
     :: default [] (A_ReadOnlyRoles (P_Access p)) ++ A_ReadWriteRoles (P_Access p)
        ++ B_ReadOnlyPrincipals b ++ B_ReadWritePrincipals b in
   Forall (λ r, identifier r = true) roles ∧ NoDup roles) ∧
  B_ReadOnlyPrincipals b ≠ [] ∧ B_ReadWritePrincipals b ≠ [] ∧
  A_Schemas (P_Access p) ≠ [] ∧
  Forall (λ s, identifier s = true) (A_Schemas (P_Access p)) ∧ NoDup (A_Schemas (P_Access p)).
Proof. rewrite validateBinding_ok. unfold valid_binding, bound_roles. naive_solver. Qed.

(** ** The snapshot *)

Section snapshot_facts.
Context {fs : PackageFS}.

(** A file the package attests, read to [data]. *)
Definition attested_file (stage : string) (f : File) (data : string) : Prop :=
  component (F_Name f) = true ∧
  RootLstat ("sources/" +:+ stage +:+ "/" +:+ F_Name f) = Ok Regular ∧
  RootReadFile ("sources/" +:+ stage +:+ "/" +:+ F_Name f) = Ok data ∧
  F_Digest f = digest_prefix +:+ sha256_hex data.

Lemma check_file_ok iv f iv' :
  check_file iv f = Ok iv' → ∃ k, claim_key (F_Name f) = Some k ∧
    component (F_Name f) = true ∧ str_ltb (iv_previous iv) (F_Name f) = true ∧
    F_Name f ∉ iv_names iv ∧ k ∉ iv_versions iv ∧
    iv' = {| iv_previous := F_Name f; iv_names := {[F_Name f]} ∪ iv_names iv;
             iv_versions := {[k]} ∪ iv_versions iv |}.
Proof.
  unfold check_file, claim_key. destruct (migrationFileName (F_Name f)) as [[ds dir]|]; [|done].
  simpl. intros H. res_inv. destruct (parse_uint 64 ds) as [v|]; [|done]. simpl. res_inv.
  exists (v, dir). by split_and!.
Qed.

Lemma read_file_ok stage f data :
  component (F_Name f) = true → read_file ("sources/" +:+ stage) f = Ok data →
  attested_file stage f data.
Proof.
  intros Hc. unfold read_file, attested_file. rewrite append_assoc. intros H. res_inv.
  destruct (RootLstat _) as [t|]; [|done]. res_inv. subst.
  destruct (RootReadFile _) as [d|]; [|done]. res_inv.
  split_and!; try done. symmetry. by apply dec_stable.
Qed.

Lemma stage_files_ok stage iv files m w' :
  stage_files stage iv files (Some m) = (Ok tt, w') →
  NoDup (F_Name <$> files) ∧ Forall (λ f, F_Name f ∉ iv_names iv) files ∧
  (∃ ks, (claim_key ∘ F_Name) <$> files = Some <$> ks ∧ NoDup ks ∧
         Forall (λ k, k ∉ iv_versions iv) ks) ∧
  ∃ m', w' = Some m' ∧
    Forall (λ f, ∃ data, attested_file stage f data ∧ m' !! (stage, F_Name f) = Some data) files ∧
    ∀ k, k ∉ (λ f, (stage, F_Name f)) <$> files → m' !! k = m !! k.
Proof.
  revert iv m. induction files as [|f files IH]; intros iv m; simpl.
  { intros [= <-]. split_and!; try constructor.
    - exists []. split_and!; constructor.
    - exists m. by split_and!. }
  rewrite io_bind_ok. intros (iv' & w1 & H1 & H2). unfold stage_file in H1.
  rewrite io_lift_bind_ok in H1. destruct H1 as (iv1 & (k & Hk & Hc & Hlt & Hn & Hv & ->)%check_file_ok & H1).
  rewrite io_lift_bind_ok in H1. destruct H1 as (data & Hd%read_file_ok & H1); [|done].
  rewrite io_bind_ok in H1. destruct H1 as ([] & w2 & Hput & [= <- <-]).
  unfold put in Hput. destruct (WriteFile _); [|done]. simpl in Hput. injection Hput as <-.
  apply IH in H2 as (Hnd & Hnames & (ks & Hks & Hknd & Hkall) & m' & -> & Hfiles & Hother).
  simpl in *. rewrite Forall_forall in Hnames.
  assert (Hfresh : F_Name f ∉ F_Name <$> files).
  { intros (g & Heq & Hg)%list_elem_of_fmap. apply (Hnames g Hg). rewrite <-Heq. set_solver. }
  split_and!.
  - by constructor.
  - constructor; [done|]. apply Forall_forall. intros g Hg ?. apply (Hnames g Hg). set_solver.
  - exists (k :: ks). rewrite Forall_forall in Hkall. split_and!.
    + change (claim_key (F_Name f) :: ((claim_key ∘ F_Name) <$> files) = Some k :: (Some <$> ks)).
      by rewrite Hk, Hks.
    + constructor; [|done]. intros Hin. apply (Hkall k Hin). set_solver.
    + constructor; [done|]. apply Forall_forall. intros k' Hk' ?. apply (Hkall k' Hk'). set_solver.
  - exists m'. split_and!; [done| |].
    + constructor; [|done]. exists data. split; [done|]. rewrite Hother.
      * by rewrite lookup_insert_eq.
      * intros (g & [= Heq] & Hg)%list_elem_of_fmap. apply Hfresh. rewrite Heq.
        by apply list_elem_of_fmap_2.
    + intros k' [Hne Hk']%not_elem_of_cons. rewrite Hother by done. by rewrite lookup_insert_ne.
Qed.

(** What one accepted lineage satisfies. *)
Record attested_lineage (l : Lineage) : Prop := {
  al_stage : component (L_Stage l) = true;
  al_label : component (L_Label l) = true;
  al_ledger : ledgerName (L_Ledger l) = true;
  al_digest : L_Digest l = lineage_ContentDigest l;
  al_files : L_Files l ≠ [];
  al_inventory : ∃ es, RootReadDir ("sources/" +:+ L_Stage l) = Ok es ∧ length es = length (L_Files l);
  al_names : NoDup (F_Name <$> L_Files l);
  al_keys : ∃ ks, (claim_key ∘ F_Name) <$> L_Files l = Some <$> ks ∧ NoDup ks;
}.

Lemma check_lineage_ok st l st' :
  check_lineage st l = Ok st' →
  L_Stage l ∉ st.1 ∧ L_Ledger l ∉ st.2 ∧
  st' = ({[L_Stage l]} ∪ st.1, {[L_Ledger l]} ∪ st.2) ∧
  (NoDup (F_Name <$> L_Files l) → (∃ ks, (claim_key ∘ F_Name) <$> L_Files l = Some <$> ks ∧ NoDup ks) →
   attested_lineage l).
Proof.
  unfold check_lineage. cbv zeta. intros H. res_inv.
  destruct (RootReadDir _) as [es|] eqn:Ed; [|done]. res_inv. split_and!; try done.
  intros Hn Hk. split; try done; [by apply dec_stable|]. by exists es.
Qed.

Lemma stage_lineages_ok st ls m w' :
  stage_lineages st ls (Some m) = (Ok tt, w') →
  NoDup (L_Stage <$> ls) ∧ Forall (λ l, L_Stage l ∉ st.1) ls ∧
  NoDup (L_Ledger <$> ls) ∧ Forall (λ l, L_Ledger l ∉ st.2) ls ∧
  Forall attested_lineage ls ∧
  ∃ m', w' = Some m' ∧
    Forall (λ l, Forall (λ f, ∃ data, attested_file (L_Stage l) f data ∧
                                      m' !! (L_Stage l, F_Name f) = Some data) (L_Files l)) ls ∧
    ∀ k, (∀ l f, l ∈ ls → f ∈ L_Files l → k ≠ (L_Stage l, F_Name f)) → m' !! k = m !! k.
Proof.
  revert st m. induction ls as [|l ls IH]; intros st m; simpl.
  { intros [= <-]. split_and!; try constructor. exists m. by split_and!. }
  rewrite io_bind_ok. intros (st' & w1 & H1 & H2). unfold stage_lineage in H1.
  rewrite io_lift_bind_ok in H1. destruct H1 as (st1 & (Hs & Hg & -> & Hl)%check_lineage_ok & H1).
  rewrite io_bind_ok in H1. destruct H1 as ([] & w2 & Hf & [= <- <-]).
  apply stage_files_ok in Hf as (Hn & _ & (ks & Hks & Hknd & _) & m1 & -> & Hfiles & Hother).
  apply IH in H2 as (Hsd & Hsf & Hgd & Hgf & Hall & m' & -> & Hls & Hrest). simpl in *.
  rewrite Forall_forall in Hsf, Hgf.
  assert (Hsfresh : L_Stage l ∉ L_Stage <$> ls).
  { intros (l' & Heq & Hin)%list_elem_of_fmap. apply (Hsf l' Hin). rewrite <-Heq. set_solver. }
  assert (Hgfresh : L_Ledger l ∉ L_Ledger <$> ls).
  { intros (l' & Heq & Hin)%list_elem_of_fmap. apply (Hgf l' Hin). rewrite <-Heq. set_solver. }
  split_and!; try (by constructor).
  - constructor; [done|]. apply Forall_forall. intros l' Hin ?. apply (Hsf l' Hin). set_solver.
  - constructor; [done|]. apply Forall_forall. intros l' Hin ?. apply (Hgf l' Hin). set_solver.
  - constructor; [|done]. apply Hl; [done|]. by exists ks.
  - exists m'. split_and!; [done| |].
    + constructor; [|done]. eapply Forall_impl; [exact Hfiles|].
      intros f (data & Ha & Hm). exists data. split; [done|]. rewrite Hrest; [done|].
      intros l' f' Hl' _ [= Heq _]. apply Hsfresh. rewrite Heq. by apply list_elem_of_fmap_2.
    + intros k Hk. rewrite Hrest, Hother; [done| |].
      * intros (f & -> & Hf)%list_elem_of_fmap. by apply (Hk l f); [left|..].
      * intros l' f' Hl' Hf'. apply Hk; [by right|done].
Qed.
End snapshot_facts.

Section snapshot_theorem.
Context {fs : PackageFS}.

Lemma read_plan_ok b p :
  read_plan b = Ok p →
  (∃ data, ReadPlan = Ok data ∧ len data ≤ 4194304 ∧ B_PlanSHA256 b = sha256_hex data ∧
           decodeJSON data = Ok p) ∧
  (P_ContractVersion p = ContractVersion ∧ A_ReadOnlyRoles (P_Access p) = None ∨
   P_ContractVersion p = ReaderRolesContractVersion) ∧
  P_Digest p = plan_ContentDigest p ∧ P_Digest p = B_PlanDigest b ∧ valid_binding p b.
Proof.
  unfold read_plan. intros H. res_inv.
  match goal with H : validateBinding _ _ = Ok _ |- _ => apply validateBinding_ok in H end.
  destruct ReadPlan as [data|]; [|done]. destruct (Z.ltb_spec 4194304 (len data)); [done|]. res_inv.
  repeat match goal with H : ¬ (_ ≠ _) |- _ => apply dec_stable in H end.
  split_and!; try done; [by exists x|].
  repeat match goal with H : andb _ _ = false |- _ => apply andb_false_iff in H as [H|H] end; res_inv.
  all: repeat match goal with H : ¬ (_ ≠ _) |- _ => apply dec_stable in H end; try done; try by right.
  left. split; [done|]. by apply eq_None_not_Some.
Qed.

(** C4: a snapshot that succeeds is of exactly the bound plan file and plan
    digest, under a valid binding, and leaves in the private directory exactly
    the attested files, each with the bytes its digest names; stages, ledgers,
    extensions, file names and (version, direction) pairs are never shared; and a
    snapshot that fails leaves no private directory behind, or only what its
    removal left of it. *)
Theorem snapshot_sound b :
  (∀ p w', snapshot b None = (Ok p, w') →
     (∃ data, ReadPlan = Ok data ∧ B_PlanSHA256 b = sha256_hex data ∧ decodeJSON data = Ok p) ∧
     P_Digest p = plan_ContentDigest p ∧ P_Digest p = B_PlanDigest b ∧ valid_binding p b ∧
     NoDup (L_Stage <$> P_Lineages p) ∧ NoDup (L_Ledger <$> P_Lineages p) ∧
     NoDup (X_Name <$> P_Extensions p) ∧ Forall attested_lineage (P_Lineages p) ∧
     ∃ m, w' = Some m ∧
       (∀ l f, l ∈ P_Lineages p → f ∈ L_Files l →
          ∃ data, m !! (L_Stage l, F_Name f) = Some data ∧
                  F_Digest f = digest_prefix +:+ sha256_hex data) ∧
       (∀ stage name, is_Some (m !! (stage, name)) →
          ∃ l f, l ∈ P_Lineages p ∧ f ∈ L_Files l ∧ stage = L_Stage l ∧ name = F_Name f)) ∧
  (∀ e w', snapshot b None = (Err e, w') → w' = None ∨ ∃ m, w' = RemoveAll m).
Proof.
  split.
  - intros p w' H. unfold snapshot in H. rewrite io_lift_bind_ok in H.
    destruct H as (p' & ((data & Hp1 & _ & Hp2 & Hp3) & _ & Hp4 & Hp5 & Hp6)%read_plan_ok & H).
    rewrite io_lift_bind_ok in H. destruct H as (_ & _ & H).
    rewrite io_lift_bind_ok in H. destruct H as (_ & _ & H).
    rewrite io_bind_ok in H. destruct H as (_ & w1 & [= _ <-] & H).
    rewrite io_bind_ok in H. destruct H as ([] & w2 & Hs & [= <- <-]).
    unfold remove_on_failure in Hs.
    destruct (stage_package p' (Some ∅)) as [[[]|] w3] eqn:E; simplify_eq/=.
    unfold stage_package in E. rewrite io_bind_ok in E. destruct E as ([] & w4 & Hl & He).
    unfold io_lift in He. injection He as He <-. res_inv.
    match goal with He : fold_result check_extension _ _ = Ok _ |- _ =>
      apply (claiming_ok check_extension _ X_Name check_extension_ok) in He as (_ & Hx & _) end.
    apply stage_lineages_ok in Hl as (Hl1 & _ & Hl2 & _ & Hl3 & m & -> & Hm & Hother).
    split_and!; try done; [by exists data|]. exists m. split_and!; [done| |].
    + intros l f Hl Hf. rewrite Forall_forall in Hm. specialize (Hm l Hl).
      rewrite Forall_forall in Hm. destruct (Hm f Hf) as (d & (_ & _ & _ & ?) & ?). by exists d.
    + intros stage name Hsome. destruct (decide (Exists (λ l, Exists (λ f, (stage, name) = (L_Stage l, F_Name f))
        (L_Files l)) (P_Lineages p'))) as [Hex|Hno].
      * apply Exists_exists in Hex as (l & Hl & (f & Hf & [= -> ->])%Exists_exists). by exists l, f.
      * exfalso. rewrite Hother, lookup_empty in Hsome; [by destruct Hsome|].
        intros l f Hl Hf Heq. apply Hno, Exists_exists. exists l. split; [done|].
        apply Exists_exists. by exists f.
  - intros e w' H. unfold snapshot in H.
    apply io_lift_bind_err in H as [[_ ->]|(p & _ & H)]; [by left|].
    apply io_lift_bind_err in H as [[_ ->]|(? & _ & H)]; [by left|].
    apply io_lift_bind_err in H as [[_ ->]|(? & _ & H)]; [by left|].
    apply io_bind_err in H as [[=]|(? & w1 & [= _ <-] & H)].
    apply io_bind_err in H as [H|(? & w2 & _ & [=])]. unfold remove_on_failure in H.
    destruct (stage_package p (Some ∅)) as [[[]|] [m|]]; simplify_eq/=; [|by left].
    right. by exists m.
Qed.
End snapshot_theorem.

(** ** Witnesses *)

(** The package of the example plan, as the builder stages it. *)
Definition example_artifact : Plan := artifact (attested_example "alter table t;").

Definition example_package (second : string) : PackageFS := {|
  ReadPlan := Ok "plan";
  decodeJSON _ := Ok example_artifact;
  OpenRoot := Ok tt;
  RootLstat path := Ok (if has_suffix path ".sql" then Regular else Directory);
  RootReadDir _ := Ok [file "1_init.up.sql"; file "2_more.up.sql"];
  RootReadFile path := Ok (if has_suffix path "2_more.up.sql" then second else "create table t();");
  MkdirTemp := Ok tt; Mkdir _ := Ok tt; WriteFile _ := Ok tt; RemoveAll _ := None |}.

Definition example_binding : Binding := {|
  B_PlanSHA256 := sha256_hex "plan"; B_PlanDigest := P_Digest example_artifact;
  B_OwnerRole := "migrator"; B_ReadOnlyPrincipals := ["reader@app"];
  B_ReadWritePrincipals := ["writer@app"] |}.

(** The builder's package is accepted, and refused once one byte changed. *)
Lemma snapshot_sound_witness :
  is_ok (snapshot (fs := example_package "alter table u;") example_binding None).1 = false ∧
  (snapshot (fs := example_package "alter table t;") example_binding None).1 = Ok example_artifact ∧
  NoDup (L_Stage <$> P_Lineages example_artifact).
Proof.
  split; [vm_compute; reflexivity|].
  assert (H : (snapshot (fs := example_package "alter table t;") example_binding None).1
         = Ok example_artifact) by (vm_compute; reflexivity).
  split; [exact H|].
  destruct (snapshot (fs := example_package "alter table t;") example_binding None) as [r w] eqn:E.
  simpl in H. subst r.
  destruct (snapshot_sound (fs := example_package "alter table t;") example_binding) as [Hok _].
  destruct (Hok _ _ E) as (_ & _ & _ & _ & Hs & _). exact Hs.
Defined.

(** The plan digest alone does not identify the access policy: two v1 plans
    with the same content digest, both accepted under the same binding, one of
    which delegates every write to a role while the other grants the read-write
    group direct DML on one more schema.  (The plan file's own digest, which the
    binding also carries, tells them apart.) *)
Theorem content_digest_ambiguous :
  ∃ p q b, plan_ContentDigest p = plan_ContentDigest q ∧
    P_Lineages p = P_Lineages q ∧ P_ContractVersion p = ContractVersion ∧
    A_Schemas (P_Access p) = ["public"] ∧ A_ReadWriteRoles (P_Access p) = ["app"] ∧
    A_Schemas (P_Access q) = ["public"; "app"] ∧ A_ReadWriteRoles (P_Access q) = [] ∧
    validateBinding p b = Ok tt ∧ validateBinding q b = Ok tt.
Proof.
  set (plan schemas roles :=
    {| P_ContractVersion := ContractVersion; P_Database := "store"; P_Extensions := [];
       P_Lineages := []; P_Access := {| A_ReadOnlyRole := "ro"; A_ReadWriteRole := "rw";
         A_Schemas := schemas; A_ReadWriteRoles := roles; A_ReadOnlyRoles := None |};
       P_Digest := "" |}).
  exists (plan ["public"] ["app"]), (plan ["public"; "app"] []), example_binding.
  split_and!; by vm_compute.
Qed.

#[global] Arguments component : simpl never.
#[global] Arguments identifier : simpl never.
#[global] Arguments ledgerName : simpl never.
