(* ===== verification/ControlPlane.v ===== *)
(** The owner-side access reconciler ([libs/go/controlplane/access.go]): the
    statements it issues, the catalog it reads, and the grants and memberships a
    committed reconciliation leaves. *)
From S2P Require Import Prelude GoStrings Settings.

(** ** Requests *)

Definition AuthModePassword : string := "password".
Definition AuthModeExternalIdentity : string := "external-identity".

Record RuntimeAccess := {
  Database : string; OwnerRole : string; ReadOnlyRole : string; ReadWriteRole : string;
  Schemas : list string; ReadWriteRoles : list string;
  ReadOnlyRoles : list string; ReconcileReadOnlyRoleMemberships : bool;
  ReconcileReadWriteRoleMemberships : bool;
  AuthMode : string;
  ReadOnlyPrincipals : list string; ReadWritePrincipals : list string;
}.

(** ** Statements

    The objects privileges are granted on; the tables and sequences of a schema
    are the ones it holds when the statement runs, and the default privileges are
    the owner's, for the ones it creates later. *)
Inductive object :=
  | ODatabase (name : string)
  | OSchema (name : string)
  | OTables (schema : string)
  | OSequences (schema : string)
  | ODefaultTables (owner schema : string)
  | ODefaultSequences (owner schema : string).
#[export] Instance object_eq_dec : EqDecision object.
Proof. solve_decision. Defined.
#[export] Instance object_countable : Countable object.
Proof.
  refine (inj_countable'
    (λ o, match o with
          | ODatabase n => (0%nat, n, "") | OSchema n => (1%nat, n, "") | OTables s => (2%nat, s, "")
          | OSequences s => (3%nat, s, "") | ODefaultTables w s => (4%nat, w, s)
          | ODefaultSequences w s => (5%nat, w, s) end)
    (λ t, match t with
          | (0%nat, n, _) => ODatabase n | (1%nat, n, _) => OSchema n | (2%nat, s, _) => OTables s
          | (3%nat, s, _) => OSequences s | (4%nat, w, s) => ODefaultTables w s
          | (_, w, s) => ODefaultSequences w s end) _).
  by intros [].
Defined.

Inductive statement :=
  | RevokeAll (o : object) (role : string)
  | RevokeCreateFromPublic (schema : string)
  | Grant (verbs : list string) (o : object) (role : string)
  | GrantRole (role member : string)
  | RevokeRole (role member : string)
  | CreateRole (role : string)
  | AlterRole (role : string) (clear : list string).

Section sql.
(** [pq.QuoteIdentifier]. *)
Context (QuoteIdentifier : string → string).
Let Q := QuoteIdentifier.

(** The SQL text of a statement, as the source spells it. *)
Definition sql (s : statement) : string :=
  match s with
  | RevokeAll (ODatabase d) r => "REVOKE ALL PRIVILEGES ON DATABASE " +:+ Q d +:+ " FROM " +:+ Q r
  | RevokeAll (OSchema d) r => "REVOKE ALL PRIVILEGES ON SCHEMA " +:+ Q d +:+ " FROM " +:+ Q r
  | RevokeAll (OTables d) r =>
    "REVOKE ALL PRIVILEGES ON ALL TABLES IN SCHEMA " +:+ Q d +:+ " FROM " +:+ Q r
  | RevokeAll (OSequences d) r =>
    "REVOKE ALL PRIVILEGES ON ALL SEQUENCES IN SCHEMA " +:+ Q d +:+ " FROM " +:+ Q r
  | RevokeAll (ODefaultTables o d) r =>
    "ALTER DEFAULT PRIVILEGES FOR ROLE " +:+ Q o +:+ " IN SCHEMA " +:+ Q d
    +:+ " REVOKE ALL ON TABLES FROM " +:+ Q r
  | RevokeAll (ODefaultSequences o d) r =>
    "ALTER DEFAULT PRIVILEGES FOR ROLE " +:+ Q o +:+ " IN SCHEMA " +:+ Q d
    +:+ " REVOKE ALL ON SEQUENCES FROM " +:+ Q r
  | RevokeCreateFromPublic d => "REVOKE CREATE ON SCHEMA " +:+ Q d +:+ " FROM PUBLIC"
  | Grant vs (ODatabase d) r =>
    "GRANT " +:+ join ", " vs +:+ " ON DATABASE " +:+ Q d +:+ " TO " +:+ Q r
  | Grant vs (OSchema d) r => "GRANT " +:+ join ", " vs +:+ " ON SCHEMA " +:+ Q d +:+ " TO " +:+ Q r
  | Grant vs (OTables d) r =>
    "GRANT " +:+ join ", " vs +:+ " ON ALL TABLES IN SCHEMA " +:+ Q d +:+ " TO " +:+ Q r
  | Grant vs (OSequences d) r =>
    "GRANT " +:+ join ", " vs +:+ " ON ALL SEQUENCES IN SCHEMA " +:+ Q d +:+ " TO " +:+ Q r
  | Grant vs (ODefaultTables o d) r =>
    "ALTER DEFAULT PRIVILEGES FOR ROLE " +:+ Q o +:+ " IN SCHEMA " +:+ Q d
    +:+ " GRANT " +:+ join ", " vs +:+ " ON TABLES TO " +:+ Q r
  | Grant vs (ODefaultSequences o d) r =>
    "ALTER DEFAULT PRIVILEGES FOR ROLE " +:+ Q o +:+ " IN SCHEMA " +:+ Q d
    +:+ " GRANT " +:+ join ", " vs +:+ " ON SEQUENCES TO " +:+ Q r
  | GrantRole g m => "GRANT " +:+ Q g +:+ " TO " +:+ Q m
  | RevokeRole g m => "REVOKE " +:+ Q g +:+ " FROM " +:+ Q m
  | CreateRole r => "CREATE ROLE " +:+ Q r
  | AlterRole r clear => "ALTER ROLE " +:+ Q r +:+ " WITH " +:+ join " " clear
  end.
End sql.

(** ** The transaction

    What the reconciler runs against: statements and catalog queries of one
    transaction, over the state [W] of the database connection. *)
Record RoleAttributes := {
  rolcanlogin : bool; rolsuper : bool; rolcreatedb : bool; rolcreaterole : bool;
  rolinherit : bool; rolreplication : bool; rolbypassrls : bool;
}.

Definition ErrNoRows : string := "sql: no rows in result set".

Class Transaction (W : Type) := {
  Exec : statement → io W unit;
  RoleExists : string → io W bool;
  RoleRow : string → io W RoleAttributes;       (* ErrNoRows when absent *)
  MembersOf : string → io W (list string);      (* of a group *)
  MembershipsOf : string → io W (list string);  (* of a member *)
  ReaderAllowed : RuntimeAccess → string → io W bool;
  range : gset string → list string;            (* map iteration order *)
}.

(** ** Validation *)

Definition require (field : string * string) : result unit :=
  guard_err (blank field.2) (ENew "runtime-access %s is required" [field.1]).

Definition reader_role (seen : gset string) (role : string) : result (gset string) :=
  _ ← guard_err (bool_decide (role = "") || negb (bool_decide (trim_space role = role))
                 || (63 <? len role) || contains_any role (of_bytes [chr 0])
                 || bool_decide (role ∈ seen))
        (ENew "runtime-access read-only roles must be distinct application roles" []);
  Ok ({[role]} ∪ seen).

Definition validateRuntimeAccess (a : RuntimeAccess) : result unit :=
  _ ← each require [("database", Database a); ("owner role", OwnerRole a);
                    ("read-only role", ReadOnlyRole a); ("read-write role", ReadWriteRole a)];
  _ ← guard_err (bool_decide (ReadOnlyRole a = ReadWriteRole a))
        (ENew "runtime-access read-only and read-write roles must differ" []);
  _ ← guard_err (bool_decide (Schemas a = [])) (ENew "runtime-access schema is required" []);
  _ ← guard_err (negb (bool_decide (ReadWriteRoles a = [])) && negb (ReconcileReadWriteRoleMemberships a))
        (ENew "runtime-access read-write roles require membership reconciliation" []);
  _ ← guard_err (negb (bool_decide (ReadOnlyRoles a = [])) && negb (ReconcileReadOnlyRoleMemberships a))
        (ENew "runtime-access read-only roles require membership reconciliation" []);
  let seen : gset string := list_to_set ([OwnerRole a; ReadOnlyRole a; ReadWriteRole a]
    ++ ReadWriteRoles a ++ ReadOnlyPrincipals a ++ ReadWritePrincipals a) in
  _ ← fold_result reader_role seen (ReadOnlyRoles a);
  _ ← each (λ s, guard_err (blank s) (ENew "runtime-access schema cannot be empty" [])) (Schemas a);
  if bool_decide (AuthMode a ∈ [""; AuthModePassword]) then
    guard_err (negb (bool_decide (ReadOnlyPrincipals a = [])) || negb (bool_decide (ReadWritePrincipals a = [])))
      (ENew "runtime-access external principals require external-identity auth mode" [])
  else if bool_decide (AuthMode a = AuthModeExternalIdentity) then
    each (λ p, guard_err (blank p) (ENew "runtime-access external principal cannot be empty" []))
      (ReadOnlyPrincipals a ++ ReadWritePrincipals a)
  else Err (ENew "runtime-access auth mode %q is not supported" [AuthMode a]).

(** ** Reconciliation *)

Definition database_statements (a : RuntimeAccess) : list statement :=
  [RevokeAll (ODatabase (Database a)) (ReadOnlyRole a);
   RevokeAll (ODatabase (Database a)) (ReadWriteRole a);
   Grant ["CONNECT"] (ODatabase (Database a)) (ReadOnlyRole a);
   Grant ["CONNECT"] (ODatabase (Database a)) (ReadWriteRole a)].

Definition schema_statements (a : RuntimeAccess) (s : string) : list statement :=
  let ro := ReadOnlyRole a in let rw := ReadWriteRole a in let o := OwnerRole a in
  [RevokeCreateFromPublic s;
   RevokeAll (OSchema s) ro; RevokeAll (OSchema s) rw;
   Grant ["USAGE"] (OSchema s) ro; Grant ["USAGE"] (OSchema s) rw;
   RevokeAll (OTables s) ro; RevokeAll (OTables s) rw;
   RevokeAll (OSequences s) ro; RevokeAll (OSequences s) rw;
   RevokeAll (ODefaultTables o s) ro; RevokeAll (ODefaultTables o s) rw;
   RevokeAll (ODefaultSequences o s) ro; RevokeAll (ODefaultSequences o s) rw]
  ++ (if ReconcileReadOnlyRoleMemberships a then [] else
        [Grant ["SELECT"] (OTables s) ro; Grant ["SELECT"] (ODefaultTables o s) ro])
  ++ (if bool_decide (ReadWriteRoles a = []) then
        [Grant ["SELECT"; "INSERT"; "UPDATE"; "DELETE"] (OTables s) rw;
         Grant ["USAGE"; "SELECT"; "UPDATE"] (OSequences s) rw;
         Grant ["SELECT"; "INSERT"; "UPDATE"; "DELETE"] (ODefaultTables o s) rw;
         Grant ["USAGE"; "SELECT"; "UPDATE"] (ODefaultSequences o s) rw]
      else []).

Section reconcile.
Context {W : Type} `{!Transaction W}.

Definition validateReaderRoles (a : RuntimeAccess) : io W unit :=
  io_each (λ role,
    allowed ← io_wrap "check read-only role authority: %w" [] (ReaderAllowed a role);
    io_guard (negb allowed)
      (ENew "runtime-access read-only role %q is missing or has non-reader authority" [role]))
    (ReadOnlyRoles a).

(** The attributes a guard clears, and the keyword clearing each. *)
Definition group_attributes (r : RoleAttributes) : list (bool * string) :=
  [(rolcanlogin r, "NOLOGIN"); (rolsuper r, "NOSUPERUSER"); (rolcreatedb r, "NOCREATEDB");
   (rolcreaterole r, "NOCREATEROLE"); (rolinherit r, "NOINHERIT");
   (rolreplication r, "NOREPLICATION"); (rolbypassrls r, "NOBYPASSRLS")].
Definition set_attributes (l : list (bool * string)) : list string :=
  (filter (λ p, p.1 = true) l).*2.

Definition ensureGroupRole (role : string) : io W unit :=
  exists_ ← RoleExists role;
  _ ← (if (exists_ : bool) then mret tt else Exec (CreateRole role));
  row ← RoleRow role;
  let changes := set_attributes (group_attributes row) in
  if bool_decide (changes = []) then mret tt else Exec (AlterRole role changes).

Definition grant_principal (group : string) (current : gset string) (principal : string) :
    io W (gset string) :=
  if decide (principal ∈ current) then mret current
  else
    exists_ ← RoleExists principal;
    _ ← io_guard (negb exists_)
          (ENew "external identity principal %q does not exist; create it out-of-band" [principal]);
    _ ← Exec (GrantRole group principal);
    mret ({[principal]} ∪ current).

Fixpoint grant_principals (group : string) (current : gset string) (principals : list string) :
    io W unit :=
  match principals with
  | [] => mret tt
  | p :: principals =>
    grant_principal group current p ≫= λ current', grant_principals group current' principals
  end.

Definition reconcileExternalPrincipals (group : string) (principals : list string) : io W unit :=
  let desired : gset string := list_to_set principals in
  members ← MembersOf group;
  let current : gset string := list_to_set members in
  _ ← io_each (λ member, if decide (member ∈ desired) then mret tt else Exec (RevokeRole group member))
        (range current);
  grant_principals group current principals.

Definition grant_configured (member role : string) : io W unit :=
  row ← io_try (RoleRow role);
  match row with
  | Err e =>
    if error_is ErrNoRows e
    then io_fail (ENew "configured runtime read-write role %q does not exist; create it in a migration" [role])
    else io_fail e
  | Ok r =>
    _ ← io_guard (rolcanlogin r || rolsuper r || rolcreatedb r || rolcreaterole r)
          (ENew "configured runtime read-write role %q must be NOLOGIN, NOSUPERUSER, NOCREATEDB, and NOCREATEROLE" [role]);
    Exec (GrantRole role member)
  end.

Definition reconcileRuntimeRoleMemberships (member : string) (configured : list string) : io W unit :=
  current ← MembershipsOf member;
  _ ← io_each (λ role, Exec (RevokeRole role member)) current;
  io_each (grant_configured member) configured.

(** [ReconcileRuntimeAccess]; [has_ctx] and [has_tx] say that the context and the
    transaction are not nil. *)
Definition ReconcileRuntimeAccess (has_ctx has_tx : bool) (a : RuntimeAccess) : io W unit :=
  _ ← io_guard (negb has_ctx) (ENew "runtime-access context is required" []);
  _ ← io_guard (negb has_tx) (ENew "runtime-access SQL transaction is required" []);
  _ ← io_lift (validateRuntimeAccess a);
  let external := bool_decide (AuthMode a = AuthModeExternalIdentity) in
  _ ← (if external then
         _ ← ensureGroupRole (ReadOnlyRole a); ensureGroupRole (ReadWriteRole a)
       else mret tt);
  _ ← io_each Exec (database_statements a);
  _ ← io_each (λ s, io_each Exec (schema_statements a s)) (Schemas a);
  _ ← (if ReconcileReadOnlyRoleMemberships a then
         _ ← validateReaderRoles a;
         reconcileRuntimeRoleMemberships (ReadOnlyRole a) (ReadOnlyRoles a)
       else mret tt);
  _ ← (if ReconcileReadWriteRoleMemberships a
       then reconcileRuntimeRoleMemberships (ReadWriteRole a) (ReadWriteRoles a)
       else mret tt);
  if external then
    _ ← reconcileExternalPrincipals (ReadOnlyRole a) (ReadOnlyPrincipals a);
    reconcileExternalPrincipals (ReadWriteRole a) (ReadWritePrincipals a)
  else mret tt.
End reconcile.

(** ** The catalog behind the transaction

    What the statements do to PostgreSQL's catalog.  A grantee is a role or
    PUBLIC ([None]).  A membership belongs to its grantor: a GRANT adds one of the
    grantor the session acts as, and a REVOKE takes only that one away, leaving other
    grantors' grants of the same role to the same member (with a warning) since
    PostgreSQL 16; before, a membership has one grantor and every grant counts as the
    session's.  A role creation may also make its creator a member of the new role,
    which is why it says nothing of that one pair. *)
Record Catalog := {
  c_roles : gmap string RoleAttributes;
  c_members : gset (string * string);      (* granted role and member, granted as the session grants *)
  c_foreign : gset (string * string);      (* granted by others *)
  c_acl : option string → object → gset string;
}.

(** Is [m] a member of [g], by whosever grant? *)
Definition member_of (c : Catalog) (g m : string) : Prop := (g, m) ∈ c_members c ∨ (g, m) ∈ c_foreign c.

Definition clear_attribute (r : RoleAttributes) (keyword : string) : RoleAttributes :=
  let keep k b := if bool_decide (keyword = k) then false else b in
  {| rolcanlogin := keep "NOLOGIN" (rolcanlogin r); rolsuper := keep "NOSUPERUSER" (rolsuper r);
     rolcreatedb := keep "NOCREATEDB" (rolcreatedb r);
     rolcreaterole := keep "NOCREATEROLE" (rolcreaterole r);
     rolinherit := keep "NOINHERIT" (rolinherit r);
     rolreplication := keep "NOREPLICATION" (rolreplication r);
     rolbypassrls := keep "NOBYPASSRLS" (rolbypassrls r) |}.

(** The attributes of [CREATE ROLE name]. *)
Definition new_role : RoleAttributes := Build_RoleAttributes false false false false true false false.
Definition guarded_role : RoleAttributes :=
  Build_RoleAttributes false false false false false false false.

(** What a statement leaves of the verbs [g] holds on [o]. *)
Definition verbs_step (g : option string) (o : object) (V : gset string) (s : statement) : gset string :=
  match s with
  | RevokeAll o' r => if decide (g = Some r ∧ o = o') then ∅ else V
  | RevokeCreateFromPublic d => if decide (g = None ∧ o = OSchema d) then V ∖ {["CREATE"]} else V
  | Grant vs o' r => if decide (g = Some r ∧ o = o') then V ∪ list_to_set vs else V
  | _ => V
  end.

Definition roles_step (R : gmap string RoleAttributes) (s : statement) : gmap string RoleAttributes :=
  match s with
  | CreateRole r => <[r := new_role]> R
  | AlterRole r clear => alter (λ row, foldl clear_attribute row clear) r R
  | _ => R
  end.

Definition members_effect (creator : string) (s : statement) (M M' : gset (string * string)) : Prop :=
  match s with
  | GrantRole g m => M' = {[(g, m)]} ∪ M
  | RevokeRole g m => M' = M ∖ {[(g, m)]}
  | CreateRole r => ∀ g m, g ≠ r ∨ m ≠ creator → (g, m) ∈ M' ↔ (g, m) ∈ M
  | _ => M' = M
  end.

(** No statement touches the grants of others, but for what a creation does. *)
Definition foreign_effect (creator : string) (s : statement) (F F' : gset (string * string)) : Prop :=
  match s with
  | CreateRole r => ∀ g m, g ≠ r ∨ m ≠ creator → (g, m) ∈ F' ↔ (g, m) ∈ F
  | _ => F' = F
  end.

Class TransactionLaws (W : Type) `{!Transaction W} (view : W → Catalog) := {
  session_user : string;
  exec_effect : ∀ s w w', Exec s w = (Ok tt, w') →
    c_roles (view w') = roles_step (c_roles (view w)) s ∧
    (members_effect session_user s (c_members (view w)) (c_members (view w')) ∧
     foreign_effect session_user s (c_foreign (view w)) (c_foreign (view w'))) ∧
    ∀ g o, c_acl (view w') g o = verbs_step g o (c_acl (view w) g o) s;
  role_exists_answer : ∀ r w b w', RoleExists r w = (Ok b, w') →
    view w' = view w ∧ b = bool_decide (is_Some (c_roles (view w) !! r));
  role_row_answer : ∀ r w row w', RoleRow r w = (Ok row, w') →
    view w' = view w ∧ c_roles (view w) !! r = Some row;
  members_answer : ∀ g w ms w', MembersOf g w = (Ok ms, w') →
    view w' = view w ∧ ∀ m, m ∈ ms ↔ member_of (view w) g m;
  memberships_answer : ∀ m w gs w', MembershipsOf m w = (Ok gs, w') →
    view w' = view w ∧ ∀ g, g ∈ gs ↔ member_of (view w) g m;
  reader_answer : ∀ a r w b w', ReaderAllowed a r w = (Ok b, w') → view w' = view w;
  range_elements : ∀ s, range s ≡ₚ elements s;
}.

(** ** The privileges a reconciliation leaves *)

Definition schema_objects (a : RuntimeAccess) (s : string) : list object :=
  [OSchema s; OTables s; OSequences s; ODefaultTables (OwnerRole a) s; ODefaultSequences (OwnerRole a) s].
Definition in_scope (a : RuntimeAccess) (o : object) : Prop :=
  o = ODatabase (Database a) ∨ Exists (λ s, o ∈ schema_objects a s) (Schemas a).
#[export] Instance in_scope_dec a o : Decision (in_scope a o).
Proof. unfold in_scope. apply _. Defined.

Definition ro_verbs (a : RuntimeAccess) (o : object) : list string :=
  match o with
  | ODatabase _ => ["CONNECT"]
  | OSchema _ => ["USAGE"]
  | OTables _ | ODefaultTables _ _ => if ReconcileReadOnlyRoleMemberships a then [] else ["SELECT"]
  | OSequences _ | ODefaultSequences _ _ => []
  end.
Definition rw_verbs (a : RuntimeAccess) (o : object) : list string :=
  let direct := bool_decide (ReadWriteRoles a = []) in
  match o with
  | ODatabase _ => ["CONNECT"]
  | OSchema _ => ["USAGE"]
  | OTables _ | ODefaultTables _ _ =>
    if direct then ["SELECT"; "INSERT"; "UPDATE"; "DELETE"] else []
  | OSequences _ | ODefaultSequences _ _ => if direct then ["USAGE"; "SELECT"; "UPDATE"] else []
  end.

Definition verbs_after (g : option string) (o : object) (V : gset string) (l : list statement) :
    gset string := foldl (verbs_step g o) V l.

(** A statement that does not concern the grantee or the object. *)
Definition misses (g : option string) (o : object) (s : statement) : Prop :=
  match s with
  | RevokeAll o' r | Grant _ o' r => g ≠ Some r ∨ o ≠ o'
  | RevokeCreateFromPublic d => g ≠ None ∨ o ≠ OSchema d
  | _ => True
  end.

Lemma after_skip g o V s l : misses g o s → verbs_after g o V (s :: l) = verbs_after g o V l.
Proof.
  intros Hm. unfold verbs_after. simpl. f_equal. destruct s; simpl in *; try done;
    rewrite decide_False; tauto.
Qed.
Lemma after_revoke r o V l : verbs_after (Some r) o V (RevokeAll o r :: l) = verbs_after (Some r) o ∅ l.
Proof. unfold verbs_after. simpl. by rewrite decide_True. Qed.
Lemma after_grant r o V vs l :
  verbs_after (Some r) o V (Grant vs o r :: l) = verbs_after (Some r) o (V ∪ list_to_set vs) l.
Proof. unfold verbs_after. simpl. by rewrite decide_True. Qed.
Lemma after_public s V l :
  verbs_after None (OSchema s) V (RevokeCreateFromPublic s :: l)
    = verbs_after None (OSchema s) (V ∖ {["CREATE"]}) l.
Proof. unfold verbs_after. simpl. by rewrite decide_True. Qed.
Lemma after_app g o V l1 l2 :
  verbs_after g o V (l1 ++ l2) = verbs_after g o (verbs_after g o V l1) l2.
Proof. apply foldl_app. Qed.
Lemma after_nil g o V : verbs_after g o V [] = V.
Proof. done. Qed.

(** Runs the statements of a literal list on one grantee and object. *)
Ltac step_verbs :=
  repeat first
    [rewrite after_revoke | rewrite after_grant | rewrite after_public
    |rewrite after_skip by (simpl; first [left; congruence | right; congruence | exact I | assumption])];
  rewrite after_nil, ?(left_id_L ∅ (∪)); try done.

Section privileges.
Context (a : RuntimeAccess).
Hypothesis Hdiff : ReadOnlyRole a ≠ ReadWriteRole a.

Lemma database_ro o V :
  verbs_after (Some (ReadOnlyRole a)) o V (database_statements a) =
  if decide (o = ODatabase (Database a)) then list_to_set (ro_verbs a o) else V.
Proof. unfold database_statements. destruct (decide (o = _)) as [->|]; step_verbs. Qed.
Lemma database_rw o V :
  verbs_after (Some (ReadWriteRole a)) o V (database_statements a) =
  if decide (o = ODatabase (Database a)) then list_to_set (rw_verbs a o) else V.
Proof. unfold database_statements. destruct (decide (o = _)) as [->|]; step_verbs. Qed.

(** Cases on whether an object belongs to a schema. *)
Ltac split_object Hin :=
  unfold schema_objects in Hin;
  (repeat (apply elem_of_cons in Hin as [->|Hin]); [..|by apply not_elem_of_nil in Hin]) ||
  (rewrite !not_elem_of_cons in Hin; destruct Hin as (?&?&?&?&?&_)).

Lemma schema_ro s o V :
  verbs_after (Some (ReadOnlyRole a)) o V (schema_statements a s) =
  if decide (o ∈ schema_objects a s) then list_to_set (ro_verbs a o) else V.
Proof.
  unfold schema_statements, ro_verbs. cbv zeta.
  destruct (ReconcileReadOnlyRoleMemberships a), (bool_decide (ReadWriteRoles a = []));
    cbn [app]; destruct (decide (o ∈ schema_objects a s)) as [Hin|Hin];
    split_object Hin; step_verbs.
Qed.

Lemma schema_rw s o V :
  verbs_after (Some (ReadWriteRole a)) o V (schema_statements a s) =
  if decide (o ∈ schema_objects a s) then list_to_set (rw_verbs a o) else V.
Proof.
  unfold schema_statements, rw_verbs. cbv zeta.
  destruct (ReconcileReadOnlyRoleMemberships a), (bool_decide (ReadWriteRoles a = []));
    cbn [app]; destruct (decide (o ∈ schema_objects a s)) as [Hin|Hin];
    split_object Hin; step_verbs.
Qed.

Lemma schema_other g s o V :
  g ≠ Some (ReadOnlyRole a) → g ≠ Some (ReadWriteRole a) →
  verbs_after g o V (schema_statements a s) =
  if decide (g = None ∧ o = OSchema s) then V ∖ {["CREATE"]} else V.
Proof.
  intros Hro Hrw. unfold schema_statements. cbv zeta.
  destruct (ReconcileReadOnlyRoleMemberships a), (bool_decide (ReadWriteRoles a = []));
    cbn [app]; destruct (decide (g = None ∧ o = OSchema s)) as [[-> ->]|?%not_and_l]; step_verbs.
Qed.

Lemma database_other g o V :
  g ≠ Some (ReadOnlyRole a) → g ≠ Some (ReadWriteRole a) →
  verbs_after g o V (database_statements a) = V.
Proof.
  intros Hro Hrw. unfold database_statements. step_verbs.
Qed.

(** The verbs after every statement of the reconciliation. *)
Definition all_statements : list statement :=
  database_statements a ++ concat (schema_statements a <$> Schemas a).

Lemma schemas_verbs g (vs : object → list string) o V l :
  (∀ s V, verbs_after g o V (schema_statements a s) =
     if decide (o ∈ schema_objects a s) then list_to_set (vs o) else V) →
  verbs_after g o V (concat (schema_statements a <$> l)) =
  if decide (Exists (λ s, o ∈ schema_objects a s) l) then list_to_set (vs o) else V.
Proof.
  intros Hs. revert V. induction l as [|s l IH]; intros V.
  - rewrite decide_False; [done|]. by intros ?%Exists_nil.
  - change (concat (schema_statements a <$> s :: l))
      with (schema_statements a s ++ concat (schema_statements a <$> l)).
    rewrite after_app, IH, Hs.
    destruct (decide (Exists (λ s, o ∈ schema_objects a s) l)) as [Hl|Hl].
    { rewrite decide_True; [done|by right]. }
    destruct (decide (o ∈ schema_objects a s)) as [Ho|Ho].
    { rewrite decide_True; [done|by left]. }
    rewrite decide_False; [done|]. by intros [?|?]%Exists_cons.
Qed.
End privileges.

(** ** What each step leaves alone *)

Definition same_acl (c c' : Catalog) : Prop := ∀ g o, c_acl c' g o = c_acl c g o.
Definition same_members (c c' : Catalog) : Prop := c_members c' = c_members c ∧ c_foreign c' = c_foreign c.
Definition same_foreign (c c' : Catalog) : Prop := c_foreign c' = c_foreign c.
Definition same_roles (c c' : Catalog) : Prop := c_roles c' = c_roles c.
#[export] Instance same_acl_refl : Reflexive same_acl. Proof. by intros c g o. Qed.
#[export] Instance same_acl_trans : Transitive same_acl.
Proof. intros c1 c2 c3 H1 H2 g o. by rewrite H2, H1. Qed.
#[export] Instance same_members_refl : Reflexive same_members. Proof. by intros c. Qed.
#[export] Instance same_members_trans : Transitive same_members.
Proof. unfold same_members. intros c1 c2 c3 [??] [??]. split; congruence. Qed.
#[export] Instance same_foreign_refl : Reflexive same_foreign. Proof. by intros c. Qed.
#[export] Instance same_foreign_trans : Transitive same_foreign.
Proof. unfold same_foreign. intros c1 c2 c3 H1 H2. congruence. Qed.
#[export] Instance same_roles_refl : Reflexive same_roles. Proof. by intros c. Qed.
#[export] Instance same_roles_trans : Transitive same_roles.
Proof. unfold same_roles. intros c1 c2 c3 H1 H2. congruence. Qed.

(** The membership statements, and those on privileges. *)
Definition is_membership (s : statement) : Prop :=
  match s with GrantRole _ _ | RevokeRole _ _ => True | _ => False end.
Definition is_privilege (s : statement) : Prop :=
  match s with RevokeAll _ _ | RevokeCreateFromPublic _ | Grant _ _ _ => True | _ => False end.

Section steps.
Context {W : Type} `{!Transaction W} (view : W → Catalog) `{!TransactionLaws W view}.

Lemma exec_membership_preserves s :
  is_membership s →
  preserves view same_acl (Exec s) ∧ preserves view same_roles (Exec s) ∧ preserves view same_foreign (Exec s).
Proof.
  intros Hs. split_and!; intros w [] w' (HR & [_ HF] & HA)%exec_effect.
  - intros g o. rewrite HA. by destruct s.
  - unfold same_roles. rewrite HR. by destruct s.
  - unfold same_foreign. by destruct s.
Qed.
Lemma exec_role_acl s : (∃ r, s = CreateRole r ∨ ∃ l, s = AlterRole r l) → preserves view same_acl (Exec s).
Proof. intros (r & [->|[l ->]]) w [] w' (_ & _ & HA)%exec_effect g o; by rewrite HA. Qed.

Lemma query_preserves (R : Catalog → Catalog → Prop) `{!Reflexive R} :
  (∀ r, preserves view R (RoleExists r)) ∧ (∀ r, preserves view R (RoleRow r)) ∧
  (∀ g, preserves view R (MembersOf g)) ∧ (∀ m, preserves view R (MembershipsOf m)) ∧
  (∀ a r, preserves view R (ReaderAllowed a r)).
Proof.
  split_and!.
  - by intros r w b w' [-> _]%role_exists_answer.
  - by intros r w b w' [-> _]%role_row_answer.
  - by intros r w b w' [-> _]%members_answer.
  - by intros r w b w' [-> _]%memberships_answer.
  - by intros a r w b w' ->%reader_answer.
Qed.

(** Executing privilege statements. *)
Lemma exec_privileges l w w' :
  Forall is_privilege l → io_each Exec l w = (Ok tt, w') →
  c_roles (view w') = c_roles (view w) ∧ same_members (view w) (view w') ∧
  ∀ g o, c_acl (view w') g o = verbs_after g o (c_acl (view w) g o) l.
Proof.
  intros Hl. revert w. induction Hl as [|s l Hs _ IH]; intros w; simpl; [by intros [= <-]|].
  intros ([] & w1 & (HR & [HM HF] & HA)%exec_effect & (HR' & [HM' HF'] & HA')%IH)%io_bind_ok.
  split_and!.
  - rewrite HR', HR. by destruct s.
  - split; [rewrite HM'|rewrite HF']; by destruct s.
  - intros g o. rewrite HA', HA. done.
Qed.

Lemma exec_schemas f l w w' :
  (∀ s, Forall is_privilege (f s)) → io_each (λ s : string, io_each Exec (f s)) l w = (Ok tt, w') →
  c_roles (view w') = c_roles (view w) ∧ same_members (view w) (view w') ∧
  ∀ g o, c_acl (view w') g o = verbs_after g o (c_acl (view w) g o) (concat (f <$> l)).
Proof.
  intros Hf. revert w. induction l as [|s l IH]; intros w; simpl; [by intros [= <-]|].
  intros ([] & w1 & (HR & HM & HA)%exec_privileges & (HR' & HM' & HA')%IH)%io_bind_ok; [|apply Hf].
  split_and!; [congruence|by etrans|]. intros g o. by rewrite HA', HA, after_app.
Qed.

(** A membership step preserves privileges and roles. *)
Lemma membership_preserves R `{!Reflexive R, !Transitive R} :
  (∀ s, is_membership s → preserves view R (Exec s)) →
  (∀ m l, preserves view R (reconcileRuntimeRoleMemberships m l)) ∧
  (∀ g l, preserves view R (reconcileExternalPrincipals g l)) ∧
  (∀ a, preserves view R (validateReaderRoles a)).
Proof.
  intros Hs. destruct (query_preserves R) as (He & Hrow & Hmem & Hmsh & Hread). split_and!.
  - intros m l. unfold reconcileRuntimeRoleMemberships.
    apply preserves_bind; [done..|intros current]. apply preserves_bind; [done..| |intros _].
    { apply preserves_each; [done..|]. intros r _. by apply Hs. }
    apply preserves_each; [done..|]. intros r _. unfold grant_configured.
    apply preserves_try; [done..| | |done].
    + intros row. apply preserves_bind; [done..|by apply preserves_lift|]. intros _. by apply Hs.
    + intros e w x w'. simpl. by destruct (error_is ErrNoRows e).
  - intros g l. unfold reconcileExternalPrincipals.
    apply preserves_bind; [done..|intros ms]. apply preserves_bind; [done..| |intros _].
    { apply preserves_each; [done..|]. intros r _. case_decide; [by apply preserves_ret|by apply Hs]. }
    generalize (list_to_set ms : gset string) as current.
    induction l as [|p l IH]; intros current; simpl; [by apply preserves_ret|].
    apply preserves_bind; [done..| |done]. unfold grant_principal.
    case_decide; [by apply preserves_ret|].
    apply preserves_bind; [done..|intros b]. apply preserves_bind; [done..|by apply preserves_lift|].
    intros _. apply preserves_bind; [done..|by apply Hs|]. intros _. by apply preserves_ret.
  - intros a. apply preserves_each; [done..|]. intros r _.
    apply preserves_bind; [done..| |]; [by apply preserves_wrap|]. intros b. by apply preserves_lift.
Qed.
End steps.

(** ** Memberships *)

Definition safe_delegate (r : RoleAttributes) : Prop :=
  rolcanlogin r = false ∧ rolsuper r = false ∧ rolcreatedb r = false ∧ rolcreaterole r = false.

Section memberships.
Context {W : Type} `{!Transaction W} (view : W → Catalog) `{!TransactionLaws W view}.
Let members w := c_members (view w).
Let foreign w := c_foreign (view w).
Let roles w := c_roles (view w).

Lemma revoke_all_ok member l w w' :
  io_each (λ role, Exec (RevokeRole role member)) l w = (Ok tt, w') →
  ∀ g m, (g, m) ∈ members w' ↔ (g, m) ∈ members w ∧ ¬ (m = member ∧ g ∈ l).
Proof.
  revert w. induction l as [|r l IH]; intros w; simpl.
  { intros [= <-] g m. split; [|naive_solver]. intros ?. split; [done|].
    by intros [_ ?%not_elem_of_nil]. }
  intros ([] & w1 & (_ & [HM _] & _)%exec_effect & H2)%io_bind_ok g m.
  rewrite (IH _ H2). simpl in HM. unfold members. rewrite HM, elem_of_cons. set_solver.
Qed.

Lemma grant_configured_ok member r w w' :
  grant_configured member r w = (Ok tt, w') →
  roles w' = roles w ∧ members w' = {[(r, member)]} ∪ members w ∧
  ∃ row, roles w !! r = Some row ∧ safe_delegate row.
Proof.
  unfold grant_configured. rewrite io_bind_ok. intros (row & w1 & H1 & H2).
  unfold io_try in H1. destruct (RoleRow r w) as [[a|e] w2] eqn:E; injection H1 as <- <-.
  - apply role_row_answer in E as [Ev Hr]. unfold io_guard in H2.
    apply io_lift_bind_ok in H2 as (_ & Hg%guard_ok & (HR & [HM _] & _)%exec_effect).
    rewrite Ev in HR, HM. simpl in *. split_and!; try done. exists a. split; [done|].
    repeat (apply orb_false_iff in Hg as [Hg ?]). by split_and!.
  - by destruct (error_is ErrNoRows e).
Qed.

Lemma grant_all_ok member l w w' :
  io_each (grant_configured member) l w = (Ok tt, w') →
  roles w' = roles w ∧
  (∀ g m, (g, m) ∈ members w' ↔ (g, m) ∈ members w ∨ (m = member ∧ g ∈ l)) ∧
  ∀ r, r ∈ l → ∃ row, roles w !! r = Some row ∧ safe_delegate row.
Proof.
  revert w. induction l as [|r l IH]; intros w; simpl.
  { intros [= <-]. split_and!; [done| |by intros r ?%not_elem_of_nil].
    intros g m. split; [by left|]. by intros [?|[_ ?%not_elem_of_nil]]. }
  intros ([] & w1 & (HR & HM & Hrow)%grant_configured_ok & (HR' & HM' & Hall)%IH)%io_bind_ok.
  split_and!; [congruence| |].
  - intros g m. rewrite HM', HM, elem_of_cons. set_solver.
  - intros r' [->|Hr]%elem_of_cons; [done|]. rewrite <-HR. by apply Hall.
Qed.

(** The grants made to [member] become exactly the configured roles. *)
Lemma reconcile_memberships_ok member configured w w' :
  reconcileRuntimeRoleMemberships member configured w = (Ok tt, w') →
  (∀ g, (g, member) ∈ members w' ↔ g ∈ configured) ∧
  (∀ g m, m ≠ member → (g, m) ∈ members w' ↔ (g, m) ∈ members w) ∧
  roles w' = roles w ∧
  ∀ r, r ∈ configured → ∃ row, roles w !! r = Some row ∧ safe_delegate row.
Proof.
  unfold reconcileRuntimeRoleMemberships. rewrite io_bind_ok.
  intros (current & w1 & [Hv Hc]%memberships_answer & H).
  rewrite io_bind_ok in H. destruct H as ([] & w2 & Hrev & Hgr).
  pose proof (revoke_all_ok _ _ _ _ Hrev) as HM2. apply grant_all_ok in Hgr as (HR & HM3 & Hall).
  assert (Hroles : roles w2 = roles w).
  { transitivity (roles w1); [|unfold roles; by rewrite Hv].
    assert (Hp : preserves view same_roles (io_each (λ role, Exec (RevokeRole role member)) current)).
    { apply preserves_each; [apply _..|]. intros r _. by apply exec_membership_preserves. }
    exact (Hp _ _ _ Hrev). }
  assert (HM1 : members w1 = members w) by (unfold members; by rewrite Hv).
  split_and!.
  - intros g. rewrite HM3, HM2, HM1. unfold members in *. specialize (Hc g). unfold member_of in Hc. tauto.
  - intros g m Hm. rewrite HM3, HM2, HM1. tauto.
  - congruence.
  - intros r Hr. rewrite <-Hroles. by apply Hall.
Qed.

Lemma revoke_undesired_ok group (desired : gset string) l w w' :
  io_each (λ member, if decide (member ∈ desired) then mret tt else Exec (RevokeRole group member)) l w
    = (Ok tt, w') →
  ∀ g m, (g, m) ∈ members w' ↔ (g, m) ∈ members w ∧ ¬ (g = group ∧ m ∈ l ∧ m ∉ desired).
Proof.
  revert w. induction l as [|r l IH]; intros w; simpl.
  { intros [= <-] g m. split; [|naive_solver]. intros ?. split; [done|].
    by intros (_ & ?%not_elem_of_nil & _). }
  intros ([] & w1 & H1 & H2)%io_bind_ok g m. rewrite (IH _ H2), elem_of_cons.
  case_decide; [injection H1 as <-; naive_solver|].
  apply exec_effect in H1 as (_ & [HM _] & _). simpl in HM. unfold members. rewrite HM. set_solver.
Qed.

Lemma grant_principals_ok group current l w w' :
  grant_principals group current l w = (Ok tt, w') →
  (∀ p, p ∈ current → p ∈ l → member_of (view w) group p) →
  foreign w' = foreign w ∧
  (∀ g m, (g, m) ∈ members w → (g, m) ∈ members w') ∧
  (∀ g m, (g, m) ∈ members w' → (g, m) ∈ members w ∨ (g = group ∧ m ∈ l)) ∧
  (∀ m, m ∈ l → member_of (view w') group m).
Proof.
  revert w current. induction l as [|p l IH]; intros w current; simpl.
  { intros [= <-] _. split_and!; try done; [by left|by intros m ?%not_elem_of_nil]. }
  intros (current' & w1 & H1 & H2)%io_bind_ok Hcur. unfold grant_principal in H1.
  case_decide as Hp.
  - injection H1 as <- <-.
    apply IH in H2 as (HF & Hup & Hback & Hall); [|intros q Hq ?; apply Hcur; [done|by right]].
    split_and!; [done|done| |].
    + intros g m [?|[-> ?]]%Hback; [by left|by right; split; [|right]].
    + intros m [->|Hm]%elem_of_cons; [|by apply Hall].
      destruct (Hcur p Hp) as [?|?]; [by left|by left; apply Hup|right]. unfold foreign in HF. by rewrite HF.
  - rewrite io_bind_ok in H1. destruct H1 as (b & w2 & [Hv _]%role_exists_answer & H1).
    unfold io_guard in H1. apply io_lift_bind_ok in H1 as (_ & _ & H1).
    rewrite io_bind_ok in H1. destruct H1 as ([] & w3 & (_ & [HM HF1] & _)%exec_effect & [= <- <-]).
    simpl in HM, HF1. rewrite Hv in HM, HF1.
    assert (HM1 : ∀ g m, (g, m) ∈ members w3 ↔ (g, m) ∈ members w ∨ g = group ∧ m = p).
    { intros g m. unfold members. rewrite HM. set_solver. }
    apply IH in H2 as (HF & Hup & Hback & Hall).
    + split_and!.
      * etrans; [exact HF|exact HF1].
      * intros g m Hm. apply Hup, HM1. by left.
      * intros g m [[?|[-> ->]]%HM1|[-> ?]]%Hback; [by left|by right; split; [|left]|by right; split; [|right]].
      * intros m [->|Hm]%elem_of_cons; [|by apply Hall]. left. apply Hup, HM1. by right.
    + intros q [->%elem_of_singleton|Hq]%elem_of_union Hql; [left; apply HM1; by right|].
      destruct (Hcur q Hq) as [?|?]; [by right|left; apply HM1; by left|right; by rewrite HF1].
Qed.

(** The members of [group] become the configured principals, and those others granted it. *)
Lemma reconcile_principals_ok group principals w w' :
  reconcileExternalPrincipals group principals w = (Ok tt, w') →
  (∀ m, member_of (view w') group m ↔ m ∈ principals ∨ (group, m) ∈ foreign w) ∧
  (∀ m, (group, m) ∈ members w' → m ∈ principals) ∧
  (∀ g m, g ≠ group → (g, m) ∈ members w' ↔ (g, m) ∈ members w).
Proof.
  intros H. assert (HF : foreign w' = foreign w).
  { destruct (membership_preserves view same_foreign) as (_ & He & _); [|exact (He _ _ _ _ _ H)].
    intros s Hs. by apply exec_membership_preserves. }
  revert H. unfold reconcileExternalPrincipals. rewrite io_bind_ok.
  intros (ms & w1 & [Hv Hms]%members_answer & H).
  rewrite io_bind_ok in H. destruct H as ([] & w2 & Hrev & Hgr).
  pose proof (revoke_undesired_ok _ _ _ _ _ Hrev) as HM2.
  assert (HM1 : members w1 = members w) by (unfold members; by rewrite Hv).
  assert (HF2 : foreign w2 = foreign w).
  { transitivity (foreign w1); [|unfold foreign; by rewrite Hv].
    assert (Hp : preserves view same_foreign (io_each (λ member, if decide (member ∈ (list_to_set principals : gset string))
      then mret tt else Exec (RevokeRole group member)) (range (list_to_set ms : gset string)))).
    { apply preserves_each; [apply _..|]. intros r _. case_decide; [by apply preserves_ret, _|by apply exec_membership_preserves]. }
    exact (Hp _ _ _ Hrev). }
  assert (Hrange : ∀ m, m ∈ range (list_to_set ms : gset string) ↔ member_of (view w) group m).
  { intros m. by rewrite range_elements, elem_of_elements, elem_of_list_to_set, Hms. }
  pose proof (grant_principals_ok _ _ _ _ _ Hgr) as HM3. rewrite HM1 in HM2.
  assert (Hkept : ∀ p, p ∈ (list_to_set ms : gset string) → p ∈ principals → member_of (view w2) group p).
  { intros p Hp Hpp. rewrite elem_of_list_to_set, Hms in Hp. destruct Hp as [Hp|Hp].
    - left. apply HM2. split; [done|]. intros (_ & _ & Hn). apply Hn. by apply elem_of_list_to_set.
    - right. unfold foreign in HF2. by rewrite HF2. }
  specialize (HM3 Hkept) as (_ & Hup & Hback & Hall).
  assert (Hown : ∀ m, (group, m) ∈ members w' → m ∈ principals).
  { intros m [[Hm Hn]%HM2|[_ ?]]%Hback; [|done]. apply dec_stable. intros Hnp. apply Hn.
    split_and!; [done|apply Hrange; by left|by rewrite elem_of_list_to_set]. }
  split_and!; [|done|].
  - intros m. split.
    + intros [?|Hm]; [left; by apply Hown|right]. by rewrite <-HF.
    + intros [?|Hm]; [by apply Hall|right]. rewrite <-HF in Hm. exact Hm.
  - intros g m Hg. split.
    + intros [[? _]%HM2|[? _]]%Hback; done.
    + intros Hm. apply Hup, HM2. split; [done|]. by intros [? _].
Qed.

Lemma clear_attributes row :
  foldl clear_attribute row (set_attributes (group_attributes row)) = guarded_role.
Proof. by destruct row as [[] [] [] [] [] [] []]. Qed.

(** The group exists and holds no attribute. *)
Lemma ensureGroupRole_ok role w w' :
  ensureGroupRole role w = (Ok tt, w') →
  roles w' !! role = Some guarded_role ∧
  (∀ r, r ≠ role → roles w' !! r = roles w !! r) ∧
  (∀ g m, g ≠ role → (g, m) ∈ members w' ↔ (g, m) ∈ members w) ∧
  (∀ g m, g ≠ role ∨ m ≠ session_user → (g, m) ∈ foreign w' ↔ (g, m) ∈ foreign w) ∧
  ∀ g o, c_acl (view w') g o = c_acl (view w) g o.
Proof.
  unfold ensureGroupRole. rewrite io_bind_ok.
  intros (b & w1 & [Hv ->]%role_exists_answer & H).
  rewrite io_bind_ok in H. destruct H as ([] & w2 & Hcreate & H).
  rewrite io_bind_ok in H. destruct H as (row & w3 & [Hv3 Hrow]%role_row_answer & H).
  assert (H2 : (∀ r, r ≠ role → roles w2 !! r = roles w !! r) ∧
               (∀ g m, g ≠ role → (g, m) ∈ members w2 ↔ (g, m) ∈ members w) ∧
               (∀ g m, g ≠ role ∨ m ≠ session_user → (g, m) ∈ foreign w2 ↔ (g, m) ∈ foreign w) ∧
               ∀ g o, c_acl (view w2) g o = c_acl (view w) g o).
  { destruct (bool_decide (is_Some (c_roles (view w) !! role)));
      [by injection Hcreate as <-; unfold roles, members, foreign; rewrite Hv|].
    apply exec_effect in Hcreate as (HR & [HM HF] & HA). rewrite Hv in HR, HM, HF, HA.
    split_and!; [|intros g m Hg; apply HM; by left|done|done].
    intros r Hr. unfold roles. rewrite HR. simpl. by rewrite lookup_insert_ne. }
  destruct H2 as (HR2 & HM2 & HF2 & HA2). cbv zeta in H. case_bool_decide as Hch.
  - injection H as <-. unfold roles, members, foreign in *. rewrite Hv3. split_and!; try done.
    rewrite Hrow. f_equal. rewrite <-(clear_attributes row). by rewrite Hch.
  - apply exec_effect in H as (HR & [HM HF] & HA). rewrite Hv3 in HR, HM, HF, HA.
    unfold roles, members, foreign in *. simpl in HR, HM, HF, HA. rewrite HR, HM, HF. split_and!.
    + rewrite lookup_alter_eq, Hrow. simpl. by rewrite clear_attributes.
    + intros r Hr. rewrite lookup_alter_ne by done. by apply HR2.
    + done.
    + done.
    + intros g o. by rewrite HA.
Qed.
End memberships.

(** ** The reconciliation as a whole *)

Lemma database_privileges a : Forall is_privilege (database_statements a).
Proof. by repeat constructor. Qed.
Lemma schema_privileges a s : Forall is_privilege (schema_statements a s).
Proof.
  unfold schema_statements. cbv zeta.
  destruct (ReconcileReadOnlyRoleMemberships a), (bool_decide (ReadWriteRoles a = []));
    by repeat constructor.
Qed.

Lemma public_verbs a g o V l :
  g ≠ Some (ReadOnlyRole a) → g ≠ Some (ReadWriteRole a) →
  verbs_after g o V (concat (schema_statements a <$> l)) =
  if decide (g = None ∧ o ∈ OSchema <$> l) then V ∖ {["CREATE"]} else V.
Proof.
  intros Hro Hrw. revert V. induction l as [|s l IH]; intros V.
  - rewrite decide_False; [done|]. by intros [_ ?%not_elem_of_nil].
  - change (concat (schema_statements a <$> s :: l))
      with (schema_statements a s ++ concat (schema_statements a <$> l)).
    rewrite after_app, IH, schema_other by done. rewrite fmap_cons.
    destruct (decide (g = None ∧ o = OSchema s)) as [[-> ->]|Hne].
    + rewrite (decide_True (P := _ ∧ OSchema s ∈ OSchema s :: _)) by (split; [done|by left]).
      case_decide; [|done]. set_solver.
    + destruct (decide (g = None ∧ o ∈ OSchema <$> l)) as [[-> Hin]|Hnot].
      * rewrite decide_True; [done|]. split; [done|by right].
      * rewrite decide_False; [done|]. intros [-> [->|?]%elem_of_cons]; tauto.
Qed.

Section reconciled.
Context {W : Type} `{!Transaction W} (view : W → Catalog) `{!TransactionLaws W view}.
Let acl w := c_acl (view w).
Let members w := c_members (view w).
Let foreign w := c_foreign (view w).
Let roles w := c_roles (view w).

Lemma validate_diff a : validateRuntimeAccess a = Ok tt → ReadOnlyRole a ≠ ReadWriteRole a.
Proof. unfold validateRuntimeAccess. intros H. by res_inv. Qed.

(** The phases of a successful run. *)
Lemma reconcile_phases a w w' :
  ReconcileRuntimeAccess true true a w = (Ok tt, w') →
  validateRuntimeAccess a = Ok tt ∧
  let external := bool_decide (AuthMode a = AuthModeExternalIdentity) in
  ∃ w1 w2 w3 w4 w5,
    (if external then ensureGroupRole (ReadOnlyRole a) ≫= λ _, ensureGroupRole (ReadWriteRole a)
     else mret tt) w = (Ok tt, w1) ∧
    io_each Exec (database_statements a) w1 = (Ok tt, w2) ∧
    io_each (λ s, io_each Exec (schema_statements a s)) (Schemas a) w2 = (Ok tt, w3) ∧
    (if ReconcileReadOnlyRoleMemberships a then
       validateReaderRoles a ≫= λ _, reconcileRuntimeRoleMemberships (ReadOnlyRole a) (ReadOnlyRoles a)
     else mret tt) w3 = (Ok tt, w4) ∧
    (if ReconcileReadWriteRoleMemberships a
     then reconcileRuntimeRoleMemberships (ReadWriteRole a) (ReadWriteRoles a) else mret tt) w4
      = (Ok tt, w5) ∧
    (if external then
       reconcileExternalPrincipals (ReadOnlyRole a) (ReadOnlyPrincipals a) ≫= λ _,
       reconcileExternalPrincipals (ReadWriteRole a) (ReadWritePrincipals a)
     else mret tt) w5 = (Ok tt, w').
Proof.
  unfold ReconcileRuntimeAccess, io_guard. cbn [negb guard_err].
  intros ([] & _ & H)%io_lift_bind_ok. apply io_lift_bind_ok in H as ([] & _ & H).
  apply io_lift_bind_ok in H as ([] & Hv & H). split; [done|]. cbv zeta in *.
  apply io_bind_ok in H as ([] & w1 & H1 & H). apply io_bind_ok in H as ([] & w2 & H2 & H).
  apply io_bind_ok in H as ([] & w3 & H3 & H). apply io_bind_ok in H as ([] & w4 & H4 & H).
  apply io_bind_ok in H as ([] & w5 & H5 & H6). exists w1, w2, w3, w4, w5. by split_and!.
Qed.

Lemma reader_leaves R `{!Reflexive R, !Transitive R} a w3 w4 :
  (∀ s, is_membership s → preserves view R (Exec s)) →
  (if ReconcileReadOnlyRoleMemberships a then
     validateReaderRoles a ≫= λ _, reconcileRuntimeRoleMemberships (ReadOnlyRole a) (ReadOnlyRoles a)
   else mret tt) w3 = (Ok tt, w4) → R (view w3) (view w4).
Proof.
  intros Hs H4. destruct (membership_preserves view R Hs) as (Hm & _ & Hr).
  destruct (ReconcileReadOnlyRoleMemberships a); [|by injection H4 as <-].
  refine (preserves_bind view R _ _ _ _ _ _ _ H4); auto.
Qed.

(** The steps after the privilege statements leave privileges and roles alone. *)
Lemma memberships_leave R `{!Reflexive R, !Transitive R} a w3 w4 w5 w' (external : bool) :
  (∀ s, is_membership s → preserves view R (Exec s)) →
  (if ReconcileReadOnlyRoleMemberships a then
     validateReaderRoles a ≫= λ _, reconcileRuntimeRoleMemberships (ReadOnlyRole a) (ReadOnlyRoles a)
   else mret tt) w3 = (Ok tt, w4) →
  (if ReconcileReadWriteRoleMemberships a
   then reconcileRuntimeRoleMemberships (ReadWriteRole a) (ReadWriteRoles a) else mret tt) w4
    = (Ok tt, w5) →
  (if external then
     reconcileExternalPrincipals (ReadOnlyRole a) (ReadOnlyPrincipals a) ≫= λ _,
     reconcileExternalPrincipals (ReadWriteRole a) (ReadWritePrincipals a)
   else mret tt) w5 = (Ok tt, w') → R (view w3) (view w').
Proof.
  intros Hs H4 H5 H6. destruct (membership_preserves view R Hs) as (Hm & He & Hr).
  trans (view w4); [|trans (view w5)].
  - by eapply reader_leaves.
  - destruct (ReconcileReadWriteRoleMemberships a); [by eapply Hm|by injection H5 as <-].
  - destruct external; [|by injection H6 as <-].
    refine (preserves_bind view R _ _ _ _ _ _ _ H6); auto.
Qed.

Lemma groups_leave a w w1 (external : bool) :
  (if external then ensureGroupRole (ReadOnlyRole a) ≫= λ _, ensureGroupRole (ReadWriteRole a)
   else mret tt) w = (Ok tt, w1) →
  (∀ g o, acl w1 g o = acl w g o) ∧
  (∀ g m, g ≠ ReadOnlyRole a → g ≠ ReadWriteRole a → (g, m) ∈ members w1 ↔ (g, m) ∈ members w) ∧
  (∀ g m, g ≠ ReadOnlyRole a ∧ g ≠ ReadWriteRole a ∨ m ≠ session_user → (g, m) ∈ foreign w1 ↔ (g, m) ∈ foreign w) ∧
  (external = true → ReadOnlyRole a ≠ ReadWriteRole a →
     roles w1 !! ReadOnlyRole a = Some guarded_role ∧ roles w1 !! ReadWriteRole a = Some guarded_role) ∧
  (external = false → w1 = w).
Proof.
  destruct external; [|by intros [= <-]; split_and!].
  intros ([] & w0 & (HR & HRo & HM & HF & HA)%(ensureGroupRole_ok view) & (HR' & HRo' & HM' & HF' & HA')%(ensureGroupRole_ok view))%io_bind_ok.
  split_and!; try done.
  - intros g o. unfold acl. by rewrite HA', HA.
  - intros g m H1 H2. unfold members. by rewrite HM', HM.
  - intros g m Hgm. unfold foreign. rewrite HF', HF by naive_solver. done.
  - intros _ Hne. split; [|done]. unfold roles. by rewrite HRo'.
Qed.

(** C3: what a successful reconciliation grants is exactly the least-privilege
    table, whatever was granted before: on the database, the declared schemas and
    the owner's default privileges in them, the read-only role holds CONNECT,
    USAGE and (unless readers are delegated) SELECT and nothing else, the
    read-write role holds direct DML only when no role is delegated, PUBLIC can
    no longer create in a declared schema, and every other grant is as it was. *)
Theorem reconcile_privileges a w w' :
  ReconcileRuntimeAccess true true a w = (Ok tt, w') →
  (∀ o, acl w' (Some (ReadOnlyRole a)) o =
     if decide (in_scope a o) then list_to_set (ro_verbs a o) else acl w (Some (ReadOnlyRole a)) o) ∧
  (∀ o, acl w' (Some (ReadWriteRole a)) o =
     if decide (in_scope a o) then list_to_set (rw_verbs a o) else acl w (Some (ReadWriteRole a)) o) ∧
  (∀ g o, g ≠ Some (ReadOnlyRole a) → g ≠ Some (ReadWriteRole a) →
     acl w' g o = if decide (g = None ∧ o ∈ OSchema <$> Schemas a)
                  then acl w g o ∖ {["CREATE"]} else acl w g o).
Proof.
  intros (Hv%validate_diff & w1 & w2 & w3 & w4 & w5 & H1 & H2 & H3 & H4 & H5 & H6)%reconcile_phases.
  apply groups_leave in H1 as (HA1 & _).
  apply (exec_privileges view) in H2 as (_ & _ & HA2); [|apply database_privileges].
  apply (exec_schemas view) in H3 as (_ & _ & HA3); [|apply schema_privileges].
  assert (HA6 : ∀ g o, acl w' g o = verbs_after g o
      (verbs_after g o (acl w g o) (database_statements a)) (concat (schema_statements a <$> Schemas a))).
  { intros g o. rewrite <-HA1. unfold acl. rewrite <-HA2, <-HA3. symmetry.
    symmetry. eapply (memberships_leave same_acl a w3 w4 w5 w' _); [|done..].
    intros s Hs. by apply exec_membership_preserves. }
  split_and!.
  - intros o. rewrite HA6, (schemas_verbs a _ (ro_verbs a)) by (intros; by apply schema_ro).
    rewrite database_ro by done. unfold in_scope.
    destruct (decide (Exists _ _)); [by rewrite decide_True by auto|].
    destruct (decide (o = _)); [by rewrite decide_True by auto|]. rewrite decide_False; [done|tauto].
  - intros o. rewrite HA6, (schemas_verbs a _ (rw_verbs a)) by (intros; by apply schema_rw).
    rewrite database_rw by done. unfold in_scope.
    destruct (decide (Exists _ _)); [by rewrite decide_True by auto|].
    destruct (decide (o = _)); [by rewrite decide_True by auto|]. rewrite decide_False; [done|tauto].
  - intros g o Hro Hrw. rewrite HA6, public_verbs, database_other by done. done.
Qed.

(** Membership after each of the last three phases. *)
Lemma reader_phase a w3 w4 :
  (if ReconcileReadOnlyRoleMemberships a then
     validateReaderRoles a ≫= λ _, reconcileRuntimeRoleMemberships (ReadOnlyRole a) (ReadOnlyRoles a)
   else mret tt) w3 = (Ok tt, w4) →
  (ReconcileReadOnlyRoleMemberships a = true →
     (∀ g, (g, ReadOnlyRole a) ∈ members w4 ↔ g ∈ ReadOnlyRoles a) ∧
     ∀ r, r ∈ ReadOnlyRoles a → ∃ row, roles w3 !! r = Some row ∧ safe_delegate row) ∧
  (∀ g m, m ≠ ReadOnlyRole a → (g, m) ∈ members w4 ↔ (g, m) ∈ members w3).
Proof.
  destruct (ReconcileReadOnlyRoleMemberships a); [|by intros [= <-]].
  intros ([] & w0 & H1 & (HM & HM' & HR & Hrows)%(reconcile_memberships_ok view))%io_bind_ok.
  assert (Hval : ∀ R, Reflexive R → Transitive R →
      (∀ s, is_membership s → preserves view R (Exec s)) → R (view w3) (view w0)).
  { intros R ?? Hs. destruct (membership_preserves view R Hs) as (_ & _ & Hr). exact (Hr a _ _ _ H1). }
  assert (Hroles : c_roles (view w0) = c_roles (view w3)).
  { apply (Hval same_roles _ _). intros s ?. by apply exec_membership_preserves. }
  assert (Hmem : same_members (view w3) (view w0)).
  { destruct (query_preserves view same_members) as (_ & _ & _ & _ & Hread).
    assert (Hp : preserves view same_members (validateReaderRoles a)).
    { apply preserves_each; [apply _..|]. intros r _.
      apply preserves_bind; [apply _| |]; [by apply preserves_wrap|]. intros b. by apply preserves_lift, _. }
    exact (Hp _ _ _ H1). }
  split.
  - intros _. split; [done|]. unfold roles. by rewrite <-Hroles.
  - intros g m Hm. unfold members. by rewrite HM', (proj1 Hmem).
Qed.

Lemma writer_phase a w4 w5 :
  (if ReconcileReadWriteRoleMemberships a
   then reconcileRuntimeRoleMemberships (ReadWriteRole a) (ReadWriteRoles a) else mret tt) w4
    = (Ok tt, w5) →
  (ReconcileReadWriteRoleMemberships a = true →
     (∀ g, (g, ReadWriteRole a) ∈ members w5 ↔ g ∈ ReadWriteRoles a) ∧
     ∀ r, r ∈ ReadWriteRoles a → ∃ row, roles w4 !! r = Some row ∧ safe_delegate row) ∧
  (∀ g m, m ≠ ReadWriteRole a → (g, m) ∈ members w5 ↔ (g, m) ∈ members w4).
Proof.
  destruct (ReconcileReadWriteRoleMemberships a); [|by intros [= <-]].
  intros (HM & HM' & HR & Hrows)%(reconcile_memberships_ok view). split; [by intros _|done].
Qed.

Lemma principals_phase a w5 w' (external : bool) :
  ReadOnlyRole a ≠ ReadWriteRole a →
  (if external then
     reconcileExternalPrincipals (ReadOnlyRole a) (ReadOnlyPrincipals a) ≫= λ _,
     reconcileExternalPrincipals (ReadWriteRole a) (ReadWritePrincipals a)
   else mret tt) w5 = (Ok tt, w') →
  (external = true →
     (∀ m, member_of (view w') (ReadOnlyRole a) m ↔ m ∈ ReadOnlyPrincipals a ∨ (ReadOnlyRole a, m) ∈ foreign w') ∧
     (∀ m, member_of (view w') (ReadWriteRole a) m ↔ m ∈ ReadWritePrincipals a ∨ (ReadWriteRole a, m) ∈ foreign w') ∧
     (∀ m, (ReadOnlyRole a, m) ∈ members w' → m ∈ ReadOnlyPrincipals a) ∧
     (∀ m, (ReadWriteRole a, m) ∈ members w' → m ∈ ReadWritePrincipals a)) ∧
  (∀ g m, (external = true → g ≠ ReadOnlyRole a ∧ g ≠ ReadWriteRole a) →
     (g, m) ∈ members w' ↔ (g, m) ∈ members w5).
Proof.
  intros Hne. destruct external; [|by intros [= <-]].
  assert (Hfr : ∀ g l w w', reconcileExternalPrincipals g l w = (Ok tt, w') → c_foreign (view w') = c_foreign (view w)).
  { intros g l v v' H. destruct (membership_preserves view same_foreign) as (_ & He & _); [|exact (He _ _ _ _ _ H)].
    intros s Hs. by apply exec_membership_preserves. }
  intros ([] & w6 & Ha & Hb)%io_bind_ok. pose proof (Hfr _ _ _ _ Ha) as F1. pose proof (Hfr _ _ _ _ Hb) as F2.
  apply (reconcile_principals_ok view) in Ha as (H1 & O1 & H2), Hb as (H3 & O3 & H4). unfold members, foreign in *. split.
  - intros _. unfold member_of in *. split_and!; [|intros m; by rewrite H3, F2| |done].
    + intros m. rewrite (H4 (ReadOnlyRole a) m Hne), F2, H1. by rewrite F1.
    + intros m. rewrite (H4 (ReadOnlyRole a) m Hne). apply O1.
  - intros g m [Hro Hrw]; [done|]. rewrite (H4 g m Hrw). by apply H2.
Qed.

Lemma reconciled_memberships a w w' :
  ReconcileRuntimeAccess true true a w = (Ok tt, w') →
  (∀ r, r ∈ ReadWriteRoles a ++ ReadOnlyRoles a ++ ReadOnlyPrincipals a ++ ReadWritePrincipals a →
     r ≠ ReadOnlyRole a ∧ r ≠ ReadWriteRole a) →
  (ReconcileReadWriteRoleMemberships a = true →
     (∀ g, (g, ReadWriteRole a) ∈ members w' ↔ g ∈ ReadWriteRoles a) ∧
     ∀ r, r ∈ ReadWriteRoles a → ∃ row, roles w' !! r = Some row ∧ safe_delegate row) ∧
  (ReconcileReadOnlyRoleMemberships a = true →
     (∀ g, (g, ReadOnlyRole a) ∈ members w' ↔ g ∈ ReadOnlyRoles a) ∧
     ∀ r, r ∈ ReadOnlyRoles a → ∃ row, roles w' !! r = Some row ∧ safe_delegate row) ∧
  (AuthMode a = AuthModeExternalIdentity →
     (∀ m, member_of (view w') (ReadOnlyRole a) m ↔ m ∈ ReadOnlyPrincipals a ∨ (ReadOnlyRole a, m) ∈ foreign w') ∧
     (∀ m, member_of (view w') (ReadWriteRole a) m ↔ m ∈ ReadWritePrincipals a ∨ (ReadWriteRole a, m) ∈ foreign w') ∧
     (∀ m, (ReadOnlyRole a, m) ∈ members w' → m ∈ ReadOnlyPrincipals a) ∧
     (∀ m, (ReadWriteRole a, m) ∈ members w' → m ∈ ReadWritePrincipals a) ∧
     roles w' !! ReadOnlyRole a = Some guarded_role ∧
     roles w' !! ReadWriteRole a = Some guarded_role) ∧
  (∀ g m, m ≠ ReadOnlyRole a → m ≠ ReadWriteRole a →
     (AuthMode a = AuthModeExternalIdentity → g ≠ ReadOnlyRole a ∧ g ≠ ReadWriteRole a) →
     (g, m) ∈ members w' ↔ (g, m) ∈ members w) ∧
  (∀ g m, g ≠ ReadOnlyRole a ∧ g ≠ ReadWriteRole a ∨ m ≠ session_user → (g, m) ∈ foreign w' ↔ (g, m) ∈ foreign w).
Proof.
  intros (Hne%validate_diff & w1 & w2 & w3 & w4 & w5 & H1 & H2 & H3 & H4 & H5 & H6)%reconcile_phases Hdis.
  assert (Hroles : roles w' = roles w3).
  { eapply (memberships_leave same_roles a w3 w4 w5 w' _); [|done..].
    intros s Hs. by apply exec_membership_preserves. }
  assert (Hroles4 : roles w4 = roles w3).
  { apply (reader_leaves same_roles a w3 w4); [|done]. intros s Hs. by apply exec_membership_preserves. }
  assert (HF4 : foreign w' = foreign w3).
  { eapply (memberships_leave same_foreign a w3 w4 w5 w' _); [|done..].
    intros s Hs. by apply exec_membership_preserves. }
  apply groups_leave in H1 as (_ & HM1 & HF1 & HG & Hw1).
  apply (exec_privileges view) in H2 as (HR2 & [HM2 HF2] & _); [|apply database_privileges].
  apply (exec_schemas view) in H3 as (HR3 & [HM3 HF3] & _); [|apply schema_privileges].
  apply reader_phase in H4 as [Hro Hro']. apply writer_phase in H5 as [Hrw Hrw'].
  apply principals_phase in H6 as [Hext Hext']; [|done].
  assert (Hfinal : ∀ (m : string) (l : list string), m = ReadOnlyRole a ∨ m = ReadWriteRole a →
      (∀ g, (g, m) ∈ members w5 ↔ g ∈ l) →
      (∀ r, r ∈ l → r ≠ ReadOnlyRole a ∧ r ≠ ReadWriteRole a) → ∀ g, (g, m) ∈ members w' ↔ g ∈ l).
  { intros m l Hm H5 Hl g. destruct (decide (g ≠ ReadOnlyRole a ∧ g ≠ ReadWriteRole a)) as [Hg|Hg].
    { rewrite Hext' by done. apply H5. }
    assert (Hgl : g ∉ l) by (intros Hgl; apply Hg; by apply Hl).
    destruct (bool_decide (AuthMode a = AuthModeExternalIdentity)).
    - destruct (Hext eq_refl) as (_ & _ & E1 & E2).
      assert (Hmp : m ∉ ReadOnlyPrincipals a ∧ m ∉ ReadWritePrincipals a).
      { split; intros Hin; destruct (Hdis m); [rewrite !elem_of_app; tauto|naive_solver|
          rewrite !elem_of_app; tauto|naive_solver]. }
      apply not_and_l in Hg as [->%dec_stable| ->%dec_stable]; [specialize (E1 m)|specialize (E2 m)]; tauto.
    - rewrite Hext' by done. apply H5. }
  split_and!.
  - intros Hflag. destruct (Hrw Hflag) as [Hm Hrows]. split.
    + apply Hfinal; [by right|done|]. intros r Hr. apply Hdis. rewrite !elem_of_app. tauto.
    + by rewrite Hroles, <-Hroles4.
  - intros Hflag. destruct (Hro Hflag) as [Hm Hrows]. split.
    + apply Hfinal; [by left| |].
      * intros g. by rewrite Hrw'.
      * intros r Hr. apply Hdis. rewrite !elem_of_app. tauto.
    + by rewrite Hroles.
  - intros Hmode. rewrite bool_decide_eq_true_2 in Hext, HG by done.
    destruct (Hext eq_refl) as (E1 & E2 & E3 & E4), (HG eq_refl Hne) as [G1 G2].
    unfold roles in *. rewrite Hroles, HR3, HR2. by split_and!.
  - intros g m Hm1 Hm2 Hg. rewrite Hext' by (intros E; apply Hg; by apply bool_decide_eq_true in E).
    rewrite Hrw', Hro' by done. unfold members. rewrite HM3, HM2.
    destruct (bool_decide (AuthMode a = AuthModeExternalIdentity)) eqn:E.
    + apply bool_decide_eq_true in E. by apply HM1; apply Hg.
    + by rewrite Hw1.
  - intros g m Hgm. rewrite HF4. unfold foreign. rewrite HF3, HF2. by apply HF1.
Qed.

(** C14: a successful reconciliation leaves exactly the configured memberships, as far
    as they are this reconciler's to grant: its grants to the read-write (read-only)
    role are exactly the configured roles, each of which exists and can neither log in
    nor administer anything; with an external identity provider the two groups are
    attribute-free, it grants them to configured principals only, and their members are
    the configured principals and those to whom another grantor granted them.  Every
    other membership of the cluster is as it was, and so is every grant made by others,
    but for what the creation of a group gives its creator. *)
Theorem reconcile_memberships a w w' :
  ReconcileRuntimeAccess true true a w = (Ok tt, w') →
  (∀ r, r ∈ ReadWriteRoles a ++ ReadOnlyRoles a ++ ReadOnlyPrincipals a ++ ReadWritePrincipals a →
     r ≠ ReadOnlyRole a ∧ r ≠ ReadWriteRole a) →
  (ReconcileReadWriteRoleMemberships a = true →
     (∀ g, (g, ReadWriteRole a) ∈ members w' ↔ g ∈ ReadWriteRoles a) ∧
     ∀ r, r ∈ ReadWriteRoles a → ∃ row, roles w' !! r = Some row ∧ safe_delegate row) ∧
  (ReconcileReadOnlyRoleMemberships a = true →
     (∀ g, (g, ReadOnlyRole a) ∈ members w' ↔ g ∈ ReadOnlyRoles a) ∧
     ∀ r, r ∈ ReadOnlyRoles a → ∃ row, roles w' !! r = Some row ∧ safe_delegate row) ∧
  (AuthMode a = AuthModeExternalIdentity →
     (∀ m, member_of (view w') (ReadOnlyRole a) m ↔ m ∈ ReadOnlyPrincipals a ∨ (ReadOnlyRole a, m) ∈ foreign w') ∧
     (∀ m, member_of (view w') (ReadWriteRole a) m ↔ m ∈ ReadWritePrincipals a ∨ (ReadWriteRole a, m) ∈ foreign w') ∧
     (∀ m, (ReadOnlyRole a, m) ∈ members w' → m ∈ ReadOnlyPrincipals a) ∧
     (∀ m, (ReadWriteRole a, m) ∈ members w' → m ∈ ReadWritePrincipals a) ∧
     roles w' !! ReadOnlyRole a = Some guarded_role ∧
     roles w' !! ReadWriteRole a = Some guarded_role) ∧
  (∀ g m, m ≠ ReadOnlyRole a → m ≠ ReadWriteRole a →
     (AuthMode a = AuthModeExternalIdentity → g ≠ ReadOnlyRole a ∧ g ≠ ReadWriteRole a) →
     (g, m) ∈ members w' ↔ (g, m) ∈ members w) ∧
  (∀ g m, g ≠ ReadOnlyRole a ∧ g ≠ ReadWriteRole a ∨ m ≠ session_user → (g, m) ∈ foreign w' ↔ (g, m) ∈ foreign w).
Proof. apply reconciled_memberships. Qed.
End reconciled.

(** ** A catalog to run on *)

Definition members_step (M : gset (string * string)) (s : statement) : gset (string * string) :=
  match s with
  | GrantRole g m => {[(g, m)]} ∪ M
  | RevokeRole g m => M ∖ {[(g, m)]}
  | _ => M
  end.

(** The creator of a role is given its administration by the system. *)
Definition foreign_step (F : gset (string * string)) (s : statement) : gset (string * string) :=
  match s with CreateRole r => {[(r, "owner")]} ∪ F | _ => F end.

Definition catalog_exec (s : statement) : io Catalog unit := λ c,
  (Ok tt, {| c_roles := roles_step (c_roles c) s; c_members := members_step (c_members c) s;
             c_foreign := foreign_step (c_foreign c) s;
             c_acl g o := verbs_step g o (c_acl c g o) s |}).

#[export] Instance catalog_transaction : Transaction Catalog := {
  Exec := catalog_exec;
  RoleExists r c := (Ok (bool_decide (is_Some (c_roles c !! r))), c);
  RoleRow r c := (match c_roles c !! r with Some row => Ok row | None => Err (ENew ErrNoRows []) end, c);
  MembersOf g c := (Ok (filter (λ p, p.1 = g) (elements (c_members c ∪ c_foreign c))).*2, c);
  MembershipsOf m c := (Ok (filter (λ p, p.2 = m) (elements (c_members c ∪ c_foreign c))).*1, c);
  ReaderAllowed _ r c :=
    (Ok (match c_roles c !! r with Some row => negb (rolcanlogin row) | None => false end), c);
  range s := elements s;
}.

#[export] Instance catalog_laws : TransactionLaws Catalog id.
Proof.
  refine {| session_user := "owner" |}.
  - intros s w w' [= <-]. split_and!; [done| | |done]; destruct s; try done.
    intros g m Hgm. cbn. rewrite elem_of_union, elem_of_singleton. naive_solver.
  - by intros r w b w' [= <- <-].
  - intros r w row w'. simpl. destruct (c_roles w !! r) eqn:E; [|done]. by intros [= <- <-].
  - intros g w ms w' [= <- <-]. split; [done|]. intros m. rewrite list_elem_of_fmap.
    setoid_rewrite list_elem_of_filter. setoid_rewrite elem_of_elements. split.
    + by intros ([? ?] & -> & <- & ?%elem_of_union).
    + intros ?. exists (g, m). by rewrite elem_of_union.
  - intros m w ms w' [= <- <-]. split; [done|]. intros g. rewrite list_elem_of_fmap.
    setoid_rewrite list_elem_of_filter. setoid_rewrite elem_of_elements. split.
    + by intros ([? ?] & -> & <- & ?%elem_of_union).
    + intros ?. exists (g, m). by rewrite elem_of_union.
  - by intros a r w b w' [= _ <-].
  - done.
Qed.

Definition example_catalog : Catalog :=
  {| c_roles := <["rw" := Build_RoleAttributes true false true false true false false]>
       (<["app" := guarded_role]> (<["alice" := Build_RoleAttributes true false false false true false false]>
       (<["bob" := Build_RoleAttributes true false false false true false false]> ∅)));
     c_members := {[("old", "rw"); ("rw", "bob"); ("staff", "bob")]}; c_foreign := {[("rw", "owner")]};
     c_acl g o := if bool_decide (g = Some "rw") then {["SELECT"; "TRUNCATE"]}
                  else if bool_decide (g = None) then {["CREATE"; "USAGE"]} else ∅ |}.

Definition example_access : RuntimeAccess :=
  {| Database := "store"; OwnerRole := "owner"; ReadOnlyRole := "ro"; ReadWriteRole := "rw";
     Schemas := ["public"]; ReadWriteRoles := ["app"]; ReadOnlyRoles := [];
     ReconcileReadOnlyRoleMemberships := false; ReconcileReadWriteRoleMemberships := true;
     AuthMode := AuthModeExternalIdentity;
     ReadOnlyPrincipals := ["bob"]; ReadWritePrincipals := ["alice"] |}.

Lemma reconcile_privileges_witness :
  ∃ w', ReconcileRuntimeAccess true true example_access example_catalog = (Ok tt, w') ∧
    c_acl w' (Some "rw") (OTables "public") = ∅ ∧ c_acl w' (Some "ro") (OTables "public") = {["SELECT"]}.
Proof.
  destruct (ReconcileRuntimeAccess true true example_access example_catalog) as [r w'] eqn:E.
  assert (H : (ReconcileRuntimeAccess true true example_access example_catalog).1 = Ok tt)
    by (vm_compute; reflexivity).
  rewrite E in H. simpl in H. subst r. exists w'. split; [reflexivity|].
  destruct (reconcile_privileges id example_access example_catalog w' E) as (Hro & Hrw & _).
  assert (Hin : in_scope example_access (OTables "public")).
  { right. left. right. left. }
  specialize (Hro (OTables "public")). specialize (Hrw (OTables "public")).
  rewrite decide_True in Hro by exact Hin. rewrite decide_True in Hrw by exact Hin.
  split; [exact Hrw|exact Hro].
Defined.

(** The creator of the group stays its member, by the system's grant. *)
Lemma reconcile_memberships_witness :
  ∃ w', ReconcileRuntimeAccess true true example_access example_catalog = (Ok tt, w') ∧
    (∀ m, member_of w' "rw" m ↔ m ∈ ["alice"] ∨ ("rw", m) ∈ c_foreign w') ∧ ("staff", "bob") ∈ c_members w'.
Proof.
  destruct (ReconcileRuntimeAccess true true example_access example_catalog) as [r w'] eqn:E.
  assert (H : (ReconcileRuntimeAccess true true example_access example_catalog).1 = Ok tt)
    by (vm_compute; reflexivity).
  rewrite E in H. simpl in H. subst r. exists w'. split; [reflexivity|].
  destruct (reconcile_memberships id example_access example_catalog w' E) as (_ & _ & Hext & Hrest & _).
  - clear. intros r Hr. change (r ∈ ["app"; "bob"; "alice"]) in Hr. repeat (apply elem_of_cons in Hr as [->|Hr]; [done|]).
    by apply not_elem_of_nil in Hr.
  - clear E. destruct (Hext eq_refl) as (_ & Hm & _). split; [exact Hm|].
    refine (proj2 (Hrest "staff" "bob" _ _ _) _); [discriminate..| |].
    + intros _. split; discriminate.
    + apply (bool_decide_unpack (("staff", "bob") ∈ c_members example_catalog)).
      vm_compute. exact I.
Defined.
