(* ===== verification/TestDatabases.v ===== *)
(** The isolated databases of migration tests ([libs/go/migrationtest/control_plane.go]):
    their names, creating, cloning, opening, reconciling and dropping them through the
    migration owner.  The server is the databases it holds and the pools open to
    them; any call may fail, and a failing one may have been carried out. *)
From S2P Require Import Prelude GoStrings Sha256 Settings ControlPlane.

(** ** Names *)

Definition name_rune (index : nat) (character : Z) : bool :=
  (character =? 95) || is_lower character || is_upper character || ((0 <? index)%nat && is_digit character).

Definition validateDatabaseName (name : string) : result unit :=
  _ ← guard_err (bool_decide (name = "")) (ENew "database name is required" []);
  _ ← guard_err (63 <? len name) (ENew "database name exceeds 63 bytes" []);
  each (λ '(index, character),
          guard_err (negb (name_rune index character)) (ENew "database name %q contains unsafe characters" [name]))
    (imap pair (runes name)).

Definition prefixBytes : nat := 46.

(** [entropy]: the eight random bytes, when they can be read. *)
Definition uniqueDatabaseName (entropy : result string) (prefix : string) : result string :=
  let prefix := trim_space prefix in
  _ ← wrap_err "database prefix: %w" [] (validateDatabaseName prefix);
  let prefix := if Z.of_nat prefixBytes <? len prefix then of_bytes (take prefixBytes (bytes prefix)) else prefix in
  suffix ← wrap_err "generate isolated database suffix: %w" [] entropy;
  Ok (prefix +:+ "_" +:+ hex suffix).

(** ** The server *)

Inductive ddl :=
  | CreateDatabase (name template : string)
  | DropDatabase (name : string).

(** The SQL text of a statement, with [pq.QuoteIdentifier]. *)
Definition ddl_text (QuoteIdentifier : string → string) (s : ddl) : string :=
  match s with
  | CreateDatabase name template =>
    "CREATE DATABASE " +:+ QuoteIdentifier name
    +:+ (if bool_decide (template = "") then "" else " WITH TEMPLATE " +:+ QuoteIdentifier template)
  | DropDatabase name => "DROP DATABASE IF EXISTS " +:+ QuoteIdentifier name +:+ " WITH (FORCE)"
  end.

(** The control plane, when its owner pool is open, and a handle on a database; both
    may be nil. *)
Record Control := { ct_ownerConnection : string; ct_open : bool; ct_pool : nat }.
Record TestDatabase := { db_Name : string; db_pool : nat; db_control : option Control }.

Section server.
Context {W : Type} `{!Transaction W}.

Record server := {
  sv_databases : gmap string W;
  sv_pools : gmap nat string;                (* the pools that are open *)
  sv_calls : nat;
  sv_next : nat;
  sv_closed : gmap nat (result unit);        (* [closeOnce] with [closeErr] *)
  sv_dropped : gmap nat (result unit);       (* [dropOnce] with [dropErr] *)
}.

(** Which calls fail, and whether a failing one is carried out; a fresh database;
    the random bytes of a call; and the user of a connection string. *)
Context (fault : nat → option error) (lands : nat → bool) (blank_database : W).
Context (entropy : nat → result string) (ParseConfig : string → result string).

Definition on_server (f : server → gmap string W * gmap nat string) (w : server) : server := {|
  sv_databases := (f w).1; sv_pools := (f w).2; sv_calls := S (sv_calls w); sv_next := sv_next w;
  sv_closed := sv_closed w; sv_dropped := sv_dropped w |}.

(** A call: refused by the server, carried out, or failed either way. *)
Definition request (refused : server → option error) (f : server → gmap string W * gmap nat string) :
    io server unit := λ w,
  let idle := on_server (λ w, (sv_databases w, sv_pools w)) w in
  match refused w, fault (sv_calls w) with
  | Some e, _ => (Err e, idle)
  | None, None => (Ok tt, on_server f w)
  | None, Some e => (Err e, if lands (sv_calls w) then on_server f w else idle)
  end.

Definition server_error (why name : string) : error := ENew why [name].

(** What the server does with a statement. *)
Definition refused_ddl (s : ddl) (w : server) : option error :=
  match s with
  | CreateDatabase name template =>
    if bool_decide (is_Some (sv_databases w !! name)) then Some (server_error "database %q already exists" name)
    else if negb (bool_decide (template = "")) && bool_decide (sv_databases w !! template = None)
         then Some (server_error "template database %q does not exist" template) else None
  | DropDatabase _ => None
  end.
Definition carry_out (s : ddl) (w : server) : gmap string W * gmap nat string :=
  match s with
  | CreateDatabase name template =>
    (<[name := if bool_decide (template = "") then blank_database
               else default blank_database (sv_databases w !! template)]> (sv_databases w), sv_pools w)
  | DropDatabase name => (delete name (sv_databases w), sv_pools w)
  end.
Definition ExecDDL (s : ddl) : io server unit := request (refused_ddl s) (carry_out s).

(** ** The control plane *)

Definition not_open : error := ENew "migration control plane is not open" [].
Definition opened (control : option Control) : option Control :=
  match control with Some c => if ct_open c then Some c else None | None => None end.

Definition create (control : option Control) (name template : string) : io server unit :=
  _ ← io_guard (bool_decide (opened control = None)) not_open;
  io_wrap "create isolated database %q: %w" [name] (ExecDDL (CreateDatabase name template)).

(** A pool to the database; the ping finds it there or not. *)
Definition open_pool (name : string) : io server nat := λ w,
  (Ok (sv_next w), {| sv_databases := sv_databases w; sv_pools := <[sv_next w := name]> (sv_pools w);
                      sv_calls := sv_calls w; sv_next := S (sv_next w);
                      sv_closed := sv_closed w; sv_dropped := sv_dropped w |}).
Definition Ping (name : string) : io server unit :=
  request (λ w, match sv_databases w !! name with Some _ => None | None => Some (server_error "database %q does not exist" name) end)
    (λ w, (sv_databases w, sv_pools w)).
(** Closing a pool closes it, whatever it answers. *)
Definition ClosePool (pool : nat) : io server unit := λ w,
  (match fault (sv_calls w) with Some e => Err e | None => Ok tt end,
   on_server (λ w, (sv_databases w, delete pool (sv_pools w))) w).

(** The owner's pool is to the server itself. *)
Definition OpenControlPlane (sql_Open : string → result unit) (has_context : bool) (ownerConnection : string) :
    io server Control :=
  _ ← io_guard (negb has_context) (ENew "migration control-plane context is required" []);
  _ ← io_guard (blank ownerConnection) (ENew "migration-owner connection is required" []);
  _ ← io_wrap "open migration-owner connection: %w" [] (io_lift (sql_Open ownerConnection));
  pool ← open_pool "";
  pinged ← io_try (request (λ _, None) (λ w, (sv_databases w, sv_pools w)));
  match pinged with
  | Err e => _ ← io_try (ClosePool pool); io_fail (EWrap "ping migration-owner connection: %w" [] e)
  | Ok _ => mret {| ct_ownerConnection := ownerConnection; ct_open := true; ct_pool := pool |}
  end.

Definition open (control : Control) (name : string) : io server TestDatabase :=
  _ ← io_wrap "parse migration-owner connection: %w" [] (io_lift (ParseConfig (ct_ownerConnection control)));
  pool ← open_pool name;
  pinged ← io_try (Ping name);
  match pinged with
  | Err e => _ ← io_try (ClosePool pool); io_fail (EWrap "open isolated database %q: %w" [name] e)
  | Ok _ => mret {| db_Name := name; db_pool := pool; db_control := Some control |}
  end.

Definition drop (control : option Control) (name : string) : io server unit :=
  _ ← io_guard (bool_decide (opened control = None)) not_open;
  _ ← io_lift (validateDatabaseName name);
  io_wrap "drop isolated database %q: %w" [name] (ExecDDL (DropDatabase name)).

(** The random name is drawn before the control plane is asked for. *)
Definition draw (prefix : string) : io server string := λ w,
  (uniqueDatabaseName (entropy (sv_calls w)) prefix, on_server (λ w, (sv_databases w, sv_pools w)) w).

Definition create_and_open (control : option Control) (name template : string) : io server TestDatabase :=
  _ ← create control name template;
  match control with
  | None => io_fail not_open
  | Some c =>
    opened ← io_try (open c name);
    match opened with
    | Ok database => mret database
    | Err e => _ ← io_try (drop control name); io_fail e
    end
  end.

Definition Create (control : option Control) (prefix : string) : io server TestDatabase :=
  name ← draw prefix;
  create_and_open control name "".

Definition Clone (control : option Control) (source prefix : string) : io server TestDatabase :=
  _ ← io_lift (wrap_err "source database: %w" [] (validateDatabaseName source));
  name ← draw prefix;
  create_and_open control name source.

(** ** A database's handle *)

Definition record_closed (pool : nat) (r : result unit) (w : server) : server := {|
  sv_databases := sv_databases w; sv_pools := sv_pools w; sv_calls := sv_calls w; sv_next := sv_next w;
  sv_closed := <[pool := r]> (sv_closed w); sv_dropped := sv_dropped w |}.
Definition record_dropped (pool : nat) (r : result unit) (w : server) : server := {|
  sv_databases := sv_databases w; sv_pools := sv_pools w; sv_calls := sv_calls w; sv_next := sv_next w;
  sv_closed := sv_closed w; sv_dropped := <[pool := r]> (sv_dropped w) |}.

Definition Close (database : option TestDatabase) : io server unit := λ w,
  match database with
  | None => (Ok tt, w)
  | Some d =>
    match sv_closed w !! db_pool d with
    | Some r => (r, w)
    | None => let '(r, w') := ClosePool (db_pool d) w in (r, record_closed (db_pool d) r w')
    end
  end.

(** Only the call that closes the control plane reports how that went. *)
Definition CloseControl (control : option Control) : io server unit := λ w,
  match opened control with
  | None => (Ok tt, w)
  | Some c =>
    match sv_closed w !! ct_pool c with
    | Some _ => (Ok tt, w)
    | None => let '(r, w') := ClosePool (ct_pool c) w in (r, record_closed (ct_pool c) r w')
    end
  end.

(** [errors.Join] *)
Definition join_results (l : list (result unit)) : result unit :=
  match omap (λ r, match r with Err e => Some e | Ok _ => None end) l with
  | [] => Ok tt
  | es => Err (EJoin es)
  end.

Definition Drop (database : option TestDatabase) : io server unit := λ w,
  match database with
  | None => (Ok tt, w)
  | Some d =>
    match sv_dropped w !! db_pool d with
    | Some r => (r, w)
    | None =>
      let '(closeErr, w1) := Close database w in
      let '(dropErr, w2) :=
        match db_control d with
        | None => (Err (ENew "isolated database has no control plane" []), w1)
        | Some _ => drop (db_control d) (db_Name d) w1
        end in
      let r := join_results [closeErr; dropErr] in
      (r, record_dropped (db_pool d) r w2)
    end
  end.

(** The transaction of [ReconcileRuntimeAccess] on one database. *)
Definition BeginTx (name : string) : io server W := λ w,
  match Ping name w with
  | (Ok _, w') => (match sv_databases w !! name with Some st => Ok st | None => Err not_open end, w')
  | (Err e, w') => (Err e, w')
  end.
Definition CommitTx (name : string) (st : W) : io server unit :=
  request (λ _, None) (λ w, (<[name := st]> (sv_databases w), sv_pools w)).

Definition ReconcileIsolated (database : option TestDatabase) (readOnlyConnection readWriteConnection : string)
    (schemas : list string) : io server unit :=
  match database with
  | Some {| db_Name := name; db_control := Some control |} =>
    owner ← io_wrap "parse migration-owner connection: %w" [] (io_lift (ParseConfig (ct_ownerConnection control)));
    readOnly ← io_wrap "parse read-only runtime connection: %w" [] (io_lift (ParseConfig readOnlyConnection));
    readWrite ← io_wrap "parse read-write runtime connection: %w" [] (io_lift (ParseConfig readWriteConnection));
    let schemas := if bool_decide (schemas = []) then ["public"] else schemas in
    st ← io_wrap "begin isolated runtime-access reconciliation: %w" [] (BeginTx name);
    let '(r, st') := ReconcileRuntimeAccess true true
      {| Database := name; OwnerRole := owner; ReadOnlyRole := readOnly; ReadWriteRole := readWrite;
         Schemas := schemas; ReadWriteRoles := []; ReadOnlyRoles := []; ReconcileReadOnlyRoleMemberships := false;
         ReconcileReadWriteRoleMemberships := false; ControlPlane.AuthMode := "";
         ReadOnlyPrincipals := []; ReadWritePrincipals := [] |} st in
    _ ← io_lift (wrap_err "reconcile isolated runtime access: %w" [] r);
    io_wrap "commit isolated runtime-access reconciliation: %w" [] (CommitTx name st')
  | _ => io_fail (ENew "isolated database is not open" [])
  end.

(** ** Test runs

    What a test does with its control plane: every database it creates gets a handle. *)
Inductive test_op :=
  | OpCreate (prefix : string)
  | OpClone (source prefix : string)
  | OpReconcile (handle : nat) (readOnly readWrite : string) (schemas : list string)
  | OpClose (handle : nat)
  | OpDrop (handle : nat).

Definition handled {A} (m : io server A) (keep : A → list TestDatabase) (st : server * list TestDatabase) :
    server * list TestDatabase :=
  let '(r, w) := m st.1 in (w, st.2 ++ match r with Ok a => keep a | Err _ => [] end).

Definition run_op (control : option Control) (st : server * list TestDatabase) (o : test_op) : server * list TestDatabase :=
  match o with
  | OpCreate prefix => handled (Create control prefix) (λ d, [d]) st
  | OpClone source prefix => handled (Clone control source prefix) (λ d, [d]) st
  | OpReconcile h ro rw schemas => handled (ReconcileIsolated (st.2 !! h) ro rw schemas) (λ _, []) st
  | OpClose h => handled (Close (st.2 !! h)) (λ _, []) st
  | OpDrop h => handled (Drop (st.2 !! h)) (λ _, []) st
  end.
End server.

(** ** Names are identifiers *)

Definition name_shape (s : string) : bool :=
  match bytes s with
  | [] => false
  | c :: l => name_rune 0 (code c) && forallb (λ c, name_rune 1 (code c)) l
  end.

Lemma name_rune_ascii i r : name_rune i r = true → r < 128.
Proof. unfold name_rune, is_lower, is_upper, is_digit, in_range. destruct i; simpl; lia. Qed.
Lemma name_rune_weaken i r : name_rune i r = true → name_rune 1 r = true.
Proof. unfold name_rune. destruct i; [|done]. cbn [Nat.ltb Nat.leb andb]. rewrite orb_false_r. intros ->. done. Qed.

Lemma tail_runes name (l : list Z) : ∀ k,
  Forall (λ p : nat * Z, guard_err (negb (name_rune p.1 p.2)) (ENew "database name %q contains unsafe characters" [name]) = Ok tt)
    (imap (λ i r, (S (k + i), r)) l) ↔ forallb (name_rune 1) l = true.
Proof.
  induction l as [|r l IH]; intros k; [by split; [|constructor]|].
  rewrite imap_cons, Forall_cons, guard_ok, negb_false_iff. cbn [forallb fst snd]. rewrite andb_true_iff.
  rewrite <-(IH (S k)). apply and_iff_compat_l. f_equiv. apply reflexive_eq, imap_ext. intros i x _. cbn. f_equal. lia.
Qed.

Lemma validateDatabaseName_ok name : validateDatabaseName name = Ok tt ↔ len name ≤ 63 ∧ name_shape name = true.
Proof.
  unfold validateDatabaseName. rewrite !bind_ok. setoid_rewrite bind_ok. setoid_rewrite guard_ok.
  setoid_rewrite each_ok. setoid_rewrite bool_decide_eq_false.
  assert (H : Forall (λ x, (let '(index, character) := x in
       guard_err (negb (name_rune index character)) (ENew "database name %q contains unsafe characters" [name])) = Ok tt)
       (imap pair (runes name)) ↔ (name = "" ∨ name_shape name = true)).
  { assert (Hall : Forall (λ x, (let '(index, character) := x in
        guard_err (negb (name_rune index character)) (ENew "database name %q contains unsafe characters" [name])) = Ok tt)
        (imap pair (runes name)) ↔
        match runes name with [] => True | r :: l => name_rune 0 r = true ∧ forallb (name_rune 1) l = true end).
    { destruct (runes name) as [|r l]; [by split; [|constructor]|]. rewrite imap_cons, Forall_cons, guard_ok, negb_false_iff.
      apply and_iff_compat_l. rewrite <-(tail_runes name l 0). apply Forall_iff. by intros []. }
    rewrite Hall. destruct (all_bytes (λ c, code c <? 128) name) eqn:Ha.
    - rewrite (runes_ascii _ Ha). unfold name_shape. destruct (bytes name) as [|c l] eqn:E; cbn [fmap list_fmap].
      + apply bytes_nil in E. tauto.
      + rewrite andb_true_iff. assert (name ≠ "") by by intros ->.
        replace (forallb (name_rune 1) (code <$> l)) with (forallb (λ c, name_rune 1 (code c)) l); [tauto|].
        clear. induction l as [|c l IH]; [done|]. cbn. by rewrite IH.
    - assert (Hn : name ≠ "") by by intros ->.
      pose proof (forallb_runes (λ r, r <? 128) name (λ r, proj1 (Z.ltb_lt r 128))) as Hr. cbv beta in Hr. rewrite Ha in Hr.
      split; intros Hc; exfalso.
      + apply not_true_iff_false in Hr. apply Hr. destruct (runes name) as [|r l]; [done|]. destruct Hc as [H0 Hl].
        cbn. rewrite (proj2 (Z.ltb_lt _ _) (name_rune_ascii _ _ H0)). cbn. clear -Hl. induction l as [|x l IH]; [done|].
        cbn in *. apply andb_true_iff in Hl as [Hx Hl]. rewrite (proj2 (Z.ltb_lt _ _) (name_rune_ascii _ _ Hx)). by apply IH.
      + destruct Hc as [?|Hc]; [done|]. apply not_true_iff_false in Ha. apply Ha. unfold all_bytes, name_shape in *.
        destruct (bytes name) as [|c l]; [done|]. apply andb_true_iff in Hc as [H0 Hl]. cbn.
        rewrite (proj2 (Z.ltb_lt _ _) (name_rune_ascii _ _ H0)). cbn. clear -Hl. induction l as [|x l IH]; [done|].
        cbn in *. apply andb_true_iff in Hl as [Hx Hl]. rewrite (proj2 (Z.ltb_lt _ _) (name_rune_ascii _ _ Hx)). by apply IH. }
  split.
  - intros ([] & Hne & [] & Hlen & Hall). apply H in Hall as [?|?]; [done|]. split; [lia|done].
  - intros [Hlen Hs]. assert (name ≠ "") by by intros ->. exists tt. split; [done|]. exists tt. split; [lia|].
    apply H. by right.
Qed.

(** The names drawn: valid, recognizable, and different for different random bytes. *)
Lemma uniqueDatabaseName_ok entropy prefix name : (∀ s, entropy = Ok s → len s = 8) →
  uniqueDatabaseName entropy prefix = Ok name →
  validateDatabaseName name = Ok tt ∧
  ∃ suffix, entropy = Ok suffix ∧
    name = of_bytes (take prefixBytes (bytes (trim_space prefix))) +:+ "_" +:+ hex suffix.
Proof.
  intros He H. unfold uniqueDatabaseName in H.
  apply bind_ok in H as ([] & [Hlen Hs]%wrap_err_ok%validateDatabaseName_ok & H).
  apply bind_ok in H as (suffix & Hsuf%wrap_err_ok & [= <-]). specialize (He _ Hsuf).
  set (p := trim_space prefix) in *.
  assert (Hp : (if Z.of_nat prefixBytes <? len p then of_bytes (take prefixBytes (bytes p)) else p) =
               of_bytes (take prefixBytes (bytes p))).
  { destruct (Z.ltb_spec (Z.of_nat prefixBytes) (len p)); [done|]. rewrite take_ge; [by rewrite of_bytes_bytes|].
    rewrite len_bytes in *. lia. }
  rewrite Hp. split; [|by exists suffix]. apply validateDatabaseName_ok. split.
  - rewrite !len_app, len_hex, He. change (len "_") with 1. rewrite len_bytes, bytes_of_bytes, length_take.
    unfold prefixBytes. lia.
  - unfold name_shape in *. rewrite !bytes_app, bytes_of_bytes. destruct (bytes p) as [|c l]; [done|].
    apply andb_true_iff in Hs as [Hc Hl]. unfold prefixBytes. cbn [take app]. rewrite Hc. cbn [andb].
    rewrite !forallb_app. apply andb_true_iff. split.
    + apply forallb_forall. intros x Hx. rewrite forallb_forall in Hl. apply Hl.
      apply list_elem_of_In. apply list_elem_of_In in Hx. by eapply elem_of_take in Hx as (i & Hi%list_elem_of_lookup_2 & _).
    + apply andb_true_iff. split; [done|]. pose proof (hex_all suffix) as Hh. unfold all_bytes in Hh.
      rewrite forallb_forall in Hh |- *. intros x Hx. specialize (Hh x Hx). unfold hex_byte, name_rune, is_lower, is_digit, in_range in *. cbn. lia.
Qed.

(** ** Isolation *)

Section isolation.
Context {W : Type} `{!Transaction W}.
Context (fault : nat → option error) (lands : nat → bool) (blank_database : W).
Context (entropy : nat → result string) (ParseConfig : string → result string).
#[local] Abbreviation server := (server (W := W)).

(** A call changes nothing or does what it is for. *)
Lemma request_cases refused f (w : server) r w' : request fault lands refused f w = (r, w') →
  (w' = on_server (λ w, (sv_databases w, sv_pools w)) w ∧ is_ok r = false ∧
     (is_Some (refused w) ∨ is_Some (fault (sv_calls w)))) ∨
  (w' = on_server f w ∧ refused w = None ∧ (is_ok r = false → is_Some (fault (sv_calls w)))).
Proof.
  unfold request. destruct (refused w) eqn:Er.
  { intros [= <- <-]. left. split_and!; [done|done|left; by eexists]. }
  destruct (fault (sv_calls w)) eqn:Ef; [destruct (lands _)|]; intros [= <- <-].
  - right. split_and!; [done|done|by eexists].
  - left. split_and!; [done|done|right; by eexists].
  - by right.
Qed.

(** Databases outside [names] stay as they are. *)
Definition spares (names : gset string) (w w' : server) : Prop :=
  ∀ n, n ∉ names → sv_databases w' !! n = sv_databases w !! n.

Lemma spares_refl names w w' : sv_databases w' = sv_databases w → spares names w w'.
Proof. intros E n _. by rewrite E. Qed.
Lemma spares_trans names w w1 w2 : spares names w w1 → spares names w1 w2 → spares names w w2.
Proof. intros H1 H2 n Hn. by rewrite H2, H1. Qed.

Lemma ExecDDL_spares s (w : server) r (w' : server) : ExecDDL fault lands blank_database s w = (r, w') →
  spares {[match s with CreateDatabase name _ => name | DropDatabase name => name end]} w w'.
Proof.
  intros [(-> & _)|(-> & _)]%request_cases; [by apply spares_refl|]. intros n Hn. rewrite not_elem_of_singleton in Hn.
  destruct s; cbn; [by rewrite lookup_insert_ne|by rewrite lookup_delete_ne].
Qed.

Lemma wrapped {A} f args (m : io server A) w r w' : io_wrap f args m w = (r, w') →
  ∃ r0, m w = (r0, w') ∧ r = wrap_err f args r0.
Proof. unfold io_wrap. destruct (m w) as [r0 w0]. intros [= <- <-]. by exists r0. Qed.

Lemma drop_spares control name (w : server) r (w' : server) : drop fault lands blank_database control name w = (r, w') → spares {[name]} w w'.
Proof.
  unfold drop, io_guard, mbind, io_bind, io_lift. destruct (guard_err _ _); [|by intros [= _ <-]; apply spares_refl].
  destruct (validateDatabaseName name); [|by intros [= _ <-]; apply spares_refl].
  intros (r0 & H & _)%wrapped. by apply ExecDDL_spares in H.
Qed.

Lemma ClosePool_databases pool (w : server) : sv_databases (ClosePool fault pool w).2 = sv_databases w.
Proof. done. Qed.

Lemma Ping_databases name (w : server) : sv_databases (Ping fault lands name w).2 = sv_databases w.
Proof. unfold Ping, request. cbn. destruct (sv_databases w !! name), (fault (sv_calls w)), (lands (sv_calls w)); done. Qed.

Lemma open_databases control name (w : server) r (w' : server) : open fault lands ParseConfig control name w = (r, w') →
  sv_databases w' = sv_databases w ∧
  (∀ d, r = Ok d → d = {| db_Name := name; db_pool := sv_next w; db_control := Some control |}).
Proof.
  unfold open, mbind, io_bind, io_wrap, io_lift. destruct (ParseConfig _); cbn; [|by intros [= <- <-]].
  unfold io_try. pose proof (Ping_databases name {| sv_databases := sv_databases w; sv_pools := <[sv_next w := name]> (sv_pools w);
    sv_calls := sv_calls w; sv_next := S (sv_next w); sv_closed := sv_closed w; sv_dropped := sv_dropped w |}) as Hp.
  destruct (Ping _ _ _ _) as [[[]|e] w1]; cbn in Hp |- *.
  - intros [= <- <-]. split; [done|]. by intros d [= <-].
  - unfold io_fail. intros [= <- <-]. cbn. done.
Qed.

(** Creating touches one name, which no database bore. *)
Lemma create_spec control name template (w : server) r (w' : server) :
  create fault lands blank_database control name template w = (r, w') →
  (∀ n, is_Some (sv_databases w !! n) → sv_databases w' !! n = sv_databases w !! n) ∧ spares {[name]} w w' ∧
  (is_ok r = true → sv_databases w !! name = None).
Proof.
  unfold create, io_guard, mbind, io_bind, io_lift. destruct (guard_err _ _); [|by intros [= <- <-]].
  intros (r0 & E & ->)%wrapped. pose proof (ExecDDL_spares _ _ _ _ E) as Hs.
  unfold ExecDDL in E. apply request_cases in E as [(-> & Hr & _)|(-> & Hno & _)].
  { split_and!; [done|done|]. by destruct r0. }
  cbn in Hno. case_bool_decide as Eb; [done|]. apply eq_None_not_Some in Eb. split_and!; [|done|done].
  intros n [st Hn]. apply Hs. rewrite not_elem_of_singleton. intros ->. congruence.
Qed.

Lemma create_and_open_spares control name template (w : server) r (w' : server) :
  create_and_open fault lands blank_database ParseConfig control name template w = (r, w') →
  (∀ n, is_Some (sv_databases w !! n) → sv_databases w' !! n = sv_databases w !! n) ∧
  (∀ d, r = Ok d → db_Name d = name ∧ sv_databases w !! name = None).
Proof.
  unfold create_and_open, mbind. unfold io_bind at 1.
  destruct (create fault lands blank_database control name template w) as [r1 w1] eqn:E1.
  apply create_spec in E1 as (Hk1 & Hs & Hnone). destruct r1 as [[]|e0]; [|by intros [= <- <-]]. specialize (Hnone eq_refl).
  assert (Hkeep : ∀ w2 : server, spares {[name]} w1 w2 → ∀ n, is_Some (sv_databases w !! n) → sv_databases w2 !! n = sv_databases w !! n).
  { intros w2 H2 n Hn. rewrite H2, (Hk1 n Hn); [done|]. rewrite not_elem_of_singleton. intros ->. rewrite Hnone in Hn.
    by destruct Hn. }
  destruct control as [c|]; [|by intros [= <- <-]].
  unfold io_bind, io_try. destruct (open fault lands ParseConfig c name w1) as [r2 w2] eqn:E2. apply open_databases in E2 as [Hd2 Hok].
  destruct r2 as [d|e].
  - intros [= <- <-]. split; [by apply Hkeep, spares_refl|]. intros d' [= <-]. by rewrite (Hok d eq_refl).
  - destruct (drop fault lands blank_database (Some c) name w2) as [r3 w3] eqn:E3. intros [= <- <-].
    apply drop_spares in E3. split; [|done]. apply Hkeep. apply (spares_trans _ _ w2); [by apply spares_refl|done].
Qed.

Definition created (m : io server TestDatabase) : Prop := ∀ w r w', m w = (r, w') →
  (∀ n, is_Some (sv_databases w !! n) → sv_databases w' !! n = sv_databases w !! n) ∧
  (∀ d, r = Ok d → sv_databases w !! db_Name d = None).

Lemma Create_created control prefix : created (Create fault lands blank_database entropy ParseConfig control prefix).
Proof.
  intros w r w'. unfold Create, mbind, io_bind, draw. destruct (uniqueDatabaseName _ _) as [name|e]; [|by intros [= <- <-]].
  intros [Hk Hd]%create_and_open_spares. split; [exact Hk|]. intros d Hr. destruct (Hd d Hr) as [-> ?]. done.
Qed.
Lemma Clone_created control source prefix :
  created (Clone fault lands blank_database entropy ParseConfig control source prefix).
Proof.
  intros w r w'. unfold Clone, mbind, io_bind, draw, io_lift. destruct (wrap_err _ _ _); [|by intros [= <- <-]].
  destruct (uniqueDatabaseName _ _) as [name|e]; [|by intros [= <- <-]].
  intros [Hk Hd]%create_and_open_spares. split; [exact Hk|]. intros d Hr. destruct (Hd d Hr) as [-> ?]. done.
Qed.

Lemma Close_databases d (w : server) : sv_databases (Close fault d w).2 = sv_databases w.
Proof. unfold Close. destruct d as [d|]; [|done]. by destruct (sv_closed w !! db_pool d). Qed.

Lemma Drop_spares d (w : server) :
  spares (match d with Some d => {[db_Name d]} | None => ∅ end) w (Drop fault lands blank_database d w).2.
Proof.
  unfold Drop. destruct d as [d|]; [|by apply spares_refl]. destruct (sv_dropped w !! db_pool d); [by apply spares_refl|].
  pose proof (Close_databases (Some d) w) as Hc. destruct (Close fault (Some d) w) as [rc w1]; cbn in Hc.
  destruct (db_control d) as [c|]; [|by apply spares_refl].
  destruct (drop fault lands blank_database (Some c) (db_Name d) w1) as [rd w2] eqn:E. apply drop_spares in E.
  apply (spares_trans _ _ w1); [by apply spares_refl|done].
Qed.

Lemma CommitTx_spares name st (w : server) : spares {[name]} w (CommitTx fault lands name st w).2.
Proof.
  unfold CommitTx. match goal with |- context [request fault lands ?a ?b w] => destruct (request fault lands a b w) as [r w'] eqn:E end.
  apply request_cases in E as [(-> & _)|(-> & _)]; [by apply spares_refl|]. intros n Hn.
  rewrite not_elem_of_singleton in Hn. cbn. by rewrite lookup_insert_ne.
Qed.

Lemma Reconcile_spares d ro rw schemas (w : server) :
  spares (match d with Some d => {[db_Name d]} | None => ∅ end) w (ReconcileIsolated fault lands ParseConfig d ro rw schemas w).2.
Proof.
  destruct d as [[name pool [c|]]|]; [|by apply spares_refl..]. cbn [db_Name].
  unfold ReconcileIsolated, mbind, io_bind, io_wrap, io_lift.
  destruct (ParseConfig (ct_ownerConnection c)) as [owner|]; [|by apply spares_refl]. cbn [wrap_err].
  destruct (ParseConfig ro) as [readOnly|]; [|by apply spares_refl]. cbn [wrap_err].
  destruct (ParseConfig rw) as [readWrite|]; [|by apply spares_refl]. cbn [wrap_err].
  unfold BeginTx. pose proof (Ping_databases name w) as Hp. destruct (Ping fault lands name w) as [[[]|e] w1]; cbn [fst snd wrap_err] in Hp |- *;
    [|by apply spares_refl].
  destruct (sv_databases w !! name) as [st|]; cbn [wrap_err]; [|by apply spares_refl].
  destruct (ReconcileRuntimeAccess _ _ _ st) as [[[]|e] st']; cbn [wrap_err]; [|by apply spares_refl].
  pose proof (CommitTx_spares name st' w1) as Hs. destruct (CommitTx fault lands name st' w1) as [r2 w2].
  apply (spares_trans _ _ w1); [by apply spares_refl|exact Hs].
Qed.

(** The invariant of a run: what was there before is as it was, and no handle is on it. *)
Record apart (before : gmap string W) (st : server * list TestDatabase) : Prop := {
  ap_kept : ∀ n, is_Some (before !! n) → sv_databases st.1 !! n = before !! n;
  ap_handles : ∀ d, d ∈ st.2 → before !! db_Name d = None;
}.

Lemma apart_spares before w w' hs (h : nat) : apart before (w, hs) →
  spares (match hs !! h with Some d => {[db_Name d]} | None => ∅ end) w w' → apart before (w', hs ++ []).
Proof.
  intros [Hk Hh] Hs. rewrite app_nil_r. split; [|done]. intros n Hn. cbn. rewrite Hs; [by apply Hk|].
  destruct (hs !! h) as [d|] eqn:E; [|set_solver]. rewrite not_elem_of_singleton. intros ->.
  cbn in Hh. rewrite (Hh d) in Hn by by eapply list_elem_of_lookup_2. by destruct Hn.
Qed.

Lemma apart_created before w hs (m : io server TestDatabase) : created m → apart before (w, hs) →
  apart before (handled m (λ d, [d]) (w, hs)).
Proof.
  intros Hm [Hk Hh]. unfold handled. cbn in *. destruct (m w) as [r w'] eqn:E. destruct (Hm _ _ _ E) as [Hkeep Hd]. split; cbn.
  - intros n Hn. rewrite Hkeep; [by apply Hk|]. by rewrite Hk.
  - intros d [Hin|Hin]%elem_of_app; [by apply Hh|]. destruct r as [d'|]; [|by apply elem_of_nil in Hin].
    apply list_elem_of_singleton in Hin as ->. specialize (Hd d' eq_refl).
    destruct (before !! db_Name d') as [x|] eqn:Ex; [|done]. rewrite Hk in Hd by by rewrite Ex. congruence.
Qed.

Lemma apart_step before control st o : apart before st →
  apart before (run_op fault lands blank_database entropy ParseConfig control st o).
Proof.
  destruct st as [w hs]. intros Ha. destruct o as [prefix|source prefix|h ro rw schemas|h|h]; cbn [run_op].
  - by apply apart_created, Ha; apply Create_created.
  - by apply apart_created, Ha; apply Clone_created.
  - unfold handled. cbn [fst snd]. pose proof (Reconcile_spares (hs !! h) ro rw schemas w) as Hs.
    destruct (ReconcileIsolated fault lands ParseConfig (hs !! h) ro rw schemas w) as [r w']. cbn in *. destruct r; by apply (apart_spares _ w w' hs h).
  - unfold handled. cbn [fst snd]. pose proof (Close_databases (hs !! h) w) as Hs. destruct (Close fault (hs !! h) w) as [r w']. cbn in Hs.
    destruct r; apply (apart_spares _ w w' hs h); [done|by apply spares_refl|done|by apply spares_refl].
  - unfold handled. cbn [fst snd]. pose proof (Drop_spares (hs !! h) w) as Hs. destruct (Drop fault lands blank_database (hs !! h) w) as [r w']. cbn in *.
    destruct r; by apply (apart_spares _ w w' hs h).
Qed.

(** A handle dropped once stays as it was dropped. *)
Lemma Drop_once d (w : server) r w' : Drop fault lands blank_database (Some d) w = (r, w') →
  Drop fault lands blank_database (Some d) w' = (r, w').
Proof.
  unfold Drop at 1. destruct (sv_dropped w !! db_pool d) as [r0|] eqn:E.
  { intros [= <- <-]. unfold Drop. by rewrite E. }
  destruct (Close fault (Some d) w) as [rc w1].
  destruct (match db_control d with None => _ | Some _ => _ end) as [rd w2]. intros [= <- <-]. unfold Drop. cbn.
  by rewrite lookup_insert_eq.
Qed.

(** The drop that succeeds removes the database and nothing else. *)
Lemma drop_ok control name (w w' : server) : drop fault lands blank_database control name w = (Ok tt, w') →
  sv_databases w' = delete name (sv_databases w).
Proof.
  unfold drop, io_guard, mbind, io_bind, io_lift. destruct (guard_err _ _); [|done]. destruct (validateDatabaseName name); [|done].
  intros (r0 & E & Hr)%wrapped. destruct r0; [|done]. unfold ExecDDL in E.
  by apply request_cases in E as [(_ & ? & _)|(-> & _)].
Qed.

Lemma Drop_ok d (w w' : server) : sv_dropped w !! db_pool d = None →
  Drop fault lands blank_database (Some d) w = (Ok tt, w') → sv_databases w' = delete (db_Name d) (sv_databases w).
Proof.
  intros Hno. unfold Drop. rewrite Hno. pose proof (Close_databases (Some d) w) as Hc.
  destruct (Close fault (Some d) w) as [rc w1]. cbn [snd] in Hc.
  destruct (db_control d) as [c|].
  - destruct (drop fault lands blank_database (Some c) (db_Name d) w1) as [rd w2] eqn:E. intros [= Hj <-].
    destruct rd as [[]|e]; [|unfold join_results in Hj; by destruct rc]. apply drop_ok in E. cbn. by rewrite E, Hc.
  - intros [= Hj <-]. unfold join_results in Hj. by destruct rc.
Qed.

(** A creation that fails leaves no database, unless the last call it made, a CREATE
    carried out all the same or the DROP of what could not be opened, failed. *)
Definition cleaned (w w' : server) : Prop :=
  sv_databases w' = sv_databases w ∨
  (∃ name st, sv_databases w !! name = None ∧ sv_databases w' = <[name := st]> (sv_databases w)) ∧
  ∃ n, sv_calls w' = S n ∧ is_Some (fault n).

Lemma drop_cases control name (w : server) r w' :
  opened control ≠ None → validateDatabaseName name = Ok tt → drop fault lands blank_database control name w = (r, w') →
  sv_databases w' = delete name (sv_databases w) ∨
  sv_databases w' = sv_databases w ∧ sv_calls w' = S (sv_calls w) ∧ is_Some (fault (sv_calls w)).
Proof.
  intros Ho Hv. unfold drop, io_guard, mbind, io_bind, io_lift. rewrite bool_decide_eq_false_2 by done. cbn [guard_err].
  rewrite Hv. intros (r0 & E & ->)%wrapped. unfold ExecDDL in E.
  apply request_cases in E as [(-> & _ & [[? ?]|?])|(-> & _ & _)]; [done|by right|by left].
Qed.

Lemma create_cases control name template (w : server) r w' :
  create fault lands blank_database control name template w = (r, w') →
  match r with
  | Ok _ => opened control ≠ None ∧ sv_databases w !! name = None ∧ ∃ st, sv_databases w' = <[name := st]> (sv_databases w)
  | Err _ => cleaned w w'
  end.
Proof.
  intros E1. unfold create, io_guard, mbind, io_bind, io_lift in E1.
  case_bool_decide as Ho; cbn [guard_err] in E1; [injection E1 as <- <-; by left|]. apply wrapped in E1 as (r0 & E & ->).
  unfold ExecDDL in E. apply request_cases in E as [(-> & Hr & _)|(-> & Hno & Hr)].
  { destruct r0; [done|]. by left. }
  cbn in Hno. case_bool_decide as Eb; [done|]. apply eq_None_not_Some in Eb. destruct r0 as [[]|e0]; cbn [wrap_err].
  - split_and!; [done|done|by eexists].
  - right. split; [by eexists _, _|]. eexists. split; [done|]. by apply Hr.
Qed.

Lemma create_and_open_cleaned control name template (w : server) e (w' : server) :
  validateDatabaseName name = Ok tt →
  create_and_open fault lands blank_database ParseConfig control name template w = (Err e, w') → cleaned w w'.
Proof.
  intros Hv. unfold create_and_open, mbind. unfold io_bind at 1.
  destruct (create fault lands blank_database control name template w) as [r1 w1] eqn:E1. apply create_cases in E1.
  destruct r1 as [[]|e1]; [|by intros [= _ <-]]. destruct E1 as (Ho & Hnone & st & Hw1).
  destruct control as [c|]; [|done]. unfold io_bind, io_try.
  destruct (open fault lands ParseConfig c name w1) as [r2 w2] eqn:E2. apply open_databases in E2 as [Hd2 _].
  destruct r2 as [d|e2]; [by intros [=]|].
  destruct (drop fault lands blank_database (Some c) name w2) as [r3 w3] eqn:E3. intros [= _ <-].
  apply drop_cases in E3 as [E3|(E3 & Hn & Hf)]; [..|done|done].
  - left. by rewrite E3, Hd2, Hw1, delete_insert_id.
  - right. split; [|by eexists]. exists name, st. by rewrite E3, Hd2, Hw1.
Qed.

Lemma Create_cleaned control prefix (w : server) e (w' : server) : (∀ n s, entropy n = Ok s → len s = 8) →
  Create fault lands blank_database entropy ParseConfig control prefix w = (Err e, w') → cleaned w w'.
Proof.
  intros He. unfold Create, mbind, io_bind, draw. destruct (uniqueDatabaseName _ _) as [name|e'] eqn:En; [|by intros [= _ <-]; left].
  apply uniqueDatabaseName_ok in En as [Hv _]; [|by apply He]. by intros H%create_and_open_cleaned.
Qed.
Lemma Clone_cleaned control source prefix (w : server) e (w' : server) : (∀ n s, entropy n = Ok s → len s = 8) →
  Clone fault lands blank_database entropy ParseConfig control source prefix w = (Err e, w') → cleaned w w'.
Proof.
  intros He. unfold Clone, mbind, io_bind, draw, io_lift. destruct (wrap_err _ _ _); [|by intros [= _ <-]; left].
  destruct (uniqueDatabaseName _ _) as [name|e'] eqn:En; [|by intros [= _ <-]; left].
  apply uniqueDatabaseName_ok in En as [Hv _]; [|by apply He]. by intros H%create_and_open_cleaned.
Qed.

Lemma apart_run before control ops st : apart before st →
  apart before (foldl (run_op fault lands blank_database entropy ParseConfig control) st ops).
Proof. revert st. induction ops as [|o ops IH]; intros st Ha; [done|]. cbn [foldl]. by apply IH, apart_step. Qed.

End isolation.

(** A template, a clone of it and a database dropped again. *)
Definition example_server : server (W := Catalog) :=
  {| sv_databases := <["template" := example_catalog]> ∅; sv_pools := ∅; sv_calls := 0; sv_next := 0;
     sv_closed := ∅; sv_dropped := ∅ |}.
Definition random_bytes (n : nat) : result string := Ok (of_bytes (replicate 7 (chr 171) ++ [chr (Z.of_nat n)])).
Definition example_control : option Control := Some {| ct_ownerConnection := "postgres://owner@db"; ct_open := true; ct_pool := 99 |}.
Definition example_run : server (W := Catalog) * list TestDatabase :=
  foldl (run_op (λ _, None) (λ _, false) example_catalog random_bytes (λ _, Ok "owner") example_control) (example_server, [])
    [OpClone "template" "orders"; OpCreate "scratch"; OpDrop 1].

