(* ===== verification/RuntimeAccess.v ===== *)
(** The runtime's reconciliation of its login principals ([ensureRuntimeAccess]
    and its helpers in [runtime_access.go]): login roles and their attributes,
    grants through the control plane, and session default roles, in one
    transaction. *)
From S2P Require Import Prelude GoStrings Timeouts Settings RuntimeRoles ControlPlane.

(** ** Statements on login roles *)

Inductive login_statement :=
  | AlterLogin (role : string) (attributes : list string) (password : string)
  | SetReadOnly (role : string)
  | ResetReadOnly (role : string)
  | SetRole (principal role : string)
  | ResetRole (principal : string).

Section login_sql.
(** [pq.QuoteIdentifier] and [pq.QuoteLiteral]. *)
Context (QuoteIdentifier QuoteLiteral : string → string).

Definition login_sql (s : login_statement) : string :=
  match s with
  | AlterLogin r attributes p =>
    "ALTER ROLE " +:+ QuoteIdentifier r +:+ " WITH " +:+ join " " attributes +:+ " PASSWORD " +:+ QuoteLiteral p
  | SetReadOnly r => "ALTER ROLE " +:+ QuoteIdentifier r +:+ " SET default_transaction_read_only = on"
  | ResetReadOnly r => "ALTER ROLE " +:+ QuoteIdentifier r +:+ " RESET default_transaction_read_only"
  | SetRole p r => "ALTER ROLE " +:+ QuoteIdentifier p +:+ " SET role = " +:+ QuoteLiteral r
  | ResetRole p => "ALTER ROLE " +:+ QuoteIdentifier p +:+ " RESET role"
  end.
End login_sql.

Class LoginTransaction (W : Type) `{!Transaction W} := {
  OpenDB : io W unit;
  BeginTx : io W unit;
  LockAccess : io W unit;   (* pg_advisory_xact_lock on the access lock id *)
  ExecLogin : login_statement → io W unit;
  Commit : io W unit;
  Rollback : W → W;         (* deferred; a no-op once committed *)
  CloseDB : W → W;
}.

(** ** The handlers *)

Section ensure.
Context {W : Type} `{!Transaction W, !LoginTransaction W} {u : Unicode}.

(** The elevated attributes a login role may hold, and what clears each. *)
Definition login_attributes (r : RoleAttributes) : list (bool * string) :=
  [(rolsuper r, "NOSUPERUSER"); (rolcreatedb r, "NOCREATEDB"); (rolcreaterole r, "NOCREATEROLE");
   (rolreplication r, "NOREPLICATION"); (rolbypassrls r, "NOBYPASSRLS")].

Definition ensureLoginRole (role password : string) (readOnly : bool) : io W unit :=
  exists_ ← RoleExists role;
  _ ← (if (exists_ : bool) then mret tt else Exec (CreateRole role));
  row ← RoleRow role;
  _ ← ExecLogin (AlterLogin role (["LOGIN"; "NOINHERIT"] ++ set_attributes (login_attributes row)) password);
  if readOnly then ExecLogin (SetReadOnly role) else ExecLogin (ResetReadOnly role).

Definition ensureDefaultRole (principal role : string) : io W unit :=
  if bool_decide (role = "") then ExecLogin (ResetRole principal) else ExecLogin (SetRole principal role).

Definition access_request (c : Credentials) (ro rw : string) (schemas roles : list string) :
    RuntimeAccess :=
  {| Database := DatabaseName (cr_settings c); OwnerRole := postgresUser c;
     ReadOnlyRole := ro; ReadWriteRole := rw; Schemas := schemas; ReadWriteRoles := roles;
     ReadOnlyRoles := []; ReconcileReadOnlyRoleMemberships := false;
     ReconcileReadWriteRoleMemberships := true; ControlPlane.AuthMode := "";
     ReadOnlyPrincipals := []; ReadWritePrincipals := [] |}.

(** The grants and default role of one read-write principal, with the messages
    its failures are wrapped in. *)
Definition reconcile_principal (c : Credentials) (ro : string) (schemas : list string)
    (grants_failure default_failure name role : string) (roles : list string) : io W unit :=
  _ ← io_wrap grants_failure [name]
        (ReconcileRuntimeAccess true true (access_request c ro role schemas roles));
  io_wrap default_failure [name]
    (ensureDefaultRole role (defaultRuntimeReadWriteRole roles)).

Definition ensure_login (c : Credentials) (ro : string) (schemas : list string)
    (login : runtimeLogin) : io W unit :=
  _ ← io_wrap "cannot provision the %s runtime login" [rl_name login]
        (ensureLoginRole (rl_role login) (login_password c login) false);
  reconcile_principal c ro schemas "cannot reconcile the %s login's grants"
    "cannot set the %s login's default role" (rl_name login) (rl_role login) (rl_readWriteRoles login).

(** The statements of the transaction, from the lock to the commit. *)
Definition access_transaction (c : Credentials) (ro rw : string) (schemas roles : list string) :
    io W unit :=
  _ ← io_wrap "cannot lock runtime access reconciliation" [] LockAccess;
  _ ← io_wrap "cannot provision read-only runtime role" [] (ensureLoginRole ro (readOnlyPassword c) true);
  _ ← io_wrap "cannot provision read-write runtime role" [] (ensureLoginRole rw (readWritePassword c) false);
  _ ← reconcile_principal c ro schemas "cannot reconcile runtime grants"
        "cannot set the read-write default role" "" rw roles;
  logins ← io_lift (resolveRuntimeLogins (cr_settings c));
  _ ← io_each (ensure_login c ro schemas) logins;
  io_wrap "cannot commit runtime access transaction" [] Commit.

Definition ensureRuntimeAccessLocked (c : Credentials) : io W unit :=
  let s := cr_settings c in
  _ ← io_guard (externalIdentity s)
        (ENew "self-hosted runtime cannot reconcile runtime access in external-identity mode: login principals are provisioned by the cloud identity provider" []);
  schemas ← io_lift (normalizedRuntimeSchemas (RuntimeSchemas s));
  let '(ro, rw) := runtimeRoleNames (DatabaseName s) in
  roles ← io_lift (normalizedRuntimeReadWriteRoles (RuntimeReadWriteRoles s) [ro; rw]);
  _ ← io_wrap "cannot open database to provision runtime access" [] OpenDB;
  io_defer
    (_ ← io_wrap "cannot begin runtime access transaction" [] BeginTx;
     io_defer (access_transaction c ro rw schemas roles) Rollback)
    CloseDB.
End ensure.

(** ** What the statements do *)

(** The catalog, extended with what [ALTER ROLE] sets on a login: its password,
    its read-only default and its default role. *)
Record LoginCatalog := {
  lc_catalog : Catalog;
  lc_password : gmap string string;
  lc_readonly : gset string;
  lc_default : gmap string string;
}.

Definition set_login (row : RoleAttributes) (attributes : list string) : RoleAttributes :=
  let r := foldl clear_attribute row attributes in
  {| rolcanlogin := if bool_decide ("LOGIN" ∈ attributes) then true else rolcanlogin r;
     rolsuper := rolsuper r; rolcreatedb := rolcreatedb r; rolcreaterole := rolcreaterole r;
     rolinherit := rolinherit r; rolreplication := rolreplication r; rolbypassrls := rolbypassrls r |}.

Definition login_effect (s : login_statement) (l : LoginCatalog) : LoginCatalog :=
  let c := lc_catalog l in
  match s with
  | AlterLogin r attributes p =>
    {| lc_catalog := {| c_roles := alter (λ row, set_login row attributes) r (c_roles c);
                        c_members := c_members c; c_foreign := c_foreign c; c_acl := c_acl c |};
       lc_password := <[r := p]> (lc_password l); lc_readonly := lc_readonly l; lc_default := lc_default l |}
  | SetReadOnly r => {| lc_catalog := c; lc_password := lc_password l;
                        lc_readonly := {[r]} ∪ lc_readonly l; lc_default := lc_default l |}
  | ResetReadOnly r => {| lc_catalog := c; lc_password := lc_password l;
                          lc_readonly := lc_readonly l ∖ {[r]}; lc_default := lc_default l |}
  | SetRole p r => {| lc_catalog := c; lc_password := lc_password l; lc_readonly := lc_readonly l;
                      lc_default := <[p := r]> (lc_default l) |}
  | ResetRole p => {| lc_catalog := c; lc_password := lc_password l; lc_readonly := lc_readonly l;
                      lc_default := delete p (lc_default l) |}
  end.

(** What the transaction's session sees ([lview]); a commit makes it what every
    session sees ([committed]), a rollback and a close never change that. *)
Class LoginLaws (W : Type) `{!Transaction W, !LoginTransaction W} (lview committed : W → LoginCatalog) := {
  login_transaction_laws :: TransactionLaws W (λ w, lc_catalog (lview w));
  exec_login : ∀ s w w', ExecLogin s w = (Ok tt, w') → lview w' = login_effect s (lview w);
  (* statements and queries of the catalog leave the login settings alone *)
  exec_settings : ∀ s w w', Exec s w = (Ok tt, w') →
    lc_password (lview w') = lc_password (lview w) ∧ lc_readonly (lview w') = lc_readonly (lview w) ∧
    lc_default (lview w') = lc_default (lview w);
  query_settings :
    (∀ r w b w', RoleExists r w = (Ok b, w') → lview w' = lview w) ∧
    (∀ r w b w', RoleRow r w = (Ok b, w') → lview w' = lview w) ∧
    (∀ r w b w', MembersOf r w = (Ok b, w') → lview w' = lview w) ∧
    (∀ r w b w', MembershipsOf r w = (Ok b, w') → lview w' = lview w);
  open_begin_lock : ∀ w w',
    OpenDB w = (Ok tt, w') ∨ BeginTx w = (Ok tt, w') ∨ LockAccess w = (Ok tt, w') → lview w' = lview w;
  commit_publishes : ∀ w w', Commit w = (Ok tt, w') → lview w' = lview w ∧ committed w' = lview w;
  rollback_committed : ∀ w, committed (Rollback w) = committed w;
  close_committed : ∀ w, committed (CloseDB w) = committed w;
}.

(** ** What one principal is left with *)

(** The state of one principal, as the login settings and memberships. *)
Definition frame_on (p : string) (l l' : LoginCatalog) : Prop :=
  (∀ g, (g, p) ∈ c_members (lc_catalog l') ↔ (g, p) ∈ c_members (lc_catalog l)) ∧
  lc_password l' !! p = lc_password l !! p ∧ lc_default l' !! p = lc_default l !! p ∧
  (p ∈ lc_readonly l' ↔ p ∈ lc_readonly l).
#[export] Instance frame_on_refl p : Reflexive (frame_on p). Proof. by intros l. Qed.
#[export] Instance frame_on_trans p : Transitive (frame_on p).
Proof.
  intros l1 l2 l3 (H1 & H2 & H3 & H7) (H4 & H5 & H6 & H8).
  split_and!; [|congruence..|by rewrite H8]. intros g. by rewrite H4, H1.
Qed.

Definition same_settings (l l' : LoginCatalog) : Prop :=
  lc_password l' = lc_password l ∧ lc_readonly l' = lc_readonly l ∧ lc_default l' = lc_default l.
#[export] Instance same_settings_refl : Reflexive same_settings. Proof. by intros l. Qed.
#[export] Instance same_settings_trans : Transitive same_settings.
Proof. intros l1 l2 l3 (?&?&?) (?&?&?). split_and!; congruence. Qed.

(** A read-write principal as the runtime leaves it: granted by the owner exactly its
    delegated roles, with its password, starting its sessions in the first. *)
Record provisioned (l : LoginCatalog) (p password : string) (roles : list string) : Prop := {
  pv_members : ∀ g, (g, p) ∈ c_members (lc_catalog l) ↔ g ∈ roles;
  pv_password : lc_password l !! p = Some password;
  pv_default : lc_default l !! p = head roles;
  pv_writable : p ∉ lc_readonly l;
}.

Lemma provisioned_frame l l' p password roles :
  frame_on p l l' → provisioned l p password roles → provisioned l' p password roles.
Proof.
  intros (HM & HP & HD & HR) [Hm Hp Hd Hw]. split; [|congruence..|by rewrite HR].
  intros g. by rewrite HM.
Qed.

Section facts.
Context {W : Type} `{!Transaction W, !LoginTransaction W} (lview committed : W → LoginCatalog)
  `{!LoginLaws W lview committed}.
Let user := session_user (view := λ w, lc_catalog (lview w)).

Lemma reconcile_settings a :
  ControlPlane.AuthMode a ≠ AuthModeExternalIdentity → ReconcileReadOnlyRoleMemberships a = false →
  preserves lview same_settings (ReconcileRuntimeAccess true true a).
Proof.
  intros Hm Hro.
  assert (Hs : ∀ s, preserves lview same_settings (Exec s)) by (intros s w [] w'; apply exec_settings).
  destruct query_settings as (_ & Hrow & _ & Hmsh).
  unfold ReconcileRuntimeAccess. cbv zeta. rewrite bool_decide_eq_false_2 by done. rewrite Hro.
  repeat (apply preserves_bind; [apply _..| |intros _]);
    try (by apply preserves_lift; apply _); try (by apply preserves_ret; apply _);
    try apply Hs.
  - apply preserves_each; [apply _..|]. intros s _. apply preserves_each; [apply _..|auto].
  - case_match; [|by apply preserves_ret, _]. unfold reconcileRuntimeRoleMemberships.
    apply preserves_bind; [apply _..| |intros current]; [by intros w b w' ->%Hmsh|].
    apply preserves_bind; [apply _..| |intros _]; [apply preserves_each; [apply _..|auto]|].
    apply preserves_each; [apply _..|]. intros r _. unfold grant_configured.
    apply preserves_try; [apply _..| | |by intros w b w' ->%Hrow].
    + intros row. apply preserves_bind; [apply _..|by apply preserves_lift, _|auto].
    + intros e w x w'. simpl. by destruct (error_is ErrNoRows e).
Qed.

Lemma ensureDefaultRole_ok p r w w' :
  ensureDefaultRole p r w = (Ok tt, w') →
  lc_catalog (lview w') = lc_catalog (lview w) ∧ lc_password (lview w') = lc_password (lview w) ∧
  lc_readonly (lview w') = lc_readonly (lview w) ∧
  lc_default (lview w') = if bool_decide (r = "") then delete p (lc_default (lview w))
                          else <[p := r]> (lc_default (lview w)).
Proof.
  unfold ensureDefaultRole. intros H. case_bool_decide; by apply exec_login in H as ->.
Qed.

(** A principal's own login statements. *)
Lemma ensureLoginRole_ok p password readOnly w w' :
  ensureLoginRole p password readOnly w = (Ok tt, w') →
  lc_password (lview w') = <[p := password]> (lc_password (lview w)) ∧
  lc_default (lview w') = lc_default (lview w) ∧
  lc_readonly (lview w') = (if readOnly then {[p]} ∪ lc_readonly (lview w)
                            else lc_readonly (lview w) ∖ {[p]}) ∧
  (∀ g m, g ≠ p ∨ m ≠ user → (g, m) ∈ c_members (lc_catalog (lview w')) ↔
                             (g, m) ∈ c_members (lc_catalog (lview w))).
Proof.
  unfold ensureLoginRole. rewrite io_bind_ok. destruct query_settings as (Hex & Hrow & _ & _).
  intros (b & w1 & Hv%Hex & H). rewrite io_bind_ok in H. destruct H as ([] & w2 & Hc & H).
  rewrite io_bind_ok in H. destruct H as (row & w3 & Hv3%Hrow & H).
  rewrite io_bind_ok in H. destruct H as ([] & w4 & H4%exec_login & H).
  assert (H2 : same_settings (lview w) (lview w2) ∧
    ∀ g m, g ≠ p ∨ m ≠ user → (g, m) ∈ c_members (lc_catalog (lview w2)) ↔
                              (g, m) ∈ c_members (lc_catalog (lview w))).
  { destruct b; [injection Hc as <-; by rewrite Hv|]. split.
    - rewrite <-Hv. by apply exec_settings in Hc.
    - apply (exec_effect (view := λ w, lc_catalog (lview w))) in Hc as (_ & [HM _] & _).
      rewrite <-Hv. exact HM. }
  destruct H2 as [(HP & HR & HD) HM]. rewrite Hv3 in H4.
  destruct readOnly; apply exec_login in H; rewrite H, H4; simpl; split_and!; try done; congruence.
Qed.

Lemma ensureLoginRole_frame p q password readOnly w w' :
  q ≠ p → q ≠ user → ensureLoginRole p password readOnly w = (Ok tt, w') →
  frame_on q (lview w) (lview w').
Proof.
  intros Hq Hu (HP & HD & HR & HM)%ensureLoginRole_ok. split_and!.
  - intros g. apply HM. by right.
  - by rewrite HP, lookup_insert_ne.
  - by rewrite HD.
  - rewrite HR. destruct readOnly; set_solver.
Qed.

Lemma reconcile_principal_ok c ro schemas f1 f2 name p roles w w' :
  reconcile_principal c ro schemas f1 f2 name p roles w = (Ok tt, w') →
  (∀ r, r ∈ roles → r ≠ ro ∧ r ≠ p ∧ r ≠ "") →
  (∀ g, (g, p) ∈ c_members (lc_catalog (lview w')) ↔ g ∈ roles) ∧
  lc_password (lview w') = lc_password (lview w) ∧ lc_readonly (lview w') = lc_readonly (lview w) ∧
  lc_default (lview w') !! p = head roles ∧
  ∀ q, q ≠ p → q ≠ ro → frame_on q (lview w) (lview w').
Proof.
  intros H Hroles. unfold reconcile_principal in H. rewrite io_bind_ok in H.
  destruct H as ([] & w1 & H1%io_wrap_ok & H2%io_wrap_ok).
  pose proof (reconcile_settings (access_request c ro p schemas roles) ltac:(done) eq_refl _ _ _ H1)
    as (HP & HR & HD).
  apply (reconciled_memberships (λ w, lc_catalog (lview w))) in H1 as (Hw & _ & _ & Hf & _).
  2:{ simpl. intros r. rewrite !app_nil_r. intros Hr. by destruct (Hroles r Hr) as (? & ? & _). }
  destruct (Hw eq_refl) as [HM _]. simpl in HM, Hf.
  apply ensureDefaultRole_ok in H2 as (HC' & HP' & HR' & HD').
  split_and!; try congruence.
  - intros g. rewrite HC'. apply HM.
  - rewrite HD'. destruct roles as [|r roles]; simpl; [by rewrite lookup_delete_eq|].
    rewrite bool_decide_eq_false_2; [by rewrite lookup_insert_eq|].
    by destruct (Hroles r) as (_ & _ & ?); [left|].
  - intros q Hqp Hqr. split_and!; try congruence.
    + intros g. rewrite HC'. by apply Hf.
    + rewrite HD', <-HD. case_bool_decide; [by rewrite lookup_delete_ne|by rewrite lookup_insert_ne].
    + by rewrite HR', HR.
Qed.

(** One principal, from its role to its default. *)
Lemma provision_ok c ro schemas f args f1 f2 name p password roles w w' :
  p ≠ ro → (∀ r, r ∈ roles → r ≠ ro ∧ r ≠ p ∧ r ≠ "") →
  (io_wrap f args (ensureLoginRole p password false) ≫= λ _,
     reconcile_principal c ro schemas f1 f2 name p roles) w = (Ok tt, w') →
  provisioned (lview w') p password roles ∧
  lc_password (lview w') !! ro = lc_password (lview w) !! ro ∧
  (ro ∈ lc_readonly (lview w') ↔ ro ∈ lc_readonly (lview w)) ∧
  ∀ q, q ≠ p → q ≠ ro → q ≠ user → frame_on q (lview w) (lview w').
Proof.
  intros Hp Hroles. rewrite io_bind_ok. intros ([] & w1 & H1%io_wrap_ok & H2).
  apply reconcile_principal_ok in H2 as (HM & HP & HR & HD & Hf); [|done].
  pose proof H1 as (HP1 & HD1 & HR1 & HM1)%ensureLoginRole_ok. split_and!.
  - split; [done| |done|].
    + by rewrite HP, HP1, lookup_insert_eq.
    + rewrite HR, HR1. set_solver.
  - by rewrite HP, HP1, lookup_insert_ne.
  - rewrite HR, HR1. set_solver.
  - intros q ???. etrans; [by apply (ensureLoginRole_frame p q password false w w1)|by apply Hf].
Qed.

Lemma ensure_logins_ok c ro schemas logins w w' :
  NoDup (rl_role <$> logins) → user ∉ rl_role <$> logins → ro ∉ rl_role <$> logins →
  (∀ l r, l ∈ logins → r ∈ rl_readWriteRoles l → r ≠ ro ∧ r ≠ rl_role l ∧ r ≠ "") →
  io_each (ensure_login c ro schemas) logins w = (Ok tt, w') →
  Forall (λ l, provisioned (lview w') (rl_role l) (login_password c l) (rl_readWriteRoles l)) logins ∧
  lc_password (lview w') !! ro = lc_password (lview w) !! ro ∧
  (ro ∈ lc_readonly (lview w') ↔ ro ∈ lc_readonly (lview w)) ∧
  ∀ q, q ∉ rl_role <$> logins → q ≠ ro → q ≠ user → frame_on q (lview w) (lview w').
Proof.
  revert w. induction logins as [|l logins IH]; intros w; simpl; [by intros _ _ _ _ [= <-]|].
  intros [Hnl Hnd]%NoDup_cons [Hul Hu]%not_elem_of_cons [Hrl Hr]%not_elem_of_cons Hroles.
  intros ([] & w1 & H1 & H2)%io_bind_ok.
  apply provision_ok in H1 as (Hpv & HP & HR & Hf); [|done|intros r; apply Hroles; by left].
  apply IH in H2 as (Hall & HP' & HR' & Hf'); [|done..|intros l' r ?; apply Hroles; by right].
  split_and!.
  - constructor; [|done]. eapply provisioned_frame; [|exact Hpv]. by apply Hf'.
  - congruence.
  - by rewrite HR', HR.
  - intros q [Hql Hq]%not_elem_of_cons ??. etrans; [by apply Hf|by apply Hf'].
Qed.

Lemma normalized_delegates configured managed roles r :
  normalizedRuntimeReadWriteRoles configured managed = Ok roles → r ∈ roles → r ∉ managed ∧ r ≠ "".
Proof.
  intros [Hall ->]%normalizedRuntimeReadWriteRoles_ok [Hr _]%first_occurrences_elem.
  rewrite Forall_forall in Hall. by destruct (Hall r Hr) as [[? _] ?].
Qed.

(** The roles a resolution names: distinct, unmanaged, with usable delegates. *)
Lemma resolved_principals {un : Unicode} `{!UnicodeLaws un} s logins :
  resolveRuntimeLogins s = Ok logins →
  let '(ro, rw) := runtimeRoleNames (DatabaseName s) in
  NoDup (rl_role <$> logins) ∧ ro ∉ rl_role <$> logins ∧ rw ∉ rl_role <$> logins ∧
  ∀ l r, l ∈ logins → r ∈ rl_readWriteRoles l → r ≠ ro ∧ r ≠ rl_role l ∧ r ≠ "".
Proof.
  intros (_ & Hnd & Hall & _)%resolveRuntimeLogins_inv. unfold runtimeRoleNames.
  rewrite Forall_forall in Hall. split_and!.
  - apply (resolved_login_inj (DatabaseName s)); [|by apply Forall_forall|done].
    intros a b [Ha _ -> _ _ _ _] [Hb _ -> _ _ _ _] H%append_inj_r%append_inj_r.
    by apply login_slug_inj.
  - intros (l & Heq & Hl)%list_elem_of_fmap. by destruct (rsl_managed _ _ (Hall l Hl)) as [? _].
  - intros (l & Heq & Hl)%list_elem_of_fmap. by destruct (rsl_managed _ _ (Hall l Hl)) as [_ ?].
  - intros l r Hl Hr. destruct (rsl_roles _ _ (Hall l Hl)) as (_ & _ & Hs).
    rewrite Forall_forall in Hs. destruct (Hs r Hr) as [[? _] Hm].
    rewrite !not_elem_of_cons in Hm. naive_solver.
Qed.

(** C35: a successful reconciliation commits, for the database's read-write
    principal and every declared login, exactly its own delegated memberships (as
    granted by the service's owner), its password and its first role as session default, with writable sessions,
    and for the read-only principal its password and read-only sessions; no
    login's reconciliation disturbs another's.  In external-identity mode it
    does nothing but fail. *)
Theorem ensureRuntimeAccess_correct {un : Unicode} `{!UnicodeLaws un} c w w' :
  (externalIdentity (cr_settings c) = true →
     ∃ e, ensureRuntimeAccessLocked c w = (Err e, w)) ∧
  (ensureRuntimeAccessLocked c w = (Ok tt, w') →
   let s := cr_settings c in
   let '(ro, rw) := runtimeRoleNames (DatabaseName s) in
   (∀ logins, resolveRuntimeLogins s = Ok logins → user ∉ ro :: rw :: (rl_role <$> logins)) →
   ∃ roles logins,
     normalizedRuntimeReadWriteRoles (RuntimeReadWriteRoles s) [ro; rw] = Ok roles ∧
     resolveRuntimeLogins s = Ok logins ∧
     provisioned (committed w') rw (readWritePassword c) roles ∧
     Forall (λ l, provisioned (committed w') (rl_role l) (login_password c l) (rl_readWriteRoles l)) logins ∧
     lc_password (committed w') !! ro = Some (readOnlyPassword c) ∧ ro ∈ lc_readonly (committed w')).
Proof.
  split; [intros Hm; unfold ensureRuntimeAccessLocked; cbv zeta; rewrite Hm; by eexists|].
  unfold ensureRuntimeAccessLocked. cbv zeta.
  destruct (runtimeRoleNames (DatabaseName (cr_settings c))) as [ro rw] eqn:En.
  intros (_ & _ & H)%io_lift_bind_ok Huser. apply io_lift_bind_ok in H as (schemas & _ & H).
  apply io_lift_bind_ok in H as (roles & Hroles & H).
  apply io_bind_ok in H as ([] & w1 & Hopen%io_wrap_ok & H).
  apply io_defer_eq in H as (w2 & H & ->). apply io_bind_ok in H as ([] & w3 & Hbegin%io_wrap_ok & H).
  apply io_defer_eq in H as (w4 & H & ->). rewrite close_committed, rollback_committed.
  unfold access_transaction in H.
  apply io_bind_ok in H as ([] & w5 & Hlock%io_wrap_ok & H).
  apply io_bind_ok in H as ([] & w6 & Hro%io_wrap_ok & H).
  apply io_bind_ok in H as ([] & w7 & Hrw & H). apply io_bind_ok in H as ([] & w8 & Hrec & H).
  apply io_lift_bind_ok in H as (logins & Hl & H).
  apply io_bind_ok in H as ([] & w9 & Hlogins & [Hv ->]%io_wrap_ok%commit_publishes).
  pose proof (resolved_principals _ _ Hl) as Hp. rewrite En in Hp. destruct Hp as (Hnd & Hrl & Hwl & Hdel).
  pose proof (Huser logins Hl) as [_ [Hurw Hul]%not_elem_of_cons]%not_elem_of_cons.
  assert (Hne : rw ≠ ro).
  { unfold runtimeRoleNames in En. injection En as <- <-. intros Heq%append_inj_r. discriminate. }
  assert (Hrwp : (io_wrap "cannot provision read-write runtime role" []
      (ensureLoginRole rw (readWritePassword c) false) ≫= λ _,
      reconcile_principal c ro schemas "cannot reconcile runtime grants"
        "cannot set the read-write default role" "" rw roles) w6 = (Ok tt, w8)).
  { apply io_bind_ok. by exists tt, w7. }
  apply provision_ok in Hrwp as (Hpv & HP & HR & _); [|done|].
  2:{ intros r Hr. destruct (normalized_delegates _ _ _ _ Hroles Hr) as [Hm ?].
      rewrite !not_elem_of_cons in Hm. naive_solver. }
  apply ensureLoginRole_ok in Hro as (HP0 & _ & HR0 & _).
  apply ensure_logins_ok in Hlogins as (Hall & HP' & HR' & Hf); [|done..].
  exists roles, logins. split_and!; try done.
  - eapply provisioned_frame; [|exact Hpv]. by apply Hf.
  - by rewrite HP', HP, HP0, lookup_insert_eq.
  - rewrite HR', HR, HR0. set_solver.
Qed.
End facts.

(** ** A server to run on *)

(** A session's uncommitted view, and what is committed. *)
Record Server := { sv_session : LoginCatalog; sv_committed : LoginCatalog }.

Definition on_session (f : LoginCatalog → LoginCatalog) (sv : Server) : Server :=
  {| sv_session := f (sv_session sv); sv_committed := sv_committed sv |}.
Definition with_catalog (c : Catalog) (l : LoginCatalog) : LoginCatalog :=
  {| lc_catalog := c; lc_password := lc_password l; lc_readonly := lc_readonly l; lc_default := lc_default l |}.
Definition server_query {A} (m : io Catalog A) : io Server A := λ sv,
  ((m (lc_catalog (sv_session sv))).1, sv).
Definition server_exec (s : statement) : io Server unit := λ sv,
  (Ok tt, on_session (λ l, with_catalog (catalog_exec s (lc_catalog l)).2 l) sv).
Definition restart (sv : Server) : Server :=
  {| sv_session := sv_committed sv; sv_committed := sv_committed sv |}.

#[export] Instance server_transaction : Transaction Server := {
  Exec := server_exec;
  RoleExists r := server_query (RoleExists r);
  RoleRow r := server_query (RoleRow r);
  MembersOf g := server_query (MembersOf g);
  MembershipsOf m := server_query (MembershipsOf m);
  ReaderAllowed a r := server_query (ReaderAllowed a r);
  range := elements;
}.
#[export] Instance server_login_transaction : LoginTransaction Server := {
  OpenDB := mret tt; BeginTx := mret tt; LockAccess := mret tt;
  ExecLogin s sv := (Ok tt, on_session (login_effect s) sv);
  Commit sv := (Ok tt, {| sv_session := sv_session sv; sv_committed := sv_session sv |});
  Rollback := restart; CloseDB := restart;
}.

Lemma server_query_ok {A} (m : io Catalog A) sv a sv' :
  server_query m sv = (Ok a, sv') →
  sv' = sv ∧ m (lc_catalog (sv_session sv)) = (Ok a, (m (lc_catalog (sv_session sv))).2).
Proof. unfold server_query. intros [= H <-]. split; [done|]. rewrite <-H. by destruct (m _). Qed.

#[export] Instance server_laws : LoginLaws Server sv_session sv_committed.
Proof.
  refine {| login_transaction_laws := {| session_user := "owner" |} |}.
  - intros s w w' [= <-]. split_and!; [done| | |done]; destruct s; try done.
    intros g m Hgm. cbn. rewrite elem_of_union, elem_of_singleton. naive_solver.
  - intros r w b w' [-> H]%server_query_ok.
    split; [done|]. by apply (role_exists_answer (view := id)) in H as [_ ?].
  - intros r w b w' [-> H]%server_query_ok.
    split; [done|]. by apply (role_row_answer (view := id)) in H as [_ ?].
  - intros r w b w' [-> H]%server_query_ok.
    split; [done|]. by apply (members_answer (view := id)) in H as [_ ?].
  - intros r w b w' [-> H]%server_query_ok.
    split; [done|]. by apply (memberships_answer (view := id)) in H as [_ ?].
  - by intros a r w b w' [-> _]%server_query_ok.
  - done.
  - by intros s w w' [= <-].
  - by intros s w w' [= <-].
  - split_and!; by intros r w b w' [-> _]%server_query_ok.
  - by intros w w' [[= <-]|[[= <-]|[= <-]]].
  - by intros w w' [= <-].
  - done.
  - done.
Defined.

Definition example_server : Server :=
  let c := {| c_roles := <["app_rw" := guarded_role]> (<["app_worker" := guarded_role]>
                (<["app_audit" := guarded_role]> ∅));
              c_members := ∅; c_foreign := ∅; c_acl _ _ := ∅ |} in
  let l := {| lc_catalog := c; lc_password := ∅; lc_readonly := ∅; lc_default := ∅ |} in
  {| sv_session := l; sv_committed := l |}.

Definition example_credentials : Credentials :=
  {| cr_settings := example_settings; postgresUser := "owner"; postgresPassword := "p0";
     readOnlyPassword := "p1"; readWritePassword := "p2";
     loginPasswords := <["worker" := "p3"]> (<["audit-log" := "p4"]> ∅) |}.

Lemma ensureRuntimeAccess_correct_witness :
  ∃ sv, ensureRuntimeAccessLocked (u := ascii_unicode) example_credentials example_server = (Ok tt, sv) ∧
    ∃ roles logins, resolveRuntimeLogins (u := ascii_unicode) example_settings = Ok logins ∧
      Forall (λ l, provisioned (sv_committed sv) (rl_role l) (login_password example_credentials l)
                     (rl_readWriteRoles l)) logins ∧
      provisioned (sv_committed sv) (runtimeRoleNames (u := ascii_unicode) "store").2 "p2" roles.
Proof.
  destruct (ensureRuntimeAccessLocked (u := ascii_unicode) example_credentials example_server) as [r sv] eqn:E.
  assert (H : (ensureRuntimeAccessLocked (u := ascii_unicode) example_credentials example_server).1 = Ok tt)
    by (vm_compute; reflexivity).
  rewrite E in H. simpl in H. subst r. exists sv. split; [reflexivity|].
  destruct (ensureRuntimeAccess_correct (un := ascii_unicode) sv_session sv_committed
              example_credentials example_server sv) as [_ Hok].
  specialize (Hok E). clear E.
  destruct Hok as (roles & logins & _ & Hl & Hrw & Hall & _).
  - intros logins Hl.
    assert (H : match resolveRuntimeLogins (u := ascii_unicode) example_settings with
      | Ok l => bool_decide ("owner" ∉ (runtimeRoleNames (u := ascii_unicode) "store").1 ::
                  (runtimeRoleNames (u := ascii_unicode) "store").2 :: (rl_role <$> l))
      | Err _ => false end = true) by (vm_compute; reflexivity).
    change (cr_settings example_credentials) with example_settings in Hl.
    rewrite Hl in H. by apply bool_decide_eq_true in H.
  - exists roles, logins. by split_and!.
Defined.
