(* ===== verification/GoRegexp.v ===== *)
(** Go's [regexp] as the program uses it: anchored patterns over ASCII classes,
    matched by derivatives, and that the matcher decides the pattern's language. *)
From S2P Require Import Prelude GoStrings.

(** ** Patterns *)

Inductive regexp :=
  | Nothing
  | Empty
  | Byte (p : ascii → bool)
  | Then (a b : regexp)
  | Or (a b : regexp)
  | Many (a : regexp).                      (* [a*] *)

Definition lit (s : string) : regexp :=
  foldr (λ c r, Then (Byte (λ c', bool_decide (c' = c))) r) Empty (bytes s).
Definition plus_of (a : regexp) : regexp := Then a (Many a).
Definition maybe (a : regexp) : regexp := Or Empty a.
Fixpoint exactly (n : nat) (a : regexp) : regexp :=
  match n with O => Empty | S n => Then a (exactly n a) end.
Fixpoint up_to (n : nat) (a : regexp) : regexp :=
  match n with O => Empty | S n => Or Empty (Then a (up_to n a)) end.
(** [a{lo,hi}] *)
Definition between (lo hi : nat) (a : regexp) : regexp := Then (exactly lo a) (up_to (hi - lo) a).

(** ** The language of a pattern *)

Inductive in_language : regexp → list ascii → Prop :=
  | In_empty : in_language Empty []
  | In_byte p c : p c = true → in_language (Byte p) [c]
  | In_then a b l r : in_language a l → in_language b r → in_language (Then a b) (l ++ r)
  | In_left a b l : in_language a l → in_language (Or a b) l
  | In_right a b l : in_language b l → in_language (Or a b) l
  | In_none a : in_language (Many a) []
  | In_more a c l r : in_language a (c :: l) → in_language (Many a) r → in_language (Many a) (c :: l ++ r).

(** ** Matching *)

Fixpoint nullable (r : regexp) : bool :=
  match r with
  | Nothing | Byte _ => false
  | Empty | Many _ => true
  | Then a b => nullable a && nullable b
  | Or a b => nullable a || nullable b
  end.

(** Smart constructors keep the derivatives small. *)
Definition then_ (a b : regexp) : regexp :=
  match a with Nothing => Nothing | Empty => b | _ => Then a b end.
Definition or_ (a b : regexp) : regexp :=
  match a, b with Nothing, r => r | r, Nothing => r | _, _ => Or a b end.

Fixpoint derive (c : ascii) (r : regexp) : regexp :=
  match r with
  | Nothing | Empty => Nothing
  | Byte p => if p c then Empty else Nothing
  | Then a b => if nullable a then or_ (then_ (derive c a) b) (derive c b) else then_ (derive c a) b
  | Or a b => or_ (derive c a) (derive c b)
  | Many a => then_ (derive c a) (Many a)
  end.

(** [^r$] on a whole string *)
Definition matches (r : regexp) (s : string) : bool :=
  nullable (foldl (λ r c, derive c r) r (bytes s)).

(** ** The matcher decides the language *)

Lemma nullable_spec r : nullable r = true ↔ in_language r [].
Proof.
  split.
  - induction r; simpl; intros H; try discriminate; try (by constructor).
    + apply andb_true_iff in H as [??]. change (@nil ascii) with (@nil ascii ++ []). constructor; auto.
    + apply orb_true_iff in H as [?|?]; [apply In_left|apply In_right]; auto.
  - intros H. remember [] as l eqn:E. induction H; simpl; try discriminate; try done.
    + apply app_eq_nil in E as [-> ->]. by rewrite IHin_language1, IHin_language2.
    + by rewrite IHin_language.
    + rewrite IHin_language by done. apply orb_true_r.
Qed.

Lemma then_spec a b l : in_language (then_ a b) l ↔ in_language (Then a b) l.
Proof.
  destruct a; simpl; try done.
  - split; inversion 1; subst. match goal with H : in_language Nothing _ |- _ => inversion H end.
  - split.
    + intros H. change l with ([] ++ l). by repeat constructor.
    + inversion 1; subst. match goal with H : in_language Empty _ |- _ => inversion H; subst end. done.
Qed.

Lemma or_spec a b l : in_language (or_ a b) l ↔ in_language a l ∨ in_language b l.
Proof.
  assert (Hor : ∀ a b, in_language (Or a b) l ↔ in_language a l ∨ in_language b l).
  { split; [inversion 1; auto|intros [?|?]; [by apply In_left|by apply In_right]]. }
  assert (Hno : ¬ in_language Nothing l) by (inversion 1).
  destruct a, b; unfold or_; rewrite ?Hor; tauto.
Qed.

Lemma then_cons a b c l :
  in_language (Then a b) (c :: l) ↔
  (∃ l1 l2, l = l1 ++ l2 ∧ in_language a (c :: l1) ∧ in_language b l2) ∨
  (in_language a [] ∧ in_language b (c :: l)).
Proof.
  split.
  - inversion 1 as [| |? ? x y Ha Hb E| | | |]; subst. destruct x as [|c' x]; simplify_eq/=.
    + by right.
    + left. eauto.
  - intros [(l1 & l2 & -> & Ha & Hb)|[Ha Hb]].
    + change (c :: l1 ++ l2) with ((c :: l1) ++ l2). by constructor.
    + change (c :: l) with ([] ++ c :: l). by constructor.
Qed.

Lemma derive_spec c r l : in_language (derive c r) l ↔ in_language r (c :: l).
Proof.
  revert l. induction r as [| |p|a IHa b IHb|a IHa b IHb|a IHa]; intros l; simpl.
  - split; inversion 1.
  - split; inversion 1.
  - destruct (p c) eqn:E.
    + split; [inversion 1; by constructor|]. inversion 1; subst. constructor.
    + split; inversion 1; subst. congruence.
  - assert (Hthen : in_language (then_ (derive c a) b) l ↔
        ∃ l1 l2, l = l1 ++ l2 ∧ in_language a (c :: l1) ∧ in_language b l2).
    { rewrite then_spec. split.
      - inversion 1; subst. setoid_rewrite <-IHa. eauto.
      - intros (l1 & l2 & -> & H1%IHa & H2). by constructor. }
    rewrite then_cons. destruct (nullable a) eqn:E.
    + apply nullable_spec in E. rewrite or_spec, Hthen, IHb. tauto.
    + rewrite Hthen. assert (¬ in_language a []) by (by rewrite <-nullable_spec, E). tauto.
  - rewrite or_spec, IHa, IHb. split; [intros [?|?]; [by apply In_left|by apply In_right]|].
    inversion 1; subst; auto.
  - rewrite then_spec. split.
    + inversion 1; subst. rewrite IHa in *. by constructor.
    + inversion 1; subst. constructor; [by apply IHa|done].
Qed.

Theorem matches_spec r s : matches r s = true ↔ in_language r (bytes s).
Proof.
  unfold matches. revert r. induction (bytes s) as [|c l IH]; intros r; simpl; [apply nullable_spec|].
  by rewrite IH, derive_spec.
Qed.

(** ** Which bytes a match is made of *)

Fixpoint all_of (P : ascii → Prop) (r : regexp) : Prop :=
  match r with
  | Nothing | Empty => True
  | Byte p => ∀ c, p c = true → P c
  | Then a b | Or a b => all_of P a ∧ all_of P b
  | Many a => all_of P a
  end.

Lemma language_bytes P r l : all_of P r → in_language r l → Forall P l.
Proof.
  intros Hp H. induction H; simpl in Hp.
  - constructor.
  - constructor; [by apply Hp|constructor].
  - destruct Hp. apply Forall_app. auto.
  - destruct Hp. auto.
  - destruct Hp. auto.
  - constructor.
  - assert (Forall P (c :: l)) as ?%Forall_cons by auto. assert (Forall P r) by auto.
    rewrite app_comm_cons. apply Forall_app. split; [by apply Forall_cons|done].
Qed.

Lemma all_of_between P lo hi a : all_of P a → all_of P (between lo hi a).
Proof.
  intros Ha. split.
  - induction lo; simpl; auto.
  - induction (hi - lo)%nat; simpl; auto.
Qed.

Lemma all_of_lit P s : Forall P (bytes s) → all_of P (lit s).
Proof.
  unfold lit. induction 1 as [|c l Hc Hl IH]; simpl; [done|]. split; [|done]. by intros c' ->%bool_decide_eq_true.
Qed.

(** ** The languages of the parts patterns are made of *)

Lemma then_language a b l : in_language (Then a b) l → ∃ l1 l2, l = l1 ++ l2 ∧ in_language a l1 ∧ in_language b l2.
Proof. inversion 1; subst. eauto. Qed.

Lemma byte_language p l : in_language (Byte p) l → ∃ c, l = [c] ∧ p c = true.
Proof. inversion 1; subst. eauto. Qed.

Lemma lit_language s l : in_language (lit s) l → l = bytes s.
Proof.
  unfold lit. revert l. induction (bytes s) as [|c cs IH]; intros l; simpl; [by inversion 1|].
  intros (l1 & l2 & -> & (c' & -> & ->%bool_decide_eq_true)%byte_language & ->%IH)%then_language. done.
Qed.

Lemma exactly_language n p l : in_language (exactly n (Byte p)) l → length l = n ∧ Forall (λ c, p c = true) l.
Proof.
  revert l. induction n as [|n IH]; intros l; simpl; [by inversion 1|].
  intros (l1 & l2 & -> & (c & -> & Hc)%byte_language & [E H]%IH)%then_language. simpl. by rewrite E; auto.
Qed.

Lemma plus_language p l : in_language (plus_of (Byte p)) l → l ≠ [] ∧ Forall (λ c, p c = true) l.
Proof.
  intros H. split.
  - apply then_language in H as (l1 & l2 & -> & (c & -> & _)%byte_language & _). done.
  - eapply (language_bytes (λ c, p c = true)); [|exact H]. split; by intros c.
Qed.

#[global] Arguments matches : simpl never.
