(* ===== verification/Url.v ===== *)
(** Go's [net/url] as the program uses it: percent-encoding by component,
    [url.Parse] and [URL.String], [Userinfo], [Values] with their query form, and
    the facts that make the encoding of a component reversible. *)
From stdpp Require Import sorting.
From S2P Require Import Prelude GoStrings.

(** ** Percent-encoding *)

Inductive encoding :=
  | encodePath | encodePathSegment | encodeHost | encodeUserPassword
  | encodeQueryComponent | encodeFragment.
#[export] Instance encoding_eq_dec : EqDecision encoding.
Proof. solve_decision. Defined.

Definition one_of (set : string) (c : ascii) : bool := bool_decide (c ∈ bytes set).

Definition shouldEscape (c : ascii) (mode : encoding) : bool :=
  if is_alnum (code c) then false
  else if bool_decide (mode = encodeHost) && (one_of "!$&'()*+,;=:[]<>" c || (code c =? 34)) then false
  else if one_of "-_.~" c then false
  else if one_of "$&+,/:;=?@" c then
    match mode with
    | encodePath => one_of "?" c
    | encodePathSegment => one_of "/;,?" c
    | encodeUserPassword => one_of "@/?:" c
    | encodeFragment => false
    | encodeQueryComponent | encodeHost => true
    end
  else negb (bool_decide (mode = encodeFragment) && one_of "!()*" c).

Definition upper_hex (n : Z) : ascii := if n <? 10 then chr (48 + n) else chr (55 + n).
Definition is_hex (c : ascii) : bool :=
  is_digit (code c) || in_range 97 102 (code c) || in_range 65 70 (code c).
Definition unhex (c : ascii) : Z :=
  let z := code c in
  if is_digit z then z - 48 else if in_range 97 102 z then z - 87 else z - 55.

Definition percent : ascii := "%"%char.
Definition plus : ascii := "+"%char.
Definition blank_byte : ascii := " "%char.

Definition escape_byte (mode : encoding) (c : ascii) : list ascii :=
  if shouldEscape c mode then
    if bool_decide (mode = encodeQueryComponent) && bool_decide (c = blank_byte) then [plus]
    else [percent; upper_hex (code c / 16); upper_hex (code c mod 16)]
  else [c].
Definition escape_bytes (mode : encoding) (l : list ascii) : list ascii :=
  l ≫= escape_byte mode.
Definition escape (s : string) (mode : encoding) : string := of_bytes (escape_bytes mode (bytes s)).

(** In a host only non-ASCII bytes may be percent-encoded, and "%25". *)
Definition escape_allowed (mode : encoding) (a b : ascii) : bool :=
  negb (bool_decide (mode = encodeHost)) || (8 <=? unhex a)
  || (bool_decide (a = "2"%char) && bool_decide (b = "5"%char)).
Definition byte_allowed (mode : encoding) (c : ascii) : bool :=
  negb (bool_decide (mode = encodeHost) && (code c <? 128) && shouldEscape c mode).

Fixpoint unescape_bytes (mode : encoding) (l : list ascii) : option (list ascii) :=
  match l with
  | [] => Some []
  | c :: l =>
    if decide (c = percent) then
      match l with
      | a :: b :: l =>
        if is_hex a && is_hex b && escape_allowed mode a b
        then cons (chr (unhex a * 16 + unhex b)) <$> unescape_bytes mode l else None
      | _ => None
      end
    else if decide (c = plus) then
      cons (if bool_decide (mode = encodeQueryComponent) then blank_byte else plus)
        <$> unescape_bytes mode l
    else if byte_allowed mode c then cons c <$> unescape_bytes mode l else None
  end.
Definition unescape (s : string) (mode : encoding) : result string :=
  match unescape_bytes mode (bytes s) with
  | Some l => Ok (of_bytes l)
  | None => Err (ENew "invalid URL escape %q" [s])
  end.

(** ** URLs *)

Record Userinfo := { username : string; user_password : option string }.

Record URL := {
  Scheme : string;
  Opaque : string;
  User : option Userinfo;
  Host : string;
  Path : string;
  RawPath : string;
  OmitHost : bool;
  ForceQuery : bool;
  RawQuery : string;
  Fragment : string;
}.
#[export] Instance userinfo_eq_dec : EqDecision Userinfo.
Proof. solve_decision. Defined.
#[export] Instance url_eq_dec : EqDecision URL.
Proof. solve_decision. Defined.

Definition userinfo_String (u : Userinfo) : string :=
  match user_password u with
  | None => escape (username u) encodeUserPassword
  | Some p => escape (username u) encodeUserPassword +:+ ":" +:+ escape p encodeUserPassword
  end.

(** [validEncoded] on a path: a raw path that needs no further encoding. *)
Definition validEncoded (s : string) : bool :=
  all_bytes (λ c, one_of "!$&'()*+,;=:@[]%" c || negb (shouldEscape c encodePath)) s.

(** [URL.EscapedPath]: the raw path [Parse] kept, if it can be written as it is. *)
Definition EscapedPath (u : URL) : string :=
  if negb (bool_decide (RawPath u = "")) && validEncoded (RawPath u)
     && match unescape (RawPath u) encodePath with Ok p => bool_decide (p = Path u) | Err _ => false end then RawPath u
  else if bool_decide (Path u = "*") then "*" else escape (Path u) encodePath.

(** [URL.String] for a URL whose scheme is not empty. *)
Definition URL_String (u : URL) : string :=
  Scheme u +:+ ":" +:+
  (if bool_decide (Opaque u = "") then
     (if bool_decide (Host u = "") && bool_decide (User u = None)
         && (OmitHost u || bool_decide (Path u = "")) then "" else "//") +:+
     (match User u with Some ui => userinfo_String ui +:+ "@" | None => "" end) +:+
     escape (Host u) encodeHost +:+
     (if negb (bool_decide (EscapedPath u = "")) && negb (has_prefix (EscapedPath u) "/")
         && negb (bool_decide (Host u = "")) then "/" else "") +:+
     EscapedPath u
   else Opaque u) +:+
  (if ForceQuery u || negb (bool_decide (RawQuery u = "")) then "?" +:+ RawQuery u else "") +:+
  (if bool_decide (Fragment u = "") then "" else "#" +:+ escape (Fragment u) encodeFragment).

(** ** Parsing *)

Definition parse_error {A} (why : string) : result A := Err (ENew why []).

Definition control_byte (c : ascii) : bool := (code c <? 32) || (code c =? 127).

(** [getScheme]: the scheme and what follows its colon. *)
Fixpoint scheme_bytes (acc l : list ascii) : result (option (list ascii * list ascii)) :=
  match l with
  | [] => Ok None
  | c :: l =>
    let z := code c in
    if is_lower z || is_upper z then scheme_bytes (c :: acc) l
    else if is_digit z || one_of "+-." c then
      if bool_decide (acc = []) then Ok None else scheme_bytes (c :: acc) l
    else if bool_decide (c = ":"%char) then
      if bool_decide (acc = []) then parse_error "missing protocol scheme"
      else Ok (Some (reverse acc, l))
    else Ok None
  end.
Definition getScheme (s : string) : result (string * string) :=
  r ← scheme_bytes [] (bytes s);
  Ok match r with
     | Some (scheme, rest) => (map_bytes lower_byte (of_bytes scheme), of_bytes rest)
     | None => ("", s)
     end.

(** The text before and after the last [sep]. *)
Definition cut_last (s : string) (sep : ascii) : option (string * string) :=
  (λ p, (of_bytes (reverse p.2), of_bytes (reverse p.1))) <$> cut_bytes sep [] (reverse (bytes s)).

Definition validOptionalPort (port : string) : bool :=
  match bytes port with
  | [] => true
  | c :: l => bool_decide (c = ":"%char) && forallb (λ c, is_digit (code c)) l
  end.

Definition userinfo_byte (c : ascii) : bool :=
  is_alnum (code c) || one_of "-._:~!$&'()*+,;=%@" c.

(** [parseHost]: a bracketed literal, or a name with at most a port. *)
Definition parseHost (host : string) : result string :=
  _ ← (if has_prefix host "[" then
         match cut_last host "]"%char with
         | None => parse_error "missing ']' in host"
         | Some (_, port) => guard_err (negb (validOptionalPort port)) (ENew "invalid port after host" [port])
         end
       else match cut host ":"%char with
            | None => Ok tt
            | Some (_, port) => guard_err (negb (validOptionalPort (":" +:+ port)))
                                  (ENew "invalid port after host" [port])
            end);
  unescape host encodeHost.

Definition parseAuthority (authority : string) : result (option Userinfo * string) :=
  match cut_last authority "@"%char with
  | None => h ← parseHost authority; Ok (None, h)
  | Some (userinfo, host) =>
    h ← parseHost host;
    _ ← guard_err (negb (all_bytes userinfo_byte userinfo)) (ENew "net/url: invalid userinfo" []);
    match cut userinfo ":"%char with
    | None => name ← unescape userinfo encodeUserPassword;
              Ok (Some {| username := name; user_password := None |}, h)
    | Some (name, password) =>
      name ← unescape name encodeUserPassword;
      password ← unescape password encodeUserPassword;
      Ok (Some {| username := name; user_password := Some password |}, h)
    end
  end.

(** The authority and the path of what follows "//". *)
Definition split_authority (rest : string) : string * string :=
  match cut rest slash with
  | Some (authority, path) => (authority, "/" +:+ path)
  | None => (rest, "")
  end.

Definition set_path (p : string) : result (string * string) :=
  path ← unescape p encodePath;
  Ok (path, if bool_decide (escape path encodePath = p) then "" else p).

(** The query of a URL without fragment, and whether it is an empty one. *)
Definition cut_query (s : string) : string * string * bool :=
  match cut s "?"%char with
  | Some (rest, q) => (rest, q, bool_decide (q = ""))
  | None => (s, "", false)
  end.

Definition Parse (raw : string) : result URL :=
  let '(u, frag) := default (raw, "") (cut raw "#"%char) in
  _ ← guard_err (existsb control_byte (bytes u))
        (ENew "net/url: invalid control character in URL" []);
  if bool_decide (u = "*") then
    fragment ← unescape frag encodeFragment;
    Ok {| Scheme := ""; Opaque := ""; User := None; Host := ""; Path := "*"; RawPath := "";
          OmitHost := false; ForceQuery := false; RawQuery := ""; Fragment := fragment |}
  else
  '(scheme, rest) ← getScheme u;
  let '(rest, query, force) := cut_query rest in
  if negb (has_prefix rest "/") && negb (bool_decide (scheme = "")) then
    fragment ← unescape frag encodeFragment;
    Ok {| Scheme := scheme; Opaque := rest; User := None; Host := ""; Path := ""; RawPath := "";
          OmitHost := false; ForceQuery := force; RawQuery := query; Fragment := fragment |}
  else
  _ ← guard_err (negb (has_prefix rest "/") && contains (default rest (fst <$> cut rest slash)) ":")
        (ENew "first path segment in URL cannot contain colon" []);
  '(user, host, path, omit) ←
    (if has_prefix rest "//" && (negb (bool_decide (scheme = "")) || negb (has_prefix rest "///")) then
       let '(authority, path) := split_authority (trim_prefix rest "//") in
       '(user, host) ← parseAuthority authority; Ok (user, host, path, false)
     else Ok (None, "", rest, negb (bool_decide (scheme = "")) && has_prefix rest "/"));
  '(path, raw_path) ← set_path path;
  fragment ← unescape frag encodeFragment;
  Ok {| Scheme := scheme; Opaque := ""; User := user; Host := host; Path := path;
        RawPath := raw_path; OmitHost := omit; ForceQuery := force; RawQuery := query; Fragment := fragment |}.

(** [URL.Hostname] and [URL.Port]. *)
Definition splitHostPort (h : string) : string * string :=
  let '(host, port) :=
    match cut_last h ":"%char with
    | Some (host, port) => if validOptionalPort (":" +:+ port) then (host, port) else (h, "")
    | None => (h, "")
    end in
  (if has_prefix host "[" && has_suffix host "]" then trim_suffix (trim_prefix host "[") "]" else host,
   port).
Definition Hostname (u : URL) : string := (splitHostPort (Host u)).1.
Definition Port (u : URL) : string := (splitHostPort (Host u)).2.

(** ** Queries *)

Abbreviation Values := (gmap string (list string)).

Definition query_get (q : Values) (key : string) : string :=
  match q !! key with Some (v :: _) => v | _ => "" end.
Definition query_set (q : Values) (key value : string) : Values := <[key := [value]]> q.

(** One "&"-separated piece of a query; the first error is reported at the end. *)
Definition parse_pair (st : Values * option error) (piece : string) : Values * option error :=
  let '(q, err) := st in
  let failed e := (q, Some (default e err)) in
  if bool_decide (";"%char ∈ bytes piece) then failed (ENew "invalid semicolon separator in query" [])
  else if bool_decide (piece = "") then st
  else
    let '(key, value) := default (piece, "") (cut piece "="%char) in
    match unescape key encodeQueryComponent, unescape value encodeQueryComponent with
    | Ok key, Ok value => (<[key := default [] (q !! key) ++ [value]]> q, err)
    | Err e, _ => failed e
    | _, Err e => failed e
    end.
Definition parse_query (query : string) : Values * option error :=
  foldl parse_pair (∅, None) (split_on "&"%char query).
Definition ParseQuery (query : string) : result Values :=
  match parse_query query with (q, None) => Ok q | (_, Some e) => Err e end.
(** [URL.Query]: errors are dropped. *)
Definition Query (u : URL) : Values := (parse_query (RawQuery u)).1.

Definition encode_pair (key value : string) : string :=
  escape key encodeQueryComponent +:+ "=" +:+ escape value encodeQueryComponent.
(** [Values.Encode]: by key, in order. *)
Definition sorted_keys (q : Values) : list string :=
  merge_sort str_le (elements (dom q)).
Definition Encode (q : Values) : string :=
  join "&" (sorted_keys q ≫= λ k, encode_pair k <$> default [] (q !! k)).
Definition set_query (u : URL) (q : Values) : URL :=
  {| Scheme := Scheme u; Opaque := Opaque u; User := User u; Host := Host u; Path := Path u;
     RawPath := RawPath u; OmitHost := OmitHost u; ForceQuery := ForceQuery u; RawQuery := Encode q; Fragment := Fragment u |}.

(** ** Cutting *)

Lemma cut_bytes_app sep acc l r :
  sep ∉ l → cut_bytes sep acc (l ++ sep :: r) = Some (reverse acc ++ l, r).
Proof.
  revert acc. induction l as [|c l IH]; intros acc; simpl.
  - intros _. by rewrite decide_True, app_nil_r.
  - intros [Hc Hl]%not_elem_of_cons. rewrite decide_False by congruence.
    rewrite IH by done. by rewrite reverse_cons, <-app_assoc.
Qed.
Lemma cut_bytes_none sep acc l : sep ∉ l → cut_bytes sep acc l = None.
Proof.
  revert acc. induction l as [|c l IH]; intros acc; simpl; [done|].
  intros [Hc Hl]%not_elem_of_cons. rewrite decide_False by congruence. by apply IH.
Qed.

Lemma cut_app sep a b :
  sep ∉ bytes a → cut (a +:+ String.String sep b) sep = Some (a, b).
Proof.
  intros H. unfold cut. rewrite bytes_app. change (bytes (String.String sep b)) with (sep :: bytes b).
  rewrite cut_bytes_app by done. simpl. unfold prod_map. simpl. by rewrite !of_bytes_bytes.
Qed.
Lemma cut_none sep s : sep ∉ bytes s → cut s sep = None.
Proof. intros H. unfold cut. by rewrite cut_bytes_none. Qed.
Lemma cut_none_not_in sep s : cut s sep = None → sep ∉ bytes s.
Proof.
  intros H (l1 & l2 & E & Hn)%list_elem_of_split_l. rewrite <-(of_bytes_bytes s), E in H.
  unfold cut in H. rewrite bytes_of_bytes, cut_bytes_app in H by done. done.
Qed.
Lemma cut_bytes_inv sep acc l a b : sep ∉ acc →
  cut_bytes sep acc l = Some (a, b) → reverse acc ++ l = a ++ sep :: b ∧ sep ∉ a.
Proof.
  revert acc. induction l as [|c l IH]; intros acc Hacc; simpl; [done|]. case_decide as Hc.
  - intros [= <- <-]. subst. split; [done|]. by rewrite elem_of_reverse.
  - intros H. apply IH in H as [<- ?]; [|by apply not_elem_of_cons]. by rewrite reverse_cons, <-app_assoc.
Qed.
Lemma cut_inv s sep a b : cut s sep = Some (a, b) → s = a +:+ String.String sep b ∧ sep ∉ bytes a.
Proof.
  unfold cut. destruct (cut_bytes sep [] (bytes s)) as [[x y]|] eqn:E; [|done]. intros [= <- <-].
  apply cut_bytes_inv in E as [E ?]; [|apply not_elem_of_nil]. split.
  - apply (inj bytes). rewrite bytes_app, bytes_of_bytes.
    change (bytes (String.String sep (of_bytes y))) with (sep :: bytes (of_bytes y)). by rewrite bytes_of_bytes.
  - by rewrite bytes_of_bytes.
Qed.
Lemma contains_any_not_in s chars c : contains_any s chars = false → c ∈ bytes chars → c ∉ bytes s.
Proof.
  unfold contains_any. rewrite Forall_existsb_false, Forall_forall. intros H Hc Hin.
  specialize (H c Hin). by rewrite bool_decide_eq_false in H.
Qed.
Lemma cut_last_app sep a b :
  sep ∉ bytes b → cut_last (a +:+ String.String sep b) sep = Some (a, b).
Proof.
  intros H. unfold cut_last. rewrite bytes_app. change (bytes (String.String sep b)) with (sep :: bytes b).
  rewrite reverse_app, reverse_cons, <-app_assoc. simpl.
  rewrite cut_bytes_app by (by rewrite elem_of_reverse).
  simpl. by rewrite !reverse_involutive, !of_bytes_bytes.
Qed.
Lemma cut_last_none sep s : sep ∉ bytes s → cut_last s sep = None.
Proof. intros H. unfold cut_last. by rewrite cut_bytes_none by (by rewrite elem_of_reverse). Qed.

(** ** Encoding is reversible *)

Definition all_chars : list ascii := map (λ n, chr (Z.of_nat n)) (List.seq 0 256).

(** A fact of every byte, checked one by one. *)
Lemma byte_forall (P : ascii → bool) : forallb P all_chars = true → ∀ c, P c = true.
Proof.
  rewrite Forall_forallb, Forall_forall. intros H c. apply H.
  unfold all_chars. apply list_elem_of_In, in_map_iff.
  exists (Z.to_nat (code c)). pose proof (code_range c). split.
  - rewrite Z2Nat.id by lia. unfold chr, code. rewrite N2Z.id. apply ascii_N_embedding.
  - apply in_seq. lia.
Qed.

Lemma byte_impl (P Q : ascii → bool) :
  forallb (λ c, negb (P c) || Q c) all_chars = true → ∀ c, P c = true → Q c = true.
Proof.
  intros H c Hc. pose proof (byte_forall _ H c) as E. simpl in E. by rewrite Hc in E.
Qed.

(** Modes that let any byte be percent-encoded. *)
Definition free_mode (m : encoding) : bool := negb (bool_decide (m = encodeHost)).

Lemma unescape_escape_byte m c l :
  free_mode m = true →
  unescape_bytes m (escape_byte m c ++ l) = cons c <$> unescape_bytes m l.
Proof.
  intros Hm.
  assert (Hhex : is_hex (upper_hex (code c / 16)) && is_hex (upper_hex (code c mod 16)) &&
    bool_decide (chr (unhex (upper_hex (code c / 16)) * 16 + unhex (upper_hex (code c mod 16))) = c) = true).
  { revert c. apply byte_forall. by vm_compute. }
  assert (Hplain : shouldEscape c m || (negb (bool_decide (c = percent)) &&
    (negb (bool_decide (c = plus)) || negb (bool_decide (m = encodeQueryComponent)))) = true).
  { clear Hhex. revert c. apply byte_forall. by destruct m; vm_compute. }
  unfold escape_byte. destruct (shouldEscape c m) eqn:E; simpl in Hplain.
  - destruct (bool_decide (m = encodeQueryComponent) && bool_decide (c = blank_byte)) eqn:Eb.
    + apply andb_true_iff in Eb as [Em%bool_decide_eq_true ->%bool_decide_eq_true]. subst m. done.
    + cbn [app unescape_bytes]. rewrite decide_True by done.
      apply andb_true_iff in Hhex as [[Ha Hb]%andb_true_iff Hc%bool_decide_eq_true].
      rewrite Ha, Hb, Hc. unfold escape_allowed. unfold free_mode in Hm. by rewrite Hm.
  - cbn [app unescape_bytes].
    apply andb_true_iff in Hplain as [Hp%negb_true_iff%bool_decide_eq_false Hq].
    rewrite decide_False by done. case_decide as Hc.
    + subst c. apply orb_true_iff in Hq as [Hq|Hq]; [by vm_compute in Hq|].
      apply negb_true_iff in Hq. by rewrite Hq.
    + unfold byte_allowed. unfold free_mode in Hm. apply negb_true_iff in Hm. by rewrite Hm.
Qed.

Lemma unescape_escape_bytes m l :
  free_mode m = true → unescape_bytes m (escape_bytes m l) = Some l.
Proof.
  intros Hm. induction l as [|c l IH]; [done|]. unfold escape_bytes in *. cbn [mbind list_bind].
  rewrite unescape_escape_byte by done. by rewrite IH.
Qed.

Lemma unescape_escape m s : free_mode m = true → unescape (escape s m) m = Ok s.
Proof.
  intros Hm. unfold unescape, escape. rewrite bytes_of_bytes, unescape_escape_bytes by done.
  by rewrite of_bytes_bytes.
Qed.

(** What an encoded component is made of. *)
Lemma escape_all (P : ascii → bool) m s :
  (∀ c, forallb P (escape_byte m c) = true) → all_bytes P (escape s m) = true.
Proof.
  intros H. unfold all_bytes, escape. rewrite bytes_of_bytes. unfold escape_bytes.
  induction (bytes s) as [|c l IH]; [done|]. cbn [mbind list_bind].
  by rewrite forallb_app, H, IH.
Qed.
Lemma escape_byte_all (P : ascii → bool) m :
  forallb (λ c, forallb P (escape_byte m c)) all_chars = true →
  ∀ s, all_bytes P (escape s m) = true.
Proof. intros H s. apply escape_all. by apply (byte_forall (λ c, forallb P (escape_byte m c))). Qed.

Lemma all_bytes_not_in P s c : all_bytes P s = true → P c = false → c ∉ bytes s.
Proof.
  unfold all_bytes. rewrite Forall_forallb, Forall_forall. intros H Hc Hin. by rewrite (H c Hin) in Hc.
Qed.

Definition user_byte (c : ascii) : bool :=
  is_alnum (code c) || one_of "$&+,;=-_.~%" c.
Definition path_byte (c : ascii) : bool :=
  is_alnum (code c) || one_of "$&+,/:;=@-_.~%" c.
Definition query_byte (c : ascii) : bool := is_alnum (code c) || one_of "-_.~%+" c.

Lemma escape_user_bytes s : all_bytes user_byte (escape s encodeUserPassword) = true.
Proof. apply escape_byte_all. by vm_compute. Qed.
Lemma escape_path_bytes s : all_bytes path_byte (escape s encodePath) = true.
Proof. apply escape_byte_all. by vm_compute. Qed.
Lemma escape_query_bytes s : all_bytes query_byte (escape s encodeQueryComponent) = true.
Proof. apply escape_byte_all. by vm_compute. Qed.

(** ** Plain hosts: written and read back as they are *)

Definition host_byte (c : ascii) : bool := is_alnum (code c) || one_of "-._" c.
(** A host name or IPv4 address, with an optional port. *)
Definition plain_address (a : string) : Prop :=
  ∃ h p, a = h +:+ p ∧ h ≠ "" ∧ all_bytes host_byte h = true ∧ validOptionalPort p = true.

Definition address_byte (c : ascii) : bool := host_byte c || bool_decide (c = ":"%char).

Lemma escape_plain (P : ascii → bool) m s :
  (∀ c, P c = true → escape_byte m c = [c]) → all_bytes P s = true → escape s m = s.
Proof.
  intros HP H. unfold escape. rewrite <-(of_bytes_bytes s) at 2. f_equal.
  unfold all_bytes in H. unfold escape_bytes. induction (bytes s) as [|c l IH]; [done|].
  simpl in H. apply andb_true_iff in H as [Hc Hl]. cbn [mbind list_bind].
  rewrite HP by done. simpl. f_equal. by apply IH.
Qed.

Lemma unescape_plain (P : ascii → bool) m s :
  (∀ c, P c = true → c ≠ percent ∧ c ≠ plus ∧ byte_allowed m c = true) →
  all_bytes P s = true → unescape s m = Ok s.
Proof.
  intros HP H. unfold unescape.
  assert (E : unescape_bytes m (bytes s) = Some (bytes s)); [|by rewrite E, of_bytes_bytes].
  unfold all_bytes in H. induction (bytes s) as [|c l IH]; [done|].
  simpl in H. apply andb_true_iff in H as [Hc Hl]. destruct (HP c Hc) as (?&?&Ha). cbn [unescape_bytes].
  rewrite !decide_False by done. by rewrite Ha, IH.
Qed.

Lemma port_bytes p : validOptionalPort p = true → all_bytes address_byte p = true.
Proof.
  unfold validOptionalPort, all_bytes. destruct (bytes p) as [|c l]; [done|].
  intros [->%bool_decide_eq_true H]%andb_true_iff. cbn [forallb].
  change (address_byte ":"%char) with true. simpl. revert H. rewrite !Forall_forallb.
  intros H. eapply Forall_impl; [exact H|]. intros c Hc. unfold address_byte, host_byte, is_alnum. by rewrite Hc, orb_true_r.
Qed.

Lemma plain_address_bytes a : plain_address a → all_bytes address_byte a = true ∧ a ≠ "".
Proof.
  intros (h & p & -> & Hne & Hh & Hp). split.
  - rewrite all_bytes_app. apply andb_true_iff. split; [|by apply port_bytes].
    eapply all_bytes_impl; [|done]. intros c Hc. unfold address_byte. by rewrite Hc.
  - intros E%bytes_nil. rewrite bytes_app in E. apply app_eq_nil in E as [E _].
    by apply Hne, bytes_nil.
Qed.

Lemma address_plain_byte c :
  address_byte c = true →
  escape_byte encodeHost c = [c] ∧ c ≠ percent ∧ c ≠ plus ∧ byte_allowed encodeHost c = true.
Proof.
  intros Hc.
  assert (H : negb (address_byte c) || (bool_decide (escape_byte encodeHost c = [c]) &&
    negb (bool_decide (c = percent)) && negb (bool_decide (c = plus)) && byte_allowed encodeHost c) = true).
  { clear Hc. revert c. apply byte_forall. by vm_compute. }
  rewrite Hc in H. simpl in H.
  apply andb_true_iff in H as [[[H1 H2]%andb_true_iff H3]%andb_true_iff H4].
  apply bool_decide_eq_true in H1. by apply negb_true_iff, bool_decide_eq_false in H2, H3.
Qed.

(** ** A URL with an authority is read back as it was written *)

Definition letters (s : string) : bool := all_bytes (λ c, is_lower (code c)) s.

Lemma scheme_bytes_letters acc l rest :
  forallb (λ c, is_lower (code c)) l = true → (acc ≠ [] ∨ l ≠ []) →
  scheme_bytes acc (l ++ ":"%char :: rest) = Ok (Some (reverse acc ++ l, rest)).
Proof.
  revert acc. induction l as [|c l IH]; intros acc; simpl.
  - intros _ [Hacc|]; [|done]. rewrite bool_decide_eq_false_2 by done. by rewrite app_nil_r.
  - intros [Hc Hl]%andb_true_iff _. rewrite Hc. simpl. rewrite IH by (done || by left).
    by rewrite reverse_cons, <-app_assoc.
Qed.

Lemma lower_letters s : letters s = true → map_bytes lower_byte s = s.
Proof.
  intros H. unfold map_bytes. rewrite <-(of_bytes_bytes s) at 2. f_equal.
  unfold letters, all_bytes in H. induction (bytes s) as [|c l IH]; [done|].
  simpl in H. apply andb_true_iff in H as [Hc Hl]. cbn [fmap list_fmap].
  rewrite IH by done. f_equal. unfold lower_byte, is_lower, is_upper, in_range in *.
  case_match eqn:E; [lia|done].
Qed.

Lemma getScheme_letters s rest :
  letters s = true → s ≠ "" → getScheme (s +:+ ":" +:+ rest) = Ok (s, rest).
Proof.
  intros Hs Hne. unfold getScheme. rewrite !bytes_app. change (bytes ":") with [":"%char]. simpl.
  rewrite scheme_bytes_letters; [|done|right; by rewrite bytes_nil].
  cbn [mbind result_bind reverse rev app]. rewrite reverse_nil. simpl.
  rewrite !of_bytes_bytes, lower_letters by done. done.
Qed.

Lemma has_prefix_app p r : has_prefix (p +:+ r) p = true.
Proof. apply has_prefix_spec. by exists r. Qed.

Lemma parseHost_plain a : plain_address a → parseHost a = Ok a.
Proof.
  intros Ha. pose proof (plain_address_bytes a Ha) as [Hb _].
  destruct Ha as (h & p & -> & Hne & Hh & Hp). unfold parseHost.
  assert (Hbr : has_prefix (h +:+ p) "[" = false).
  { apply not_true_iff_false. intros (r & E)%has_prefix_spec.
    assert (Hin : "["%char ∈ bytes (h +:+ p)) by (rewrite E, bytes_app; by left).
    by apply (all_bytes_not_in _ _ "["%char Hb). }
  rewrite Hbr.
  assert (Hc : (match cut (h +:+ p) ":"%char with
    | None => Ok tt
    | Some (_, port) => guard_err (negb (validOptionalPort (":" +:+ port)))
                          (ENew "invalid port after host" [port]) end) = Ok tt).
  { assert (Hcol : ":"%char ∉ bytes h) by (by apply (all_bytes_not_in _ _ _ Hh)).
    unfold validOptionalPort in Hp. destruct (bytes p) as [|c l] eqn:Ep.
    - apply bytes_nil in Ep as ->. by rewrite append_nil_r, cut_none.
    - apply andb_true_iff in Hp as [->%bool_decide_eq_true Hd].
      assert (p = String.String ":"%char (of_bytes l)) as ->.
      { apply (inj bytes). rewrite Ep. unfold bytes. simpl. f_equal. symmetry. apply bytes_of_bytes. }
      rewrite cut_app by done. unfold validOptionalPort. rewrite bytes_app, bytes_of_bytes.
      simpl. by rewrite Hd. }
  rewrite Hc. cbn [mbind result_bind].
  apply (unescape_plain address_byte); [|done]. intros c Hc'. by apply address_plain_byte.
Qed.

Lemma parse_userinfo ui (host : string) :
  parseHost host = Ok host → "@"%char ∉ bytes host →
  parseAuthority (userinfo_String ui +:+ "@" +:+ host) = Ok (Some ui, host).
Proof.
  intros Hh Hat. unfold parseAuthority.
  change (userinfo_String ui +:+ "@" +:+ host) with
    (userinfo_String ui +:+ String.String "@"%char host).
  rewrite cut_last_app by done. rewrite Hh. cbn [mbind result_bind].
  pose proof (escape_user_bytes (username ui)) as Hu.
  assert (Hcu : ":"%char ∉ bytes (escape (username ui) encodeUserPassword))
    by (by apply (all_bytes_not_in _ _ _ Hu)).
  assert (Hsub : ∀ s, all_bytes user_byte s = true → all_bytes userinfo_byte s = true).
  { intros s. apply all_bytes_impl. intros c Hc.
    assert (H : negb (user_byte c) || userinfo_byte c = true)
      by (clear Hc; revert c; apply byte_forall; by vm_compute). by rewrite Hc in H. }
  destruct ui as [name [pw|]]; unfold userinfo_String; simpl in *.
  - rewrite !all_bytes_app, (Hsub _ Hu), (Hsub _ (escape_user_bytes pw)). simpl.
    change (escape name encodeUserPassword +:+ ":" +:+ escape pw encodeUserPassword) with
      (escape name encodeUserPassword +:+ String.String ":"%char (escape pw encodeUserPassword)).
    rewrite cut_app by done. rewrite !unescape_escape by done. done.
  - rewrite (Hsub _ Hu). simpl. rewrite cut_none by done. rewrite unescape_escape by done. done.
Qed.

Definition no_query_or_fragment (c : ascii) : bool :=
  negb (one_of "#?" c) && negb (control_byte c).
Definition in_query (c : ascii) : bool := negb (bool_decide (c = "#"%char)) && negb (control_byte c).

Lemma user_bytes_clean ui : all_bytes (λ c, no_query_or_fragment c && negb (bool_decide (c = slash)))
  (userinfo_String ui) = true.
Proof.
  assert (Hsub : ∀ s, all_bytes (λ c, no_query_or_fragment c && negb (bool_decide (c = slash)))
    (escape s encodeUserPassword) = true) by (apply escape_byte_all; by vm_compute).
  unfold userinfo_String. case_match; [rewrite !all_bytes_app, !Hsub; by vm_compute|apply Hsub].
Qed.

Lemma address_bytes_clean a : all_bytes address_byte a = true →
  all_bytes (λ c, no_query_or_fragment c && negb (bool_decide (c = slash)) && negb (bool_decide (c = "@"%char))) a = true.
Proof.
  apply all_bytes_impl. intros c Hc.
  assert (H : negb (address_byte c) || (no_query_or_fragment c && negb (bool_decide (c = slash)) &&
    negb (bool_decide (c = "@"%char))) = true) by (clear Hc; revert c; apply byte_forall; by vm_compute).
  by rewrite Hc in H.
Qed.

(** A URL with a lower-case scheme, an authority with credentials and a plain
    address, an absolute path and a query. *)
Definition authority_url (scheme : string) (ui : Userinfo) (host path query : string) : URL :=
  {| Scheme := scheme; Opaque := ""; User := Some ui; Host := host; Path := "/" +:+ path; RawPath := "";
     OmitHost := false; ForceQuery := false; RawQuery := query; Fragment := "" |}.

Definition written (scheme : string) (ui : Userinfo) (host path query : string) : string :=
  scheme +:+ ":" +:+ ("//" +:+ (userinfo_String ui +:+ "@" +:+ host) +:+ escape ("/" +:+ path) encodePath)
  +:+ (if bool_decide (query = "") then "" else String.String "?"%char query).

Lemma escape_app a b m : escape (a +:+ b) m = escape a m +:+ escape b m.
Proof.
  apply (inj bytes). unfold escape. rewrite !bytes_app, !bytes_of_bytes.
  unfold escape_bytes. apply bind_app.
Qed.
Lemma escape_slash path : escape ("/" +:+ path) encodePath = "/" +:+ escape path encodePath.
Proof. rewrite escape_app. f_equal. Qed.

(** A host that is read back as it is written: none, or a plain one. *)
Definition written_host (host : string) : Prop := host = "" ∨ plain_address host.

Lemma written_host_bytes host : written_host host → all_bytes address_byte host = true ∧ parseHost host = Ok host.
Proof. intros [->|H]; [done|]. split; [by apply plain_address_bytes|by apply parseHost_plain]. Qed.

Lemma URL_String_authority scheme ui host path query :
  written_host host →
  URL_String (authority_url scheme ui host path query) = written scheme ui host path query.
Proof.
  intros Hh. apply written_host_bytes in Hh as [Hb _].
  assert (Ee : EscapedPath (authority_url scheme ui host path query) = "/" +:+ escape path encodePath).
  { unfold EscapedPath. rewrite bool_decide_eq_true_2 by done. simpl negb. cbn [andb].
    rewrite bool_decide_eq_false_2 by discriminate. apply escape_slash. }
  assert (Eh : escape host encodeHost = host).
  { apply (escape_plain address_byte); [|done]. intros c Hc. by apply address_plain_byte. }
  unfold URL_String, written. rewrite Ee. cbn [Scheme Opaque User Host Path RawQuery OmitHost ForceQuery Fragment authority_url].
  rewrite (bool_decide_eq_true_2 ("" = "")) by done. rewrite (bool_decide_eq_false_2 (Some ui = None)) by done.
  rewrite Eh, has_prefix_app, escape_slash. cbn [negb]. rewrite !andb_false_r. cbn [andb orb].
  rewrite !append_assoc, append_nil_r. by case_bool_decide.
Qed.

Lemma not_in_app (c : ascii) a b : c ∉ bytes a → c ∉ bytes b → c ∉ bytes (a +:+ b).
Proof. intros ? ?. rewrite bytes_app, elem_of_app. by intros [?|?]. Qed.

Lemma Parse_written scheme ui host path query :
  letters scheme = true → scheme ≠ "" → written_host host → all_bytes in_query query = true →
  Parse (written scheme ui host path query) = Ok (authority_url scheme ui host path query).
Proof.
  intros Hs Hsn Ha Hq. apply written_host_bytes in Ha as [Hab Hph].
  pose proof (address_bytes_clean _ Hab) as Hac. pose proof (user_bytes_clean ui) as Hui.
  pose proof (escape_path_bytes ("/" +:+ path)) as Hep.
  set (body := "//" +:+ (userinfo_String ui +:+ "@" +:+ host) +:+ escape ("/" +:+ path) encodePath) in *.
  assert (Hbody : all_bytes no_query_or_fragment body = true).
  { unfold body. rewrite !all_bytes_app. rewrite !andb_true_iff. split_and!.
    - reflexivity.
    - eapply all_bytes_impl; [|exact Hui]. by intros c [? _]%andb_true_iff.
    - reflexivity.
    - eapply all_bytes_impl; [|exact Hac]. by intros c [[? _]%andb_true_iff _]%andb_true_iff.
    - eapply all_bytes_impl; [|exact Hep]. intros c Hc. exact (byte_impl path_byte no_query_or_fragment eq_refl c Hc). }
  set (q := if bool_decide (query = "") then "" else String.String "?"%char query).
  assert (Hqs : all_bytes in_query q = true).
  { unfold q. case_bool_decide; [done|]. change (String.String "?"%char query) with ("?" +:+ query).
    by rewrite all_bytes_app, Hq. }
  assert (Hall : all_bytes in_query (scheme +:+ ":" +:+ body +:+ q) = true).
  { rewrite !all_bytes_app, Hqs, andb_true_r. rewrite !andb_true_iff. split_and!.
    - eapply all_bytes_impl; [|exact Hs]. exact (byte_impl (λ c, is_lower (code c)) in_query eq_refl).
    - reflexivity.
    - eapply all_bytes_impl; [|exact Hbody]. exact (byte_impl no_query_or_fragment in_query eq_refl). }
  unfold Parse, written. fold body. fold q.
  rewrite cut_none by (by apply (all_bytes_not_in _ _ "#"%char Hall)). cbn [default from_option id].
  assert (Hctl : existsb control_byte (bytes (scheme +:+ ":" +:+ body +:+ q)) = false).
  { rewrite Forall_existsb_false. unfold all_bytes in Hall. rewrite Forall_forallb in Hall.
    eapply Forall_impl; [exact Hall|]. intros c Hc. unfold in_query in Hc. destruct (control_byte c); [|done].
    by rewrite andb_false_r in Hc. }
  rewrite Hctl. cbn [guard_err mbind result_bind].
  case_bool_decide as Estar.
  { exfalso. apply (f_equal len) in Estar. rewrite !len_app in Estar. change (len ":") with 1 in Estar.
    change (len "*") with 1 in Estar. unfold body in Estar. rewrite len_app in Estar.
    change (len "//") with 2 in Estar.
    match type of Estar with context [2 + len ?x] => pose proof (len_nonneg x) end.
    pose proof (len_nonneg scheme). pose proof (len_nonneg q). lia. }
  rewrite getScheme_letters by done. cbn [mbind result_bind].
  assert (Hcq : cut_query (body +:+ q) = (body, query, false)).
  { unfold cut_query, q. case_bool_decide as Eq.
    - subst query. rewrite append_nil_r, cut_none; [done|]. by apply (all_bytes_not_in _ _ _ Hbody).
    - rewrite cut_app by (by apply (all_bytes_not_in _ _ _ Hbody)). by rewrite bool_decide_eq_false_2. }
  rewrite Hcq. unfold body at 1 2 3 4 5.
  set (auth := (userinfo_String ui +:+ "@" +:+ host) +:+ escape ("/" +:+ path) encodePath).
  assert (Hp1 : has_prefix ("//" +:+ auth) "/" = true) by (apply has_prefix_spec; by exists ("/" +:+ auth)).
  rewrite Hp1, has_prefix_app. rewrite (bool_decide_eq_false_2 (scheme = "")) by done.
  cbn [negb andb orb guard_err mbind result_bind].
  rewrite trim_prefix_app. unfold split_authority, auth. rewrite escape_slash.
  change ("/" +:+ ?x) with (String.String slash x).
  rewrite cut_app.
  2:{ apply not_in_app; [by apply (all_bytes_not_in _ _ _ Hui)|].
      apply not_in_app; [by apply (bool_decide_unpack (slash ∉ bytes "@"))|by apply (all_bytes_not_in _ _ _ Hac)]. }
  rewrite parse_userinfo; [|done|by apply (all_bytes_not_in _ _ _ Hac)].
  cbn [mbind result_bind]. unfold set_path.
  change (String.String slash ?x) with ("/" +:+ x). rewrite <-escape_slash.
  rewrite unescape_escape by done. cbn [mbind result_bind].
  rewrite bool_decide_eq_true_2 by done. done.
Qed.

(** A URL without userinfo, query or fragment whose path needs no encoding. *)
Definition plain_path_byte (c : ascii) : bool := is_alnum (code c) || one_of "-._~/:@" c.
Definition plain_url (scheme host path : string) : URL :=
  {| Scheme := scheme; Opaque := ""; User := None; Host := host; Path := "/" +:+ path; RawPath := "";
     OmitHost := false; ForceQuery := false; RawQuery := ""; Fragment := "" |}.

Lemma Parse_plain scheme host path :
  letters scheme = true → scheme ≠ "" → plain_address host → all_bytes plain_path_byte path = true →
  Parse (scheme +:+ ":" +:+ "//" +:+ host +:+ "/" +:+ path) = Ok (plain_url scheme host path).
Proof.
  intros Hs Hsn Ha Hp. pose proof (plain_address_bytes _ Ha) as [Hab _]. pose proof (address_bytes_clean _ Hab) as Hac.
  assert (Hpath : all_bytes plain_path_byte ("/" +:+ path) = true) by (rewrite all_bytes_app, Hp; done).
  set (body := "//" +:+ host +:+ "/" +:+ path).
  assert (Hbody : all_bytes no_query_or_fragment body = true).
  { unfold body. rewrite !all_bytes_app. rewrite !andb_true_iff. split_and!; [reflexivity| |reflexivity|].
    - eapply all_bytes_impl; [|exact Hac]. by intros c [[? _]%andb_true_iff _]%andb_true_iff.
    - eapply all_bytes_impl; [|exact Hp]. exact (byte_impl plain_path_byte no_query_or_fragment eq_refl). }
  assert (Hall : all_bytes no_query_or_fragment (scheme +:+ ":" +:+ body) = true).
  { rewrite !all_bytes_app, Hbody, !andb_true_r.
    eapply all_bytes_impl; [|exact Hs]. exact (byte_impl (λ c, is_lower (code c)) no_query_or_fragment eq_refl). }
  unfold Parse. fold body.
  rewrite cut_none by (by apply (all_bytes_not_in _ _ "#"%char Hall)). cbn [default from_option id].
  assert (Hctl : existsb control_byte (bytes (scheme +:+ ":" +:+ body)) = false).
  { rewrite Forall_existsb_false. unfold all_bytes in Hall. rewrite Forall_forallb in Hall.
    eapply Forall_impl; [exact Hall|]. intros c Hc. apply not_true_iff_false. intros Hc'.
    pose proof (byte_impl no_query_or_fragment (λ c, negb (control_byte c)) eq_refl c Hc) as Hn. cbv beta in Hn. by rewrite Hc' in Hn. }
  rewrite Hctl. cbn [guard_err mbind result_bind].
  rewrite bool_decide_eq_false_2.
  2:{ intros E%(f_equal len). rewrite !len_app in E. change (len ":") with 1 in E. change (len "*") with 1 in E.
      unfold body in E. rewrite len_app in E. change (len "//") with 2 in E. pose proof (len_nonneg scheme).
      match type of E with context [2 + len ?x] => pose proof (len_nonneg x) end. lia. }
  rewrite getScheme_letters by done. cbn [mbind result_bind]. unfold cut_query.
  rewrite cut_none by (by apply (all_bytes_not_in _ _ "?"%char Hbody)). unfold body.
  set (auth := host +:+ "/" +:+ path).
  assert (Hp1 : has_prefix ("//" +:+ auth) "/" = true) by (apply has_prefix_spec; by exists ("/" +:+ auth)).
  rewrite Hp1, has_prefix_app. rewrite (bool_decide_eq_false_2 (scheme = "")) by done.
  cbn [negb andb orb guard_err mbind result_bind]. rewrite trim_prefix_app. unfold split_authority, auth.
  change ("/" +:+ ?x) with (String.String slash x).
  rewrite cut_app by (by apply (all_bytes_not_in _ _ _ Hac)).
  unfold parseAuthority, cut_last. rewrite cut_bytes_none.
  2:{ rewrite elem_of_reverse. by apply (all_bytes_not_in _ _ _ Hac). }
  cbn [fmap option_fmap option_map]. rewrite parseHost_plain by done. cbn [mbind result_bind]. unfold set_path.
  change (String.String slash ?x) with ("/" +:+ x).
  rewrite (unescape_plain plain_path_byte encodePath ("/" +:+ path)); [|clear|done].
  - cbn [mbind result_bind]. rewrite (escape_plain plain_path_byte), bool_decide_eq_true_2; try done.
    intros c Hc. unfold escape_byte. pose proof (byte_impl plain_path_byte (λ c, negb (shouldEscape c encodePath)) eq_refl c Hc) as Hn.
    cbv beta in Hn. by destruct (shouldEscape c encodePath).
  - intros c Hc. pose proof (byte_impl plain_path_byte (λ c, negb (bool_decide (c = percent)) && negb (bool_decide (c = plus)) && byte_allowed encodePath c) eq_refl c Hc) as Hn.
    cbv beta in Hn. apply andb_true_iff in Hn as [[H1 H2]%andb_true_iff H3].
    split_and!; [by apply negb_true_iff, bool_decide_eq_false in H1|by apply negb_true_iff, bool_decide_eq_false in H2|done].
Qed.

Lemma Parse_URL_String scheme ui host path query :
  letters scheme = true → scheme ≠ "" → written_host host → all_bytes in_query query = true →
  Parse (URL_String (authority_url scheme ui host path query)) =
  Ok (authority_url scheme ui host path query).
Proof. intros. rewrite URL_String_authority by done. by apply Parse_written. Qed.

(** ** Queries are read back as they were written *)

Lemma split_bytes_app sep acc l r :
  sep ∉ l → split_bytes sep acc (l ++ sep :: r) = (reverse acc ++ l) :: split_bytes sep [] r.
Proof.
  revert acc. induction l as [|c l IH]; intros acc; simpl.
  - intros _. by rewrite decide_True, app_nil_r.
  - intros [Hc Hl]%not_elem_of_cons. rewrite decide_False by congruence.
    rewrite IH by done. by rewrite reverse_cons, <-app_assoc.
Qed.
Lemma split_bytes_none sep acc l : sep ∉ l → split_bytes sep acc l = [reverse acc ++ l].
Proof.
  revert acc. induction l as [|c l IH]; intros acc; simpl; [by rewrite app_nil_r|].
  intros [Hc Hl]%not_elem_of_cons. rewrite decide_False by congruence.
  rewrite IH by done. by rewrite reverse_cons, <-app_assoc.
Qed.

(** Splitting undoes joining when no element holds the separator. *)
Lemma split_on_join sep l :
  l ≠ [] → Forall (λ s, sep ∉ bytes s) l → split_on sep (join (String.String sep "") l) = l.
Proof.
  intros Hne Hall. unfold split_on.
  induction l as [|x [|y l] IH]; [done| |]; apply Forall_cons in Hall as [Hx Hl].
  - simpl. rewrite split_bytes_none by done. simpl. by rewrite of_bytes_bytes.
  - cbn [join]. rewrite !bytes_app. change (bytes (String.String sep "")) with [sep]. cbn [app].
    rewrite split_bytes_app by done. cbn [reverse rev_append app fmap list_fmap].
    rewrite of_bytes_bytes. f_equal. by apply IH.
Qed.

Definition pair_byte (c : ascii) : bool := query_byte c || bool_decide (c = "="%char).

Lemma encode_pair_bytes k v : all_bytes pair_byte (encode_pair k v) = true.
Proof.
  unfold encode_pair. rewrite !all_bytes_app, !andb_true_iff.
  split_and!; [|reflexivity|]; (eapply all_bytes_impl; [|apply escape_query_bytes]);
    exact (byte_impl query_byte pair_byte eq_refl).
Qed.

Definition append_value (q : Values) (p : string * string) : Values :=
  <[p.1 := default [] (q !! p.1) ++ [p.2]]> q.

Lemma parse_pair_encoded q k v :
  parse_pair (q, None) (encode_pair k v) = (append_value q (k, v), None).
Proof.
  pose proof (encode_pair_bytes k v) as Hb. unfold parse_pair.
  rewrite bool_decide_eq_false_2 by (by apply (all_bytes_not_in _ _ _ Hb)).
  assert (Hne : encode_pair k v ≠ "").
  { intros E%(f_equal len). unfold encode_pair in E. rewrite !len_app in E. change (len "=") with 1 in E.
    change (len "") with 0 in E.
    pose proof (len_nonneg (escape k encodeQueryComponent)). pose proof (len_nonneg (escape v encodeQueryComponent)). lia. }
  rewrite bool_decide_eq_false_2 by done. unfold encode_pair.
  change ("=" +:+ ?x) with (String.String "="%char x).
  rewrite cut_app; [|eapply all_bytes_not_in; [apply escape_query_bytes|reflexivity]].
  cbn [default from_option id]. cbv beta iota. by rewrite !unescape_escape.
Qed.

Definition query_pairs (q : Values) : list (string * string) :=
  sorted_keys q ≫= λ k, pair k <$> default [] (q !! k).

Lemma Encode_pairs q : Encode q = join "&" (uncurry encode_pair <$> query_pairs q).
Proof.
  unfold Encode, query_pairs. f_equal. induction (sorted_keys q) as [|k l IH]; [done|].
  cbn [mbind list_bind]. rewrite fmap_app, <-IH. f_equal. rewrite <-list_fmap_compose. done.
Qed.

Lemma parse_encoded_pairs q l :
  foldl parse_pair (q, None) (uncurry encode_pair <$> l) = (foldl append_value q l, None).
Proof.
  revert q. induction l as [|[k v] l IH]; intros q; [done|].
  rewrite fmap_cons. cbn [foldl uncurry]. by rewrite parse_pair_encoded, IH.
Qed.

Lemma append_values k vs q :
  foldl append_value q (pair k <$> vs) =
  match vs with [] => q | _ => <[k := default [] (q !! k) ++ vs]> q end.
Proof.
  revert q. induction vs as [|v vs IH]; intros q; [done|].
  rewrite fmap_cons. cbn [foldl]. rewrite IH. unfold append_value. cbn [fst snd].
  destruct vs as [|v0 vs]; [done|]. rewrite lookup_insert_eq, insert_insert_eq. cbn [default from_option id].
  unfold id. by rewrite <-app_assoc.
Qed.

(** Values as [url.Values] keeps them: no key without a value. *)
Definition proper_values (q : Values) : Prop := ∀ k, q !! k ≠ Some [].

Lemma append_all q ks m k :
  NoDup ks → proper_values q → (∀ k, k ∈ ks → m !! k = None) →
  foldl append_value m (ks ≫= λ k, pair k <$> default [] (q !! k)) !! k =
  if decide (k ∈ ks ∧ is_Some (q !! k)) then q !! k else m !! k.
Proof.
  intros Hnd Hq. revert m. induction Hnd as [|k' ks Hk' Hnd IH]; intros m Hm.
  - rewrite decide_False; [done|]. by intros [?%not_elem_of_nil _].
  - cbn [mbind list_bind]. rewrite foldl_app, append_values.
    assert (Hk0 : m !! k' = None) by (apply Hm; by left).
    destruct (q !! k') as [[|v vs]|] eqn:E; [by destruct (Hq k')| |]; cbn [default from_option id].
    + rewrite IH.
      2:{ intros k1 Hk1. rewrite lookup_insert_ne by (by intros ->). apply Hm. by right. }
      destruct (decide (k = k')) as [->|Hne].
      * rewrite decide_False by (by intros [? _]). rewrite lookup_insert_eq, Hk0.
        rewrite decide_True; [by rewrite E|]. split; [by left|by rewrite E].
      * rewrite lookup_insert_ne by done. apply decide_ext. rewrite elem_of_cons. naive_solver.
    + rewrite IH by (intros k1 Hk1; apply Hm; by right). apply decide_ext. rewrite elem_of_cons.
      split; [naive_solver|]. intros [[->|?] HS]; [by rewrite E in HS; destruct HS|done].
Qed.

Lemma query_pairs_values q : proper_values q → foldl append_value ∅ (query_pairs q) = q.
Proof.
  intros Hq. apply map_eq. intros k. unfold query_pairs.
  assert (Hp : sorted_keys q ≡ₚ elements (dom q)) by apply merge_sort_Permutation.
  rewrite append_all; [|by rewrite Hp; apply NoDup_elements|done|by intros; apply lookup_empty].
  rewrite lookup_empty. case_decide as H; [done|].
  destruct (q !! k) eqn:E; [|done]. destruct H. split; [|done].
  rewrite Hp, elem_of_elements. by apply elem_of_dom_2 in E.
Qed.

Lemma parse_query_Encode q : proper_values q → parse_query (Encode q) = (q, None).
Proof.
  intros Hq. unfold parse_query. rewrite Encode_pairs.
  destruct (query_pairs q) as [|p l] eqn:E.
  - rewrite <-(query_pairs_values q Hq), E. done.
  - rewrite split_on_join; [|done|].
    + by rewrite parse_encoded_pairs, <-E, query_pairs_values.
    + rewrite Forall_fmap, Forall_forall. intros [k v] _. simpl.
      eapply all_bytes_not_in; [apply encode_pair_bytes|reflexivity].
Qed.

Lemma ParseQuery_Encode q : proper_values q → ParseQuery (Encode q) = Ok q.
Proof. intros H. unfold ParseQuery. by rewrite parse_query_Encode. Qed.

(** What an encoded query is made of: it can follow "?" in a URL. *)
Lemma Encode_in_query q : all_bytes in_query (Encode q) = true.
Proof.
  rewrite Encode_pairs. induction (query_pairs q) as [|[k v] l IH]; [done|].
  assert (Hp : all_bytes in_query (encode_pair k v) = true).
  { eapply all_bytes_impl; [|apply encode_pair_bytes]. exact (byte_impl pair_byte in_query eq_refl). }
  rewrite fmap_cons. cbn [uncurry]. destruct l as [|p l]; [done|].
  change (all_bytes in_query
    (encode_pair k v +:+ "&" +:+ join "&" (uncurry encode_pair <$> (p :: l))) = true).
  rewrite !all_bytes_app, Hp, IH. done.
Qed.

Lemma proper_set q k v : proper_values q → proper_values (query_set q k v).
Proof.
  intros Hq k'. unfold query_set. destruct (decide (k' = k)) as [->|Hne].
  - by rewrite lookup_insert_eq.
  - rewrite lookup_insert_ne by done. apply Hq.
Qed.
Lemma proper_empty : proper_values ∅.
Proof. intros k. by rewrite lookup_empty. Qed.
Lemma query_get_set q k v : query_get (query_set q k v) k = v.
Proof. unfold query_get, query_set. by rewrite lookup_insert_eq. Qed.
Lemma query_get_set_ne q k k' v : k ≠ k' → query_get (query_set q k v) k' = query_get q k'.
Proof. intros. unfold query_get, query_set. by rewrite lookup_insert_ne. Qed.

(** The host and the port of a plain address. *)
Lemma splitHostPort_plain h p :
  h ≠ "" → all_bytes host_byte h = true → validOptionalPort p = true →
  ∃ port, splitHostPort (h +:+ p) = (h, port) ∧ (p = "" ∧ port = "" ∨ p = ":" +:+ port).
Proof.
  intros Hne Hh Hp.
  assert (Hb : has_prefix h "[" = false).
  { destruct (has_prefix h "[") eqn:E; [|done]. apply has_prefix_spec in E as [r ->].
    by rewrite all_bytes_app in Hh. }
  assert (Hc : ":"%char ∉ bytes h) by by apply (all_bytes_not_in _ _ _ Hh).
  unfold splitHostPort. destruct p as [|c port].
  - rewrite append_nil_r, cut_last_none by done. rewrite Hb. exists "". auto.
  - assert (c = ":"%char ∧ ":"%char ∉ bytes port) as [-> Hport].
    { unfold validOptionalPort in Hp. change (bytes (String.String c port)) with (c :: bytes port) in Hp.
      apply andb_true_iff in Hp as [->%bool_decide_eq_true Hd]. split; [done|]. by apply (all_bytes_not_in _ port _ Hd). }
    rewrite cut_last_app by done. change (":" +:+ port) with (String.String ":"%char port). rewrite Hp, Hb. eauto.
Qed.

#[global] Arguments Parse : simpl never.
#[global] Arguments URL_String : simpl never.
#[global] Arguments Encode : simpl never.
#[global] Arguments escape : simpl never.
#[global] Arguments unescape : simpl never.
