(* ===== verification/PgLog.v ===== *)
(** The rendering of PostgreSQL's log stream ([pglog.go]): the writer that cuts the
    stream into lines, and the level each line is forwarded at.  The parser of a line
    is the log library's, compiled from the patterns the source declares. *)
From S2P Require Import Prelude GoStrings Url.

Definition newline : ascii := chr 10.
Definition carriage_return : ascii := chr 13.

Inductive Loglevel := FATAL | ERROR | WARN | DEBUG | INFO.

Definition woolLevel (level : string) : Loglevel :=
  if bool_decide (level = "fatal") then FATAL
  else if bool_decide (level = "error") then ERROR
  else if bool_decide (level = "warn") then WARN
  else if bool_decide (level = "debug") then DEBUG else INFO.

(** [LevelMap] and [DefaultLevel] of [pgLog]. *)
Definition LevelMap : gmap string string := list_to_map
  [("PANIC", "fatal"); ("FATAL", "fatal"); ("ERROR", "error"); ("WARNING", "warn");
   ("LOG", "info"); ("INFO", "info"); ("NOTICE", "info");
   ("DEBUG1", "debug"); ("DEBUG2", "debug"); ("DEBUG3", "debug"); ("DEBUG4", "debug"); ("DEBUG5", "debug")].
Definition DefaultLevel : string := "info".

(** What is logged: a level, a message, and the PID when there is one. *)
Record entry := { en_level : Loglevel; en_message : string; en_pid : option string }.

(** [bytes.TrimRight(l, "\r")] *)
Fixpoint drop_returns (l : list ascii) : list ascii :=
  match l with
  | c :: l' => if decide (c = carriage_return) then drop_returns l' else l
  | [] => []
  end.
Definition trim_returns (l : list ascii) : list ascii := reverse (drop_returns (reverse l)).

(** [for { i := bytes.IndexByte(p.buf, '\n'); ... }]: the lines cut off, and what stays
    in the buffer. *)
Fixpoint cut_lines (fuel : nat) (buf : list ascii) : list (list ascii) * list ascii :=
  match fuel with
  | O => ([], buf)
  | S fuel =>
    match cut_bytes newline [] buf with
    | None => ([], buf)
    | Some (line, rest) => let '(lines, rest) := cut_lines fuel rest in (trim_returns line :: lines, rest)
    end
  end.

Section writer.
(** [pgLog.Parse]: the fields of a line's record and its canonical level. *)
Context (Fields : string → string → option string) (Level : string → string).

Definition emit (line : string) : option entry :=
  if blank line then None
  else Some {| en_level := woolLevel (Level line); en_message := default "" (Fields line "msg");
               en_pid := match Fields line "pid" with
                         | Some pid => if bool_decide (pid = "") then None else Some pid
                         | None => None
                         end |}.

(** The buffer and what was logged. *)
Record pgLogWriter := { lw_buf : list ascii; lw_log : list entry }.

Definition Write (b : string) (p : pgLogWriter) : (Z * option error) * pgLogWriter :=
  let buf := lw_buf p ++ bytes b in
  let '(lines, rest) := cut_lines (length buf) buf in
  ((len b, None), {| lw_buf := rest; lw_log := lw_log p ++ omap (λ l, emit (of_bytes l)) lines |}).
End writer.

(** ** The stream, however it is cut *)

(** Complete lines, as they stand in the stream. *)
Definition terminated (lines : list (list ascii)) : list ascii := concat ((λ l, l ++ [newline]) <$> lines).

Lemma terminated_app a b : terminated (a ++ b) = terminated a ++ terminated b.
Proof. unfold terminated. by rewrite fmap_app, concat_app. Qed.

Lemma cut_lines_terminated fuel lines rest : newline ∉ rest → Forall (λ l, newline ∉ l) lines →
  (length (terminated lines ++ rest) ≤ fuel)%nat →
  cut_lines fuel (terminated lines ++ rest) = (trim_returns <$> lines, rest).
Proof.
  intros Hr. revert fuel. induction lines as [|l lines IH]; intros fuel Hall Hf.
  - cbn. destruct fuel; [done|]. cbn. by rewrite cut_bytes_none.
  - apply Forall_cons in Hall as [Hl Hall]. unfold terminated in *. cbn [fmap list_fmap concat] in *.
    rewrite <-!app_assoc in *. cbn [app] in *. rewrite length_app in Hf. cbn [length] in Hf.
    destruct fuel as [|fuel]; [lia|]. cbn [cut_lines]. rewrite cut_bytes_app by done.
    rewrite IH; [done|done|lia].
Qed.

Lemma split_lines (l : list ascii) : ∃ lines rest, l = terminated lines ++ rest ∧ newline ∉ rest ∧ Forall (λ l, newline ∉ l) lines.
Proof.
  induction l as [|c l IH]; [exists [], []; split_and!; [done|by intros ?%elem_of_nil|constructor]|].
  destruct IH as (lines & rest & -> & Hr & Hall). destruct (decide (c = newline)) as [->|Hc].
  { exists ([] :: lines), rest. split_and!; [done|done|]. constructor; [by intros ?%elem_of_nil|done]. }
  destruct lines as [|x lines].
  - exists [], (c :: rest). split_and!; [done| |done]. by rewrite not_elem_of_cons.
  - apply Forall_cons in Hall as [Hx Hall]. exists ((c :: x) :: lines), rest. split_and!; [done|done|].
    constructor; [by rewrite not_elem_of_cons|done].
Qed.

Section chunks.
Context (Fields : string → string → option string) (Level : string → string).

Definition logged (lines : list (list ascii)) : list entry :=
  omap (λ l, emit Fields Level (of_bytes (trim_returns l))) lines.

Lemma logged_app a b : logged (a ++ b) = logged a ++ logged b.
Proof. apply omap_app. Qed.

Lemma logged_trimmed lines : omap (λ l, emit Fields Level (of_bytes l)) (trim_returns <$> lines) = logged lines.
Proof. unfold logged. induction lines as [|l lines IH]; [done|]. cbn. by rewrite IH. Qed.

(** One write, on a buffer that holds no complete line. *)
Lemma Write_spec b p lines rest : lw_buf p ++ bytes b = terminated lines ++ rest → newline ∉ rest →
  Forall (λ l, newline ∉ l) lines →
  Write Fields Level b p = ((len b, None), {| lw_buf := rest; lw_log := lw_log p ++ logged lines |}).
Proof.
  intros E Hr Hall. unfold Write. rewrite E, cut_lines_terminated by done. by rewrite logged_trimmed.
Qed.

Definition write_all (chunks : list string) (p : pgLogWriter) : pgLogWriter :=
  foldl (λ p b, (Write Fields Level b p).2) p chunks.
Definition stream (chunks : list string) : list ascii := concat (bytes <$> chunks).
Definition newPGLogWriter : pgLogWriter := {| lw_buf := []; lw_log := [] |}.

Lemma write_all_spec chunks p : newline ∉ lw_buf p → ∃ lines,
  lw_buf p ++ stream chunks = terminated lines ++ lw_buf (write_all chunks p) ∧ newline ∉ lw_buf (write_all chunks p) ∧
  Forall (λ l, newline ∉ l) lines ∧ lw_log (write_all chunks p) = lw_log p ++ logged lines.
Proof.
  revert p. induction chunks as [|b chunks IH]; intros p Hp.
  { exists []. unfold stream. cbn. by rewrite !app_nil_r. }
  destruct (split_lines (lw_buf p ++ bytes b)) as (l1 & r1 & E1 & Hr1 & H1).
  pose proof (Write_spec b p l1 r1 E1 Hr1 H1) as Hw.
  destruct (IH (Write Fields Level b p).2) as (l2 & E2 & Hr2 & H2 & Hlog); [by rewrite Hw|].
  exists (l1 ++ l2). cbn [write_all foldl]. rewrite Hw in *. cbn [snd lw_buf lw_log] in *. fold (write_all chunks) in *.
  split_and!; [|done|by apply Forall_app|].
  - rewrite terminated_app, <-app_assoc. unfold write_all in *. rewrite <-E2. unfold stream. cbn. by rewrite app_assoc, E1, <-app_assoc.
  - unfold write_all in *. by rewrite Hlog, logged_app, app_assoc.
Qed.

(** What one line must show up as: the parser's message and PID, at the level of the
    parser's canonical severity, informational for any it does not know. *)
Definition level_of (severity : string) (l : Loglevel) : Prop :=
  match l with
  | FATAL => severity = "fatal"
  | ERROR => severity = "error"
  | WARN => severity = "warn"
  | DEBUG => severity = "debug"
  | INFO => severity ∉ ["fatal"; "error"; "warn"; "debug"]
  end.
Record shown (line : string) (e : entry) : Prop := {
  sh_level : level_of (Level line) (en_level e);
  sh_message : en_message e = match Fields line "msg" with Some msg => msg | None => "" end;
  sh_pid : ∀ pid, en_pid e = Some pid ↔ Fields line "pid" = Some pid ∧ pid ≠ "";
}.
(** The lines that hold more than white space, in order. *)
Definition worth_showing (lines : list (list ascii)) : list string :=
  List.filter (λ l, negb (blank l)) ((λ l, of_bytes (trim_returns l)) <$> lines).

Lemma woolLevel_level severity : level_of severity (woolLevel severity).
Proof.
  unfold woolLevel, level_of. repeat case_bool_decide; try done. rewrite !not_elem_of_cons. split_and!; try done.
  apply not_elem_of_nil.
Qed.

Lemma emit_shown line : if blank line then emit Fields Level line = None
  else ∃ e, emit Fields Level line = Some e ∧ shown line e.
Proof.
  unfold emit. destruct (blank line); [done|]. eexists. split; [done|]. split; cbn.
  - apply woolLevel_level.
  - by destruct (Fields line "msg").
  - intros pid. destruct (Fields line "pid") as [x|]; [|naive_solver]. case_bool_decide; naive_solver.
Qed.

Lemma logged_shown lines : Forall2 shown (worth_showing lines) (logged lines).
Proof.
  unfold worth_showing, logged. induction lines as [|l lines IH]; [constructor|].
  rewrite fmap_cons. cbn [List.filter omap list_omap]. pose proof (emit_shown (of_bytes (trim_returns l))) as H.
  destruct (blank _); cbn [negb]; [by rewrite H|]. destruct H as (e & -> & He). by constructor.
Qed.

(** C39: the log does not depend on how the stream is cut into writes, and no line is
    dropped: there is one entry for each complete line that is not blank, in order, and
    it shows that line, without its trailing carriage returns, with the parser's message
    and PID at the level its severity maps to, informational where the parser knows
    none; a line not yet ended is held back whole, no byte is lost, and
    every write takes all of what it is given. *)
Theorem log_stream chunks :
  let p := write_all chunks newPGLogWriter in
  (∀ b q, (Write Fields Level b q).1 = (len b, None)) ∧
  p = (Write Fields Level (of_bytes (stream chunks)) newPGLogWriter).2 ∧
  ∃ lines, stream chunks = terminated lines ++ lw_buf p ∧ newline ∉ lw_buf p ∧ Forall (λ l, newline ∉ l) lines ∧
    Forall2 shown (worth_showing lines) (lw_log p).
Proof.
  intros p. destruct (write_all_spec chunks newPGLogWriter) as (lines & E & Hr & Hall & Hlog); [by intros ?%elem_of_nil|].
  cbn [newPGLogWriter lw_buf lw_log app] in E, Hlog. split_and!.
  - intros b q. unfold Write. by destruct (cut_lines _ _).
  - rewrite (Write_spec _ _ lines (lw_buf p)); [|by rewrite bytes_of_bytes|done|done].
    cbn. unfold p. rewrite <-Hlog. by destruct (write_all chunks newPGLogWriter).
  - exists lines. split_and!; try done. unfold p. rewrite Hlog. apply logged_shown.
Qed.
End chunks.
