(* ===== verification/Net.v ===== *)
(** Go's [net] as the program uses it: which strings are IP addresses, and the
    host and port of an address, joined and split. *)
From S2P Require Import Prelude GoStrings Url.

Definition colon : ascii := ":"%char.
Definition open_bracket : ascii := "["%char.
Definition close_bracket : ascii := "]"%char.

(** ** Addresses *)

Definition JoinHostPort (host port : string) : string :=
  if bool_decide (colon ∈ bytes host) then "[" +:+ host +:+ "]:" +:+ port
  else host +:+ ":" +:+ port.

Definition addr_error {A} (address why : string) : result A := Err (ENew "address %s: %s" [address; why]).

(** The port starts after the last colon; a host with a colon is in brackets. *)
Definition SplitHostPort (hostport : string) : result (string * string) :=
  match cut_last hostport colon with
  | None => addr_error hostport "missing port in address"
  | Some (before, port) =>
    match bytes hostport with
    | c :: inside =>
      if bool_decide (c = open_bracket) then
        match cut_bytes close_bracket [] inside with
        | None => addr_error hostport "missing ']' in address"
        | Some (host, after) =>
          if bool_decide (after = colon :: bytes port) then
            if bool_decide (open_bracket ∈ inside) then addr_error hostport "unexpected '[' in address"
            else if bool_decide (close_bracket ∈ after) then addr_error hostport "unexpected ']' in address"
            else Ok (of_bytes host, port)
          else match after with
               | c :: _ => if bool_decide (c = colon) then addr_error hostport "too many colons in address"
                           else addr_error hostport "missing port in address"
               | [] => addr_error hostport "missing port in address"
               end
        end
      else if bool_decide (colon ∈ bytes before) then addr_error hostport "too many colons in address"
      else if bool_decide (open_bracket ∈ bytes hostport) then addr_error hostport "unexpected '[' in address"
      else if bool_decide (close_bracket ∈ bytes hostport) then addr_error hostport "unexpected ']' in address"
      else Ok (before, port)
    | [] => addr_error hostport "missing port in address"
    end
  end.

(** ** IP addresses *)

(** One decimal field of an IPv4 address: no leading zero, at most 255. *)
Definition ipv4_field (s : string) : bool :=
  match bytes s with
  | [] => false
  | c :: rest =>
    forallb (λ c, is_digit (code c)) (c :: rest) &&
    (bool_decide (rest = []) || negb (code c =? 48)) &&
    (digits_value (c :: rest) <=? 255)
  end.

Definition ipv4 (s : string) : bool :=
  let fields := split_on "."%char s in
  bool_decide (length fields = 4%nat) && forallb ipv4_field fields.

(** The whole string was read, and [read] bytes of the address were given. *)
Definition ipv6_complete (read : Z) (ellipsis : bool) : bool :=
  if read <? 16 then ellipsis else negb ellipsis.

(** The loop over the groups of an IPv6 address, each two bytes of the sixteen. *)
Fixpoint ipv6_groups (groups : nat) (read : Z) (ellipsis : bool) (l : list ascii) : bool :=
  match groups with
  | O => bool_decide (l = []) && ipv6_complete read ellipsis
  | S groups =>
    let '(digits, rest) := span_bytes is_hex l in
    if (length digits =? 0)%nat || (4 <? length digits)%nat then false
    else match rest with
         | [] => ipv6_complete (read + 2) ellipsis
         | c :: rest =>
           if bool_decide (c = "."%char) then
             (ellipsis || (read =? 12)) && (read + 4 <=? 16) &&
             ipv4 (of_bytes l) && ipv6_complete (read + 4) ellipsis
           else if bool_decide (c = colon) then
             match rest with
             | [] => false
             | c :: rest' =>
               if bool_decide (c = colon) then
                 negb ellipsis &&
                 (if bool_decide (rest' = []) then ipv6_complete (read + 2) true
                  else ipv6_groups groups (read + 2) true rest')
               else ipv6_groups groups (read + 2) ellipsis rest
             end
           else false
         end
  end.

Definition ipv6 (s : string) : bool :=
  match bytes s with
  | a :: b :: rest =>
    if bool_decide (a = colon) && bool_decide (b = colon)
    then bool_decide (rest = []) || ipv6_groups 8 0 true rest
    else ipv6_groups 8 0 false (bytes s)
  | l => ipv6_groups 8 0 false l
  end.

(** [net.ParseIP(s) != nil]: the first of these bytes decides the family, and an
    address with a zone is none. *)
Definition is_ip (s : string) : bool :=
  match filter (λ c, c = "."%char ∨ c = colon ∨ c = percent) (bytes s) with
  | [] => false
  | c :: _ => if bool_decide (c = "."%char) then ipv4 s
              else bool_decide (c = colon) && bool_decide (percent ∉ bytes s) && ipv6 s
  end.

Example is_ip_examples :
  is_ip <$> ["127.0.0.1"; "10.0.0.256"; "1.2.3"; "01.2.3.4"; "::1"; "::"; "2001:db8::8a2e:370:7334";
             "1:2:3:4:5:6:7:8"; "1:2:3:4:5:6:7:8::"; "1:2:3:4:5:6:7::"; "::ffff:10.0.0.1"; "1::2::3"; ":1"; "fe80::1%eth0";
             "db.internal"; "12345::"; "1:2:3:4:5:6:7"; "db:5432"] =
  [true; false; false; false; true; true; true; true; false; true; true; false; false; false; false; false;
   false; false].
Proof. vm_compute. reflexivity. Qed.

Example SplitHostPort_examples :
  SplitHostPort "db.internal:5432" = Ok ("db.internal", "5432") ∧
  SplitHostPort "[::1]:5432" = Ok ("::1", "5432") ∧
  SplitHostPort "::1:5432" = addr_error "::1:5432" "too many colons in address" ∧
  SplitHostPort "[::1]" = addr_error "[::1]" "missing port in address" ∧
  SplitHostPort "db" = addr_error "db" "missing port in address".
Proof. vm_compute. split_and!; reflexivity. Qed.

(** ** Joining and splitting *)

Definition bracket_free (s : string) : Prop := open_bracket ∉ bytes s ∧ close_bracket ∉ bytes s.

Lemma SplitHostPort_Join host port :
  bracket_free host → bracket_free port → colon ∉ bytes port →
  SplitHostPort (JoinHostPort host port) = Ok (host, port).
Proof.
  intros [Ho Hc] [Hpo Hpc] Hp. unfold JoinHostPort. case_bool_decide as Hcolon.
  - unfold SplitHostPort.
    assert (E : "[" +:+ host +:+ "]:" +:+ port = ("[" +:+ host +:+ "]") +:+ String.String colon port).
    { apply (inj bytes). rewrite !bytes_app, <-!app_assoc. reflexivity. }
    rewrite E at 1. rewrite cut_last_app by done.
    assert (Eb : bytes ("[" +:+ host +:+ "]:" +:+ port) =
                 open_bracket :: bytes host ++ close_bracket :: colon :: bytes port).
    { by rewrite !bytes_app. }
    rewrite Eb, bool_decide_eq_true_2 by done.
    rewrite cut_bytes_app by done. rewrite reverse_nil, app_nil_l.
    rewrite (bool_decide_eq_true_2 (_ = _)) by done. rewrite !bool_decide_eq_false_2.
    + by rewrite of_bytes_bytes.
    + by rewrite elem_of_cons; intros [?|?].
    + rewrite elem_of_app, !elem_of_cons. intros [?|[?|[?|?]]]; try done; tauto.
  - unfold SplitHostPort. change (host +:+ ":" +:+ port) with (host +:+ String.String colon port).
    rewrite cut_last_app by done.
    assert (Eb : bytes (host +:+ String.String colon port) = bytes host ++ colon :: bytes port)
      by (by rewrite bytes_app).
    rewrite Eb.
    destruct (bytes host ++ colon :: bytes port) as [|c l] eqn:El; [by destruct (bytes host)|].
    assert (Hb : open_bracket ∉ c :: l ∧ close_bracket ∉ c :: l).
    { rewrite <-El, !elem_of_app, !elem_of_cons. split; intros [?|[?|?]]; done. }
    destruct Hb as [Hbo Hbc].
    rewrite (bool_decide_eq_false_2 (c = open_bracket)) by (intros ->; apply Hbo; by left).
    by rewrite (bool_decide_eq_false_2 _ Hcolon), (bool_decide_eq_false_2 _ Hbo), (bool_decide_eq_false_2 _ Hbc).
Qed.

(** A decimal number is neither bracketed nor split at a colon. *)
Lemma itoa_nat_plain n : 0 ≤ n → bracket_free (itoa_nat n) ∧ colon ∉ bytes (itoa_nat n).
Proof.
  intros Hn. destruct (itoa_nat_spec n Hn) as [H _].
  split; [split|]; apply (all_bytes_not_in _ _ _ H); reflexivity.
Qed.
