(* ===== verification/Connections.v ===== *)
(** The connection strings the service hands out ([main.go]): the sslmode an
    address pins, the connection string of a principal, the template that leaves
    its password out, and the two configurations built from them. *)
From S2P Require Import Prelude GoStrings Timeouts Settings RuntimeRoles Url.

(** ** Connection strings *)

Definition postgresSSLMode (address : string) (withSSL : bool) : string :=
  if negb withSSL || contains address "localhost" || contains address "host.docker.internal"
  then "disable" else "".

Definition connection_query (address : string) (withSSL : bool) : Values :=
  let mode := postgresSSLMode address withSSL in
  if bool_decide (mode ≠ "") then query_set ∅ "sslmode" mode else ∅.

Definition connection_user (user password : string) (passwordless : bool) : Userinfo :=
  {| username := user; user_password := if passwordless then None else Some password |}.

Definition postgresConnectionString (address database user password : string)
    (withSSL passwordless : bool) : string :=
  URL_String (authority_url "postgresql" (connection_user user password passwordless) address database
                (Encode (connection_query address withSSL))).

(** ** Templates *)

Inductive segment :=
  | Literal (text : string)
  | Reference (configuration key : string).   (* escaped as URL userinfo *)

Definition postgresConnectionTemplate (address database user passwordKey : string) (withSSL : bool) :
    list segment :=
  let withoutPassword := postgresConnectionString address database user "" withSSL true in
  let '(userinfo, target) := default (withoutPassword, "") (cut withoutPassword "@"%char) in
  [Literal (userinfo +:+ ":"); Reference "postgres" passwordKey; Literal ("@" +:+ target)].

(** What whoever delivers the value makes of a template: the references replaced
    by the configured values, escaped as the segment asks. *)
Definition assemble (lookup : string → string → string) (t : list segment) : string :=
  foldr (λ s rest, match s with
                   | Literal text => text
                   | Reference configuration key => escape (lookup configuration key) encodeUserPassword
                   end +:+ rest) "" t.

(** ** Configurations *)

Record ConfigurationValue := {
  cv_key : string;
  cv_value : string;
  cv_secret : bool;
  cv_template : option (list segment);
}.

Record Configuration := {
  Origin : string;
  RuntimeContext : string;
  Infos : list (string * list ConfigurationValue);
}.

Record NetworkInstance := { Address : string; Access : string }.

Section configuration.
Context {u : Unicode}.
(** The service's unique name, and the runtime context core derives from an instance. *)
Context (Unique : string) (RuntimeContextFromInstance : NetworkInstance → string).

Definition postgres_configuration (instance : NetworkInstance) (values : list ConfigurationValue) :
    Configuration :=
  {| Origin := Unique; RuntimeContext := RuntimeContextFromInstance instance;
     Infos := [("postgres", values)] |}.

Definition secret_value (key value : string) : ConfigurationValue :=
  {| cv_key := key; cv_value := value; cv_secret := true; cv_template := None |}.

Section load.
Context (get : string → result string) (nativeOwner : string) (settings : Settings).

Definition createOwnerConnectionString (address : string) (withSSL : bool) : result string :=
  c ← wrap_err "cannot get user and password" [] (LoadConfiguration get nativeOwner settings);
  Ok (postgresConnectionString address (DatabaseName settings) (postgresUser c) (postgresPassword c)
        withSSL (externalIdentity settings)).

Definition CreateConnectionConfiguration (instance : NetworkInstance) (withSSL : bool) :
    result Configuration :=
  c ← wrap_err "cannot load postgres credentials" [] (LoadConfiguration get nativeOwner settings);
  let '(readOnlyRole, readWriteRole) := runtimeRoleNames (DatabaseName settings) in
  let connection user password :=
    postgresConnectionString (Address instance) (DatabaseName settings) user password withSSL
      (externalIdentity settings) in
  let values :=
    [secret_value ownerConnectionKey (connection (postgresUser c) (postgresPassword c));
     secret_value readOnlyConnectionKey (connection readOnlyRole (readOnlyPassword c));
     secret_value readWriteConnectionKey (connection readWriteRole (readWritePassword c))] in
  logins ← resolveRuntimeLogins settings;
  Ok (postgres_configuration instance
        (values ++ ((λ l, secret_value (rl_connectionKey l)
                            (connection (rl_role l) (login_password c l))) <$> logins))).
End load.

(** Errors of the login resolution are dropped: an unresolved set has no login. *)
Definition promotableConnectionConfiguration (settings : Settings) (instance : NetworkInstance)
    (withSSL : bool) : Configuration :=
  let '(readOnlyRole, readWriteRole) := runtimeRoleNames (DatabaseName settings) in
  let value key role passwordKey :=
    {| cv_key := key; cv_value := ""; cv_secret := true;
       cv_template :=
         if externalIdentity settings then None
         else Some (postgresConnectionTemplate (Address instance) (DatabaseName settings) role
                      passwordKey withSSL) |} in
  let logins := match resolveRuntimeLogins settings with Ok logins => logins | Err _ => [] end in
  postgres_configuration instance
    ([value readOnlyConnectionKey readOnlyRole "POSTGRES_READ_ONLY_PASSWORD";
      value readWriteConnectionKey readWriteRole "POSTGRES_READ_WRITE_PASSWORD"]
     ++ ((λ l, value (rl_connectionKey l) (rl_role l) (rl_passwordKey l)) <$> logins)).
End configuration.

(** ** What a connection string says *)

Lemma connection_query_proper address withSSL : proper_values (connection_query address withSSL).
Proof. unfold connection_query. case_bool_decide; [apply proper_set, proper_empty|apply proper_empty]. Qed.

Lemma connection_string_written address database user password withSSL passwordless :
  plain_address address →
  postgresConnectionString address database user password withSSL passwordless =
  written "postgresql" (connection_user user password passwordless) address database
    (Encode (connection_query address withSSL)).
Proof. intros. apply URL_String_authority. by right. Qed.

(** C34: a connection string to a host name or IPv4 address, read back by
    [url.Parse], gives exactly the principal, the password (none in
    external-identity mode), the address, the database and the sslmode it was
    made of, whatever bytes the user, the password and the database hold. *)
Theorem connection_string_roundtrip address database user password withSSL passwordless :
  plain_address address →
  ∃ parsed, Parse (postgresConnectionString address database user password withSSL passwordless) = Ok parsed ∧
    Scheme parsed = "postgresql" ∧ Host parsed = address ∧ Path parsed = "/" +:+ database ∧
    User parsed = Some {| username := user; user_password := if passwordless then None else Some password |} ∧
    ParseQuery (RawQuery parsed) = Ok (connection_query address withSSL) ∧
    query_get (connection_query address withSSL) "sslmode" = postgresSSLMode address withSSL.
Proof.
  intros Ha. eexists. split.
  { apply Parse_URL_String; [done|done|by right|apply Encode_in_query]. }
  split_and!; try done.
  - apply ParseQuery_Encode, connection_query_proper.
  - unfold connection_query. case_bool_decide as E; [apply query_get_set|].
    by rewrite E.
Qed.

Lemma connection_string_roundtrip_witness :
  ∃ parsed,
    Parse (postgresConnectionString "db.internal:5432" "sto/re?" "us@er" "p:/#w" true false) = Ok parsed ∧
    User parsed = Some {| username := "us@er"; user_password := Some "p:/#w" |} ∧
    Path parsed = "/sto/re?".
Proof.
  destruct (connection_string_roundtrip "db.internal:5432" "sto/re?" "us@er" "p:/#w" true false)
    as (parsed & H & _ & _ & Hp & Hu & _).
  - exists "db.internal", ":5432". repeat split; [discriminate|vm_compute; reflexivity..].
  - exists parsed. split; [exact H|]. split; [exact Hu|exact Hp].
Defined.

(** ** Promoted and local configurations agree *)

(** Everything after the credentials of a connection string. *)
Lemma connection_string_target address database withSSL :
  ∃ target, ∀ user password passwordless,
    postgresConnectionString address database user password withSSL passwordless =
    "postgresql://" +:+ userinfo_String (connection_user user password passwordless) +:+ "@" +:+ target.
Proof.
  eexists. intros user password passwordless. unfold postgresConnectionString, URL_String.
  set (q := Encode (connection_query address withSSL)).
  change (EscapedPath (authority_url "postgresql" (connection_user user password passwordless) address database q))
    with (EscapedPath (authority_url "postgresql" (connection_user "" "" true) address database q)).
  cbn [Scheme Opaque User Host Path OmitHost ForceQuery RawQuery Fragment authority_url]. rewrite bool_decide_eq_true_2 by done.
  rewrite (bool_decide_eq_false_2 (Some _ = None)) by done. rewrite andb_false_r. cbn [andb].
  change "postgresql://" with ("postgresql" +:+ ":" +:+ "//"). rewrite !append_assoc. reflexivity.
Qed.

Lemma assemble_template lookup address database user passwordKey withSSL :
  assemble lookup (postgresConnectionTemplate address database user passwordKey withSSL) =
  postgresConnectionString address database user (lookup "postgres" passwordKey) withSSL false.
Proof.
  destruct (connection_string_target address database withSSL) as [target Ht].
  unfold postgresConnectionTemplate. rewrite !Ht.
  unfold connection_user, userinfo_String. cbn [username user_password].
  rewrite <-append_assoc. change ("@" +:+ target) with (String.String "@"%char target).
  rewrite cut_app.
  - cbn [default from_option id assemble foldr]. by rewrite !append_assoc, append_nil_r.
  - apply not_in_app; [by apply (bool_decide_unpack ("@"%char ∉ bytes "postgresql://"))|].
    eapply all_bytes_not_in; [apply escape_user_bytes|reflexivity].
Qed.

(** The key of a value and what it is once its template is assembled. *)
Definition assembled (lookup : string → string → string) (v : ConfigurationValue) : string * option string :=
  (cv_key v, assemble lookup <$> cv_template v).

Definition config_values (c : Configuration) : list ConfigurationValue := concat (snd <$> Infos c).

(** A store of the passwords the service runs with. *)
Definition holds_passwords {u : Unicode} (lookup : string → string → string) (c : Credentials)
    (logins : list runtimeLogin) : Prop :=
  lookup "postgres" "POSTGRES_READ_ONLY_PASSWORD" = readOnlyPassword c ∧
  lookup "postgres" "POSTGRES_READ_WRITE_PASSWORD" = readWritePassword c ∧
  Forall (λ l, lookup "postgres" (rl_passwordKey l) = login_password c l) logins.

(** The configuration promoted to other environments carries no value and
    never the owner's key; assembled where the passwords are, each of its
    templates gives exactly the connection string the service itself hands out
    under that key.  In external-identity mode there is nothing to assemble and
    no handed-out connection string holds a password. *)
Theorem promoted_configuration_agrees {u : Unicode} get nativeOwner settings Unique context_of
    instance withSSL c local lookup :
  LoadConfiguration get nativeOwner settings = Ok c →
  CreateConnectionConfiguration Unique context_of get nativeOwner settings instance withSSL = Ok local →
  (∀ logins, resolveRuntimeLogins settings = Ok logins → holds_passwords lookup c logins) →
  let promoted := promotableConnectionConfiguration Unique context_of settings instance withSSL in
  Forall (λ v, cv_value v = "" ∧ cv_secret v = true) (config_values promoted) ∧
  (∃ owner rest, config_values local = owner :: rest ∧ cv_key owner = ownerConnectionKey ∧
     cv_key <$> config_values promoted = cv_key <$> rest ∧
     (externalIdentity settings = false →
        assembled lookup <$> config_values promoted = (λ v, (cv_key v, Some (cv_value v))) <$> rest)) ∧
  (externalIdentity settings = true → plain_address (Address instance) →
     Forall (λ v, ∃ parsed ui, Parse (cv_value v) = Ok parsed ∧ User parsed = Some ui ∧
                               user_password ui = None) (config_values local)).
Proof.
  intros Hc Hlocal Hstore. unfold CreateConnectionConfiguration in Hlocal. rewrite Hc in Hlocal.
  cbn [wrap_err mbind result_bind] in Hlocal. unfold promotableConnectionConfiguration. cbv zeta.
  destruct (runtimeRoleNames (DatabaseName settings)) as [ro rw].
  destruct (resolveRuntimeLogins settings) as [logins|] eqn:El; [|discriminate].
  specialize (Hstore logins eq_refl) as (Hro & Hrw & Hlogins).
  cbn [mbind result_bind] in Hlocal. injection Hlocal as <-.
  unfold config_values, postgres_configuration. cbn [Infos fmap list_fmap snd concat]. rewrite !app_nil_r.
  split_and!.
  - rewrite Forall_app, Forall_fmap. split; [by repeat constructor|]. by apply Forall_true.
  - eexists _, ([_; _] ++ (_ <$> logins)). split; [reflexivity|]. split; [done|]. split.
    + rewrite !fmap_app, <-!list_fmap_compose. reflexivity.
    + intros ->. rewrite !fmap_app, <-!list_fmap_compose. cbn [fmap list_fmap assembled cv_key cv_template option_fmap option_map].
      unfold assembled. simpl. rewrite !assemble_template, Hro, Hrw. do 2 f_equal.
      apply list_fmap_ext. intros i l Hl. rewrite Forall_lookup in Hlogins. simpl.
      by rewrite assemble_template, (Hlogins i l Hl).
  - intros -> Ha.
    assert (Hv : ∀ database user password, ∃ parsed ui,
      Parse (postgresConnectionString (Address instance) database user password withSSL true) = Ok parsed ∧
      User parsed = Some ui ∧ user_password ui = None).
    { intros. exists (authority_url "postgresql" (connection_user user password true)
        (Address instance) database (Encode (connection_query (Address instance) withSSL))),
        (connection_user user password true). split; [|split; reflexivity].
      apply Parse_URL_String; [done|done|by right|apply Encode_in_query]. }
    do 3 (apply Forall_cons_2; [apply Hv|]). apply Forall_fmap, Forall_true. intros l. apply Hv.
Qed.

(** A configuration that names every password, and the store promoted to. *)
Definition configured_get (key : string) : result string :=
  Ok (if bool_decide (key = "POSTGRES_USER") then "owner" else "secret of " +:+ key).
Definition example_store (configuration key : string) : string := "secret of " +:+ key.

Definition example_instance : NetworkInstance := {| Address := "db.internal:5432"; Access := "native" |}.

Lemma promoted_configuration_agrees_witness :
  ∃ local, CreateConnectionConfiguration (u := ascii_unicode) "mod/store" Access configured_get ""
             example_settings example_instance true = Ok local ∧
    cv_key <$> config_values (promotableConnectionConfiguration (u := ascii_unicode) "mod/store" Access
                                example_settings example_instance true) =
    cv_key <$> drop 1 (config_values local).
Proof.
  assert (Hc : is_ok (LoadConfiguration (u := ascii_unicode) configured_get "" example_settings) = true)
    by (vm_compute; reflexivity).
  assert (Hl : is_ok (CreateConnectionConfiguration (u := ascii_unicode) "mod/store" Access configured_get ""
             example_settings example_instance true) = true) by (vm_compute; reflexivity).
  destruct (LoadConfiguration (u := ascii_unicode) configured_get "" example_settings) as [c|] eqn:Ec;
    [|discriminate Hc].
  destruct (CreateConnectionConfiguration (u := ascii_unicode) "mod/store" Access configured_get ""
             example_settings example_instance true) as [local|] eqn:El; [|discriminate Hl].
  clear Hc Hl.
  exists local. split; [reflexivity|].
  destruct (promoted_configuration_agrees (u := ascii_unicode) _ _ _ _ _ _ _ _ _ example_store Ec El)
    as (_ & (owner & rest & Hvals & _ & Hk & _) & _).
  - intros logins Hlogins.
    assert (H : match LoadConfiguration (u := ascii_unicode) configured_get "" example_settings,
                      resolveRuntimeLogins (u := ascii_unicode) example_settings with
      | Ok c, Ok logins =>
        bool_decide (example_store "postgres" "POSTGRES_READ_ONLY_PASSWORD" = readOnlyPassword c) &&
        bool_decide (example_store "postgres" "POSTGRES_READ_WRITE_PASSWORD" = readWritePassword c) &&
        forallb (λ l, bool_decide (example_store "postgres" (rl_passwordKey l) = login_password c l)) logins
      | _, _ => false end = true) by (vm_compute; reflexivity).
    rewrite Ec, Hlogins in H. apply andb_true_iff in H as [[H1 H2]%andb_true_iff H3].
    split; [exact (bool_decide_eq_true_1 _ H1)|]. split; [exact (bool_decide_eq_true_1 _ H2)|].
    apply Forall_forallb in H3. eapply Forall_impl; [exact H3|].
    intros l Hl. exact (bool_decide_eq_true_1 _ Hl).
  - rewrite Hvals. exact Hk.
Defined.
