(* ===== verification/ConnectionProfile.v ===== *)
(** Explicit connection contracts ([libs/go/connection_profile.go] and
    [libs/go/trustanchor.go]): the transports, the validation of a profile and of
    its trust anchor, and [ParseConnection].  PEM and X.509 decoding, the process
    environment, IP literals and the driver's own parser are parameters. *)
From S2P Require Import Prelude GoStrings Url.

(** ** Profiles *)

Definition ConnectionTransport : Type := string.
Definition VerifiedTLS : ConnectionTransport := "verified-tls".
Definition LocalIdentityProxy : ConnectionTransport := "local-identity-proxy".
Definition MeshProtected : ConnectionTransport := "mesh-protected".
Definition PinnedAuthorityTLS : ConnectionTransport := "pinned-authority-tls".
Definition LocalLoopback : ConnectionTransport := "local-loopback".

Definition ErrConnectionProfile : string := "invalid Postgres connection profile".
Definition ErrConnectionUnavailable : string := "Postgres connection capability unavailable".
Definition ErrServerTrustAnchor : string := "invalid Postgres server trust anchor".

Record ConnectionProfile := {
  Transport : ConnectionTransport;
  ApplicationRole : string;
  CP_Host : string;
  CP_Port : Z;
  CP_Database : string;
  CP_User : string;
  ServerTrustAnchorPEM : string;
}.
#[export] Instance profile_eq_dec : EqDecision ConnectionProfile.
Proof. solve_decision. Defined.
Definition no_profile : ConnectionProfile :=
  {| Transport := ""; ApplicationRole := ""; CP_Host := ""; CP_Port := 0; CP_Database := "";
     CP_User := ""; ServerTrustAnchorPEM := "" |}.

Definition profileConnectionError (profile : ConnectionProfile) (err : error) : error :=
  if bool_decide (Transport profile ≠ "") then ENew ErrConnectionUnavailable [] else err.

Definition plaintext (p : ConnectionProfile) : bool :=
  bool_decide (Transport p = MeshProtected) || bool_decide (Transport p = LocalLoopback).

(** ** Driver configurations and certificates *)

Record Certificate := { IsCA : bool; NotAfter : Z; CommonName : string; Raw : string }.
Record Block := { B_Type : string; B_Bytes : string }.
Definition CertPool : Type := list Certificate.

Record TLSConfig := {
  InsecureSkipVerify : bool;
  ServerName : string;
  VerifyPeerCertificate : bool;    (* a chain-only verifier is installed *)
  VerifyConnection : bool;
  RootCAs : option CertPool;
}.
Record PoolConfig := {
  C_Host : string;
  C_Port : Z;
  C_Database : string;
  C_User : string;
  C_Password : string;
  C_Fallbacks : Z;
  C_RuntimeParams : gmap string string;
  C_TLS : option TLSConfig;
}.
Definition with_roots (c : PoolConfig) (pool : CertPool) : PoolConfig :=
  {| C_Host := C_Host c; C_Port := C_Port c; C_Database := C_Database c; C_User := C_User c;
     C_Password := C_Password c; C_Fallbacks := C_Fallbacks c; C_RuntimeParams := C_RuntimeParams c;
     C_TLS := (λ t, {| InsecureSkipVerify := InsecureSkipVerify t; ServerName := ServerName t;
                       VerifyPeerCertificate := VerifyPeerCertificate t;
                       VerifyConnection := VerifyConnection t; RootCAs := Some pool |}) <$> C_TLS c |}.

Class Driver := {
  pem_Decode : string → option (Block * string);   (* [encoding/pem]: a block and what follows it *)
  ParseCertificate : string → result Certificate;
  now : Z;
  Environ : list string;
  loopback_ip : string → bool;                     (* [net.ParseIP(h).IsLoopback()] *)
  ParseConfig : string → result PoolConfig;        (* [pgxpool.ParseConfig] *)
}.

(** A decoded block ends before the text does ([pem.Decode] returns the rest). *)
Class DriverLaws (d : Driver) : Prop := {
  pem_progress : ∀ s b rest, pem_Decode s = Some (b, rest) → len rest < len s;
}.

Section driver.
Context `{d : Driver}.

(** ** Trust anchors *)

Definition anchor_error (why : string) (args : list string) : error :=
  EWrap why args (ENew ErrServerTrustAnchor []).

(** One block of the anchor. *)
Definition add_certificate (pool : CertPool) (block : Block) : result CertPool :=
  _ ← guard_err (negb (bool_decide (B_Type block = "CERTIFICATE")))
        (anchor_error "%w: it carries a %q block, and an anchor is certificates only" [B_Type block]);
  certificate ← match ParseCertificate (B_Bytes block) with
                | Ok c => Ok c
                | Err e => Err (EJoin [ENew ErrServerTrustAnchor []; e])
                end;
  _ ← guard_err (negb (IsCA certificate))
        (anchor_error "%w: %q is not a certificate authority" [CommonName certificate]);
  _ ← guard_err (NotAfter certificate <? now)
        (anchor_error "%w: %q expired on %s" [CommonName certificate]);
  Ok (pool ++ [certificate]).

(** The loop over the blocks; [None] when [fuel] runs out. *)
Fixpoint anchor_loop (fuel : nat) (pool : CertPool) (rest : string) : option (result CertPool) :=
  match fuel with
  | O => None
  | S fuel =>
    match pem_Decode rest with
    | None => Some (Ok pool)
    | Some (block, rest) =>
      match add_certificate pool block with
      | Ok pool => anchor_loop fuel pool rest
      | Err e => Some (Err e)
      end
    end
  end.

Definition serverTrustAnchor (anchor : string) : result CertPool :=
  pool ← default (Err (ENew "fuel" [])) (anchor_loop (S (length (bytes anchor))) [] anchor);
  _ ← guard_err (bool_decide (length pool = 0%nat)) (anchor_error "%w: it contains no certificate" []);
  Ok pool.

(** ** Profile validation *)

Definition transports : list ConnectionTransport :=
  [VerifiedTLS; PinnedAuthorityTLS; LocalIdentityProxy; MeshProtected; LocalLoopback].

Definition validate (p : ConnectionProfile) : result unit :=
  _ ← (if bool_decide (Transport p = "")
       then guard_err (negb (bool_decide (p = no_profile))) (ENew ErrConnectionProfile [])
       else guard_err (negb (bool_decide (Transport p ∈ transports))) (ENew ErrConnectionProfile []));
  if bool_decide (ServerTrustAnchorPEM p = "") then
    guard_err (bool_decide (Transport p = PinnedAuthorityTLS))
      (anchor_error "%w: transport %q verifies the chain and not the hostname, so the pinned authority IS the server's identity and cannot be omitted" [Transport p])
  else
    _ ← guard_err (negb (bool_decide (Transport p ∈ [VerifiedTLS; PinnedAuthorityTLS])))
          (anchor_error "%w: transport %q verifies no server certificate" [Transport p]);
    _ ← serverTrustAnchor (ServerTrustAnchorPEM p);
    Ok tt.

(** ** Parsing a connection *)

Definition line_bytes : string := of_bytes [chr 0; chr 13; chr 10].
Definition refuse (b : bool) : result unit := guard_err b (ENew ErrConnectionProfile []).

(** One query parameter of the URL. *)
Definition check_parameter (p : ConnectionProfile) (kv : string * list string) : result unit :=
  let '(key, values) := kv in
  match values with
  | [value] =>
    _ ← refuse (contains_any value line_bytes);
    if bool_decide (key = "role")
    then refuse (bool_decide (ApplicationRole p = "") || negb (bool_decide (value = ApplicationRole p)))
    else if bool_decide (key ∈ ["sslmode"; "passfile"]) then Ok tt
    else if bool_decide (key ∈ ["host"; "port"])
    then refuse (negb (bool_decide (Transport p = LocalIdentityProxy)))
    else if bool_decide (key = "sslrootcert")
    then refuse (negb (bool_decide (Transport p = VerifiedTLS))
                 || negb (bool_decide (ServerTrustAnchorPEM p = "")))
    else if bool_decide (key ∈ ["sslcert"; "sslkey"; "connect_timeout"; "pool_max_conns"; "pool_min_conns";
           "pool_min_idle_conns"; "pool_max_conn_lifetime"; "pool_max_conn_idle_time";
           "pool_health_check_period"; "pool_max_conn_lifetime_jitter"; "application_name"])
    then refuse (negb (bool_decide (Transport p ∈ [VerifiedTLS; PinnedAuthorityTLS])))
    else refuse true
  | _ => refuse true
  end.

Definition check_url (u : URL) : result Userinfo :=
  _ ← refuse (negb (bool_decide (Scheme u ∈ ["postgres"; "postgresql"]))
              || negb (bool_decide (Opaque u = "")) || negb (bool_decide (Fragment u = "")));
  match User u with
  | None => Err (ENew ErrConnectionProfile [])
  | Some ui =>
    _ ← refuse (bool_decide (username ui = "") || negb (has_prefix (Path u) "/")
                || bool_decide (Path u = "/")
                || contains_any (trim_prefix (Path u) "/") ("/" +:+ line_bytes)
                || contains_any (username ui) line_bytes);
    Ok ui
  end.

(** The endpoint of a local proxy: a socket directory and a port. *)
Definition proxy_endpoint (u : URL) (q : Values) (has_password tokenHook : bool) : result (string * Z) :=
  let host := query_get q "host" in
  _ ← refuse (negb (bool_decide (Host u = "")) || has_password || tokenHook
              || negb (bool_decide (query_get q "sslmode" = "disable"))
              || negb (bool_decide (query_get q "passfile" = "/dev/null"))
              || negb (is_abs host) || negb (bool_decide (path_clean host = host))
              || bool_decide (host = "/") || contains_any host ("," +:+ line_bytes)
              || contains host ".s.PGSQL.");
  match parse_uint 16 (query_get q "port") with
  | None => Err (ENew ErrConnectionProfile [])
  | Some port =>
    _ ← refuse ((port =? 0) || negb (bool_decide (itoa_nat port = query_get q "port"))
                || (103 <? len (host +:+ "/.s.PGSQL." +:+ query_get q "port")));
    Ok (host, port)
  end.

(** The sslmode a TCP transport states. *)
Definition required_sslmode (p : ConnectionProfile) : string :=
  if plaintext p then "disable"
  else if bool_decide (Transport p = PinnedAuthorityTLS) then "verify-ca" else "verify-full".

Definition tcp_endpoint (p : ConnectionProfile) (u : URL) (q : Values) : result (string * Z) :=
  let host := Hostname u in
  _ ← refuse (bool_decide (host = "") || contains_any host (",/" +:+ line_bytes)
              || negb (bool_decide (query_get q "sslmode" = required_sslmode p)));
  _ ← refuse (bool_decide (Transport p = LocalLoopback) && negb (bool_decide (host = "localhost"))
              && negb (loopback_ip host));
  port ← (if bool_decide (Port u = "") then Ok 5432
          else match parse_uint 16 (Port u) with
               | None => Err (ENew ErrConnectionProfile [])
               | Some port => _ ← refuse (port =? 0); Ok port
               end);
  _ ← refuse (match q !! "passfile" with
              | Some values => negb (bool_decide (head values = Some "/dev/null"))
              | None => false end);
  Ok (host, port).

(** Explicit empty settings for what the URL leaves to the driver's defaults. *)
Definition set_if_absent (q : Values) (key : string) : Values :=
  match q !! key with Some _ => q | None => query_set q key "" end.
Definition driver_query (q : Values) : Values :=
  query_set (foldl set_if_absent q ["sslrootcert"; "sslcert"; "sslkey"]) "passfile" "/dev/null".

(** What the driver made of the URL, checked against it and the profile. *)
Definition check_identity (p : ConnectionProfile) (c : PoolConfig) (host : string) (port : Z)
    (database user password : string) : result unit :=
  _ ← refuse (negb (bool_decide (C_Host c = host)) || negb (C_Port c =? port)
              || negb (bool_decide (C_Database c = database)) || negb (bool_decide (C_User c = user))
              || negb (bool_decide (C_Password c = password)) || negb (C_Fallbacks c =? 0));
  refuse ((negb (bool_decide (CP_Host p = "")) && negb (bool_decide (C_Host c = CP_Host p)))
          || (negb (CP_Port p =? 0) && negb (C_Port c =? CP_Port p))
          || (negb (bool_decide (CP_Database p = "")) && negb (bool_decide (C_Database c = CP_Database p)))
          || (negb (bool_decide (CP_User p = "")) && negb (bool_decide (C_User c = CP_User p)))).

Definition check_runtime_param (p : ConnectionProfile) (q : Values) (kv : string * string) : result unit :=
  let '(key, value) := kv in
  refuse (negb (bool_decide (key = "role") && bool_decide (value = ApplicationRole p)
                && negb (bool_decide (ApplicationRole p = ""))
                || bool_decide (key = "application_name") && bool_decide (Transport p = VerifiedTLS)
                   && bool_decide (value = query_get q key))).

Definition check_tls (p : ConnectionProfile) (c : PoolConfig) (host : string) : result unit :=
  if bool_decide (Transport p = LocalIdentityProxy) then
    refuse (bool_decide (is_Some (C_TLS c)) || negb (bool_decide (C_Password c = "")))
  else if plaintext p then refuse (bool_decide (is_Some (C_TLS c)))
  else match C_TLS c with
       | None => Err (ENew ErrConnectionProfile [])
       | Some t =>
         if bool_decide (Transport p = PinnedAuthorityTLS)
         then refuse (negb (InsecureSkipVerify t) || negb (VerifyPeerCertificate t)
                      || negb (bool_decide (ServerName t = "")) || VerifyConnection t)
         else refuse (InsecureSkipVerify t || negb (bool_decide (ServerName t = host))
                      || VerifyPeerCertificate t || VerifyConnection t)
       end.

Definition collapse {A} (r : result A) : result A :=
  match r with Ok a => Ok a | Err _ => Err (ENew ErrConnectionProfile []) end.

Definition ParseConnection (connection : string) (profile : ConnectionProfile) (tokenHook : bool) :
    result PoolConfig :=
  _ ← collapse (validate profile);
  if bool_decide (Transport profile = "") then ParseConfig connection
  else
  _ ← refuse (existsb (λ entry, has_prefix entry "PG") Environ);
  u ← collapse (Parse connection);
  ui ← check_url u;
  q ← collapse (ParseQuery (RawQuery u));
  _ ← each (check_parameter profile) (map_to_list q);
  _ ← refuse (negb (bool_decide (query_get q "role" = ApplicationRole profile)));
  let password := default "" (user_password ui) in
  let has_password := bool_decide (is_Some (user_password ui)) in
  _ ← refuse (contains_any password line_bytes);
  _ ← refuse (tokenHook && has_password);
  '(host, port) ← (if bool_decide (Transport profile = LocalIdentityProxy)
                   then proxy_endpoint u q has_password tokenHook
                   else tcp_endpoint profile u q);
  let q' := driver_query q in
  c ← collapse (ParseConfig (URL_String (set_query u q')));
  _ ← check_identity profile c host port (trim_prefix (Path u) "/") (username ui) password;
  _ ← each (check_runtime_param profile q') (map_to_list (C_RuntimeParams c));
  _ ← check_tls profile c host;
  if bool_decide (ServerTrustAnchorPEM profile = "") then Ok c
  else pool ← serverTrustAnchor (ServerTrustAnchorPEM profile); Ok (with_roots c pool).
End driver.

(** ** Trust anchors: termination and meaning *)

Section anchors.
Context `{d : Driver}.

(** The blocks of a text: what decoding it again and again gives. *)
Inductive pem_blocks : string → list Block → Prop :=
  | blocks_end s : pem_Decode s = None → pem_blocks s []
  | blocks_next s b rest bs :
      pem_Decode s = Some (b, rest) → pem_blocks rest bs → pem_blocks s (b :: bs).

(** A block that may be pinned, and its certificate. *)
Definition authority (b : Block) (c : Certificate) : Prop :=
  B_Type b = "CERTIFICATE" ∧ ParseCertificate (B_Bytes b) = Ok c ∧ IsCA c = true ∧ now ≤ NotAfter c.

Lemma add_certificate_ok pool b pool' :
  add_certificate pool b = Ok pool' ↔ ∃ c, authority b c ∧ pool' = pool ++ [c].
Proof.
  unfold add_certificate, authority. split.
  - intros H. res_inv. destruct (ParseCertificate _) eqn:E; [|done].
    match goal with H : Ok _ = Ok _ |- _ => injection H as -> end.
    eexists. split_and!; try done; lia.
  - intros (c & (Ht & Hc & Hca & Hn) & ->). rewrite bool_decide_eq_true_2 by done. rewrite Hc.
    cbn [negb guard_err mbind result_bind]. rewrite Hca. cbn [negb guard_err mbind result_bind].
    by rewrite (proj2 (Z.ltb_ge _ _) Hn).
Qed.

Lemma anchor_loop_blocks fuel pool s bs :
  pem_blocks s bs → (length bs < fuel)%nat →
  ∃ r, anchor_loop fuel pool s = Some r ∧
    ∀ pool', r = Ok pool' ↔ ∃ cs, Forall2 authority bs cs ∧ pool' = pool ++ cs.
Proof.
  intros Hb. revert fuel pool. induction Hb as [s E|s b rest bs E Hb IH]; intros [|fuel] pool Hf;
    simpl in *; try lia; rewrite E.
  - eexists. split; [done|]. intros pool'. split.
    + intros [= <-]. exists []. by rewrite app_nil_r.
    + intros (cs & ->%Forall2_nil_inv_l & ->). by rewrite app_nil_r.
  - destruct (add_certificate pool b) as [pool1|e] eqn:Ea.
    + apply add_certificate_ok in Ea as (c & Hc & ->).
      destruct (IH fuel (pool ++ [c])) as (r & Hr & Hok); [lia|]. exists r. split; [done|].
      intros pool'. rewrite Hok. split.
      * intros (cs & Hcs & ->). exists (c :: cs). rewrite <-app_assoc. by split; [constructor|].
      * intros (cs & (c' & cs' & Hc' & Hcs & ->)%Forall2_cons_inv_l & ->).
        assert (c' = c) as ->. { destruct Hc as (_ & E1 & _), Hc' as (_ & E2 & _). congruence. }
        exists cs'. by rewrite <-app_assoc.
    + eexists. split; [done|]. intros pool'. split; [done|].
      intros (cs & (c & cs' & Hc & _ & ->)%Forall2_cons_inv_l & _).
      assert (add_certificate pool b = Ok (pool ++ [c])) by (apply add_certificate_ok; eauto). congruence.
Qed.

Lemma pem_blocks_total `{!DriverLaws d} s :
  ∃ bs, pem_blocks s bs ∧ (length bs ≤ length (bytes s))%nat.
Proof.
  remember (length (bytes s)) as n eqn:En. assert (Hle : (length (bytes s) ≤ n)%nat) by lia. clear En.
  revert s Hle. induction n as [|n IH]; intros s Hn; destruct (pem_Decode s) as [[b rest]|] eqn:E.
  - apply pem_progress in E. rewrite !len_bytes in E. lia.
  - exists []. split; [by constructor|simpl; lia].
  - pose proof (pem_progress _ _ _ E) as Hp. rewrite !len_bytes in Hp. destruct (IH rest) as (bs & Hbs & Hl); [lia|].
    exists (b :: bs). split; [by econstructor|simpl; lia].
  - exists []. split; [by constructor|simpl; lia].
Qed.

(** A pinned pool: at least one unexpired authority, nothing else. *)
Definition pinned (pool : CertPool) : Prop :=
  pool ≠ [] ∧ Forall (λ c, IsCA c = true ∧ now ≤ NotAfter c) pool.

Lemma serverTrustAnchor_ok `{!DriverLaws d} anchor :
  ∃ bs, pem_blocks anchor bs ∧
    ∀ pool, serverTrustAnchor anchor = Ok pool ↔ bs ≠ [] ∧ Forall2 authority bs pool.
Proof.
  destruct (pem_blocks_total anchor) as (bs & Hbs & Hl). exists bs. split; [done|].
  destruct (anchor_loop_blocks (S (length (bytes anchor))) [] anchor bs Hbs) as (r & Hr & Hok); [lia|].
  intros pool. unfold serverTrustAnchor. rewrite Hr. cbn [default from_option id]. split.
  - intros H. res_inv. destruct (proj1 (Hok pool) eq_refl) as (cs & Hcs & E). simpl in E. subst.
    split; [|done]. intros ->. apply Forall2_nil_inv_l in Hcs as ->. done.
  - intros [Hne Hall]. assert (r = Ok pool) as -> by (apply Hok; eauto). cbn [mbind result_bind].
    rewrite bool_decide_eq_false_2; [done|]. apply Forall2_length in Hall. by destruct bs, pool.
Qed.

Lemma serverTrustAnchor_pinned `{!DriverLaws d} anchor pool :
  serverTrustAnchor anchor = Ok pool → pinned pool.
Proof.
  destruct (serverTrustAnchor_ok anchor) as (bs & _ & H). intros [Hne Hall]%H. split.
  - intros ->. by apply Forall2_nil_inv_r in Hall as ->.
  - eapply Forall2_Forall_r; [exact Hall|]. rewrite Forall_forall. by intros b _ c (_ & _ & ? & ?).
Qed.

(** Reading a trust anchor terminates on every text, and accepts it exactly
    when it holds at least one PEM block and every block is a certificate of an
    unexpired authority; the pool is then those certificates, in order. *)
Theorem serverTrustAnchor_total `{!DriverLaws d} anchor :
  anchor_loop (S (length (bytes anchor))) [] anchor ≠ None ∧
  ∃ bs, pem_blocks anchor bs ∧
    ∀ pool, serverTrustAnchor anchor = Ok pool ↔ bs ≠ [] ∧ Forall2 authority bs pool.
Proof.
  split; [|apply serverTrustAnchor_ok].
  destruct (pem_blocks_total anchor) as (bs & Hbs & Hl).
  destruct (anchor_loop_blocks (S (length (bytes anchor))) [] anchor bs Hbs) as (r & -> & _); [lia|done].
Qed.
End anchors.

(** ** What an accepted connection is *)

Section sound.
Context `{d : Driver}.

Definition TLS_free (c : PoolConfig) : Prop := C_TLS c = None.

(** The protection each transport promises, of the configuration it returns. *)
Definition protected (p : ConnectionProfile) (c : PoolConfig) : Prop :=
  if bool_decide (Transport p = LocalIdentityProxy) then
    TLS_free c ∧ C_Password c = "" ∧ is_abs (C_Host c) = true ∧ path_clean (C_Host c) = C_Host c ∧
    C_Host c ≠ "/" ∧ 0 < C_Port c < 2 ^ 16 ∧
    len (C_Host c +:+ "/.s.PGSQL." +:+ itoa_nat (C_Port c)) ≤ 103
  else if bool_decide (Transport p = MeshProtected) then TLS_free c
  else if bool_decide (Transport p = LocalLoopback) then
    TLS_free c ∧ (C_Host c = "localhost" ∨ loopback_ip (C_Host c) = true)
  else if bool_decide (Transport p = PinnedAuthorityTLS) then
    ∃ t pool, C_TLS c = Some t ∧ VerifyPeerCertificate t = true ∧ ServerName t = "" ∧
              VerifyConnection t = false ∧ RootCAs t = Some pool ∧ pinned pool
  else
    ∃ t, C_TLS c = Some t ∧ InsecureSkipVerify t = false ∧ ServerName t = C_Host c ∧
         (VerifyPeerCertificate t = false ∧ VerifyConnection t = false) ∧
         (ServerTrustAnchorPEM p ≠ "" → ∃ pool, RootCAs t = Some pool ∧ pinned pool).

(** The identity fields of a profile bind the configuration where they are set. *)
Definition bound (p : ConnectionProfile) (c : PoolConfig) : Prop :=
  (CP_Host p ≠ "" → C_Host c = CP_Host p) ∧ (CP_Port p ≠ 0 → C_Port c = CP_Port p) ∧
  (CP_Database p ≠ "" → C_Database c = CP_Database p) ∧ (CP_User p ≠ "" → C_User c = CP_User p).

(** What an explicit profile lets a URL say: each parameter once, and which. *)
Definition driver_settings : list string :=
  ["sslcert"; "sslkey"; "connect_timeout"; "pool_max_conns"; "pool_min_conns"; "pool_min_idle_conns";
   "pool_max_conn_lifetime"; "pool_max_conn_idle_time"; "pool_health_check_period";
   "pool_max_conn_lifetime_jitter"; "application_name"].
Definition admissible (p : ConnectionProfile) (key value : string) : Prop :=
  (key = "role" ∧ value = ApplicationRole p ∧ value ≠ "") ∨ key = "sslmode" ∨
  (key = "passfile" ∧ value = "/dev/null") ∨
  (key ∈ ["host"; "port"] ∧ Transport p = LocalIdentityProxy) ∨
  (key = "sslrootcert" ∧ Transport p = VerifiedTLS ∧ ServerTrustAnchorPEM p = "") ∨
  (key ∈ driver_settings ∧ (Transport p = VerifiedTLS ∨ Transport p = PinnedAuthorityTLS)).
Definition stated_sslmode (p : ConnectionProfile) (mode : string) : Prop :=
  (Transport p ∈ [LocalIdentityProxy; MeshProtected; LocalLoopback] → mode = "disable") ∧
  (Transport p = PinnedAuthorityTLS → mode = "verify-ca") ∧
  (Transport p = VerifiedTLS → mode = "verify-full").
(** One host, from the place the transport names it, and one port. *)
Definition addressed (p : ConnectionProfile) (u : URL) (q : Values) (c : PoolConfig) : Prop :=
  0 < C_Port c < 2 ^ 16 ∧
  if bool_decide (Transport p = LocalIdentityProxy)
  then Host u = "" ∧ C_Host c = query_get q "host" ∧ itoa_nat (C_Port c) = query_get q "port" ∧
       contains_any (C_Host c) ("," +:+ line_bytes) = false ∧ contains (C_Host c) ".s.PGSQL." = false
  else C_Host c = Hostname u ∧ C_Host c ≠ "" ∧ contains_any (C_Host c) (",/" +:+ line_bytes) = false ∧
       (if bool_decide (Port u = "") then C_Port c = 5432 else parse_uint 16 (Port u) = Some (C_Port c)).
Record declared (p : ConnectionProfile) (u : URL) (ui : Userinfo) (q : Values) : Prop := {
  dc_scheme : Scheme u = "postgres" ∨ Scheme u = "postgresql";
  dc_plain : Opaque u = "" ∧ Fragment u = "";
  dc_path : has_prefix (Path u) "/" = true ∧ Path u ≠ "/" ∧ contains_any (trim_prefix (Path u) "/") ("/" +:+ line_bytes) = false;
  dc_user : contains_any (username ui) line_bytes = false;
  dc_password : contains_any (default "" (user_password ui)) line_bytes = false ∧
                (Transport p = LocalIdentityProxy → user_password ui = None);
  dc_query : ∀ key values, q !! key = Some values →
    ∃ value, values = [value] ∧ contains_any value line_bytes = false ∧ admissible p key value;
  dc_sslmode : stated_sslmode p (query_get q "sslmode");
}.

Lemma collapse_ok {A} (r : result A) a : collapse r = Ok a → r = Ok a.
Proof. destruct r; naive_solver. Qed.
Lemma refuse_ok b u : refuse b = Ok u ↔ b = false.
Proof. apply guard_ok. Qed.

Lemma profile_validate_ok p :
  validate p = Ok tt →
  (Transport p = "" ∧ p = no_profile ∨ Transport p ∈ transports) ∧
  (Transport p = PinnedAuthorityTLS → ServerTrustAnchorPEM p ≠ "") ∧
  (ServerTrustAnchorPEM p ≠ "" →
     (Transport p = VerifiedTLS ∨ Transport p = PinnedAuthorityTLS) ∧
     ∃ pool, serverTrustAnchor (ServerTrustAnchorPEM p) = Ok pool).
Proof.
  unfold validate. intros (u0 & Ht & H)%bind_ok. split; [clear H|clear Ht; case_bool_decide as Ea].
  - case_bool_decide as E; apply guard_ok in Ht; apply negb_false_iff, bool_decide_eq_true in Ht; auto.
  - apply guard_ok, bool_decide_eq_false in H. split; [by intros ?|by intros ?].
  - split; [done|]. intros _. apply bind_ok in H as (? & Hg & H). apply bind_ok in H as (pool & Hp & _).
    apply guard_ok, negb_false_iff, bool_decide_eq_true in Hg. split; [|eauto].
    rewrite !elem_of_cons in Hg. destruct Hg as [?|[?|[]%not_elem_of_nil]]; auto.
Qed.

Lemma tcp_endpoint_ok p u q host port :
  tcp_endpoint p u q = Ok (host, port) →
  host ≠ "" ∧ host = Hostname u ∧ query_get q "sslmode" = required_sslmode p ∧
  (Transport p = LocalLoopback → host = "localhost" ∨ loopback_ip host = true) ∧ 0 < port < 2 ^ 16 ∧
  contains_any host (",/" +:+ line_bytes) = false ∧
  (if bool_decide (Port u = "") then port = 5432 else parse_uint 16 (Port u) = Some port) ∧
  (∀ values, q !! "passfile" = Some values → head values = Some "/dev/null").
Proof.
  unfold tcp_endpoint. cbv zeta. intros (u0 & H1 & H)%bind_ok. apply refuse_ok in H1.
  apply orb_false_iff in H1 as [[Hne%bool_decide_eq_false Hb]%orb_false_iff Hs%negb_false_iff%bool_decide_eq_true].
  apply bind_ok in H as (u1 & H2%refuse_ok & H). apply bind_ok in H as (port' & Hport & H).
  apply bind_ok in H as (u2 & Hpf%refuse_ok & [= <- <-]). split_and!; try done.
  - intros Ht. rewrite bool_decide_eq_true_2 in H2 by done. cbn [andb] in H2.
    destruct (decide (Hostname u = "localhost")); [by left|right].
    rewrite bool_decide_eq_false_2 in H2 by done. by apply negb_false_iff in H2.
  - case_bool_decide; [by injection Hport as <-|].
    destruct (parse_uint 16 (Port u)) eqn:E; [|done]. apply parse_uint_range in E.
    apply bind_ok in Hport as (? & Hz%refuse_ok & [= <-]). lia.
  - case_bool_decide; [by injection Hport as <-|].
    destruct (parse_uint 16 (Port u)) eqn:E; [|done]. apply parse_uint_range in E.
    apply bind_ok in Hport as (? & Hz%refuse_ok & [= <-]). lia.
  - case_bool_decide; [by injection Hport|].
    destruct (parse_uint 16 (Port u)) eqn:E; [|done]. by apply bind_ok in Hport as (? & _ & [= <-]).
  - intros values E. rewrite E in Hpf. by apply negb_false_iff, bool_decide_eq_true in Hpf.
Qed.

Lemma proxy_endpoint_ok u q has_password hook host port :
  proxy_endpoint u q has_password hook = Ok (host, port) →
  has_password = false ∧ is_abs host = true ∧ path_clean host = host ∧ host ≠ "/" ∧
  0 < port < 2 ^ 16 ∧ len (host +:+ "/.s.PGSQL." +:+ itoa_nat port) ≤ 103 ∧
  Host u = "" ∧ host = query_get q "host" ∧ itoa_nat port = query_get q "port" ∧ query_get q "sslmode" = "disable" ∧
  query_get q "passfile" = "/dev/null" ∧ contains_any host ("," +:+ line_bytes) = false ∧ contains host ".s.PGSQL." = false.
Proof.
  unfold proxy_endpoint. cbv zeta. intros (u0 & Hr1%refuse_ok & H)%bind_ok.
  repeat match goal with H : _ || _ = false |- _ => apply orb_false_iff in H as [? ?] end.
  destruct (parse_uint 16 _) as [port'|] eqn:E; [|done]. apply parse_uint_range in E.
  apply bind_ok in H as (u1 & Hr2%refuse_ok & [= <- <-]).
  repeat match goal with H : _ || _ = false |- _ => apply orb_false_iff in H as [? ?] end.
  repeat match goal with
         | H : negb _ = false |- _ => apply negb_false_iff in H
         | H : bool_decide _ = true |- _ => apply bool_decide_eq_true in H
         | H : bool_decide _ = false |- _ => apply bool_decide_eq_false in H end.
  split_and!; try done; try lia.
  match goal with H : itoa_nat _ = _ |- _ => rewrite H end. lia.
Qed.

Lemma check_identity_ok p c host port database user password :
  check_identity p c host port database user password = Ok tt →
  (C_Host c = host ∧ C_Port c = port ∧ C_Database c = database ∧ C_User c = user ∧
   C_Password c = password ∧ C_Fallbacks c = 0) ∧ bound p c.
Proof.
  unfold check_identity. intros (u0 & Hr1%refuse_ok & Hr2%refuse_ok)%bind_ok.
  repeat match goal with H : _ || _ = false |- _ => apply orb_false_iff in H as [? ?] end.
  repeat match goal with
         | H : negb _ = false |- _ => apply negb_false_iff in H
         | H : bool_decide _ = true |- _ => apply bool_decide_eq_true in H
         | H : (_ =? _) = true |- _ => apply Z.eqb_eq in H end.
  split; [done|].
  repeat match goal with H : _ && _ = false |- _ => apply andb_false_iff in H end.
  unfold bound. split_and!; intros Hne;
    match goal with
    | H : negb _ = false ∨ _ |- _ => destruct H as [H|H];
        apply negb_false_iff in H; first [apply bool_decide_eq_true in H|apply Z.eqb_eq in H]; congruence
    end.
Qed.
Lemma check_tls_ok p c u :
  check_tls p c (C_Host c) = Ok u → Transport p ∈ transports →
  (Transport p = LocalIdentityProxy → TLS_free c ∧ C_Password c = "") ∧
  (Transport p = MeshProtected ∨ Transport p = LocalLoopback → TLS_free c) ∧
  (Transport p = PinnedAuthorityTLS →
     ∃ t, C_TLS c = Some t ∧ VerifyPeerCertificate t = true ∧ ServerName t = "" ∧ VerifyConnection t = false) ∧
  (Transport p = VerifiedTLS →
     ∃ t, C_TLS c = Some t ∧ InsecureSkipVerify t = false ∧ ServerName t = C_Host c ∧
       (VerifyPeerCertificate t = false ∧ VerifyConnection t = false)).
Proof.
  unfold check_tls, plaintext, TLS_free. intros H _.
  destruct (bool_decide (Transport p = LocalIdentityProxy)) eqn:E1;
    [apply bool_decide_eq_true in E1; rewrite E1|].
  { apply refuse_ok, orb_false_iff in H as [Ht%bool_decide_eq_false Hp%negb_false_iff%bool_decide_eq_true].
    split_and!; try (by intros [=]); [|by intros [[=]|[=]]]. intros _. split; [|done].
    destruct (C_TLS c); [by destruct Ht|done]. }
  apply bool_decide_eq_false in E1.
  destruct (bool_decide (Transport p = MeshProtected) || bool_decide (Transport p = LocalLoopback)) eqn:E2.
  { apply refuse_ok, bool_decide_eq_false in H. apply orb_true_iff in E2. rewrite !bool_decide_eq_true in E2.
    split_and!; [done| |destruct E2 as [-> | ->]; discriminate..].
    intros _. destruct (C_TLS c); [by destruct H|done]. }
  apply orb_false_iff in E2 as [E2%bool_decide_eq_false E3%bool_decide_eq_false].
  destruct (C_TLS c) as [t|]; [|discriminate].
  split_and!; [done|by intros [?|?]|intros Et..].
  - rewrite bool_decide_eq_true_2 in H by done. apply refuse_ok in H.
    apply orb_false_iff in H as [[[_ Hv%negb_false_iff]%orb_false_iff
      Hn%negb_false_iff%bool_decide_eq_true]%orb_false_iff Hc]. eauto.
  - rewrite bool_decide_eq_false_2 in H by (by rewrite Et). apply refuse_ok in H.
    apply orb_false_iff in H as [[[Hi Hn%negb_false_iff%bool_decide_eq_true]%orb_false_iff Hv]%orb_false_iff Hc].
    eauto 6.
Qed.

Lemma check_params_ok p q c :
  each (check_runtime_param p q) (map_to_list (C_RuntimeParams c)) = Ok tt →
  ∀ k v, C_RuntimeParams c !! k = Some v →
    (k = "role" ∧ v = ApplicationRole p ∧ v ≠ "") ∨ (k = "application_name" ∧ Transport p = VerifiedTLS).
Proof.
  intros H%each_ok k v Hkv. rewrite Forall_forall in H.
  specialize (H (k, v)). rewrite elem_of_map_to_list in H. specialize (H Hkv).
  apply refuse_ok, negb_false_iff, orb_true_iff in H as [H|H];
    rewrite !andb_true_iff, ?negb_true_iff, !bool_decide_eq_true, ?bool_decide_eq_false in H.
  - left. destruct H as [[? ->] ?]. done.
  - right. by destruct H as [[? ?] ?].
Qed.

Lemma check_parameter_ok p key values :
  (key = "passfile" → head values = Some "/dev/null") → check_parameter p (key, values) = Ok tt →
  ∃ value, values = [value] ∧ contains_any value line_bytes = false ∧ admissible p key value.
Proof.
  intros Hpf. unfold check_parameter, admissible. destruct values as [|value [|]]; try by intros ?%refuse_ok.
  intros (u0 & Hl%refuse_ok & H)%bind_ok. exists value. do 2 (split; [done|]).
  destruct (decide (key = "role")) as [->|N1].
  { left. rewrite bool_decide_eq_true_2 in H by done.
    apply refuse_ok, orb_false_iff in H as [H1%bool_decide_eq_false H2%negb_false_iff%bool_decide_eq_true].
    split_and!; congruence. }
  rewrite bool_decide_eq_false_2 in H by done. right.
  destruct (decide (key = "sslmode")) as [->|N2]; [by left|right].
  destruct (decide (key = "passfile")) as [->|N3]; [left; split; [done|]; by injection (Hpf eq_refl)|right].
  rewrite (bool_decide_eq_false_2 (key ∈ _)) in H by (rewrite !elem_of_cons, elem_of_nil; naive_solver).
  case_bool_decide as N4.
  { left. by apply refuse_ok, negb_false_iff, bool_decide_eq_true in H. }
  right. case_bool_decide as N5.
  { left. apply refuse_ok, orb_false_iff in H as [H1%negb_false_iff%bool_decide_eq_true H2%negb_false_iff%bool_decide_eq_true]. done. }
  right. case_bool_decide as N6; [|by apply refuse_ok in H]. split; [done|].
  apply refuse_ok, negb_false_iff, bool_decide_eq_true in H. rewrite !elem_of_cons, elem_of_nil in H. naive_solver.
Qed.

Lemma check_url_ok u ui :
  check_url u = Ok ui →
  User u = Some ui ∧ username ui ≠ "" ∧ (Scheme u = "postgres" ∨ Scheme u = "postgresql") ∧ (Opaque u = "" ∧ Fragment u = "") ∧
  (has_prefix (Path u) "/" = true ∧ Path u ≠ "/" ∧ contains_any (trim_prefix (Path u) "/") ("/" +:+ line_bytes) = false) ∧
  contains_any (username ui) line_bytes = false.
Proof.
  unfold check_url. intros ([] & H1%refuse_ok & H)%bind_ok. destruct (User u) as [ui'|]; [|done].
  apply bind_ok in H as ([] & H2%refuse_ok & [= ->]).
  repeat match goal with H : _ || _ = false |- _ => apply orb_false_iff in H as [? ?] end.
  repeat match goal with
         | H : negb _ = false |- _ => apply negb_false_iff in H
         | H : bool_decide _ = true |- _ => apply bool_decide_eq_true in H
         | H : bool_decide _ = false |- _ => apply bool_decide_eq_false in H end.
  split_and!; try done.
  match goal with H : Scheme u ∈ _ |- _ => rewrite !elem_of_cons, elem_of_nil in H; naive_solver end.
Qed.

(** The endpoint a parse settled on satisfies what its transport asks. *)
Lemma protected_ok `{!DriverLaws d} p c c' :
  validate p = Ok tt → Transport p ∈ transports → check_tls p c (C_Host c) = Ok tt →
  (Transport p = LocalIdentityProxy →
     is_abs (C_Host c) = true ∧ path_clean (C_Host c) = C_Host c ∧ C_Host c ≠ "/" ∧
     0 < C_Port c < 2 ^ 16 ∧ len (C_Host c +:+ "/.s.PGSQL." +:+ itoa_nat (C_Port c)) ≤ 103) →
  (Transport p = LocalLoopback → C_Host c = "localhost" ∨ loopback_ip (C_Host c) = true) →
  (if bool_decide (ServerTrustAnchorPEM p = "") then Ok c
   else pool ← serverTrustAnchor (ServerTrustAnchorPEM p); Ok (with_roots c pool)) = Ok c' →
  protected p c'.
Proof.
  intros (_ & Hpin & Hanchor)%profile_validate_ok Ht Htls Hproxy Hloop Hc'.
  destruct (check_tls_ok p c tt Htls Ht) as (Hlip & Hfree & Hpa & Hv).
  unfold protected. destruct (bool_decide (ServerTrustAnchorPEM p = "")) eqn:Ea.
  - apply bool_decide_eq_true in Ea. injection Hc' as <-.
    repeat case_bool_decide; [split_and!; naive_solver|by auto|by auto|by destruct (Hpin H2)|].
    unfold transports in Ht. rewrite !elem_of_cons in Ht.
    destruct Hv as (t & ? & ? & ? & ? & ?); [naive_solver by set_solver|]. exists t. by split_and!; [..|intros []].
  - apply bool_decide_eq_false in Ea. apply bind_ok in Hc' as (pool & Hpool & [= <-]).
    pose proof (serverTrustAnchor_pinned _ _ Hpool) as Hpp.
    destruct (Hanchor Ea) as [[Et|Et] _]; rewrite Et; cbn [with_roots C_TLS C_Host].
    + destruct (Hv Et) as (t & Ec & ? & ? & ? & ?). rewrite Ec. eexists. split_and!; [done..|]. intros _. by exists pool.
    + destruct (Hpa Et) as (t & Ec & ? & ? & ?). rewrite Ec. by eexists _, pool.
Qed.

(** The endpoint is the one the URL names, and the mode the one the transport states. *)
Lemma endpoint_declared p u q (password : option string) hook host port :
  Transport p ∈ transports →
  (if bool_decide (Transport p = LocalIdentityProxy) then proxy_endpoint u q (bool_decide (is_Some password)) hook
   else tcp_endpoint p u q) = Ok (host, port) →
  stated_sslmode p (query_get q "sslmode") ∧
  (∀ values, q !! "passfile" = Some values → head values = Some "/dev/null") ∧
  (Transport p = LocalIdentityProxy → password = None) ∧
  0 < port < 2 ^ 16 ∧
  if bool_decide (Transport p = LocalIdentityProxy)
  then Host u = "" ∧ host = query_get q "host" ∧ itoa_nat port = query_get q "port" ∧
       contains_any host ("," +:+ line_bytes) = false ∧ contains host ".s.PGSQL." = false
  else host = Hostname u ∧ host ≠ "" ∧ contains_any host (",/" +:+ line_bytes) = false ∧
       (if bool_decide (Port u = "") then port = 5432 else parse_uint 16 (Port u) = Some port).
Proof.
  intros Ht H. destruct (bool_decide (Transport p = LocalIdentityProxy)) eqn:E.
  - apply bool_decide_eq_true in E.
    apply proxy_endpoint_ok in H as (Hp & _ & _ & _ & Hport & _ & Hu & Hh & Hpo & Hs & Hf & Hb & Hc).
    apply bool_decide_eq_false in Hp. split_and!; try done; try lia.
    + unfold stated_sslmode. rewrite E. split_and!; try discriminate. done.
    + intros values Ev. unfold query_get in Hf. rewrite Ev in Hf. destruct values; [done|]. cbn. by rewrite Hf.
    + intros _. destruct password; [by destruct Hp|done].
  - apply bool_decide_eq_false in E.
    apply tcp_endpoint_ok in H as (Hne & -> & Hs & _ & Hport & Hb & Hp & Hf). split_and!; try done; try lia.
    rewrite Hs. unfold stated_sslmode, required_sslmode, plaintext. split_and!.
    + intros [H|[H|[H|[]%not_elem_of_nil]%elem_of_cons]%elem_of_cons]%elem_of_cons; [by destruct E|by rewrite H..].
    + by intros ->.
    + by intros ->.
Qed.

(** C15: an accepted explicit connection is, whatever the driver does with the
    URL, exactly what the URL and the profile say: no ambient PG* setting, a
    canonical URL whose parameters are each given once and are ones the transport
    admits, with the sslmode the transport stands for; the URL's one host and port
    (5432 where it names none; a proxy's socket and port come from its query), its
    database, user and password and no other host to fall back to, the
    profile's role and nothing else as a startup parameter (an application name
    under verified TLS apart), the fields the profile binds, no password under a
    token hook, and the transport's protection: verified hostname, pinned
    unexpired authority, loopback, or a private socket without credentials. *)
Theorem ParseConnection_sound `{!DriverLaws d} connection p hook c :
  ParseConnection connection p hook = Ok c → Transport p ≠ "" →
  ∃ u ui q, Parse connection = Ok u ∧ User u = Some ui ∧ ParseQuery (RawQuery u) = Ok q ∧
    Forall (λ entry, has_prefix entry "PG" = false) Environ ∧
    declared p u ui q ∧ addressed p u q c ∧
    C_Database c = trim_prefix (Path u) "/" ∧ C_User c = username ui ∧ C_User c ≠ "" ∧
    C_Password c = default "" (user_password ui) ∧ C_Fallbacks c = 0 ∧
    (hook = true → C_Password c = "") ∧
    query_get q "role" = ApplicationRole p ∧
    (∀ k v, C_RuntimeParams c !! k = Some v →
       (k = "role" ∧ v = ApplicationRole p ∧ v ≠ "") ∨
       (k = "application_name" ∧ Transport p = VerifiedTLS)) ∧
    bound p c ∧ protected p c.
Proof.
  unfold ParseConnection. intros H Hne.
  apply bind_ok in H as ([] & Hval%collapse_ok & H). rewrite bool_decide_eq_false_2 in H by done.
  apply bind_ok in H as ([] & Henv%refuse_ok & H). apply bind_ok in H as (u & Hu%collapse_ok & H).
  apply bind_ok in H as (ui & Hui & H). apply bind_ok in H as (q & Hq%collapse_ok & H).
  apply bind_ok in H as ([] & Hkeys%each_ok & H). apply bind_ok in H as ([] & Hrole%refuse_ok & H).
  apply bind_ok in H as ([] & Hpass%refuse_ok & H). apply bind_ok in H as ([] & Hhook%refuse_ok & H).
  apply bind_ok in H as ([host port] & Hend & H). apply bind_ok in H as (c0 & _ & H).
  apply bind_ok in H as ([] & Hid & H). apply bind_ok in H as ([] & Hpar & H).
  apply bind_ok in H as ([] & Htls & H).
  apply check_identity_ok in Hid as [(<- & <- & Hdb & Huser & Hpw & Hfb) Hbound].
  apply check_url_ok in Hui as (Eu & Hn & Hscheme & Hplain & Hpath & Hline).
  assert (Ht : Transport p ∈ transports).
  { destruct (proj1 (profile_validate_ok p Hval)) as [[E _]|E]; [by destruct Hne|done]. }
  assert (Hfields : C_Database c = C_Database c0 ∧ C_User c = C_User c0 ∧ C_Password c = C_Password c0 ∧
    C_Fallbacks c = C_Fallbacks c0 ∧ C_RuntimeParams c = C_RuntimeParams c0 ∧ C_Host c = C_Host c0 ∧
    C_Port c = C_Port c0).
  { clear -H. case_bool_decide; [by injection H as <-|]. by apply bind_ok in H as (pool & _ & [= <-]). }
  destruct Hfields as (F1 & F2 & F3 & F4 & F5 & F6 & F7).
  assert (Hq' : ∀ key values, q !! key = Some values → check_parameter p (key, values) = Ok tt).
  { intros key values E. rewrite Forall_forall in Hkeys. apply (Hkeys (key, values)), elem_of_map_to_list, E. }
  destruct (endpoint_declared p u q (user_password ui) hook _ _ Ht Hend) as (Hmode & Hpf & Hpwd & Haddr).
  exists u, ui, q. rewrite F1, F2, F3, F4, F5. split_and!; try done.
  - by rewrite Forall_existsb_false in Henv.
  - constructor; try done. intros key values E. apply check_parameter_ok; [|by apply Hq'].
    intros ->. by apply Hpf.
  - unfold addressed. rewrite F6, F7. exact Haddr.
  - congruence.
  - intros ->. rewrite Hpw. destruct (user_password ui); [|done].
    cbn [andb] in Hhook. by apply bool_decide_eq_false in Hhook as [].
  - by apply negb_false_iff, bool_decide_eq_true in Hrole.
  - by apply (check_params_ok p (driver_query q)).
  - unfold bound. rewrite F6, F7, F1, F2. exact Hbound.
  - eapply protected_ok; [exact Hval|exact Ht|exact Htls| | |exact H].
    + intros E. rewrite bool_decide_eq_true_2 in Hend by done. by apply proxy_endpoint_ok in Hend as (_ & ? & ? & ? & ? & ? & _).
    + intros E. rewrite bool_decide_eq_false_2 in Hend by (by rewrite E).
      apply tcp_endpoint_ok in Hend as (_ & _ & _ & Hl & _). auto.
Qed.
End sound.

(** ** A driver to run on *)

Definition example_tls (mode host : string) : option TLSConfig :=
  if bool_decide (mode = "verify-full") then
    Some {| InsecureSkipVerify := false; ServerName := host; VerifyPeerCertificate := false;
            VerifyConnection := false; RootCAs := None |}
  else if bool_decide (mode = "verify-ca") then
    Some {| InsecureSkipVerify := true; ServerName := ""; VerifyPeerCertificate := true;
            VerifyConnection := false; RootCAs := None |}
  else None.

Definition example_parse (connection : string) : result PoolConfig :=
  u ← Parse connection;
  q ← ParseQuery (RawQuery u);
  let host := if bool_decide (Hostname u = "") then query_get q "host" else Hostname u in
  let ui := default {| username := ""; user_password := None |} (User u) in
  Ok {| C_Host := host; C_Port := default 5432 (parse_uint 16 (Port u));
        C_Database := trim_prefix (Path u) "/"; C_User := username ui;
        C_Password := default "" (user_password ui); C_Fallbacks := 0;
        C_RuntimeParams := match q !! "role" with Some [r] => {["role" := r]} | _ => ∅ end;
        C_TLS := example_tls (query_get q "sslmode") host |}.

Definition example_driver : Driver := {|
  pem_Decode s := match s with
                  | String.String c rest =>
                    if bool_decide (c = "A"%char)
                    then Some ({| B_Type := "CERTIFICATE"; B_Bytes := "root" |}, rest) else None
                  | "" => None
                  end;
  ParseCertificate b := Ok {| IsCA := true; NotAfter := 100; CommonName := b; Raw := b |};
  now := 5;
  Environ := ["HOME=/root"];
  loopback_ip h := bool_decide (h = "127.0.0.1");
  ParseConfig := example_parse;
|}.

#[export] Instance example_driver_laws : DriverLaws example_driver.
Proof.
  split. intros [|c s] b rest; simpl; [done|]. case_bool_decide; [|done]. intros [= <- <-].
  rewrite !len_bytes. simpl. lia.
Qed.

Lemma serverTrustAnchor_total_witness :
  ∃ bs, pem_blocks (d := example_driver) "AA" bs ∧
    ∀ pool, serverTrustAnchor (d := example_driver) "AA" = Ok pool ↔
      bs ≠ [] ∧ Forall2 (authority (d := example_driver)) bs pool.
Proof. exact (proj2 (serverTrustAnchor_total (d := example_driver) "AA")). Defined.

Definition example_profile : ConnectionProfile :=
  {| Transport := PinnedAuthorityTLS; ApplicationRole := "app"; CP_Host := "10.0.0.7"; CP_Port := 0;
     CP_Database := "store"; CP_User := ""; ServerTrustAnchorPEM := "A" |}.
Definition example_connection : string :=
  "postgres://reader@10.0.0.7:6000/store?sslmode=verify-ca&role=app".

Lemma ParseConnection_sound_witness :
  ∃ c, ParseConnection (d := example_driver) example_connection example_profile true = Ok c ∧
    C_User c ≠ "" ∧ protected (d := example_driver) example_profile c.
Proof.
  assert (H : is_ok (ParseConnection (d := example_driver) example_connection example_profile true) = true)
    by (vm_compute; reflexivity).
  destruct (ParseConnection (d := example_driver) example_connection example_profile true) as [c|] eqn:E;
    [|discriminate H].
  exists c. split; [reflexivity|].
  destruct (ParseConnection_sound (d := example_driver) _ _ _ _ E)
    as (u & ui & q & _ & _ & _ & _ & _ & _ & _ & _ & Hu & _ & _ & _ & _ & _ & _ & Hp); [discriminate|].
  split; [exact Hu|exact Hp].
Defined.

(** An application name is admitted in the URL of a pinned-authority connection,
    and refused once the driver has made it a startup parameter. *)
Lemma pinned_application_name_refused p name q :
  Transport p = PinnedAuthorityTLS →
  check_parameter p ("application_name", [name]) = refuse (contains_any name line_bytes) ∧
  check_runtime_param p q ("application_name", name) = Err (ENew ErrConnectionProfile []).
Proof.
  intros Ht. split.
  - unfold check_parameter. rewrite Ht. by destruct (contains_any name line_bytes).
  - unfold check_runtime_param. by rewrite Ht.
Qed.

#[global] Arguments ParseConnection : simpl never.
#[global] Arguments serverTrustAnchor : simpl never.
