(* ===== verification/Json.v ===== *)
(** Go's [encoding/json] as the program uses it: how strings and values are
    written (with and without HTML escaping), and that what is written determines
    what was. *)
From S2P Require Import Prelude GoStrings Sha256 Url.

Definition quote : ascii := chr 34.
Definition backslash : ascii := chr 92.

(** ** Strings *)

Definition html_byte (c : ascii) : bool := one_of "<>&" c.

(** What an ASCII byte is written as inside a string. *)
Definition ascii_escape (html : bool) (c : ascii) : list ascii :=
  let z := code c in
  if (z =? 34) || (z =? 92) then [backslash; c]
  else if z =? 8 then [backslash; "b"%char]
  else if z =? 12 then [backslash; "f"%char]
  else if z =? 10 then [backslash; "n"%char]
  else if z =? 13 then [backslash; "r"%char]
  else if z =? 9 then [backslash; "t"%char]
  else if (z <? 32) || (html && html_byte c)
  then [backslash; "u"%char; "0"%char; "0"%char; hex_digit (z / 16); hex_digit (z mod 16)]
  else [c].

(** One rune of a string: what it is written as, and how many bytes it took. *)
Definition escape_rune (html : bool) (l : list ascii) : list ascii * nat :=
  match l with
  | [] => ([], 0%nat)
  | c :: _ =>
    if code c <? 128 then (ascii_escape html c, 1%nat)
    else
      let '(r, n) := decode_rune (code <$> l) in
      if (r =? rune_error) && bool_decide (n = 1%nat) then (backslash :: bytes "ufffd", 1%nat)
      else if (r =? 8232) || (r =? 8233)
      then (backslash :: bytes "u202" ++ [hex_digit (r mod 16)], n)
      else (take n l, n)
  end.

Fixpoint escape_runes (fuel : nat) (html : bool) (l : list ascii) : list ascii :=
  match fuel with
  | O => []
  | S fuel =>
    match l with
    | [] => []
    | _ => let '(out, n) := escape_rune html l in out ++ escape_runes fuel html (drop n l)
    end
  end.

Definition string_body (html : bool) (s : string) : list ascii :=
  escape_runes (length (bytes s)) html (bytes s).
Definition encode_string (html : bool) (s : string) : string :=
  of_bytes ([quote] ++ string_body html s ++ [quote]).

(** ** Values *)

Inductive json :=
  | JNull
  | JBool (b : bool)
  | JNumber (n : Z)
  | JString (s : string)
  | JArray (l : list json)
  | JObject (l : list (string * json)).

(** Decimal rendering of a signed integer. *)
Definition itoa (n : Z) : string := if n <? 0 then "-" +:+ itoa_nat (- n) else itoa_nat n.

Fixpoint encode_value (html : bool) (v : json) : string :=
  match v with
  | JNull => "null"
  | JBool b => if b then "true" else "false"
  | JNumber n => itoa n
  | JString s => encode_string html s
  | JArray l => "[" +:+ join "," (map (encode_value html) l) +:+ "]"
  | JObject l =>
    "{" +:+ join "," (map (λ p, encode_string html p.1 +:+ ":" +:+ encode_value html p.2) l) +:+ "}"
  end.

(** [json.Marshal] of a slice of strings; a nil slice is null. *)
Definition Marshal_strings (l : list string) : string :=
  encode_value true (if bool_decide (l = []) then JNull else JArray (JString <$> l)).

(** ** Reading a string back *)

Definition unhex4 (a b c d : ascii) : Z := ((unhex a * 16 + unhex b) * 16 + unhex c) * 16 + unhex d.

(** The bytes of the escapes the encoder writes. *)
Definition unescape_u (z : Z) : list ascii :=
  if z <? 128 then [chr z]
  else [chr (224 + z / 4096); chr (128 + (z / 64) mod 64); chr (128 + z mod 64)].
Definition unescape_short (c : ascii) : ascii :=
  if bool_decide (c = "b"%char) then chr 8 else if bool_decide (c = "f"%char) then chr 12
  else if bool_decide (c = "n"%char) then chr 10 else if bool_decide (c = "r"%char) then chr 13
  else if bool_decide (c = "t"%char) then chr 9 else c.

(** The string before the first unescaped quote, and what follows the quote. *)
Fixpoint unquote (l : list ascii) : option (list ascii * list ascii) :=
  match l with
  | [] => None
  | c :: l =>
    if decide (c = quote) then Some ([], l)
    else if decide (c = backslash) then
      match l with
      | [] => None
      | e :: l =>
        if decide (e = "u"%char) then
          match l with
          | a :: b :: c :: d :: l =>
            prod_map (app (unescape_u (unhex4 a b c d))) id <$> unquote l
          | _ => None
          end
        else prod_map (cons (unescape_short e)) id <$> unquote l
      end
    else prod_map (cons c) id <$> unquote l
  end.

(** Valid UTF-8 ([utf8.Valid]): no rune of it is a decoding error. *)
Fixpoint valid_runes (fuel : nat) (l : list ascii) : bool :=
  match fuel with
  | O => true
  | S fuel =>
    match l with
    | [] => true
    | _ => let '(r, n) := decode_rune (code <$> l) in
           negb ((r =? rune_error) && bool_decide (n = 1%nat)) && valid_runes fuel (drop n l)
    end
  end.
Definition valid_utf8 (s : string) : bool := valid_runes (length (bytes s)) (bytes s).

(** ** Strings are read back *)

Definition escape_ok (c : ascii) (l : list ascii) : bool :=
  match l with
  | [x] => bool_decide (x = c) && negb (bool_decide (c = quote)) && negb (bool_decide (c = backslash))
  | [b; e] => bool_decide (b = backslash) && negb (bool_decide (e = "u"%char))
              && bool_decide (unescape_short e = c)
  | [b; u; x; y; z; w] => bool_decide (b = backslash) && bool_decide (u = "u"%char)
                          && bool_decide (unescape_u (unhex4 x y z w) = [c])
  | _ => false
  end.

Lemma ascii_escape_ok html c : code c < 128 → escape_ok c (ascii_escape html c) = true.
Proof.
  intros Hc. assert (H : negb (code c <? 128) || escape_ok c (ascii_escape html c) = true).
  { clear Hc. revert c. apply byte_forall. by destruct html; vm_compute. }
  by rewrite (proj2 (Z.ltb_lt _ _) Hc) in H.
Qed.

Lemma unquote_plain c rest :
  c ≠ quote → c ≠ backslash → unquote (c :: rest) = prod_map (cons c) id <$> unquote rest.
Proof. intros. cbn [unquote]. by rewrite !decide_False. Qed.

Lemma unquote_escaped c l rest :
  escape_ok c l = true → unquote (l ++ rest) = prod_map (cons c) id <$> unquote rest.
Proof.
  assert (Hbq : backslash ≠ quote) by discriminate.
  destruct l as [|x [|y [|z [|w [|v [|t [|? ?]]]]]]]; simpl escape_ok; try done.
  - rewrite !andb_true_iff, !negb_true_iff, !bool_decide_eq_true, !bool_decide_eq_false.
    intros [[-> ?] ?]. by apply unquote_plain.
  - rewrite !andb_true_iff, negb_true_iff, !bool_decide_eq_true, bool_decide_eq_false.
    intros [[-> Hu] <-]. cbn [app unquote]. rewrite decide_False, decide_True, decide_False by done. done.
  - rewrite !andb_true_iff, !bool_decide_eq_true. intros [[-> ->] E].
    cbn [app unquote]. rewrite decide_False, !decide_True by done. by rewrite E.
Qed.

Lemma unquote_high l rest :
  Forall (λ c, 128 ≤ code c) l → unquote (l ++ rest) = prod_map (app l) id <$> unquote rest.
Proof.
  induction 1 as [|c l Hc _ IH]; cbn [app]; [by destruct (unquote rest) as [[? ?]|]|].
  rewrite unquote_plain; [|by intros ->|by intros ->].
  rewrite IH. by destruct (unquote rest) as [[? ?]|].
Qed.

(** What decoding a rune that starts with a high byte consumes. *)
Lemma decode_high b0 l r n :
  128 ≤ b0 → decode_rune (b0 :: l) = (r, n) →
  (1 ≤ n)%nat ∧ Forall (λ b, 128 ≤ b) (take n (b0 :: l)) ∧
  (r = 8232 ∨ r = 8233 → take n (b0 :: l) = [226; 128; 168 + (r - 8232)]).
Proof.
  intros Hb. unfold decode_rune. rewrite (proj2 (Z.ltb_ge _ _)) by lia.
  unfold is_cont, in_range, rune_error.
  repeat case_match; intros [= <- <-]; simplify_eq;
    repeat match goal with H : _ && _ = true |- _ => apply andb_true_iff in H as [? ?] end;
    rewrite ?Z.leb_le, ?Z.eqb_eq, ?Z.leb_gt, ?Z.eqb_neq in *; cbn [take];
    (split; [lia|]); (split; [repeat constructor; lia|]); try (intros [?|?]; lia);
    intros Hr; repeat f_equal; lia.
Qed.

#[export] Instance code_inj : Inj (=) (=) code.
Proof. intros a b H. rewrite <-(ascii_N_embedding a), <-(ascii_N_embedding b). f_equal. unfold code in H. lia. Qed.

Lemma escape_rune_ok html c l rest out n :
  escape_rune html (c :: l) = (out, n) →
  negb (let '(r, n) := decode_rune (code <$> (c :: l)) in (r =? rune_error) && bool_decide (n = 1%nat)) = true →
  (1 ≤ n)%nat ∧ unquote (out ++ rest) = prod_map (app (take n (c :: l))) id <$> unquote rest ∧
  snd (decode_rune (code <$> (c :: l))) = n.
Proof.
  unfold escape_rune. destruct (code c <? 128) eqn:Ec.
  - apply Z.ltb_lt in Ec. intros [= <- <-] _. split; [lia|]. split.
    + rewrite (unquote_escaped c) by (by apply ascii_escape_ok). cbn [take]. done.
    + rewrite fmap_cons. unfold decode_rune. by rewrite (proj2 (Z.ltb_lt _ _) Ec).
  - apply Z.ltb_ge in Ec. rewrite fmap_cons.
    destruct (decode_rune (code c :: (code <$> l))) as [r m] eqn:Ed.
    destruct (decode_high _ _ _ _ Ec Ed) as (Hm & Hall & Hline).
    intros Hout Hv%negb_true_iff. rewrite Hv in Hout.
    rewrite <-fmap_cons, <-fmap_take in Hall, Hline.
    destruct ((r =? 8232) || (r =? 8233)) eqn:Er; injection Hout as <- <-.
    + split; [done|]. split; [|done]. apply orb_true_iff in Er. rewrite !Z.eqb_eq in Er.
      specialize (Hline Er).
      assert (Ht : take m (c :: l) = unescape_u r).
      { apply (inj (fmap code)). rewrite Hline.
        by destruct Er as [-> | ->]; vm_compute. }
      rewrite Ht. clear -Er. by destruct Er as [-> | ->].
    + split; [done|]. split; [|done]. apply unquote_high. by rewrite Forall_fmap in Hall.
Qed.

Lemma unquote_runes html fuel l rest :
  (length l ≤ fuel)%nat → valid_runes fuel l = true →
  unquote (escape_runes fuel html l ++ quote :: rest) = Some (l, rest).
Proof.
  revert l. induction fuel as [|fuel IH]; intros [|c l] Hl Hv; simpl in Hl; try lia; try done.
  cbn [valid_runes escape_runes] in *.
  destruct (escape_rune html (c :: l)) as [out n] eqn:E.
  destruct (decode_rune (code <$> c :: l)) as [r m] eqn:Ed.
  apply andb_true_iff in Hv as [Hne Hrest].
  destruct (escape_rune_ok html c l (escape_runes fuel html (drop n (c :: l)) ++ quote :: rest) out n E)
    as (Hn & Hq & Hm); [by rewrite Ed|]. rewrite Ed in Hm. simpl in Hm. subst m.
  rewrite <-app_assoc, Hq, IH; [|rewrite length_drop; simpl; lia|done].
  cbn [fmap option_fmap option_map prod_map]. unfold prod_map. simpl.
  by rewrite take_drop.
Qed.

Lemma unquote_string html s rest :
  valid_utf8 s = true → unquote (string_body html s ++ quote :: rest) = Some (bytes s, rest).
Proof. intros H. by apply unquote_runes. Qed.

(** A written string, whatever follows it, determines the string. *)
Lemma encode_string_inj html s s' r r' :
  valid_utf8 s = true → valid_utf8 s' = true →
  bytes (encode_string html s) ++ r = bytes (encode_string html s') ++ r' → s = s' ∧ r = r'.
Proof.
  intros Hs Hs' H. unfold encode_string in H. rewrite !bytes_of_bytes in H. simpl in H.
  injection H as H. rewrite <-!app_assoc in H. apply (f_equal unquote) in H. cbn [app] in H.
  rewrite !unquote_string in H by done. injection H as H ->. by apply (inj bytes) in H.
Qed.

(** ** Values are determined by what is written *)

(** Every string of a value is valid UTF-8. *)
Fixpoint utf8_value (v : json) : bool :=
  match v with
  | JString s => valid_utf8 s
  | JArray l => forallb utf8_value l
  | JObject l => forallb (λ p, valid_utf8 p.1 && utf8_value p.2) l
  | _ => true
  end.

Lemma json_nested_ind (P : json → Prop) :
  P JNull → (∀ b, P (JBool b)) → (∀ n, P (JNumber n)) → (∀ s, P (JString s)) →
  (∀ l, Forall P l → P (JArray l)) → (∀ l, Forall (λ p, P p.2) l → P (JObject l)) → ∀ v, P v.
Proof.
  intros Hn Hb Hz Hs Ha Ho. fix IH 1. intros [|b|n|s|l|l]; [done|done|done|done|apply Ha|apply Ho];
    (induction l as [|x l IHl]; constructor; [apply IH|exact IHl]).
Qed.

(** What may follow a value: the end, or a delimiter. *)
Definition delimited (r : list ascii) : Prop :=
  match r with [] => True | c :: _ => c ∈ bytes ",]}" end.

Definition number_byte (c : ascii) : bool := is_digit (code c) || bool_decide (c = "-"%char).

Lemma number_bytes n : all_bytes number_byte (itoa n) = true ∧ itoa n ≠ "".
Proof.
  assert (Hnat : ∀ m, 0 ≤ m → all_bytes number_byte (itoa_nat m) = true ∧ itoa_nat m ≠ "").
  { intros m Hm. destruct (itoa_nat_spec m Hm) as [Hd _]. split.
    - eapply all_bytes_impl; [|exact Hd]. intros c Hc. unfold number_byte. by rewrite Hc.
    - apply itoa_nat_nonempty. }
  unfold itoa. destruct (Z.ltb_spec n 0).
  - destruct (Hnat (- n)) as [Ha _]; [lia|]. rewrite all_bytes_app, Ha. split; [done|].
    intros E%(f_equal len). rewrite len_app in E. change (len "-") with 1 in E. change (len "") with 0 in E.
    pose proof (len_nonneg (itoa_nat (- n))). lia.
  - by apply Hnat.
Qed.

Lemma itoa_inj n m : itoa n = itoa m → n = m.
Proof.
  assert (Hneg : ∀ a b, 0 ≤ b → "-" +:+ itoa_nat a ≠ itoa_nat b).
  { intros a b Hb E. pose proof (proj1 (itoa_nat_spec b Hb)) as Hd. rewrite <-E, all_bytes_app in Hd. done. }
  unfold itoa. destruct (Z.ltb_spec n 0), (Z.ltb_spec m 0); intros E.
  - apply append_inj_r, itoa_nat_inj in E; lia.
  - by destruct (Hneg (- n) m).
  - by destruct (Hneg (- m) n).
  - by apply itoa_nat_inj.
Qed.

(** Two runs of bytes of one class, each ended by a byte outside it. *)
Lemma run_unique (P : ascii → bool) a b r r' :
  forallb P a = true → forallb P b = true →
  (∀ c, head r = Some c → P c = false) → (∀ c, head r' = Some c → P c = false) →
  a ++ r = b ++ r' → a = b ∧ r = r'.
Proof.
  revert b. induction a as [|x a IH]; intros [|y b]; cbn [forallb app].
  - done.
  - intros _ [Hy _]%andb_true_iff Hr _ ->. by rewrite (Hr y) in Hy.
  - intros [Hx _]%andb_true_iff _ _ Hr E. by rewrite (Hr x) in Hx by (by rewrite <-E).
  - intros [? Ha]%andb_true_iff [? Hb]%andb_true_iff Hr Hr' [= -> E].
    by destruct (IH b Ha Hb Hr Hr' E) as [-> ->].
Qed.

Lemma delimited_not_number r : delimited r → ∀ c, head r = Some c → number_byte c = false.
Proof.
  destruct r as [|c r]; [done|]. intros Hd c' [= <-]. unfold delimited in Hd.
  assert (H : negb (one_of ",]}" c) || negb (number_byte c) = true) by (clear Hd; revert c; apply byte_forall; by vm_compute).
  unfold one_of in H. rewrite bool_decide_eq_true_2 in H by done. simpl in H. by apply negb_true_iff in H.
Qed.

(** The kind of a value shows in its first byte. *)
Definition first_class (c : ascii) : nat :=
  if number_byte c then 0 else if bool_decide (c = quote) then 1 else if bool_decide (c = "["%char) then 2
  else if bool_decide (c = "{"%char) then 3 else if bool_decide (c = "n"%char) then 4
  else if bool_decide (c = "t"%char) then 5 else if bool_decide (c = "f"%char) then 6 else 7.
Definition value_class (v : json) : nat :=
  match v with
  | JNumber _ => 0 | JString _ => 1 | JArray _ => 2 | JObject _ => 3 | JNull => 4
  | JBool b => if b then 5 else 6
  end.

Lemma encode_first html v : ∃ c l, bytes (encode_value html v) = c :: l ∧ first_class c = value_class v.
Proof.
  destruct v as [|[]|n|s|l|l]; try (by eexists _, _).
  - destruct (number_bytes n) as [Hb Hne]. simpl encode_value. rewrite <-bytes_nil in Hne. unfold all_bytes in Hb.
    destruct (bytes (itoa n)) as [|c l]; [done|]. exists c, l. split; [done|].
    simpl in Hb. apply andb_true_iff in Hb as [Hc _]. unfold first_class. by rewrite Hc.
Qed.

(** The items of an array or object after the first, and its closing bracket. *)
Definition tail_bytes {A} (enc : A → list ascii) (l : list A) (close : ascii) : list ascii :=
  (l ≫= λ x, ","%char :: enc x) ++ [close].

Lemma join_bytes (x : string) (l : list string) :
  bytes (join "," (x :: l)) = bytes x ++ (l ≫= λ y, ","%char :: bytes y).
Proof.
  revert x. induction l as [|y l IH]; intros x; [by rewrite app_nil_r|].
  change (join "," (x :: y :: l)) with (x +:+ "," +:+ join "," (y :: l)).
  rewrite !bytes_app, IH. done.
Qed.

(** Item lists are determined by what is written, when the items are. *)
Lemma items_inj {A} (enc : A → list ascii) (ok : A → Prop) (close : ascii) l l' r r' :
  close ∈ bytes "]}" →
  Forall (λ x, ∀ x' s s', ok x → ok x' → delimited s → delimited s' →
    enc x ++ s = enc x' ++ s' → x = x' ∧ s = s') l →
  Forall ok l → Forall ok l' →
  tail_bytes enc l close ++ r = tail_bytes enc l' close ++ r' → l = l' ∧ r = r'.
Proof.
  intros Hc Hinj. revert l'. unfold tail_bytes.
  assert (Hcomma : close ≠ ","%char) by (intros ->; by apply (bool_decide_unpack (","%char ∉ bytes "]}"))).
  assert (Hdel : ∀ k s, delimited (((k ≫= λ x : A, ","%char :: enc x) ++ [close]) ++ s)).
  { intros [|y k] s; simpl; [|by left]. right. exact Hc. }
  induction Hinj as [|x l Hx _ IH]; intros [|x' l'] Hok Hok' E; cbn [mbind list_bind app] in E.
  - by injection E.
  - injection E as E _. by destruct Hcomma.
  - injection E as E _. by destruct Hcomma.
  - apply Forall_cons in Hok as [Hox Hol], Hok' as [Hox' Hol']. injection E as E.
    rewrite <-!app_assoc in E.
    destruct (Hx x' _ _ Hox Hox' (Hdel l r) (Hdel l' r') ltac:(by rewrite <-!app_assoc)) as [-> E'].
    rewrite <-!app_assoc in E'. destruct (IH l' Hol Hol') as [-> ->]; [by rewrite <-!app_assoc|done].
Qed.

(** An array or object: its opening bracket, then its items. *)
Definition bracketed {A} (enc : A → list ascii) (l : list A) (open close : ascii) : list ascii :=
  open :: match l with [] => [close] | x :: l => enc x ++ tail_bytes enc l close end.

Lemma bracketed_inj {A} (enc : A → list ascii) (ok : A → Prop) (open close : ascii) l l' r r' :
  close ∈ bytes "]}" → (∀ x, ∃ c k, enc x = c :: k ∧ c ∉ bytes "]}") →
  Forall (λ x, ∀ x' s s', ok x → ok x' → delimited s → delimited s' →
    enc x ++ s = enc x' ++ s' → x = x' ∧ s = s') l →
  Forall ok l → Forall ok l' →
  bracketed enc l open close ++ r = bracketed enc l' open close ++ r' → l = l' ∧ r = r'.
Proof.
  intros Hc Hfirst Hinj Hok Hok' E. unfold bracketed in E. cbn [app] in E. injection E as E.
  assert (Hdel : ∀ (k : list A) s, delimited (tail_bytes enc k close ++ s)).
  { intros [|y k] s; simpl; [|by left]. right. exact Hc. }
  destruct l as [|x l], l' as [|x' l'].
  - by injection E.
  - destruct (Hfirst x') as (c & k & Ex & Hn). rewrite Ex in E. injection E as <- _. by destruct Hn.
  - destruct (Hfirst x) as (c & k & Ex & Hn). rewrite Ex in E. injection E as -> _. by destruct Hn.
  - apply Forall_cons in Hinj as [Hx Hl], Hok as [Hox Hol], Hok' as [Hox' Hol'].
    rewrite <-!app_assoc in E. destruct (Hx x' _ _ Hox Hox' (Hdel l r) (Hdel l' r') E) as [-> E'].
    by destruct (items_inj enc ok close l l' r r' Hc Hl Hol Hol' E') as [-> ->].
Qed.

Definition field_bytes (html : bool) (p : string * json) : list ascii :=
  bytes (encode_string html p.1 +:+ ":" +:+ encode_value html p.2).

Lemma encode_array html l :
  bytes (encode_value html (JArray l)) = bracketed (λ v, bytes (encode_value html v)) l "["%char "]"%char.
Proof.
  cbn [encode_value]. rewrite !bytes_app. unfold bracketed, tail_bytes. destruct l as [|v l]; [done|].
  cbn [map]. rewrite join_bytes, <-app_assoc. cbn [app]. do 2 f_equal.
  change (bytes "]") with ["]"%char]. f_equal. induction l as [|w l IH]; [done|].
  cbn [map mbind list_bind]. by rewrite IH.
Qed.
Lemma encode_object html l :
  bytes (encode_value html (JObject l)) = bracketed (field_bytes html) l "{"%char "}"%char.
Proof.
  cbn [encode_value]. rewrite !bytes_app. unfold bracketed, tail_bytes. destruct l as [|v l]; [done|].
  cbn [map]. rewrite join_bytes, <-app_assoc. cbn [app]. do 2 f_equal.
  change (bytes "}") with ["}"%char]. f_equal. induction l as [|w l IH]; [done|].
  cbn [map mbind list_bind]. by rewrite IH.
Qed.

Definition decodes (html : bool) (v : json) : Prop :=
  ∀ v' r r', utf8_value v = true → utf8_value v' = true → delimited r → delimited r' →
    bytes (encode_value html v) ++ r = bytes (encode_value html v') ++ r' → v = v' ∧ r = r'.

Lemma encoded_class html v v' r r' :
  bytes (encode_value html v) ++ r = bytes (encode_value html v') ++ r' → value_class v = value_class v'.
Proof.
  destruct (encode_first html v) as (c & l & -> & <-), (encode_first html v') as (c' & l' & -> & <-).
  by intros [= -> _].
Qed.

Lemma field_decodes html (p p' : string * json) r r' :
  decodes html p.2 → valid_utf8 p.1 && utf8_value p.2 = true → valid_utf8 p'.1 && utf8_value p'.2 = true →
  delimited r → delimited r' →
  field_bytes html p ++ r = field_bytes html p' ++ r' → p = p' ∧ r = r'.
Proof.
  intros Hd [Hk Hv]%andb_true_iff [Hk' Hv']%andb_true_iff Hr Hr' E. unfold field_bytes in E.
  rewrite !bytes_app, <-!app_assoc in E. apply encode_string_inj in E as [Ek E]; [|done..].
  injection E as E. destruct (Hd p'.2 r r' Hv Hv' Hr Hr' E) as [Ev ->].
  destruct p, p'; simpl in *. by subst.
Qed.

Lemma value_decodes html v : decodes html v.
Proof.
  induction v as [|b|n|s|l IH|l IH] using json_nested_ind; intros v' r r' Hu Hu' Hr Hr' E;
    pose proof (encoded_class _ _ _ _ _ E) as Hc.
  - destruct v' as [|[]| | | |]; try discriminate. by apply app_inv_head in E.
  - destruct b, v' as [|[]| | | |]; try discriminate; by apply app_inv_head in E.
  - destruct v' as [|[]|m| | |]; try discriminate. cbn [encode_value] in E.
    apply (run_unique number_byte) in E as [E ->]; [|apply number_bytes|apply number_bytes|by apply delimited_not_number|by apply delimited_not_number].
    apply (inj bytes), itoa_inj in E as ->. done.
  - destruct v' as [|[]| |s'| |]; try discriminate. cbn [encode_value] in E.
    by apply encode_string_inj in E as [-> ->].
  - destruct v' as [|[]| | |l'|]; try discriminate. rewrite !encode_array in E.
    cbn [utf8_value] in Hu, Hu'. rewrite Forall_forallb in Hu, Hu'.
    apply (bracketed_inj _ (λ v, utf8_value v = true)) in E as [-> ->]; try done.
    + by left.
    + intros x. destruct (encode_first html x) as (c & k & Ek & Hk). exists c, k. split; [done|].
      intros Hin. assert (H : first_class c = 7%nat).
      { repeat (apply elem_of_cons in Hin as [->|Hin]; [by vm_compute|]). by apply not_elem_of_nil in Hin. }
      rewrite H in Hk. by destruct x as [|[]| | | |].
  - destruct v' as [|[]| | | |l']; try discriminate. rewrite !encode_object in E.
    cbn [utf8_value] in Hu, Hu'. rewrite Forall_forallb in Hu, Hu'.
    apply (bracketed_inj _ (λ p, valid_utf8 p.1 && utf8_value p.2 = true)) in E as [-> ->]; try done.
    + by right; left.
    + intros x. unfold field_bytes, encode_string. rewrite !bytes_app, bytes_of_bytes.
      eexists _, _. split; [reflexivity|]. by apply (bool_decide_unpack (quote ∉ bytes "]}")).
    + eapply Forall_impl; [exact IH|]. intros x Hx x' s s' H1 H2 H3 H4. by apply field_decodes.
Qed.

(** What is written determines the value. *)
Lemma encode_value_inj html v v' :
  utf8_value v = true → utf8_value v' = true → encode_value html v = encode_value html v' → v = v'.
Proof.
  intros H H' E. assert (E' : bytes (encode_value html v) ++ [] = bytes (encode_value html v') ++ [])
    by (by rewrite E). by destruct (value_decodes html v v' [] [] H H' I I E') as [-> _].
Qed.

Lemma Marshal_strings_inj l l' :
  Forall (λ s, valid_utf8 s = true) l → Forall (λ s, valid_utf8 s = true) l' →
  Marshal_strings l = Marshal_strings l' → l = l'.
Proof.
  assert (Hu : ∀ k, Forall (λ s, valid_utf8 s = true) k →
    utf8_value (if bool_decide (k = []) then JNull else JArray (JString <$> k)) = true).
  { intros k Hk. case_bool_decide; [done|]. cbn [utf8_value].
    apply Forall_forallb, Forall_fmap. exact Hk. }
  intros Hl Hl' E. unfold Marshal_strings in E. apply encode_value_inj in E; [|by apply Hu..].
  do 2 case_bool_decide; subst; try done. injection E as E.
  assert (Inj (=) (=) JString) by (by intros ? ? [=]). by apply (inj (fmap JString)) in E.
Qed.

(** ** Properties of everything written

    What holds of nothing, of concatenations, and of each way a byte or a rune is
    written holds of every value written. *)
Section encoded.
Context (whole : list ascii → Prop).
Hypothesis w_nil : whole [].
Hypothesis w_app : ∀ a b, whole a → whole b → whole (a ++ b).
Hypothesis w_plain : ∀ c, code c < 128 → c ≠ backslash → whole [c].
Hypothesis w_escape : ∀ html c, code c < 128 → whole (ascii_escape html c).
Hypothesis w_error : whole (backslash :: bytes "ufffd").
Hypothesis w_line : ∀ c, c = "8"%char ∨ c = "9"%char → whole (backslash :: bytes "u202" ++ [c]).
Hypothesis w_rune : ∀ c l r n, 128 ≤ code c → decode_rune (code <$> c :: l) = (r, n) →
  (r =? rune_error) && bool_decide (n = 1%nat) = false → (r =? 8232) || (r =? 8233) = false →
  whole (take n (c :: l)).

Lemma escape_rune_whole html l out n : escape_rune html l = (out, n) → whole out.
Proof.
  unfold escape_rune. destruct l as [|c l]; [intros [= <- _]; apply w_nil|].
  destruct (code c <? 128) eqn:Ec; [intros [= <- _]; apply w_escape; lia|].
  destruct (decode_rune (code <$> c :: l)) as [r m] eqn:Ed.
  destruct ((r =? rune_error) && bool_decide (m = 1%nat)) eqn:Ee; [by intros [= <- _]|].
  destruct ((r =? 8232) || (r =? 8233)) eqn:Er; intros [= <- _].
  - apply w_line. apply orb_true_iff in Er. rewrite !Z.eqb_eq in Er. by destruct Er as [-> | ->]; [left|right].
  - eapply w_rune; [|done..]. lia.
Qed.

Lemma bytes_whole l : Forall (λ c, code c < 128 ∧ c ≠ backslash) l → whole l.
Proof.
  induction 1 as [|c l [? ?] _ IH]; [apply w_nil|]. apply (w_app [c]); [by apply w_plain|done].
Qed.

Lemma string_whole html s : whole (bytes (encode_string html s)).
Proof.
  unfold encode_string, string_body. rewrite bytes_of_bytes.
  apply w_app; [by apply bytes_whole; repeat constructor|].
  apply w_app; [|by apply bytes_whole; repeat constructor].
  generalize (length (bytes s)). intros fuel. revert s.
  enough (H : ∀ l, whole (escape_runes fuel html l)) by (intros s; apply H).
  induction fuel as [|fuel IH]; intros l; [apply w_nil|]. cbn [escape_runes].
  destruct l as [|c l]; [apply w_nil|].
  destruct (escape_rune html (c :: l)) as [out n] eqn:E. apply w_app; [by eapply escape_rune_whole|apply IH].
Qed.

Lemma bracketed_whole {A} (enc : A → list ascii) l open close :
  whole [open] → whole [close] → Forall (λ x, whole (enc x)) l → whole (bracketed enc l open close).
Proof.
  intros Ho Hc Hl. apply (w_app [open]); [done|]. destruct Hl as [|x l Hx Hl]; [done|].
  apply w_app; [done|]. apply w_app; [|done].
  induction Hl as [|y l Hy _ IH]; [apply w_nil|]. cbn [mbind list_bind].
  apply (w_app [","%char]); [by apply w_plain|]. by apply w_app.
Qed.

Lemma value_whole html v : whole (bytes (encode_value html v)).
Proof.
  induction v as [|b|n|s|l IH|l IH] using json_nested_ind.
  - by apply bytes_whole; repeat constructor.
  - by destruct b; apply bytes_whole; repeat constructor.
  - apply bytes_whole. destruct (number_bytes n) as [Hn _]. unfold all_bytes in Hn. rewrite Forall_forallb in Hn.
    eapply Forall_impl; [exact Hn|]. intros c Hc. unfold number_byte, is_digit, in_range in Hc.
    apply orb_true_iff in Hc as [Hc|Hc%bool_decide_eq_true]; [|by subst].
    split; [lia|]. by intros ->.
  - apply string_whole.
  - rewrite encode_array. by apply bracketed_whole; [apply w_plain|apply w_plain|].
  - rewrite encode_object. apply bracketed_whole; [by apply w_plain..|]. eapply Forall_impl; [exact IH|].
    intros p Hp. unfold field_bytes. rewrite !bytes_app. apply w_app; [apply string_whole|].
    apply w_app; [by apply bytes_whole; repeat constructor|done].
Qed.
End encoded.

#[global] Arguments encode_value : simpl never.
#[global] Arguments encode_string : simpl never.
#[global] Arguments Marshal_strings : simpl never.
