(* ===== verification/Images.v ===== *)
(** The images the service names ([bootstrap_image.go], and the runtime image of
    [main.go] and [builder.go]): the two locks with their checks, what a build is
    told of the bootstrap image, and the subjects whose software is inventoried. *)
From S2P Require Import Prelude GoStrings Timeouts Sha256 Settings RuntimeRoles SchemaPlan GoRegexp Url Json.

(** ** Digests *)

(** [hex.DecodeString] accepts it, and gives as many bytes as a digest has. *)
Definition isSHA256Hex (value : string) : bool :=
  forallb is_hex (bytes value) && (len value =? 64).

Definition validateSHA256Digest (field value : string) : result unit :=
  match cut value ":"%char with
  | Some (algorithm, encoded) =>
    guard_err (bool_decide (algorithm ≠ "sha256") || negb (isSHA256Hex encoded))
      (ENew "%s must be a sha256 digest" [field])
  | None => Err (ENew "%s must be a sha256 digest" [field])
  end.

Definition validateSHA256Checksum (field value : string) : result unit :=
  guard_err (negb (isSHA256Hex value)) (ENew "%s must be a sha256 checksum" [field]).

(** ** The runtime image *)

Record DockerImage := { img_name : string; img_tag : string; img_digest : string }.

#[export] Instance DockerImage_eq_dec : EqDecision DockerImage.
Proof. solve_decision. Defined.

Record runtimeImageLock := {
  lock_Name : string;
  lock_Tag : string;
  lock_Digest : string;
  lock_Platforms : list string;
}.

Record runtimeImage := { ri_image : DockerImage; ri_Platforms : list string }.

Definition validatePlatform (field value : string) : result unit :=
  match cut value slash with
  | Some (operatingSystem, architecture) =>
    guard_err (bool_decide (operatingSystem = "") || bool_decide (architecture = ""))
      (ENew "%s %q must be os/arch" [field; value])
  | None => Err (ENew "%s %q must be os/arch" [field; value])
  end.

(** The lock is given as the JSON decoder left it. *)
Definition parseRuntimeImageLock (decoded : result runtimeImageLock) : result runtimeImage :=
  lock ← wrap_err "parse runtime image lock: %w" [] decoded;
  _ ← guard_err (bool_decide (lock_Name lock = "")) (ENew "runtime image name is required" []);
  _ ← guard_err (bool_decide (lock_Tag lock = "")) (ENew "runtime image tag is required" []);
  _ ← guard_err (bool_decide (lock_Digest lock = "")) (ENew "runtime image digest is required" []);
  _ ← validateSHA256Digest "runtime image digest" (lock_Digest lock);
  _ ← guard_err (bool_decide (lock_Platforms lock = [])) (ENew "runtime image platforms are required" []);
  _ ← each (validatePlatform "runtime image platform") (lock_Platforms lock);
  Ok {| ri_image := {| img_name := lock_Name lock; img_tag := lock_Tag lock; img_digest := lock_Digest lock |};
        ri_Platforms := lock_Platforms lock |}.

Record ImageSubject := {
  is_Reference : string;
  is_Digest : string;
  is_Platform : string;
  is_Role : string;
  is_Service : string;
}.

#[export] Instance ImageSubject_eq_dec : EqDecision ImageSubject.
Proof. solve_decision. Defined.

Definition subject_key (s : ImageSubject) : string :=
  join "|" [is_Reference s; is_Digest s; is_Platform s; is_Role s; is_Service s].

Definition add_subject (st : gset string * list ImageSubject) (s : ImageSubject) :
    gset string * list ImageSubject :=
  if decide (subject_key s ∈ st.1) then st else ({[subject_key s]} ∪ st.1, st.2 ++ [s]).

Definition distinctSubjects (groups : list (list ImageSubject)) : list ImageSubject :=
  (foldl add_subject (∅, []) (concat groups)).2.

Section runtime_image.
(** Core's reading of an image's name (nil when it is none) and its full form, the locked image, and the
    subjects core expects of a published image: one per platform. *)
Context (NewDockerImage : string → option DockerImage) (FullName : option DockerImage → string).
Context (image : runtimeImage) (settings : Settings) (Unique : string).
Context (ExpectedFromImageReference : string → string → string → list string → result (list ImageSubject)).

Definition dockerImage : option DockerImage :=
  if bool_decide (Image settings = "") then Some (ri_image image)
  else match cut (Image settings) "@"%char with
       | Some (name, digest) => Some {| img_name := name; img_tag := ""; img_digest := digest |}
       | None => NewDockerImage (Image settings)
       end.

Definition runtimeImageRole : string := "runtime".

Definition runtimeImageSubjects : result (list ImageSubject) :=
  _ ← guard_err (bool_decide (dockerImage = None))
        (ENew "docker-image %q is not a name:tag reference" [Image settings]);
  platforms ←
    (if bool_decide (Image settings = "") then Ok (ri_Platforms image)
     else
       _ ← each (validatePlatform "docker-image-platforms") (ImagePlatforms settings);
       Ok (if bool_decide (ImagePlatforms settings = []) then [""] else ImagePlatforms settings));
  ExpectedFromImageReference Unique runtimeImageRole (FullName dockerImage) platforms.

(** What the image scope of [SBOM] asks to be scanned. *)
Definition sbom_subjects (requested : list ImageSubject) : result (list ImageSubject) :=
  _ ← guard_err (bool_decide (requested = [])) (ENew "image subjects are required" []);
  runtimeSubjects ← runtimeImageSubjects;
  Ok (distinctSubjects [requested; runtimeSubjects]).
End runtime_image.

(** ** The bootstrap image *)

Definition bootstrapArchitectures : list string := ["amd64"; "arm64"].
Definition bootstrapRecipePlatforms : list string := (λ a, "linux/" +:+ a) <$> bootstrapArchitectures.

Record bootstrapBaseImage := { bi_Image : string; bi_Version : string; bi_Digest : string }.
Record bootstrapPackage := { bp_Name : string; bp_Version : string }.
Record bootstrapPackages := { pk_Repositories : list string; pk_Pinned : list bootstrapPackage }.
Record bootstrapMigrateBinary := { mb_Version : string; mb_Toolchain : string }.

Record bootstrapImageLock := {
  bl_Base : bootstrapBaseImage;
  bl_Packages : bootstrapPackages;
  bl_Migrate : bootstrapMigrateBinary;
  bl_LockDigest : string;
}.

Definition Reference (b : bootstrapBaseImage) : string := bi_Image b +:+ "@" +:+ bi_Digest b.

Definition quote_argument (s : string) : string := of_bytes ([quote] ++ bytes s ++ [quote]).
Definition RepositoryArguments (p : bootstrapPackages) : string :=
  join " " (quote_argument <$> pk_Repositories p).

Definition spec_of (p : bootstrapPackage) : string := bp_Name p +:+ "=" +:+ bp_Version p.
Definition Specs (p : bootstrapPackages) : string := join " " (spec_of <$> pk_Pinned p).

Record bootstrapProvenance := { Arg : string; Label : string; PValue : string }.

Section provenance.
(** The embedded module files of the migrate build. *)
Context (bootstrapMigrateGoMod bootstrapMigrateGoSum : string).

Definition GoModSHA256 : string := sha256_hex bootstrapMigrateGoMod.
Definition GoSumSHA256 : string := sha256_hex bootstrapMigrateGoSum.

Definition Provenance (l : bootstrapImageLock) : list bootstrapProvenance :=
  [{| Arg := "CODEFLY_BOOTSTRAP_LOCK_DIGEST"; Label := "dev.codefly.bootstrap.lock-digest";
      PValue := bl_LockDigest l |};
   {| Arg := "CODEFLY_BOOTSTRAP_BASE"; Label := "dev.codefly.bootstrap.base";
      PValue := Reference (bl_Base l) |};
   {| Arg := "CODEFLY_BOOTSTRAP_BASE_VERSION"; Label := "dev.codefly.bootstrap.base-version";
      PValue := bi_Version (bl_Base l) |};
   {| Arg := "CODEFLY_BOOTSTRAP_APK_REPOSITORIES"; Label := "dev.codefly.bootstrap.apk-repositories";
      PValue := join " " (pk_Repositories (bl_Packages l)) |};
   {| Arg := "CODEFLY_BOOTSTRAP_APK_PACKAGES"; Label := "dev.codefly.bootstrap.apk-packages";
      PValue := Specs (bl_Packages l) |};
   {| Arg := "CODEFLY_BOOTSTRAP_MIGRATE_VERSION"; Label := "dev.codefly.bootstrap.migrate-version";
      PValue := mb_Version (bl_Migrate l) |};
   {| Arg := "CODEFLY_BOOTSTRAP_MIGRATE_TOOLCHAIN"; Label := "dev.codefly.bootstrap.migrate-toolchain";
      PValue := mb_Toolchain (bl_Migrate l) |};
   {| Arg := "CODEFLY_BOOTSTRAP_MIGRATE_GO_MOD"; Label := "dev.codefly.bootstrap.migrate-go-mod";
      PValue := GoModSHA256 |};
   {| Arg := "CODEFLY_BOOTSTRAP_MIGRATE_GO_SUM"; Label := "dev.codefly.bootstrap.migrate-go-sum";
      PValue := GoSumSHA256 |};
   {| Arg := "CODEFLY_BOOTSTRAP_MIGRATE_DRIVERS"; Label := "dev.codefly.bootstrap.migrate-drivers";
      PValue := "postgres,file" |}].

Definition RecipeBuildArgs (l : bootstrapImageLock) : gmap string string :=
  foldl (λ args p, <[Arg p := PValue p]> args) ∅ (Provenance l).
End provenance.

(** ** Checking the bootstrap lock *)

Definition digits1 : regexp := plus_of (Byte (λ c, is_digit (code c))).
Definition migrate_version_pattern : regexp :=
  Then (lit "v") (Then digits1 (Then (lit ".") (Then digits1 (Then (lit ".") digits1)))).
Definition toolchain_pattern : regexp :=
  Then (lit "golang:") (Then digits1 (Then (lit ".") (Then digits1 (Then (lit ".") (Then digits1
    (Then (lit "-alpine") (Then digits1 (Then (lit ".") (Then digits1
      (Then (lit "@sha256:") (exactly 64 (Byte hex_byte)))))))))))).

Definition validateMigrate (l : bootstrapImageLock) : result unit :=
  _ ← guard_err (negb (matches migrate_version_pattern (mb_Version (bl_Migrate l))))
        (ENew "bootstrap migrate version must be a release tag, got %q" [mb_Version (bl_Migrate l)]);
  guard_err (negb (matches toolchain_pattern (mb_Toolchain (bl_Migrate l))))
    (ENew "bootstrap migrate toolchain must pin an exact Go/Alpine tag and sha256 digest" []).

Definition alpineReleaseBranch (version : string) : result string :=
  let '(major, rest, found) :=
    match cut version "."%char with Some (major, rest) => (major, rest, true) | None => (version, "", false) end in
  let minor := match cut rest "."%char with Some (minor, _) => minor | None => rest end in
  _ ← guard_err (negb found || bool_decide (major = "") || bool_decide (minor = ""))
        (ENew "bootstrap base image version %q is not an Alpine release version" [version]);
  Ok ("v" +:+ major +:+ "." +:+ minor).

Definition check_repository (branch repository : string) : result unit :=
  _ ← guard_err (negb (has_prefix repository "https://"))
        (ENew "bootstrap apk repository must be an https URL, got %q" [repository]);
  guard_err (negb (contains repository ("/" +:+ branch +:+ "/")))
    (ENew "bootstrap apk repository %q does not serve the locked Alpine %s branch" [repository; branch]).

Definition check_package (p : bootstrapPackage) : result unit :=
  _ ← guard_err (bool_decide (bp_Name p = "")) (ENew "bootstrap apk package name is required" []);
  _ ← guard_err (bool_decide (bp_Version p = ""))
        (ENew "bootstrap apk package %s must pin an exact version" [bp_Name p]);
  guard_err (contains_any (bp_Name p +:+ bp_Version p) " =")
    (ENew "bootstrap apk package %s=%s is not a single apk constraint" [bp_Name p; bp_Version p]).

Definition validatePackages (l : bootstrapImageLock) : result unit :=
  _ ← guard_err (bool_decide (pk_Repositories (bl_Packages l) = []))
        (ENew "bootstrap apk repositories are required" []);
  branch ← alpineReleaseBranch (bi_Version (bl_Base l));
  _ ← each (check_repository branch) (pk_Repositories (bl_Packages l));
  _ ← guard_err (bool_decide (pk_Pinned (bl_Packages l) = [])) (ENew "bootstrap apk packages are required" []);
  each check_package (pk_Pinned (bl_Packages l)).

Definition validate (l : bootstrapImageLock) : result unit :=
  _ ← guard_err (bool_decide (bi_Image (bl_Base l) = "")) (ENew "bootstrap base image name is required" []);
  _ ← guard_err (bool_decide (bi_Version (bl_Base l) = "")) (ENew "bootstrap base image version is required" []);
  _ ← validateSHA256Digest "bootstrap base image digest" (bi_Digest (bl_Base l));
  _ ← validatePackages l;
  validateMigrate l.

(** The lock as [json.Marshal] writes it, its digest left out. *)
Definition lock_json (l : bootstrapImageLock) : json :=
  JObject
    [("base", JObject [("image", JString (bi_Image (bl_Base l))); ("version", JString (bi_Version (bl_Base l)));
                       ("digest", JString (bi_Digest (bl_Base l)))]);
     ("packages", JObject
        [("repositories", JArray (JString <$> pk_Repositories (bl_Packages l)));
         ("pinned", JArray ((λ p, JObject [("name", JString (bp_Name p)); ("version", JString (bp_Version p))])
                              <$> pk_Pinned (bl_Packages l)))]);
     ("migrate", JObject [("version", JString (mb_Version (bl_Migrate l)));
                          ("toolchain", JString (mb_Toolchain (bl_Migrate l)))])].

Definition canonical (l : bootstrapImageLock) : string := encode_value true (lock_json l).

Definition with_lock_digest (l : bootstrapImageLock) (digest : string) : bootstrapImageLock :=
  {| bl_Base := bl_Base l; bl_Packages := bl_Packages l; bl_Migrate := bl_Migrate l; bl_LockDigest := digest |}.

(** The lock is given as the strict JSON decoder left it. *)
Definition parseBootstrapImageLock (decoded : result bootstrapImageLock) : result bootstrapImageLock :=
  lock ← wrap_err "parse bootstrap image lock: %w" [] decoded;
  _ ← validate lock;
  Ok (with_lock_digest lock ("sha256:" +:+ sha256_hex (canonical lock))).

(** The lock of this commit. *)
Definition bootstrapLock : bootstrapImageLock := {|
  bl_Base := {| bi_Image := "alpine"; bi_Version := "3.21.9";
                bi_Digest := "sha256:ee16d92f96db08d9d2d07da48555a27f3a69d8f0759021dbc601195ed0d2b5bd" |};
  bl_Packages := {| pk_Repositories := ["https://dl-cdn.alpinelinux.org/alpine/v3.21/main"];
                    pk_Pinned := [{| bp_Name := "postgresql17-client"; bp_Version := "17.11-r0" |}] |};
  bl_Migrate := {| mb_Version := "v4.19.1";
                   mb_Toolchain := "golang:1.27.3-alpine3.24@sha256:d200d2dd76b03a99b52651fd1325aff7dcd35422c35c01bac56571b0507f3deb" |};
  bl_LockDigest := "" |}.
Example bootstrapLock_accepted :
  validate bootstrapLock = Ok tt ∧
  validate {| bl_Base := bl_Base bootstrapLock; bl_Packages := bl_Packages bootstrapLock;
              bl_Migrate := {| mb_Version := "v4.19"; mb_Toolchain := "" |}; bl_LockDigest := "" |} =
    Err (ENew "bootstrap migrate version must be a release tag, got %q" ["v4.19"]).
Proof. vm_compute. split; reflexivity. Qed.

(** ** What the checks guarantee *)

Lemma validateSHA256Digest_ok field value :
  validateSHA256Digest field value = Ok tt ↔
  ∃ encoded, value = "sha256:" +:+ encoded ∧ isSHA256Hex encoded = true.
Proof.
  unfold validateSHA256Digest. split.
  - destruct (cut value ":"%char) as [[a b]|] eqn:E; [|done]. intros H. res_inv.
    match goal with H : ¬ _ ≠ _ |- _ => apply dec_stable in H as -> end.
    apply cut_inv in E as [-> _]. by exists b.
  - intros (encoded & -> & H). change ("sha256:" +:+ encoded) with ("sha256" +:+ String.String ":"%char encoded).
    rewrite cut_app by (refine (bool_decide_unpack (_ ∉ _) _); vm_compute; exact I).
    by rewrite bool_decide_eq_false_2, H by (by intros ?).
Qed.

Lemma hex_no_at s : isSHA256Hex s = true → "@"%char ∉ bytes s.
Proof.
  intros [H _]%andb_true_iff Hin. rewrite Forall_forallb, Forall_forall in H. by specialize (H _ Hin).
Qed.

Lemma Reference_inj b b' :
  validateSHA256Digest "" (bi_Digest b) = Ok tt → validateSHA256Digest "" (bi_Digest b') = Ok tt →
  Reference b = Reference b' → bi_Image b = bi_Image b' ∧ bi_Digest b = bi_Digest b'.
Proof.
  intros (h & E & H%hex_no_at)%validateSHA256Digest_ok (h' & E' & H'%hex_no_at)%validateSHA256Digest_ok Hr.
  assert (Hc : ∀ d h, d = "sha256:" +:+ h → "@"%char ∉ bytes h → "@"%char ∉ bytes d).
  { intros d x -> Hx. rewrite bytes_app. apply not_elem_of_app. split; [|done].
    refine (bool_decide_unpack (_ ∉ _) _). vm_compute. exact I. }
  unfold Reference in Hr.
  pose proof (cut_last_app "@"%char (bi_Image b) (bi_Digest b) (Hc _ _ E H)) as C.
  pose proof (cut_last_app "@"%char (bi_Image b') (bi_Digest b') (Hc _ _ E' H')) as C'.
  change ("@" +:+ bi_Digest b) with (String.String "@"%char (bi_Digest b)) in Hr.
  change ("@" +:+ bi_Digest b') with (String.String "@"%char (bi_Digest b')) in Hr.
  rewrite Hr, C' in C. by injection C.
Qed.

Lemma check_package_ok p :
  check_package p = Ok tt → " "%char ∉ bytes (spec_of p) ∧ cut (spec_of p) "="%char = Some (bp_Name p, bp_Version p).
Proof.
  unfold check_package. intros H. res_inv.
  match goal with H : contains_any _ _ = false |- _ => rename H into Hc end.
  assert (Hs : ∀ c, c ∈ [" "%char; "="%char] → c ∉ bytes (bp_Name p) ∧ c ∉ bytes (bp_Version p)).
  { intros c Hin. apply not_elem_of_app. rewrite <-bytes_app. by apply (contains_any_not_in _ _ _ Hc). }
  unfold spec_of. split.
  - rewrite !bytes_app. destruct (Hs " "%char) as [Hn Hv]; [set_solver|].
    rewrite !not_elem_of_app. split_and!; [done| |done].
    refine (bool_decide_unpack (_ ∉ _) _). vm_compute. exact I.
  - destruct (Hs "="%char) as [Hn _]; [set_solver|]. by apply (cut_app "="%char).
Qed.

(** The list of constraints reads back from the words of the rendered argument. *)
Lemma Specs_words p :
  pk_Pinned p ≠ [] → each check_package (pk_Pinned p) = Ok tt →
  (λ w, cut w "="%char) <$> split_on " "%char (Specs p) = (λ q, Some (bp_Name q, bp_Version q)) <$> pk_Pinned p.
Proof.
  intros Hne Hall%each_ok. unfold Specs. change " " with (String.String " "%char "").
  rewrite split_on_join.
  - rewrite <-list_fmap_compose. apply Forall_fmap_ext. eapply Forall_impl; [exact Hall|].
    intros q Hq. by apply check_package_ok.
  - by destruct (pk_Pinned p).
  - apply Forall_fmap. eapply Forall_impl; [exact Hall|]. intros q Hq. by apply check_package_ok.
Qed.

Lemma Specs_inj p p' :
  pk_Pinned p ≠ [] → pk_Pinned p' ≠ [] →
  each check_package (pk_Pinned p) = Ok tt → each check_package (pk_Pinned p') = Ok tt →
  Specs p = Specs p' → pk_Pinned p = pk_Pinned p'.
Proof.
  intros Hn Hn' H H' E. pose proof (Specs_words p Hn H) as W. pose proof (Specs_words p' Hn' H') as W'.
  rewrite E, W' in W. clear -W. revert W. generalize (pk_Pinned p) as l, (pk_Pinned p') as l'.
  induction l as [|[n v] l IH]; intros [|[n' v'] l'] W; simplify_eq/=; [done|]. f_equal. by apply IH.
Qed.

(** What the checks leave, in their own words. *)
Record checked_lock (l : bootstrapImageLock) : Prop := {
  cl_image : bi_Image (bl_Base l) ≠ "";
  cl_digest : validateSHA256Digest "" (bi_Digest (bl_Base l)) = Ok tt;
  cl_branch : ∃ branch, alpineReleaseBranch (bi_Version (bl_Base l)) = Ok branch ∧
    Forall (λ r, has_prefix r "https://" = true ∧ contains r ("/" +:+ branch +:+ "/") = true)
      (pk_Repositories (bl_Packages l));
  cl_repositories : pk_Repositories (bl_Packages l) ≠ [];
  cl_pinned : pk_Pinned (bl_Packages l) ≠ [];
  cl_packages : each check_package (pk_Pinned (bl_Packages l)) = Ok tt;
  cl_migrate : in_language migrate_version_pattern (bytes (mb_Version (bl_Migrate l)));
  cl_toolchain : in_language toolchain_pattern (bytes (mb_Toolchain (bl_Migrate l)));
}.

Lemma validate_checked l : validate l = Ok tt → checked_lock l.
Proof.
  unfold validate, validatePackages, validateMigrate. intros H. res_inv.
  repeat match goal with H : matches _ _ = true |- _ => apply matches_spec in H end.
  match goal with H : validateSHA256Digest _ _ = Ok _ |- _ => pose proof (proj1 (validateSHA256Digest_ok _ _) H) as Hd end.
  split; try done.
  - by apply validateSHA256Digest_ok.
  - eexists. split; [done|].
    match goal with H : Forall (λ x, check_repository _ x = _) _ |- _ => rename H into Hr end.
    eapply Forall_impl; [exact Hr|]. intros r Hc. unfold check_repository in Hc. by res_inv.
  - by apply each_ok.
Qed.

(** A lock that pins everything: a base image by digest and Alpine release, https
    repositories of that release's branch, packages of one version each, and a migrate
    release built by a toolchain that is itself pinned by digest. *)
Definition digits (s : string) : Prop := s ≠ "" ∧ Forall (λ c, is_digit (code c) = true) (bytes s).
Definition sha256_digest (is_digit : ascii → bool) (s : string) : Prop :=
  ∃ h, s = "sha256:" +:+ h ∧ length (bytes h) = 64%nat ∧ Forall (λ c, is_digit c = true) (bytes h).
Record accepted_lock (l : bootstrapImageLock) : Prop := {
  al_image : bi_Image (bl_Base l) ≠ "";
  al_digest : sha256_digest is_hex (bi_Digest (bl_Base l));
  al_branch : ∃ major minor tail, bi_Version (bl_Base l) = major +:+ "." +:+ minor +:+ tail ∧
    (major ≠ "" ∧ "."%char ∉ bytes major) ∧ (minor ≠ "" ∧ "."%char ∉ bytes minor) ∧
    (tail = "" ∨ ∃ patch, tail = "." +:+ patch) ∧
    Forall (λ r, has_prefix r "https://" = true ∧ contains r ("/" +:+ ("v" +:+ major +:+ "." +:+ minor) +:+ "/") = true)
      (pk_Repositories (bl_Packages l));
  al_repositories : pk_Repositories (bl_Packages l) ≠ [];
  al_pinned : pk_Pinned (bl_Packages l) ≠ [];
  al_packages : Forall (λ p, bp_Name p ≠ "" ∧ bp_Version p ≠ "" ∧
    ∀ c, c ∈ [" "%char; "="%char] → c ∉ bytes (bp_Name p) ∧ c ∉ bytes (bp_Version p)) (pk_Pinned (bl_Packages l));
  al_migrate : ∃ a b c, mb_Version (bl_Migrate l) = "v" +:+ a +:+ "." +:+ b +:+ "." +:+ c ∧ digits a ∧ digits b ∧ digits c;
  al_toolchain : ∃ a b c d e digest,
    mb_Toolchain (bl_Migrate l) = "golang:" +:+ a +:+ "." +:+ b +:+ "." +:+ c +:+ "-alpine" +:+ d +:+ "." +:+ e +:+ "@" +:+ digest ∧
    Forall digits [a; b; c; d; e] ∧ sha256_digest hex_byte digest;
}.

Lemma isSHA256Hex_ok h : isSHA256Hex h = true → length (bytes h) = 64%nat ∧ Forall (λ c, is_hex c = true) (bytes h).
Proof.
  intros [H1 H2]%andb_true_iff. apply Z.eqb_eq in H2. rewrite len_bytes in H2. split; [lia|].
  by apply Forall_forallb.
Qed.

Lemma alpine_branch_ok version branch :
  alpineReleaseBranch version = Ok branch →
  ∃ major minor tail, version = major +:+ "." +:+ minor +:+ tail ∧ branch = "v" +:+ major +:+ "." +:+ minor ∧
    (major ≠ "" ∧ "."%char ∉ bytes major) ∧ (minor ≠ "" ∧ "."%char ∉ bytes minor) ∧
    (tail = "" ∨ ∃ patch, tail = "." +:+ patch).
Proof.
  unfold alpineReleaseBranch. destruct (cut version "."%char) as [[major rest]|] eqn:E; [|done].
  intros H. apply cut_inv in E as [-> Hm]. apply bind_ok in H as (u & Hg & H). apply guard_ok in Hg.
  apply orb_false_iff in Hg as [[_ H1%bool_decide_eq_false]%orb_false_iff H2%bool_decide_eq_false].
  injection H as <-. destruct (cut rest "."%char) as [[minor patch]|] eqn:Er.
  - apply cut_inv in Er as [-> Hn]. exists major, minor, ("." +:+ patch). split_and!; eauto.
  - exists major, rest, "". rewrite append_nil_r. split_and!; auto. by apply cut_none_not_in.
Qed.

Lemma digits_language l : in_language digits1 l → digits (of_bytes l).
Proof.
  intros [Hne H]%plus_language. split; [|by rewrite bytes_of_bytes].
  intros E. apply Hne. by rewrite <-(bytes_of_bytes l), E.
Qed.

Lemma then_lit s b l : in_language (Then (lit s) b) l → ∃ r, l = bytes s ++ r ∧ in_language b r.
Proof. intros (l1 & r & -> & ->%lit_language & H)%then_language. eauto. Qed.
Lemma then_digits b l : in_language (Then digits1 b) l → ∃ n r, l = bytes n ++ r ∧ digits n ∧ in_language b r.
Proof.
  intros (l1 & r & -> & Hd%digits_language & H)%then_language. exists (of_bytes l1), r. by rewrite bytes_of_bytes.
Qed.

Lemma migrate_language s :
  in_language migrate_version_pattern (bytes s) →
  ∃ a b c, s = "v" +:+ a +:+ "." +:+ b +:+ "." +:+ c ∧ digits a ∧ digits b ∧ digits c.
Proof.
  intros (l1 & E & (a & l2 & -> & Ha & (l3 & -> & (b & l4 & -> & Hb & (l5 & -> & Hc%digits_language)%then_lit)%then_digits)%then_lit)%then_digits)%then_lit.
  exists a, b, (of_bytes l5). split_and!; try done. apply (inj bytes). by rewrite E, !bytes_app, bytes_of_bytes.
Qed.

Lemma toolchain_language s :
  in_language toolchain_pattern (bytes s) →
  ∃ a b c d e digest,
    s = "golang:" +:+ a +:+ "." +:+ b +:+ "." +:+ c +:+ "-alpine" +:+ d +:+ "." +:+ e +:+ "@" +:+ digest ∧
    Forall digits [a; b; c; d; e] ∧ sha256_digest hex_byte digest.
Proof.
  intros (l1 & E & (a & l2 & -> & Ha & (l3 & -> & (b & l4 & -> & Hb & (l5 & -> & (c & l6 & -> & Hc &
    (l7 & -> & (d & l8 & -> & Hd & (l9 & -> & (e & l10 & -> & He & (h & -> &
      [Hn Hh]%exactly_language)%then_lit)%then_digits)%then_lit)%then_digits)%then_lit)%then_digits)%then_lit)%then_digits)%then_lit)%then_digits)%then_lit.
  exists a, b, c, d, e, ("sha256:" +:+ of_bytes h). split_and!.
  - apply (inj bytes). rewrite E, !bytes_app, bytes_of_bytes. change (bytes "@sha256:") with (bytes "@" ++ bytes "sha256:").
    by rewrite <-app_assoc.
  - repeat (apply Forall_cons; split; [done|]). by apply Forall_nil.
  - exists (of_bytes h). by rewrite bytes_of_bytes.
Qed.

Lemma checked_accepted l : checked_lock l → accepted_lock l.
Proof.
  intros []. apply validateSHA256Digest_ok in cl_digest0 as (h & E & [Hn Hh]%isSHA256Hex_ok).
  destruct cl_branch0 as (branch & (major & minor & tail & Ev & -> & Hm & Hi & Ht)%alpine_branch_ok & Hr).
  split; try done.
  - by exists h.
  - by exists major, minor, tail.
  - apply each_ok in cl_packages0. eapply Forall_impl; [exact cl_packages0|]. intros p H. unfold check_package in H. res_inv.
    split_and!; [done..|]. intros c Hc. apply not_elem_of_app. rewrite <-bytes_app.
    match goal with H : contains_any _ _ = false |- _ => by apply (contains_any_not_in _ _ _ H) end.
  - by apply migrate_language.
  - by apply toolchain_language.
Qed.

Ltac lookup_arg :=
  unfold RecipeBuildArgs, Provenance; cbn [foldl Arg PValue];
  repeat (rewrite lookup_insert_eq || rewrite lookup_insert_ne by discriminate); reflexivity.

Section args.
Context (gomod gosum : string) (l : bootstrapImageLock).

Lemma arg_base : RecipeBuildArgs gomod gosum l !! "CODEFLY_BOOTSTRAP_BASE" = Some (Reference (bl_Base l)).
Proof. lookup_arg. Qed.
Lemma arg_version : RecipeBuildArgs gomod gosum l !! "CODEFLY_BOOTSTRAP_BASE_VERSION" = Some (bi_Version (bl_Base l)).
Proof. lookup_arg. Qed.
Lemma arg_packages : RecipeBuildArgs gomod gosum l !! "CODEFLY_BOOTSTRAP_APK_PACKAGES" = Some (Specs (bl_Packages l)).
Proof. lookup_arg. Qed.
Lemma arg_migrate : RecipeBuildArgs gomod gosum l !! "CODEFLY_BOOTSTRAP_MIGRATE_VERSION" = Some (mb_Version (bl_Migrate l)).
Proof. lookup_arg. Qed.
Lemma arg_toolchain :
  RecipeBuildArgs gomod gosum l !! "CODEFLY_BOOTSTRAP_MIGRATE_TOOLCHAIN" = Some (mb_Toolchain (bl_Migrate l)).
Proof. lookup_arg. Qed.
Lemma arg_lock : RecipeBuildArgs gomod gosum l !! "CODEFLY_BOOTSTRAP_LOCK_DIGEST" = Some (bl_LockDigest l).
Proof. lookup_arg. Qed.
Lemma arg_gomod : RecipeBuildArgs gomod gosum l !! "CODEFLY_BOOTSTRAP_MIGRATE_GO_MOD" = Some (sha256_hex gomod).
Proof. lookup_arg. Qed.
Lemma arg_gosum : RecipeBuildArgs gomod gosum l !! "CODEFLY_BOOTSTRAP_MIGRATE_GO_SUM" = Some (sha256_hex gosum).
Proof. lookup_arg. Qed.
End args.

Lemma lock_canonical_inj l l' :
  utf8_value (lock_json l) = true → utf8_value (lock_json l') = true → canonical l = canonical l' →
  bl_Base l = bl_Base l' ∧ bl_Packages l = bl_Packages l' ∧ bl_Migrate l = bl_Migrate l'.
Proof.
  intros H H' E%encode_value_inj; [|done..]. unfold lock_json in E. injection E as E1 E2 E3 E4 E5 E6 E7.
  assert (Hinj : ∀ p p' : bootstrapPackage, JObject [("name", JString (bp_Name p)); ("version", JString (bp_Version p))]
            = JObject [("name", JString (bp_Name p')); ("version", JString (bp_Version p'))] → p = p').
  { intros [] []. simpl. by intros [= -> ->]. }
  destruct l as [[] [] [] ?], l' as [[] [] [] ?]. simpl in *. subst.
  assert (Hstr : Inj (=) (=) JString) by (by intros ?? [=]).
  pose proof (list_fmap_eq_inj _ Hstr _ _ E4). pose proof (list_fmap_eq_inj _ Hinj _ _ E5). by subst.
Qed.

(** C26: what a build is told of the bootstrap image determines what it is built from.
    A lock that is accepted pins everything ([accepted_lock], in words of its own): the
    base image by digest and Alpine release, every package at one version, and the
    migrate release with the toolchain that builds it, by digest.  The build
    arguments of two accepted locks agree only if both name the same base
    image at the same digest, the same packages at the same versions and the same
    migrate version and toolchain; and, unless SHA-256 collides on the very texts,
    the same lock, repositories included, and the same module files.  Every
    repository is then an https one of the base's own Alpine branch, and the words
    of the rendered package argument are the pinned packages, one each. *)
Theorem recipe_binds_lock gomod gosum gomod' gosum' decoded decoded' l l' :
  parseBootstrapImageLock decoded = Ok l → parseBootstrapImageLock decoded' = Ok l' →
  RecipeBuildArgs gomod gosum l = RecipeBuildArgs gomod' gosum' l' →
  accepted_lock l ∧
  (λ w, cut w "="%char) <$> split_on " "%char (Specs (bl_Packages l)) =
    (λ q, Some (bp_Name q, bp_Version q)) <$> pk_Pinned (bl_Packages l) ∧
  bl_Base l = bl_Base l' ∧ pk_Pinned (bl_Packages l) = pk_Pinned (bl_Packages l') ∧ bl_Migrate l = bl_Migrate l' ∧
  (utf8_value (lock_json l) = true → utf8_value (lock_json l') = true →
     collision_free [canonical l; canonical l'] → l = l') ∧
  (collision_free [gomod; gomod'] → gomod = gomod') ∧ (collision_free [gosum; gosum'] → gosum = gosum').
Proof.
  intros H H' E.
  assert (Hp : ∀ d l, parseBootstrapImageLock d = Ok l →
    checked_lock l ∧ bl_LockDigest l = "sha256:" +:+ sha256_hex (canonical l)).
  { intros d k Hk. unfold parseBootstrapImageLock in Hk. apply bind_ok in Hk as (lock & _ & Hk).
    apply bind_ok in Hk as ([] & Hv & [= <-]). apply validate_checked in Hv as [].
    split; [by split|done]. }
  apply Hp in H as [Ha Hd]. apply Hp in H' as [Ha' Hd'].
  assert (Hargs : ∀ k, RecipeBuildArgs gomod gosum l !! k = RecipeBuildArgs gomod' gosum' l' !! k) by (by rewrite E).
  pose proof (Hargs "CODEFLY_BOOTSTRAP_BASE") as E1. rewrite !arg_base in E1.
  pose proof (Hargs "CODEFLY_BOOTSTRAP_BASE_VERSION") as E2. rewrite !arg_version in E2.
  pose proof (Hargs "CODEFLY_BOOTSTRAP_APK_PACKAGES") as E3. rewrite !arg_packages in E3.
  pose proof (Hargs "CODEFLY_BOOTSTRAP_MIGRATE_VERSION") as E4. rewrite !arg_migrate in E4.
  pose proof (Hargs "CODEFLY_BOOTSTRAP_MIGRATE_TOOLCHAIN") as E5. rewrite !arg_toolchain in E5.
  pose proof (Hargs "CODEFLY_BOOTSTRAP_LOCK_DIGEST") as E6. rewrite !arg_lock in E6.
  pose proof (Hargs "CODEFLY_BOOTSTRAP_MIGRATE_GO_MOD") as E7. rewrite !arg_gomod in E7.
  pose proof (Hargs "CODEFLY_BOOTSTRAP_MIGRATE_GO_SUM") as E8. rewrite !arg_gosum in E8.
  assert (Hsha : ∀ a b, collision_free [a; b] → Some (sha256_hex a) = Some (sha256_hex b) → a = b).
  { intros a b Hf Hh. apply Hf; [by left|by right; left|]. apply (inj hex). exact (inj Some _ _ Hh). }
  split; [by apply checked_accepted|]. destruct Ha, Ha'. injection E1 as [Ei Ed]%Reference_inj; [|assumption..].
  assert (Hbase : bl_Base l = bl_Base l').
  { destruct (bl_Base l), (bl_Base l'). simpl in *. congruence. }
  assert (Hmigrate : bl_Migrate l = bl_Migrate l').
  { destruct (bl_Migrate l), (bl_Migrate l'). simpl in *. congruence. }
  split_and!; try done.
  - by apply Specs_words.
  - apply Specs_inj; try done. congruence.
  - intros Hu Hu' Hf.
    assert (Hc : canonical l = canonical l').
    { apply Hf; [by left|by right; left|]. rewrite Hd, Hd' in E6.
      apply (inj Some), append_inj_r in E6. by apply (inj hex). }
    destruct (lock_canonical_inj _ _ Hu Hu' Hc) as (_ & Hpk & _).
    destruct l, l'. simpl in *. congruence.
  - intros Hf. by apply Hsha.
  - intros Hf. by apply Hsha.
Qed.

Lemma recipe_binds_lock_witness :
  ∃ l, parseBootstrapImageLock (Ok bootstrapLock) = Ok l ∧
    (λ w, cut w "="%char) <$> split_on " "%char (Specs (bl_Packages l)) = [Some ("postgresql17-client", "17.11-r0")].
Proof.
  assert (Hok : is_ok (parseBootstrapImageLock (Ok bootstrapLock)) = true) by (vm_compute; reflexivity).
  destruct (parseBootstrapImageLock (Ok bootstrapLock)) as [l|] eqn:E; [|discriminate Hok].
  exists l. split; [reflexivity|].
  destruct (recipe_binds_lock "mod" "sum" "mod" "sum" _ _ l l E E eq_refl) as (_ & Hw & _).
  rewrite Hw. unfold parseBootstrapImageLock in E. res_inv. reflexivity.
Defined.

(** Subjects of an inventory are dropped exactly when their keys repeat; with fields
    that hold no separator, exactly when they are the same subject. *)
Lemma distinctSubjects_spec groups :
  NoDup (subject_key <$> distinctSubjects groups) ∧
  (∀ s, s ∈ distinctSubjects groups → s ∈ concat groups) ∧
  (∀ s, s ∈ concat groups → subject_key s ∈ subject_key <$> distinctSubjects groups).
Proof.
  unfold distinctSubjects.
  cut (∀ l st, st.1 = list_to_set (subject_key <$> st.2) → NoDup (subject_key <$> st.2) →
    let out := (foldl add_subject st l).2 in
    NoDup (subject_key <$> out) ∧ (∀ s, s ∈ out → s ∈ st.2 ∨ s ∈ l) ∧
    (∀ s, s ∈ st.2 ∨ s ∈ l → subject_key s ∈ subject_key <$> out)).
  { intros H. destruct (H (concat groups) (∅, [])) as (? & Hin & Hall); [done|constructor|].
    split_and!; [done| |by auto]. intros s [?%not_elem_of_nil|?]%Hin; done. }
  induction l as [|x l IH]; intros [seen out] Hs Hnd; cbn [foldl fst snd] in *.
  { split_and!; [done|by auto|]. intros s [Hs'|?%not_elem_of_nil]; [|done]. by apply list_elem_of_fmap_2. }
  assert (Hadd : add_subject (seen, out) x = (seen, out) ∧ subject_key x ∈ seen ∨
                 add_subject (seen, out) x = ({[subject_key x]} ∪ seen, out ++ [x]) ∧ subject_key x ∉ seen).
  { unfold add_subject. cbn [fst snd]. case_decide; auto. }
  destruct Hadd as [[-> Hx]|[-> Hx]].
  - destruct (IH (seen, out) Hs Hnd) as (H1 & H2 & H3). cbn [snd] in *. split_and!; [done| |].
    + intros s [?|?]%H2; [|right; right]; set_solver.
    + intros s [Hin|[->|Hin]%elem_of_cons]; [by apply H3; left| |by apply H3; right].
      subst seen. apply elem_of_list_to_set in Hx as (y & -> & Hy)%list_elem_of_fmap. apply H3. by left.
  - destruct (IH ({[subject_key x]} ∪ seen, out ++ [x])) as (H1 & H2 & H3).
    + cbn [fst snd]. subst seen. rewrite fmap_app, list_to_set_app_L. cbn. set_solver.
    + cbn [snd]. rewrite fmap_app. apply NoDup_snoc. split; [done|].
      subst seen. by rewrite elem_of_list_to_set in Hx.
    + cbn [snd] in *. split_and!; [done| |].
      * intros s [?|?]%H2; [|right; right]; set_solver.
      * intros s Hin. apply H3. set_solver.
Qed.
