(* ===== verification/Config.v ===== *)
(** The options of the Go library ([libs/go/store.go], [maintenance.go],
    [session_policy.go], [connection_profile.go], [connection_policy.go],
    [identity.go] and [externalidentity.go]): contexts, the configuration, every
    option, and the resolution of an external identity. *)
From S2P Require Import Prelude GoStrings ConnectionProfile.

(** ** Contexts *)

(** A workload identity, tied to the issuer (a pointer) that made it. *)
Record workloadPrincipal := {
  wp_issuer : option nat;
  wp_tenantID : string;
  wp_userID : string;
  wp_writable : bool;
}.

Record Context := {
  ctx_deadline : option Z;
  ctx_workload : option workloadPrincipal;   (* the value under [workloadContextKey] *)
}.
Definition Background : Context := {| ctx_deadline := None; ctx_workload := None |}.

(** The clock, and the cancellation of a context by whoever holds it. *)
Class Clock (W : Type) := {
  clock : W → Z;
  cancelled : Context → W → bool;
}.

Definition DeadlineExceeded : string := "context deadline exceeded".
Definition Canceled : string := "context canceled".

Section contexts.
Context {W : Type} `{!Clock W}.

(** [context.WithTimeout]: an earlier deadline of the parent wins. *)
Definition WithTimeout (ctx : Context) (timeout : Z) (w : W) : Context :=
  let d := clock w + timeout in
  {| ctx_deadline := Some (match ctx_deadline ctx with Some d' => Z.min d d' | None => d end);
     ctx_workload := ctx_workload ctx |}.

(** [ctx.Err()] *)
Definition ctx_Err (ctx : Context) (w : W) : option error :=
  if cancelled ctx w then Some (ENew Canceled [])
  else match ctx_deadline ctx with
       | Some d => if d <=? clock w then Some (ENew DeadlineExceeded []) else None
       | None => None
       end.

(** [if timeout > 0 { ctx, cancel = context.WithTimeout(ctx, timeout); defer cancel() }] *)
Definition bounded_by (timeout : Z) (ctx : Context) (w : W) : Context :=
  if 0 <? timeout then WithTimeout ctx timeout w else ctx.
End contexts.

(** ** The configuration *)

Section config.
Context {W : Type}.

(** A provider of short-lived credentials, and a policy on one connection. *)
Definition AccessTokenProvider : Type := Context → string → io W string.
Definition Conn : Type := nat.
Definition ConnectionPolicy : Type := Context → Conn → io W unit.

Record config := {
  tenantSetting : string;
  userSetting : string;
  operationTimeout : Z;
  readIsolation : string;
  accessTokenProvider : option AccessTokenProvider;
  externalIdentity : string;
  restrictedSession : bool;
  deniedRoles : list string;
  readerProfile : ConnectionProfile;
  writerProfile : ConnectionProfile;
  maintenanceProfile : ConnectionProfile;
  readerPolicy : option ConnectionPolicy;
  writerPolicy : option ConnectionPolicy;
  maintenancePolicy : option ConnectionPolicy;
  distinctProxySockets : bool;
}.

Definition zero_config : config := {|
  tenantSetting := ""; userSetting := ""; operationTimeout := 0; readIsolation := "";
  accessTokenProvider := None; externalIdentity := ""; restrictedSession := false; deniedRoles := [];
  readerProfile := no_profile; writerProfile := no_profile; maintenanceProfile := no_profile;
  readerPolicy := None; writerPolicy := None; maintenancePolicy := None; distinctProxySockets := false |}.

Definition default_config : config := {|
  tenantSetting := "codefly.current_tenant_id"; userSetting := "codefly.current_user_id";
  operationTimeout := 0; readIsolation := "";
  accessTokenProvider := None; externalIdentity := ""; restrictedSession := false; deniedRoles := [];
  readerProfile := no_profile; writerProfile := no_profile; maintenanceProfile := no_profile;
  readerPolicy := None; writerPolicy := None; maintenancePolicy := None; distinctProxySockets := false |}.

Definition set_scope (c : config) (tenant user : string) : config := {|
  tenantSetting := tenant; userSetting := user;
  operationTimeout := operationTimeout c; readIsolation := readIsolation c;
  accessTokenProvider := accessTokenProvider c; externalIdentity := externalIdentity c;
  restrictedSession := restrictedSession c; deniedRoles := deniedRoles c;
  readerProfile := readerProfile c; writerProfile := writerProfile c;
  maintenanceProfile := maintenanceProfile c; readerPolicy := readerPolicy c;
  writerPolicy := writerPolicy c; maintenancePolicy := maintenancePolicy c;
  distinctProxySockets := distinctProxySockets c |}.
Definition set_timing (c : config) (timeout : Z) (isolation : string) : config := {|
  tenantSetting := tenantSetting c; userSetting := userSetting c;
  operationTimeout := timeout; readIsolation := isolation;
  accessTokenProvider := accessTokenProvider c; externalIdentity := externalIdentity c;
  restrictedSession := restrictedSession c; deniedRoles := deniedRoles c;
  readerProfile := readerProfile c; writerProfile := writerProfile c;
  maintenanceProfile := maintenanceProfile c; readerPolicy := readerPolicy c;
  writerPolicy := writerPolicy c; maintenancePolicy := maintenancePolicy c;
  distinctProxySockets := distinctProxySockets c |}.
Definition set_identity (c : config) (provider : option AccessTokenProvider) (identity : string) : config := {|
  tenantSetting := tenantSetting c; userSetting := userSetting c;
  operationTimeout := operationTimeout c; readIsolation := readIsolation c;
  accessTokenProvider := provider; externalIdentity := identity;
  restrictedSession := restrictedSession c; deniedRoles := deniedRoles c;
  readerProfile := readerProfile c; writerProfile := writerProfile c;
  maintenanceProfile := maintenanceProfile c; readerPolicy := readerPolicy c;
  writerPolicy := writerPolicy c; maintenancePolicy := maintenancePolicy c;
  distinctProxySockets := distinctProxySockets c |}.
Definition set_restricted (c : config) (roles : list string) : config := {|
  tenantSetting := tenantSetting c; userSetting := userSetting c;
  operationTimeout := operationTimeout c; readIsolation := readIsolation c;
  accessTokenProvider := accessTokenProvider c; externalIdentity := externalIdentity c;
  restrictedSession := true; deniedRoles := roles;
  readerProfile := readerProfile c; writerProfile := writerProfile c;
  maintenanceProfile := maintenanceProfile c; readerPolicy := readerPolicy c;
  writerPolicy := writerPolicy c; maintenancePolicy := maintenancePolicy c;
  distinctProxySockets := distinctProxySockets c |}.
Definition set_profiles (c : config) (reader writer maintenance : ConnectionProfile) (distinct : bool) :
    config := {|
  tenantSetting := tenantSetting c; userSetting := userSetting c;
  operationTimeout := operationTimeout c; readIsolation := readIsolation c;
  accessTokenProvider := accessTokenProvider c; externalIdentity := externalIdentity c;
  restrictedSession := restrictedSession c; deniedRoles := deniedRoles c;
  readerProfile := reader; writerProfile := writer; maintenanceProfile := maintenance;
  readerPolicy := readerPolicy c; writerPolicy := writerPolicy c; maintenancePolicy := maintenancePolicy c;
  distinctProxySockets := distinct |}.
Definition set_policies (c : config) (reader writer maintenance : option ConnectionPolicy) : config := {|
  tenantSetting := tenantSetting c; userSetting := userSetting c;
  operationTimeout := operationTimeout c; readIsolation := readIsolation c;
  accessTokenProvider := accessTokenProvider c; externalIdentity := externalIdentity c;
  restrictedSession := restrictedSession c; deniedRoles := deniedRoles c;
  readerProfile := readerProfile c; writerProfile := writerProfile c;
  maintenanceProfile := maintenanceProfile c;
  readerPolicy := reader; writerPolicy := writer; maintenancePolicy := maintenance;
  distinctProxySockets := distinctProxySockets c |}.
End config.
#[global] Arguments AccessTokenProvider W : clear implicits.
#[global] Arguments ConnectionPolicy W : clear implicits.
#[global] Arguments config W : clear implicits.

(** ** Options *)

Definition setting_rune (r : Z) : bool := (r =? 95) || is_alnum r.

Definition check_segment (setting segment : string) : result unit :=
  _ ← guard_err (bool_decide (segment = "")) (ENew "setting %q contains an empty namespace segment" [setting]);
  guard_err (negb (forallb setting_rune (runes segment)))
    (ENew "setting %q contains an unsafe character" [setting]).

Definition validateSettingName (setting : string) : result unit :=
  let segments := split_on "."%char setting in
  _ ← guard_err (Z.of_nat (length segments) <? 2) (ENew "setting %q must contain a namespace" [setting]);
  each (check_segment setting) segments.

Definition ReadCommitted : string := "read committed".
Definition RepeatableRead : string := "repeatable read".
Definition Serializable : string := "serializable".

(** One denied role; [seen] holds those before it. *)
Definition deny_role (seen : gset string) (role : string) : result (gset string) :=
  _ ← guard_err (negb (bool_decide (trim_space role = role)) || bool_decide (role = "") || (63 <? len role)
                 || contains_any role (of_bytes [chr 0]) || bool_decide (role ∈ seen))
        (ENew "restricted-session roles must be distinct nonempty PostgreSQL identifiers" []);
  Ok ({[role]} ∪ seen).

Definition IssuerAzureEntra : string := "azure-entra".
Definition IssuerGCPCloudSQL : string := "gcp-cloud-sql".
Definition ErrExternalIdentity : string := "invalid Postgres external identity declaration".

Definition elide (value : string) : string :=
  if len value <=? 64 then value else of_bytes (take 64 (bytes value)) +:+ "…".

Section options.
Context {W : Type} `{d : Driver}.
Definition Option : Type := config W → result (config W).

Definition WithScopeSettings (tenant user : string) : Option := λ c,
  _ ← wrap_err "tenant setting: %w" [] (validateSettingName tenant);
  _ ← wrap_err "user setting: %w" [] (validateSettingName user);
  _ ← guard_err (bool_decide (tenant = user)) (ENew "tenant and user settings must be distinct" []);
  Ok (set_scope c tenant user).

Definition WithOperationTimeout (timeout : Z) : Option := λ c,
  _ ← guard_err (timeout <=? 0) (ENew "Postgres operation timeout must be positive" []);
  Ok (set_timing c timeout (readIsolation c)).

Definition WithReadIsolation (level : string) : Option := λ c,
  if bool_decide (level ∈ [ReadCommitted; RepeatableRead; Serializable])
  then Ok (set_timing c (operationTimeout c) level)
  else Err (ENew "unsupported Postgres read isolation" []).

Definition WithRestrictedSession (roles : list string) : Option := λ c,
  _ ← fold_result deny_role (∅ : gset string) roles;
  Ok (set_restricted c roles).

Definition WithConnectionProfiles (reader writer : ConnectionProfile) : Option := λ c,
  _ ← validate reader;
  _ ← validate writer;
  Ok (set_profiles c reader writer (maintenanceProfile c) (distinctProxySockets c)).

Definition WithMaintenanceConnectionProfile (profile : ConnectionProfile) : Option := λ c,
  _ ← validate profile;
  Ok (set_profiles c (readerProfile c) (writerProfile c) profile (distinctProxySockets c)).

Definition WithDistinctProxySockets : Option := λ c,
  Ok (set_profiles c (readerProfile c) (writerProfile c) (maintenanceProfile c) true).

Definition WithConnectionPolicies (reader writer : option (ConnectionPolicy W)) : Option := λ c,
  Ok (set_policies c reader writer (maintenancePolicy c)).

Definition WithMaintenanceConnectionPolicy (policy : option (ConnectionPolicy W)) : Option := λ c,
  Ok (set_policies c (readerPolicy c) (writerPolicy c) policy).

Definition WithAccessTokenProvider (provider : option (AccessTokenProvider W)) : Option := λ c,
  match provider with
  | None => Err (ENew "Postgres access-token provider must not be nil" [])
  | Some _ => Ok (set_identity c provider (externalIdentity c))
  end.

(** [configured]: the options in order over the defaults; nil options are skipped. *)
Definition apply_option (c : config W) (option : option Option) : result (config W) :=
  match option with None => Ok c | Some option => option c end.
Definition configured (options : list (option Option)) : result (config W) :=
  fold_result apply_option default_config options.

(** ** External identities *)

(** The constructors of the two clouds' credentials. *)
Context (azureEntraWorkloadIdentity gcpCloudSQLIAM : Context → io W (AccessTokenProvider W)).

(** The table [externalIdentityIssuers] and its keys in order. *)
Definition issuer_of (issuer : string) : option (Context → io W (AccessTokenProvider W)) :=
  if bool_decide (issuer = IssuerAzureEntra) then Some azureEntraWorkloadIdentity
  else if bool_decide (issuer = IssuerGCPCloudSQL) then Some gcpCloudSQLIAM else None.
Definition declarableIssuers : list string := [IssuerAzureEntra; IssuerGCPCloudSQL].

Definition unknown_issuer (declaration : string) : error :=
  EWrap "%w: %q is not one of %s" [declaration; join ", " declarableIssuers] (ENew ErrExternalIdentity []).

Definition WithExternalIdentity (declaration : string) : Option := λ c,
  let issuer := trim_space declaration in
  match issuer_of issuer with
  | None => Err (unknown_issuer (elide declaration))
  | Some _ => Ok (set_identity c (accessTokenProvider c) issuer)
  end.

Definition resolveExternalIdentity (ctx : Context) (c : config W) : io W (config W) :=
  if bool_decide (externalIdentity c = "") then mret c
  else match accessTokenProvider c with
  | Some _ =>
    io_fail (EWrap "%w: an external identity and an explicit access-token provider both authenticate the same pools" []
               (ENew ErrExternalIdentity []))
  | None =>
    match issuer_of (externalIdentity c) with
    | None => io_fail (unknown_issuer (externalIdentity c))
    | Some issue =>
      provider ← io_wrap "%s external identity: %w" [externalIdentity c] (issue ctx);
      mret (set_identity c (Some provider) (externalIdentity c))
    end
  end.

Definition ExternalIdentityProvider (ctx : Context) (declaration : string) :
    io W (option (AccessTokenProvider W)) :=
  c ← io_lift (WithExternalIdentity declaration zero_config);
  c ← resolveExternalIdentity ctx c;
  mret (accessTokenProvider c).
End options.

(** ** What a configuration guarantees *)

(** A setting name: at least two nonempty segments of safe characters. *)
Definition safe_setting (s : string) : Prop :=
  (2 ≤ length (split_on "."%char s))%nat ∧
  Forall (λ segment, segment ≠ "" ∧ forallb setting_rune (runes segment) = true) (split_on "."%char s).

Lemma validateSettingName_ok s : validateSettingName s = Ok tt ↔ safe_setting s.
Proof.
  unfold validateSettingName, safe_setting. rewrite bind_ok. split.
  - intros ([] & H%guard_ok & Hall%each_ok). split; [lia|]. eapply Forall_impl; [exact Hall|].
    intros seg Hseg. unfold check_segment in Hseg. res_inv. done.
  - intros [Hl Hall]. exists tt. split; [apply guard_ok; lia|]. apply each_ok.
    eapply Forall_impl; [exact Hall|]. intros seg [Hne Hs]. unfold check_segment.
    rewrite bool_decide_eq_false_2 by done. cbn [guard_err mbind result_bind]. by rewrite Hs.
Qed.

(** A role a restricted session may deny. *)
Definition role_name (role : string) : Prop :=
  trim_space role = role ∧ role ≠ "" ∧ len role ≤ 63 ∧ contains_any role (of_bytes [chr 0]) = false.

Lemma deny_role_ok seen role seen' :
  deny_role seen role = Ok seen' ↔ role_name role ∧ role ∉ seen ∧ seen' = {[role]} ∪ seen.
Proof.
  unfold deny_role, role_name. rewrite bind_ok. split.
  - intros (u & H & [= <-]). apply guard_ok in H. rewrite !orb_false_iff in H.
    destruct H as [[[[H1%negb_false_iff%bool_decide_eq_true H2%bool_decide_eq_false] H3] H4]
      H5%bool_decide_eq_false]. split_and!; try done. lia.
  - intros ((H1 & H2 & H3 & H4) & H5 & ->). exists tt. split; [|done]. apply guard_ok.
    rewrite bool_decide_eq_true_2, (bool_decide_eq_false_2 (role = "")), H4,
      (bool_decide_eq_false_2 (role ∈ seen)) by done. cbn [negb orb].
    rewrite !orb_false_r. apply Z.ltb_ge. lia.
Qed.

Section valid.
Context {W : Type} `{d : Driver} (azure gcp : Context → io W (AccessTokenProvider W)).

(** An option made by the library. *)
Inductive library_option : Option (W := W) → Prop :=
  | lo_scope t u : library_option (WithScopeSettings t u)
  | lo_timeout t : library_option (WithOperationTimeout t)
  | lo_isolation l : library_option (WithReadIsolation l)
  | lo_restricted rs : library_option (WithRestrictedSession rs)
  | lo_profiles r w : library_option (WithConnectionProfiles r w)
  | lo_maintenance p : library_option (WithMaintenanceConnectionProfile p)
  | lo_sockets : library_option WithDistinctProxySockets
  | lo_policies r w : library_option (WithConnectionPolicies r w)
  | lo_policy p : library_option (WithMaintenanceConnectionPolicy p)
  | lo_provider p : library_option (WithAccessTokenProvider p)
  | lo_identity s : library_option (WithExternalIdentity azure gcp s).

Record valid_config (c : config W) : Prop := {
  vc_tenant : safe_setting (tenantSetting c);
  vc_user : safe_setting (userSetting c);
  vc_distinct : tenantSetting c ≠ userSetting c;
  vc_timeout : 0 ≤ operationTimeout c;
  vc_isolation : readIsolation c ∈ [""; ReadCommitted; RepeatableRead; Serializable];
  vc_denied : Forall role_name (deniedRoles c) ∧ NoDup (deniedRoles c);
  vc_restricted : restrictedSession c = false → deniedRoles c = [];
  vc_profiles : Forall (λ p, validate p = Ok tt) [readerProfile c; writerProfile c; maintenanceProfile c];
  vc_identity : externalIdentity c = "" ∨ externalIdentity c ∈ declarableIssuers;
}.

Lemma default_config_valid : valid_config default_config.
Proof.
  split; try done; try (by apply validateSettingName_ok; vm_compute); try (by left).
  - split; constructor.
  - repeat constructor.
Qed.

Lemma library_option_valid o c c' :
  library_option o → valid_config c → o c = Ok c' → valid_config c'.
Proof.
  intros Ho [] H. destruct Ho; simpl in H.
  - unfold WithScopeSettings in H. res_inv. repeat match goal with
      H : validateSettingName _ = Ok _ |- _ => apply validateSettingName_ok in H end. by split.
  - unfold WithOperationTimeout in H. res_inv. split; try done. simpl. lia.
  - unfold WithReadIsolation in H. destruct (bool_decide (l ∈ _)) eqn:E; [|done].
    apply bool_decide_eq_true in E. injection H as <-. split; try done. by right.
  - unfold WithRestrictedSession in H. apply bind_ok in H as (seen & Hf & [= <-]).
    apply (claiming_ok _ _ id deny_role_ok) in Hf as (Hall & Hnd & _). rewrite list_fmap_id in Hnd.
    by split.
  - unfold WithConnectionProfiles in H. apply bind_ok in H as ([] & H1 & H).
    apply bind_ok in H as ([] & H2 & [= <-]). rewrite !Forall_cons in vc_profiles0. split; try done.
    rewrite !Forall_cons. naive_solver.
  - unfold WithMaintenanceConnectionProfile in H. apply bind_ok in H as ([] & H1 & [= <-]).
    rewrite !Forall_cons in vc_profiles0. split; try done. rewrite !Forall_cons. naive_solver.
  - injection H as <-. by split.
  - injection H as <-. by split.
  - injection H as <-. by split.
  - destruct p; [|done]. injection H as <-. by split.
  - unfold WithExternalIdentity in H. destruct (issuer_of azure gcp (trim_space s)) eqn:E; [|done].
    injection H as <-. split; try done. right. simpl. unfold issuer_of in E.
    case_bool_decide as E1; [rewrite E1; by left|]. case_bool_decide as E2; [rewrite E2; by right; left|done].
Qed.

(** C40: whatever options a service passes, a configuration the library accepts
    is well formed: distinct, injection-safe scope settings, a timeout that is
    positive or off, a known isolation level, distinct PostgreSQL role names as
    denied roles, profiles that validate, and an identity some issuer serves. *)
Theorem configured_valid options c :
  Forall (λ o, match o with Some o => library_option o | None => True end) options →
  configured options = Ok c → valid_config c.
Proof.
  intros Hall H. unfold configured in H.
  refine (fold_result_inv apply_option (λ _ c, valid_config c) _ _ _ default_config_valid _ H).
  intros pre o c1 c2 Hc Ho H1. rewrite Forall_forall in Hall. specialize (Hall o Ho).
  destruct o as [o|]; simpl in H1; [by eapply library_option_valid|by injection H1 as <-].
Qed.
End valid.

Lemma configured_valid_witness :
  ∃ c, configured (W := unit) [Some (WithScopeSettings "app.tenant" "app.user"); None;
         Some (WithRestrictedSession ["owner"]); Some (WithOperationTimeout 5)] = Ok c ∧
    tenantSetting c ≠ userSetting c ∧ NoDup (deniedRoles c).
Proof.
  eexists. split; [vm_compute; reflexivity|].
  assert (H : valid_config (d := example_driver) (W := unit)
    (set_timing (set_restricted (set_scope default_config "app.tenant" "app.user") ["owner"]) 5 "")).
  { refine (configured_valid (d := example_driver) (λ _, io_fail (ENew "" [])) (λ _, io_fail (ENew "" []))
      [Some (WithScopeSettings "app.tenant" "app.user"); None;
       Some (WithRestrictedSession ["owner"]); Some (WithOperationTimeout 5)] _ _ _).
    - repeat constructor.
    - vm_compute. reflexivity. }
  destruct H as [_ _ Hd _ _ [_ Hn] _ _ _]. split; [exact Hd|exact Hn].
Defined.
