(* ===== verification/CloudIdentity.v ===== *)
(** The workload's cloud identity ([gcpcloudsql.go], [azureentra.go]): the credential
    each login is given, the exchange that mints another principal's, and the cache
    of the exchanged ones.  The clouds, the token sources of their libraries and the
    clock are parameters. *)
From S2P Require Import Prelude GoStrings GoRegexp Url Json ConnectionProfile Config.

(** ** Azure *)

Definition azureEntraScope : string := "https://ossrdbms-aad.database.windows.net/.default".

Section azure.
Context {W Credential : Type} (GetToken : Credential → Context → list string → io W string).
Context (NewDefaultAzureCredential : result Credential).

(** The login is not used: the credential is always the pod's own. *)
Definition accessTokenProviderFromCredential (credential : Credential) : AccessTokenProvider W := λ ctx _,
  token ← io_wrap "acquire Azure Entra Postgres token: %w" [] (GetToken credential ctx [azureEntraScope]);
  _ ← io_guard (bool_decide (token = "")) (ENew "Azure Entra returned an empty Postgres token" []);
  mret token.

Definition azureEntraWorkloadIdentity (_ : Context) : io W (AccessTokenProvider W) :=
  credential ← io_lift (wrap_err "initialize Azure workload identity credential: %w" [] NewDefaultAzureCredential);
  mret (accessTokenProviderFromCredential credential).
End azure.

(** ** Cloud SQL *)

Definition gcpCloudSQLScope : string := "https://www.googleapis.com/auth/sqlservice.login".
Definition gcpImpersonationScope : string := "https://www.googleapis.com/auth/cloud-platform".
Definition gcpServiceAccountSuffix : string := ".gserviceaccount.com".
Definition gcpIAMCredentialsEndpoint : string := "https://iamcredentials.googleapis.com".

(** In seconds. *)
Definition gcpTokenLifetime : Z := 3600.
Definition gcpTokenRefreshMargin : Z := 120.
Definition gcpExchangeTimeout : Z := 15.
Definition gcpMaxResponseBytes : Z := 65536.

Definition lower_or_digit (c : ascii) : bool := is_lower (code c) || is_digit (code c).
Definition account_byte (c : ascii) : bool := lower_or_digit c || one_of "-" c.
Definition project_byte (c : ascii) : bool := lower_or_digit c || one_of ".:-" c.

Definition gcpSQLLoginPattern : regexp :=
  Then (Byte (λ c, is_lower (code c))) (Then (between 4 28 (Byte account_byte)) (Then (Byte lower_or_digit)
    (Then (lit "@") (Then (Byte lower_or_digit) (Then (between 4 28 (Byte project_byte))
      (Then (Byte lower_or_digit) (lit ".iam"))))))).
Definition accepted (login : string) : bool := matches gcpSQLLoginPattern login.

Record token := { AccessToken : string; TokenExpiry : Z }.
Definition zero_time : Z := 0.

Record token_request := {
  tr_method : string;
  tr_url : URL;
  tr_content_type : string;
  tr_body : string;
  tr_authorization : token;
  tr_timeout : Z;
}.
(** [rs_body]: what reading the body yields. *)
Record token_response := { rs_StatusCode : Z; rs_body : result string }.

Section gcp.
(** The token sources of the OAuth library, the workload's ambient ones by scope and
    the e-mail of its service account ([google.DefaultTokenSource], the metadata
    server). *)
Context {Source : Type} (DefaultTokenSource : string → result Source) (EmailWithContext : result string).

Inductive identity_event :=
  | Asked (source : Source) (answer : result token)
  | Sent (request : token_request) (answer : result token_response).
#[local] Abbreviation events := (list identity_event).

(** What a source and IAM answer, knowing what was asked before; the decoding of a
    reply and of its expiry; and the clock. *)
Context (Token : Source → events → result token).
Context (Do : token_request → events → result token_response).
Context (decode : string → result (string * string)) (parse_time : string → result Z) (now : events → Z).

(** The reusable source of the library: what it holds, and how it answers from it or
    from the source it wraps. *)
Context {Reuser : Type} (reuser : Reuser) (cached : Reuser → option token).
Context (Reuse : Z → io events token → Reuser → events → result token * Reuser * events).

Definition ask {A} (answer : events → result A) (seen : result A → identity_event) : io events A := λ calls,
  let r := answer calls in (r, calls ++ [seen r]).

Record gcpIdentity := {
  g_id : nat;                  (* the pointer its map of borrowed sources hangs from *)
  g_ownLogin : string;
  g_own : Source;
  g_caller : Source;
  g_endpoint : string;
  g_timeout : Z;               (* of its HTTP client *)
}.

Record cloud := {
  c_calls : events;
  c_borrowed : nat → gmap string Reuser;
  c_next : nat;
}.

(** [client]: the timeout of the client given, if one is. *)
Definition newGCPIdentity (ownLogin : string) (own caller : option Source) (endpoint : string) (client : option Z) :
    io cloud gcpIdentity := λ w,
  match own, caller with
  | Some own, Some caller =>
    if accepted ownLogin then
      (Ok {| g_id := c_next w; g_ownLogin := ownLogin; g_own := own; g_caller := caller;
             g_endpoint := trim_suffix endpoint "/"; g_timeout := default gcpExchangeTimeout client |},
       {| c_calls := c_calls w; c_next := S (c_next w);
          c_borrowed := λ i, if decide (i = c_next w) then ∅ else c_borrowed w i |})
    else (Err (ENew "the workload's own service account %q is not a Cloud SQL service-account login" [elide ownLogin]), w)
  | _, _ => (Err (ENew "Cloud SQL IAM identity requires both its own and its impersonating token source" []), w)
  end.

Definition token_body : string :=
  encode_value true (JObject [("lifetime", JString (itoa gcpTokenLifetime +:+ "s"));
                              ("scope", JArray [JString gcpCloudSQLScope])]).

Definition exchange_url (g : gcpIdentity) (principal : string) : string :=
  g_endpoint g +:+ "/v1/projects/-/serviceAccounts/" +:+ escape principal encodePathSegment +:+ ":generateAccessToken".

Definition exchange_request (g : gcpIdentity) (url : URL) (caller : token) : token_request := {|
  tr_method := "POST"; tr_url := url; tr_content_type := "application/json"; tr_body := token_body;
  tr_authorization := caller; tr_timeout := gcpExchangeTimeout `min` g_timeout g |}.

Definition limited (body : string) : string := of_bytes (take (Z.to_nat gcpMaxResponseBytes) (bytes body)).
#[local] Opaque limited.

(** What is read of IAM's reply. *)
Definition read_minted (principal : string) (response : token_response) : result token :=
  payload ← wrap_err "read IAM's Cloud SQL token response for %s: %w" [principal] (limited <$> rs_body response);
  _ ← guard_err (bool_decide (rs_StatusCode response ≠ 200))
        (ENew "IAM refused a Cloud SQL token for %s: HTTP %d" [principal; itoa (rs_StatusCode response)]);
  '(accessToken, expireTime) ← wrap_err "decode IAM's Cloud SQL token response for %s: %w" [principal] (decode payload);
  _ ← guard_err (bool_decide (accessToken = "")) (ENew "IAM returned an empty Cloud SQL token for %s" [principal]);
  expiry ← wrap_err "IAM returned a Cloud SQL token for %s with no usable expiry: %w" [principal] (parse_time expireTime);
  Ok {| AccessToken := accessToken; TokenExpiry := expiry |}.

Definition exchange (g : gcpIdentity) (principal : string) : io events token :=
  caller ← io_wrap "acquire the impersonating workload's own token: %w" []
             (ask (Token (g_caller g)) (Asked (g_caller g)));
  url ← io_lift (wrap_err "build the Cloud SQL token request: %w" [] (Parse (exchange_url g principal)));
  let request := exchange_request g url caller in
  response ← io_wrap "ask IAM for a Cloud SQL token for %s: %w" [principal] (ask (Do request) (Sent request));
  io_lift (read_minted principal response).

Definition on_calls {A} (m : io events A) : io cloud A := λ w,
  let '(r, calls) := m (c_calls w) in
  (r, {| c_calls := calls; c_borrowed := c_borrowed w; c_next := c_next w |}).

Definition set_borrowed (g : gcpIdentity) (login : string) (source : Reuser) (w : cloud) : cloud := {|
  c_calls := c_calls w; c_next := c_next w;
  c_borrowed := λ i, if decide (i = g_id g) then <[login := source]> (c_borrowed w i) else c_borrowed w i |}.

(** The source is the map's entry for the login; the lock makes this one step. *)
Definition borrow (g : gcpIdentity) (login : string) : io cloud unit :=
  _ ← io_guard (negb (accepted login)) (ENew "Cloud SQL IAM login is not a service-account login" []);
  w ← io_get;
  match c_borrowed w (g_id g) !! login with
  | Some _ => mret tt
  | None => io_put (set_borrowed g login reuser w)
  end.

(** The [Token] of a borrowed source. *)
Definition borrowed_token (g : gcpIdentity) (login : string) : io cloud token := λ w,
  let '(r, source, calls) :=
    Reuse gcpTokenRefreshMargin (exchange g (login +:+ gcpServiceAccountSuffix))
      (default reuser (c_borrowed w (g_id g) !! login)) (c_calls w) in
  (r, set_borrowed g login source {| c_calls := calls; c_borrowed := c_borrowed w; c_next := c_next w |}).

Definition accessTokenFrom (source : io cloud token) : io cloud string :=
  token ← io_wrap "acquire Cloud SQL IAM token: %w" [] source;
  _ ← io_guard (bool_decide (AccessToken token = "")) (ENew "Cloud SQL IAM token source returned an empty token" []);
  mret (AccessToken token).

Definition own_token (g : gcpIdentity) : io cloud token := on_calls (ask (Token (g_own g)) (Asked (g_own g))).

Definition gcp_token (g : gcpIdentity) (principal : string) : io cloud string :=
  let login := trim_space principal in
  _ ← io_guard (bool_decide (login = ""))
        (ENew "Cloud SQL IAM connection names no login, so there is no principal to authenticate as" []);
  if bool_decide (login = g_ownLogin g) then accessTokenFrom (own_token g)
  else
    _ ← borrow g login;
    accessTokenFrom (borrowed_token g login).

(** The connection's context is not the credential's. *)
Definition provider (g : gcpIdentity) : AccessTokenProvider cloud := λ _ principal, gcp_token g principal.

Definition gcpCloudSQLIAM (ctx : Context) : io cloud (AccessTokenProvider cloud) :=
  own ← io_lift (wrap_err "resolve workload identity credentials: %w" [] (DefaultTokenSource gcpCloudSQLScope));
  caller ← io_lift (wrap_err "resolve workload identity credentials for impersonation: %w" []
                      (DefaultTokenSource gcpImpersonationScope));
  email ← io_lift (wrap_err "resolve the workload's own service account: %w" [] EmailWithContext);
  identity ← newGCPIdentity (trim_suffix (trim_space email) gcpServiceAccountSuffix) (Some own) (Some caller)
               gcpIAMCredentialsEndpoint None;
  mret (provider identity).

(** ** What the credentials are *)

(** The reusable source: it starts empty; it answers what it holds while that is
    valid for longer than the margin, and otherwise asks, keeping what it is given. *)
Record ReuseLaws : Prop := {
  reuse_empty : cached reuser = None;
  reuse_answer : ∀ margin source r calls,
    (∃ t, cached r = Some t ∧ Reuse margin source r calls = (Ok t, r, calls) ∧
          (TokenExpiry t = zero_time ∨ now calls + margin <= TokenExpiry t)) ∨
    (∃ r', Reuse margin source r calls = ((source calls).1, r', (source calls).2) ∧
           cached r' = match (source calls).1 with Ok t => Some t | Err _ => cached r end);
}.

(** Where a login's exchange goes, and a token that IAM minted there for it. *)
Definition iam_address (login : string) : URL :=
  plain_url "https" "iamcredentials.googleapis.com"
    ("v1/projects/-/serviceAccounts/" +:+ (login +:+ gcpServiceAccountSuffix) +:+ ":generateAccessToken").

Record minted (caller : Source) (calls : events) (login : string) (t : token) : Prop := {
  mt_accepted : accepted login = true;
  mt_asked : ∃ pre c request response expiry post,
    calls = pre ++ Asked caller (Ok c) :: Sent request (Ok response) :: post ∧
    tr_method request = "POST" ∧ tr_url request = iam_address login ∧
    tr_authorization request = c ∧ tr_body request = token_body ∧
    rs_StatusCode response = 200 ∧
    (∃ body, rs_body response = Ok body ∧ decode (limited body) = Ok (AccessToken t, expiry)) ∧
    parse_time expiry = Ok (TokenExpiry t);
  mt_nonempty : AccessToken t ≠ "";
}.

Definition login_byte (c : ascii) : bool := lower_or_digit c || one_of ".:-@" c.

Lemma accepted_bytes login : accepted login = true → all_bytes login_byte login = true.
Proof.
  intros H. apply matches_spec in H. apply Forall_forallb.
  apply (language_bytes (λ c, login_byte c = true) gcpSQLLoginPattern); [|done].
  unfold gcpSQLLoginPattern. cbn [all_of].
  split_and!; try apply all_of_between; try apply all_of_lit, Forall_forallb; cbn [all_of]; try (by vm_compute).
  all: by apply byte_impl; vm_compute.
Qed.

(** An accepted login is one path segment as it is, and the whole of what the
    request's path owes to it. *)
Lemma principal_bytes login : accepted login = true → all_bytes login_byte (login +:+ gcpServiceAccountSuffix) = true.
Proof. intros H%accepted_bytes. by rewrite all_bytes_app, H. Qed.

Lemma principal_segment login : accepted login = true →
  escape (login +:+ gcpServiceAccountSuffix) encodePathSegment = login +:+ gcpServiceAccountSuffix.
Proof.
  intros H%principal_bytes. apply (escape_plain login_byte); [|done]. intros c Hc. unfold escape_byte.
  pose proof (byte_impl login_byte (λ c, negb (shouldEscape c encodePathSegment)) eq_refl c Hc) as Hn.
  cbv beta in Hn. by destruct (shouldEscape c encodePathSegment).
Qed.

Lemma exchange_address g login : g_endpoint g = gcpIAMCredentialsEndpoint → accepted login = true →
  Parse (exchange_url g (login +:+ gcpServiceAccountSuffix)) = Ok (iam_address login).
Proof.
  intros Hg H. unfold exchange_url. rewrite Hg, principal_segment by done.
  change (gcpIAMCredentialsEndpoint +:+ ?x) with
    ("https" +:+ ":" +:+ "//" +:+ "iamcredentials.googleapis.com" +:+ x).
  change ("/v1/projects/-/serviceAccounts/" +:+ ?x) with ("/" +:+ "v1/projects/-/serviceAccounts/" +:+ x).
  apply Parse_plain; [done|done| |].
  - exists "iamcredentials.googleapis.com", "". by vm_compute.
  - rewrite !all_bytes_app. rewrite !andb_true_iff. split_and!; try done.
    apply principal_bytes in H. rewrite all_bytes_app in H. apply andb_true_iff in H as [H _].
    eapply all_bytes_impl; [|exact H]. exact (byte_impl login_byte plain_path_byte eq_refl).
Qed.

(** ** The exchange *)

Lemma read_minted_ok principal response t : read_minted principal response = Ok t →
  rs_StatusCode response = 200 ∧ AccessToken t ≠ "" ∧
  ∃ body expiry, rs_body response = Ok body ∧ decode (limited body) = Ok (AccessToken t, expiry) ∧
                 parse_time expiry = Ok (TokenExpiry t).
Proof.
  unfold read_minted. intros H. apply bind_ok in H as (payload & Hp%wrap_err_ok & H).
  destruct (rs_body response) as [body|] eqn:Eb; [|done]. injection Hp as <-.
  apply bind_ok in H as ([] & Hs%guard_ok%bool_decide_eq_false & H).
  apply bind_ok in H as ([accessToken expiry] & Hd%wrap_err_ok & H).
  apply bind_ok in H as ([] & He%guard_ok%bool_decide_eq_false & H).
  apply bind_ok in H as (e & Ht%wrap_err_ok & [= <-]). cbn. split_and!; [by apply dec_stable|done|]. by exists body, expiry.
Qed.

Lemma minted_app caller calls more login t : minted caller calls login t → minted caller (calls ++ more) login t.
Proof.
  intros [Ha (pre & c & rq & rs & e & post & -> & H) Hn]. split; [done| |done].
  exists pre, c, rq, rs, e, (post ++ more). split; [|done]. rewrite <-app_assoc. done.
Qed.

Lemma exchange_spec g login calls : g_endpoint g = gcpIAMCredentialsEndpoint → accepted login = true →
  ∃ new, (exchange g (login +:+ gcpServiceAccountSuffix) calls).2 = calls ++ new ∧ new ≠ [] ∧
    ∀ t, (exchange g (login +:+ gcpServiceAccountSuffix) calls).1 = Ok t → minted (g_caller g) (calls ++ new) login t.
Proof.
  intros Hg Ha. unfold exchange, mbind, io_bind, io_wrap, ask. destruct (Token (g_caller g) calls) as [c|e] eqn:Ec.
  2:{ exists [Asked (g_caller g) (Err e)]. by cbn. }
  cbn [wrap_err]. rewrite exchange_address by done. cbn [wrap_err io_lift].
  set (rq := exchange_request g (iam_address login) c).
  destruct (Do rq (calls ++ [Asked (g_caller g) (Ok c)])) as [rs|e] eqn:Er; rewrite <-app_assoc.
  2:{ eexists. split; [done|]. by cbn. }
  eexists. split; [reflexivity|]. split; [done|]. cbn. intros t Ht.
  destruct (read_minted_ok _ _ _ Ht) as (Hs & Hn & body & expiry & Hb & Hd & Hp).
  split; [done| |done]. exists calls, c, rq, rs, expiry, []. split_and!; try done. by exists body.
Qed.

(** Every token kept for a login was minted for it. *)
Definition honest (g : gcpIdentity) (w : cloud) : Prop :=
  ∀ login r t, c_borrowed w (g_id g) !! login = Some r → cached r = Some t →
    minted (g_caller g) (c_calls w) login t.

Lemma honest_set g login r w : honest g w → (∀ t, cached r = Some t → minted (g_caller g) (c_calls w) login t) →
  honest g (set_borrowed g login r w).
Proof.
  intros H Hr l' r' t. unfold set_borrowed. cbn. rewrite decide_True by done.
  destruct (decide (login = l')) as [->|Hne].
  - rewrite lookup_insert_eq. intros [= <-]. apply Hr.
  - rewrite lookup_insert_ne by done. apply H.
Qed.

Lemma honest_calls g w more : honest g w →
  honest g {| c_calls := c_calls w ++ more; c_borrowed := c_borrowed w; c_next := c_next w |}.
Proof. intros H l r t Hl Hr. cbn. apply minted_app. by eapply H. Qed.

(** What the library promises of one credential. *)
Definition credential_of (g : gcpIdentity) (login s : string) (w w' : cloud) : Prop :=
  s ≠ "" ∧
  (login = g_ownLogin g ∧ (∃ t, s = AccessToken t ∧ c_calls w' = c_calls w ++ [Asked (g_own g) (Ok t)]) ∨
   login ≠ g_ownLogin g ∧ ∃ t, s = AccessToken t ∧ minted (g_caller g) (c_calls w') login t ∧
     (c_calls w' = c_calls w → TokenExpiry t = zero_time ∨ now (c_calls w) + gcpTokenRefreshMargin <= TokenExpiry t)).

Lemma accessTokenFrom_ok (source : io cloud token) w s w' : accessTokenFrom source w = (Ok s, w') →
  ∃ t, source w = (Ok t, w') ∧ s = AccessToken t ∧ s ≠ "".
Proof.
  intros (t & w1 & H%io_wrap_ok & H1)%io_bind_ok. apply io_bind_ok in H1 as ([] & w2 & Hg & [= <- <-]).
  unfold io_guard, io_lift in Hg. injection Hg as Hg <-. apply guard_ok, bool_decide_eq_false in Hg. by exists t.
Qed.

Lemma accessTokenFrom_world (source : io cloud token) w : (accessTokenFrom source w).2 = (source w).2.
Proof.
  unfold accessTokenFrom, mbind, io_bind, io_wrap. destruct (source w) as [[t|e] w1]; [|done]. cbn.
  by destruct (bool_decide (AccessToken t = "")).
Qed.

Section laws.
Context (laws : ReuseLaws) (g : gcpIdentity) (Hg : g_endpoint g = gcpIAMCredentialsEndpoint).

Lemma borrowed_token_spec login w : accepted login = true → honest g w →
  honest g (borrowed_token g login w).2 ∧
  ∀ t, (borrowed_token g login w).1 = Ok t →
    minted (g_caller g) (c_calls (borrowed_token g login w).2) login t ∧
    (c_calls (borrowed_token g login w).2 = c_calls w →
       TokenExpiry t = zero_time ∨ now (c_calls w) + gcpTokenRefreshMargin <= TokenExpiry t).
Proof.
  intros Ha Hh. unfold borrowed_token. set (r := default reuser (c_borrowed w (g_id g) !! login)).
  assert (Hr : ∀ t, cached r = Some t → minted (g_caller g) (c_calls w) login t).
  { intros t. unfold r. destruct (c_borrowed w (g_id g) !! login) eqn:E; cbn; [by eapply Hh|].
    by rewrite (reuse_empty laws). }
  destruct (exchange_spec g login (c_calls w) Hg Ha) as (new & Hnew & Hne & Hm).
  destruct (reuse_answer laws gcpTokenRefreshMargin (exchange g (login +:+ gcpServiceAccountSuffix)) r (c_calls w))
    as [(t & Hc & -> & Hv)|(r' & -> & Hc)].
  - split; cbn.
    + by apply (honest_set g login r w).
    + intros ? [= <-]. split; [by apply Hr|done].
  - rewrite Hnew. split; cbn.
    + apply honest_set; [by apply honest_calls|]. cbn. intros t Ht. rewrite Hc in Ht.
      destruct (exchange _ _ _).1 as [t'|] eqn:Ex; [injection Ht as ->; by apply Hm|]. by apply minted_app, Hr.
    + intros t Ht. split; [by apply Hm|]. intros E. rewrite <-(app_nil_r (c_calls w)) in E at 2. by apply app_inv_head in E.
Qed.

Lemma gcp_token_own principal w : trim_space principal ≠ "" → trim_space principal = g_ownLogin g →
  gcp_token g principal w = accessTokenFrom (own_token g) w.
Proof.
  intros H1 H2. unfold gcp_token. cbv zeta.
  rewrite (bool_decide_eq_false_2 (trim_space principal = "")), (bool_decide_eq_true_2 (trim_space principal = g_ownLogin g)) by assumption.
  reflexivity.
Qed.

Lemma gcp_token_borrowed principal w : let login := trim_space principal in
  login ≠ g_ownLogin g → accepted login = true → honest g w →
  ∃ w1, gcp_token g principal w = accessTokenFrom (borrowed_token g login) w1 ∧ honest g w1 ∧ c_calls w1 = c_calls w.
Proof.
  intros login H1 Ha Hh. assert (H0 : login ≠ "") by (intros E; by rewrite E in Ha).
  exists (match c_borrowed w (g_id g) !! login with Some _ => w | None => set_borrowed g login reuser w end).
  split_and!.
  - unfold gcp_token. fold login. cbv zeta.
    rewrite (bool_decide_eq_false_2 (login = "")), (bool_decide_eq_false_2 (login = g_ownLogin g)) by assumption.
    unfold borrow. rewrite Ha. unfold mbind, io_bind, io_guard, io_lift, io_get. cbn [negb guard_err].
    by destruct (c_borrowed w (g_id g) !! login).
  - case_match; [done|]. apply honest_set; [done|]. by rewrite (reuse_empty laws).
  - by case_match.
Qed.

Lemma gcp_token_refused principal w : let login := trim_space principal in
  login = "" ∨ login ≠ g_ownLogin g ∧ accepted login = false →
  is_ok (gcp_token g principal w).1 = false ∧ (gcp_token g principal w).2 = w.
Proof.
  intros login H. unfold gcp_token. fold login. cbv zeta.
  destruct (decide (login = "")) as [E|Hempty]; [by rewrite (bool_decide_eq_true_2 (login = "")) by assumption|].
  rewrite (bool_decide_eq_false_2 (login = "")) by assumption. destruct H as [E|[H1 Ha]]; [by destruct Hempty|]. rewrite (bool_decide_eq_false_2 (login = g_ownLogin g)) by assumption. unfold borrow. by rewrite Ha.
Qed.

Lemma gcp_token_spec principal w r w' : honest g w → gcp_token g principal w = (r, w') →
  honest g w' ∧ ∀ s, r = Ok s → credential_of g (trim_space principal) s w w'.
Proof.
  intros Hh H. destruct (decide (trim_space principal = "")) as [E|Hempty].
  { destruct (gcp_token_refused principal w (or_introl E)) as [Hr Hw]. rewrite H in Hr, Hw. cbn in Hr, Hw. subst w'.
    split; [done|]. by intros s ->. }
  destruct (decide (trim_space principal = g_ownLogin g)) as [Hown|Hown].
  { rewrite gcp_token_own in H by done. split.
    - pose proof (accessTokenFrom_world (own_token g) w) as Hw. rewrite H in Hw. cbn in Hw. subst w'. by apply honest_calls.
    - intros s ->. apply accessTokenFrom_ok in H as (t & Ht & -> & Hne). split; [done|]. left. split; [done|].
      exists t. split; [done|]. unfold own_token, on_calls, ask in Ht. injection Ht as Et <-. cbn. by rewrite Et. }
  destruct (accepted (trim_space principal)) eqn:Ha.
  2:{ destruct (gcp_token_refused principal w (or_intror (conj Hown Ha))) as [Hr Hw]. rewrite H in Hr, Hw. cbn in Hr, Hw.
      subst w'. split; [done|]. by intros s ->. }
  destruct (gcp_token_borrowed principal w Hown Ha Hh) as (w1 & E & Hh1 & Hcalls). rewrite E in H.
  destruct (borrowed_token_spec (trim_space principal) w1 Ha Hh1) as [Hh2 Ht]. split.
  - pose proof (accessTokenFrom_world (borrowed_token g (trim_space principal)) w1) as Hw. rewrite H in Hw. cbn in Hw. by subst w'.
  - intros s ->. apply accessTokenFrom_ok in H as (t & Hb & -> & Hne). rewrite Hb in Ht. destruct (Ht t eq_refl) as [Hm He].
    split; [done|]. right. split; [done|]. exists t. split; [done|]. rewrite <-Hcalls. by split.
Qed.
End laws.

(** ** The provider, from the declaration on *)

(** A process that asks the provider for credentials, one after the other. *)
Definition serve (p : AccessTokenProvider cloud) (requests : list (Context * string)) (w : cloud) : cloud :=
  foldl (λ w rq, (p rq.1 rq.2 w).2) w requests.

Lemma serve_honest (laws : ReuseLaws) g requests w : g_endpoint g = gcpIAMCredentialsEndpoint →
  honest g w → honest g (serve (provider g) requests w).
Proof.
  intros Hg. revert w. induction requests as [|rq requests IH]; intros w Hh; [done|]. cbn [serve foldl]. apply IH.
  destruct (provider g rq.1 rq.2 w) as [r w'] eqn:E. by eapply gcp_token_spec.
Qed.

Lemma gcpCloudSQLIAM_ok ctx w p w1 : gcpCloudSQLIAM ctx w = (Ok p, w1) →
  ∃ g email, p = provider g ∧ DefaultTokenSource gcpCloudSQLScope = Ok (g_own g) ∧
    DefaultTokenSource gcpImpersonationScope = Ok (g_caller g) ∧ EmailWithContext = Ok email ∧
    g_ownLogin g = trim_suffix (trim_space email) gcpServiceAccountSuffix ∧ accepted (g_ownLogin g) = true ∧
    g_endpoint g = gcpIAMCredentialsEndpoint ∧ c_borrowed w1 (g_id g) = ∅ ∧ c_calls w1 = c_calls w.
Proof.
  unfold gcpCloudSQLIAM. intros H. apply io_lift_bind_ok in H as (own & Ho%wrap_err_ok & H).
  apply io_lift_bind_ok in H as (caller & Hc%wrap_err_ok & H). apply io_lift_bind_ok in H as (email & He%wrap_err_ok & H).
  apply io_bind_ok in H as (g & w2 & Hn & [= <- <-]). unfold newGCPIdentity in Hn.
  destruct (accepted (trim_suffix (trim_space email) gcpServiceAccountSuffix)) eqn:Ea; [|done]. injection Hn as <- <-.
  eexists _, email. cbn. split_and!; try done. by rewrite decide_True.
Qed.

Context (azure : Context → io cloud (AccessTokenProvider cloud)).

(** C22: the credentials of a workload whose deployment declares Cloud SQL, whatever it
    asked for before and whatever context it asks in.  A credential is the token of
    one source: for the workload's own login, what the source scoped to SQL logins
    answers this time; for any other login, which must have the shape of a service
    account's, a token IAM minted, asked with the impersonating source's token, at
    an address whose path names that account and nothing else, in the scope of SQL
    logins; it never is the impersonating token, nor another login's, and one that
    is answered again without asking is good for two more minutes.  A login that is
    neither is refused and no one is asked. *)
Theorem cloud_sql_credentials ctx w0 p w1 requests ctx' principal r w' :
  ReuseLaws →
  ExternalIdentityProvider azure gcpCloudSQLIAM ctx IssuerGCPCloudSQL w0 = (Ok (Some p), w1) →
  let w := serve p requests w1 in
  p ctx' principal w = (r, w') →
  ∃ own caller email, DefaultTokenSource gcpCloudSQLScope = Ok own ∧
    DefaultTokenSource gcpImpersonationScope = Ok caller ∧ EmailWithContext = Ok email ∧
    let ownLogin := trim_suffix (trim_space email) gcpServiceAccountSuffix in
    let login := trim_space principal in
    (∀ s, r = Ok s → s ≠ "" ∧
       (login = ownLogin ∧ (∃ t, s = AccessToken t ∧ c_calls w' = c_calls w ++ [Asked own (Ok t)]) ∨
        login ≠ ownLogin ∧ ∃ t, s = AccessToken t ∧ minted caller (c_calls w') login t ∧
          (c_calls w' = c_calls w →
             TokenExpiry t = zero_time ∨ now (c_calls w) + gcpTokenRefreshMargin <= TokenExpiry t))) ∧
    (login ≠ ownLogin → accepted login = false → is_ok r = false ∧ w' = w) ∧
    (∀ c, (p c principal w) = (r, w')).
Proof.
  intros laws Hp w H.
  assert (Hp' : gcpCloudSQLIAM ctx w0 = (Ok p, w1)).
  { unfold ExternalIdentityProvider in Hp. apply io_lift_bind_ok in Hp as (c & Hc & Hp).
    vm_compute in Hc. injection Hc as <-. apply io_bind_ok in Hp as (c & w2 & Hr & Hp). injection Hp as Hp <-.
    unfold resolveExternalIdentity in Hr. rewrite bool_decide_eq_false_2 in Hr by discriminate. cbn [accessTokenProvider] in Hr.
    apply io_bind_ok in Hr as (q & w3 & Hq%io_wrap_ok & Hr). injection Hr as <- <-. cbn in Hp. by injection Hp as ->. }
  apply gcpCloudSQLIAM_ok in Hp' as (g & email & -> & Ho & Hc & He & Hl & Ha & Hg & Hb & _).
  assert (Hh : honest g w).
  { apply serve_honest; [done..|]. intros l rr t Hl'. by rewrite Hb in Hl'. }
  exists (g_own g), (g_caller g), email. split_and!; [done..|]. cbv zeta. rewrite <-Hl.
  destruct (gcp_token_spec laws g Hg principal w r w' Hh H) as [_ Hs]. split_and!; [exact Hs| |].
  - intros H1 H2. unfold provider in H. pose proof (gcp_token_refused g principal w (or_intror (conj H1 H2))) as Hr.
    by rewrite H in Hr.
  - intros c. exact H.
Qed.
End gcp.

(** A worker that borrows its control-plane login twice. *)
Definition example_clock (_ : list (identity_event (Source := string))) : Z := 0.
Definition example_reuse (margin : Z) (source : io (list (identity_event (Source := string))) token)
    (r : option token) (calls : list identity_event) : result token * option token * list identity_event :=
  let fetch := let '(x, calls') := source calls in (x, match x with Ok t => Some t | Err _ => r end, calls') in
  match r with
  | Some t => if (TokenExpiry t =? 0) || (example_clock calls + margin <=? TokenExpiry t) then (Ok t, r, calls) else fetch
  | None => fetch
  end.

Lemma example_reuse_laws : ReuseLaws example_clock None id example_reuse.
Proof.
  split; [done|]. intros margin source r calls. unfold example_reuse.
  destruct (source calls) as [x calls'] eqn:E. destruct r as [t|].
  - destruct ((TokenExpiry t =? 0) || (example_clock calls + margin <=? TokenExpiry t)) eqn:Ev.
    + left. exists t. split_and!; [done|done|]. unfold zero_time. lia.
    + right. eexists. split; [reflexivity|]. by destruct x.
  - right. eexists. split; [reflexivity|]. by destruct x.
Qed.

Definition example_Token (source : string) (_ : list (identity_event (Source := string))) : result token :=
  Ok {| AccessToken := source; TokenExpiry := 0 |}.
Definition example_Do (_ : token_request) (_ : list (identity_event (Source := string))) : result token_response :=
  Ok {| rs_StatusCode := 200; rs_body := Ok "minted" |}.
Definition example_provider : io (cloud (Source := string) (Reuser := option token)) (option (AccessTokenProvider cloud)) :=
  ExternalIdentityProvider (λ _, io_fail (ENew "" []))
    (gcpCloudSQLIAM (λ scope, Ok scope) (Ok "worker@acme-prod.iam.gserviceaccount.com") example_Token example_Do
       (λ body, Ok (body, "later")) (λ _, Ok 3600) None example_reuse)
    Background IssuerGCPCloudSQL.
Definition no_cloud : cloud (Source := string) (Reuser := option token) :=
  {| c_calls := []; c_borrowed := λ _, ∅; c_next := 0 |}.

Definition example_p : AccessTokenProvider (cloud (Source := string) (Reuser := option token)) :=
  match (example_provider no_cloud).1 with Ok (Some p) => p | _ => λ _ _, io_fail (ENew "" []) end.
Definition example_served : cloud := serve example_p [(Background, "control@acme-prod.iam")] (example_provider no_cloud).2.

Lemma example_provided : example_provider no_cloud = (Ok (Some example_p), (example_provider no_cloud).2).
Proof.
  assert (H : match (example_provider no_cloud).1 with Ok (Some _) => true | _ => false end = true) by (vm_compute; reflexivity).
  unfold example_p. destruct (example_provider no_cloud) as [[[p|]|e] w]; [reflexivity|discriminate H..].
Qed.

Lemma cloud_sql_credentials_witness : ∃ t,
  let out := example_p Background "control@acme-prod.iam" example_served in
  out.1 = Ok "minted" ∧ AccessToken t = "minted" ∧ length (c_calls out.2) = 2%nat ∧
  minted (λ body, Ok (body, "later")) (λ _, Ok 3600) gcpImpersonationScope (c_calls out.2) "control@acme-prod.iam" t.
Proof.
  assert (Hr : (example_p Background "control@acme-prod.iam" example_served).1 = Ok "minted") by (vm_compute; reflexivity).
  destruct (cloud_sql_credentials (λ scope, Ok scope) (Ok "worker@acme-prod.iam.gserviceaccount.com") example_Token example_Do
    (λ body, Ok (body, "later")) (λ _, Ok 3600) example_clock None id example_reuse (λ _, io_fail (ENew "" []))
    Background no_cloud example_p (example_provider no_cloud).2 [(Background, "control@acme-prod.iam")] Background
    "control@acme-prod.iam" _ _ example_reuse_laws example_provided (surjective_pairing _))
    as (own & caller & email & Ho & Hc & He & Hs & _).
  injection Ho as <-. injection Hc as <-. injection He as <-.
  destruct (Hs "minted" Hr) as (_ & [[E _]|(_ & t & Et & Hm & _)]); [exfalso; vm_compute in E; discriminate E|].
  exists t. split; [exact Hr|]. split; [symmetry; exact Et|]. split; [vm_compute; reflexivity|exact Hm].
Defined.
