(* ===== verification/ConnectionPolicy.v ===== *)
(** Validation of the connections the library owns
    ([libs/go/connection_policy.go] and [checkRestrictedSession] of
    [session_policy.go]): the hooks a pool runs on a new connection and on a
    checkout, and how a capability's checks are composed onto them. *)
From S2P Require Import Prelude GoStrings ConnectionProfile Config.

(** ** Pool hooks *)

Section hooks.
Context {W : Type}.

(** A checkout hook's verdict: keep the connection or not, and an error. *)
Definition Verdict : Type := bool * option error.

Record PoolHooks := {
  AfterConnect : option (Context → Conn → io W unit);
  BeforeAcquire : option (Context → Conn → W → bool * W);
  PrepareConn : option (Context → Conn → W → Verdict * W);
}.
End hooks.
#[global] Arguments PoolHooks W : clear implicits.

Record connectionValidation {W : Type} := {
  capability : string;
  onConnect : option (ConnectionPolicy W);
  policy : option (ConnectionPolicy W);
}.
#[global] Arguments connectionValidation W : clear implicits.

Section install.
Context {W : Type} `{!Clock W}.
(** The restricted-session query on a connection, for the denied roles. *)
Context (restricted_query : list string → Context → Conn → io W bool).

Definition checkRestrictedSession (denied : list string) : ConnectionPolicy W := λ ctx conn,
  r ← io_try (restricted_query denied ctx conn);
  match r with
  | Ok true => mret tt
  | _ => io_fail (ENew "Postgres session does not satisfy its restricted role policy" [])
  end.

Definition anyCheck (checks : list (option (ConnectionPolicy W))) : bool :=
  existsb (λ c, bool_decide (is_Some c)) checks.

(** [if err := ctx.Err(); err != nil { return err }] *)
Definition check_current (ctx : Context) : io W unit := λ w,
  match ctx_Err ctx w with Some e => (Err e, w) | None => (Ok tt, w) end.

Definition run_check (ctx : Context) (conn : Conn) (check : option (ConnectionPolicy W)) : io W unit :=
  match check with
  | None => mret tt
  | Some p => _ ← p ctx conn; check_current ctx
  end.
Definition validate_connection (ctx : Context) (conn : Conn) (checks : list (option (ConnectionPolicy W))) :
    io W unit := io_each (run_check ctx conn) checks.

Definition restricted_check (c : config W) : option (ConnectionPolicy W) :=
  if restrictedSession c then Some (checkRestrictedSession (deniedRoles c)) else None.
Definition applied_check (v : connectionValidation W) : option (ConnectionPolicy W) :=
  (λ p ctx conn, io_wrap "%s Postgres capability connection policy: %w" [capability v] (p ctx conn))
    <$> policy v.

Definition after_connect (timeout : Z) (prior : option (Context → Conn → io W unit))
    (checks : list (option (ConnectionPolicy W))) : Context → Conn → io W unit := λ ctx conn w,
  let ctx := bounded_by timeout ctx w in
  (_ ← match prior with None => mret tt | Some hook => _ ← hook ctx conn; check_current ctx end;
   validate_connection ctx conn checks) w.

Definition prepare_conn (timeout : Z) (prior : option (Context → Conn → W → Verdict * W))
    (checks : list (option (ConnectionPolicy W))) : Context → Conn → W → Verdict * W := λ ctx conn w,
  let ctx := bounded_by timeout ctx w in
  let checked w :=
    match validate_connection ctx conn checks w with
    | (Ok _, w) => ((true, None), w)
    | (Err e, w) => ((false, Some e), w)
    end in
  match prior with
  | None => checked w
  | Some hook =>
    let '((ok, err), w) := hook ctx conn w in
    if negb ok || bool_decide (is_Some err) then ((ok, err), w)
    else match ctx_Err ctx w with
         | Some e => ((false, Some e), w)
         | None => checked w
         end
  end.

(** The prior checkout hook: [PrepareConn], or [BeforeAcquire] folded into one. *)
Definition prior_prepare (h : PoolHooks W) : option (Context → Conn → W → Verdict * W) :=
  match PrepareConn h, BeforeAcquire h with
  | Some hook, _ => Some hook
  | None, Some hook => Some (λ ctx conn w, let '(ok, w) := hook ctx conn w in ((ok, None), w))
  | None, None => None
  end.

Definition installConnectionValidation (h : PoolHooks W) (c : config W) (v : connectionValidation W) :
    PoolHooks W :=
  let restricted := restricted_check c in
  let applied := applied_check v in
  let on_connect := [onConnect v; restricted; applied] in
  let on_checkout := [restricted; applied] in
  if negb (anyCheck on_connect) then h
  else
    let connected := Some (after_connect (operationTimeout c) (AfterConnect h) on_connect) in
    if negb (anyCheck on_checkout) then
      {| AfterConnect := connected; BeforeAcquire := BeforeAcquire h; PrepareConn := PrepareConn h |}
    else
      {| AfterConnect := connected; BeforeAcquire := None;
         PrepareConn := Some (prepare_conn (operationTimeout c) (prior_prepare h) on_checkout) |}.

(** ** What admits a connection *)

(** The checks succeed one after the other, none outliving its context. *)
Inductive passed (ctx : Context) (conn : Conn) : list (ConnectionPolicy W) → W → W → Prop :=
  | passed_all w : passed ctx conn [] w w
  | passed_next p ps w w1 w2 :
      p ctx conn w = (Ok tt, w1) → ctx_Err ctx w1 = None → passed ctx conn ps w1 w2 →
      passed ctx conn (p :: ps) w w2.

Lemma validate_connection_ok ctx conn checks w w' :
  validate_connection ctx conn checks w = (Ok tt, w') ↔ passed ctx conn (omap id checks) w w'.
Proof.
  unfold validate_connection. revert w. induction checks as [|[p|] checks IH]; intros w; cbn [io_each omap list_omap id].
  - split; [intros [= <-]; constructor|by inversion 1].
  - rewrite io_bind_ok. cbn [run_check]. setoid_rewrite io_bind_ok. split.
    + intros ([] & w1 & ([] & w2 & Hp & Hc) & Hrest). unfold check_current in Hc.
      destruct (ctx_Err ctx w2) eqn:E; [done|]. injection Hc as <-. econstructor; [done..|]. by apply IH.
    + inversion 1 as [|? ? ? w1 ? Hp He Hrest]; subst. exists tt, w1. split; [|by apply IH].
      exists tt, w1. split; [done|]. unfold check_current. by rewrite He.
  - rewrite io_bind_ok. cbn [run_check]. split.
    + intros (? & ? & [= _ <-] & H). by apply IH.
    + intros H. exists tt, w. split; [done|]. by apply IH.
Qed.

Lemma passed_current ctx conn p ps w w' : passed ctx conn (p :: ps) w w' → ctx_Err ctx w' = None.
Proof.
  revert p w. induction ps as [|q ps IH]; intros p w; inversion 1 as [|? ? ? w1 ? Hp He Hrest]; subst.
  - inversion Hrest; by subst.
  - by eapply IH.
Qed.

Lemma after_connect_ok timeout prior checks ctx conn w w' :
  after_connect timeout prior checks ctx conn w = (Ok tt, w') ↔
  passed (bounded_by timeout ctx w) conn (omap id (prior :: checks)) w w'.
Proof.
  unfold after_connect. cbv zeta. rewrite io_bind_ok. setoid_rewrite validate_connection_ok.
  destruct prior as [hook|]; cbn [omap list_omap id]; split.
  - intros ([] & w1 & ([] & w2 & Hp & Hc)%io_bind_ok & Hrest). unfold check_current in Hc.
    destruct (ctx_Err _ w2) eqn:E; [done|]. injection Hc as <-. by econstructor.
  - inversion 1 as [|? ? ? w1 ? Hp He Hrest]; subst. exists tt, w1. split; [|done].
    apply io_bind_ok. exists tt, w1. split; [done|]. unfold check_current. by rewrite He.
  - by intros (? & ? & [= _ <-] & ?).
  - intros ?. by exists tt, w.
Qed.

(** The checks of a capability, in order. *)
Definition checkout_checks (c : config W) (v : connectionValidation W) : list (ConnectionPolicy W) :=
  omap id [restricted_check c; applied_check v].

Lemma bounded_deadline timeout ctx w w' :
  0 < timeout → ctx_Err (bounded_by timeout ctx w) w' = None → clock w' < clock w + timeout.
Proof.
  intros Ht. unfold bounded_by. rewrite (proj2 (Z.ltb_lt _ _) Ht). unfold ctx_Err.
  case_match; [done|]. cbn [WithTimeout ctx_deadline]. destruct (ctx_deadline ctx); case_match eqn:E; try done; lia.
Qed.

(** C33: a new connection is admitted exactly when the caller's own hook, the
    capability's mandatory check, the restricted-session check and its policy all
    succeed, in that order and each before the operation's deadline; a checkout
    exactly when the caller's checkout hook (a prior [BeforeAcquire] included)
    keeps it and the last two succeed again.  A refused checkout reports the
    error, never asks for a silent retry, and without any check the caller's
    hooks are left as they were. *)
Theorem connection_validation h c v :
  let h' := installConnectionValidation h c v in
  let checks := omap id [onConnect v] ++ checkout_checks c v in
  (checks = [] → h' = h) ∧
  (checks ≠ [] → ∃ connected, AfterConnect h' = Some connected ∧ ∀ ctx conn w w',
     (connected ctx conn w = (Ok tt, w') ↔
        passed (bounded_by (operationTimeout c) ctx w) conn (omap id [AfterConnect h] ++ checks) w w') ∧
     (0 < operationTimeout c → connected ctx conn w = (Ok tt, w') → clock w' < clock w + operationTimeout c)) ∧
  (checkout_checks c v ≠ [] → BeforeAcquire h' = None ∧ ∃ checkout, PrepareConn h' = Some checkout ∧
     ∀ ctx conn w w' ok err, checkout ctx conn w = ((ok, err), w') →
     let ctx' := bounded_by (operationTimeout c) ctx w in
     match prior_prepare h with
     | Some prior => let '((pok, perr), w1) := prior ctx' conn w in
         if decide (pok = true ∧ perr = None)
         then (ok = true ↔ ctx_Err ctx' w1 = None ∧ passed ctx' conn (checkout_checks c v) w1 w') ∧
              (ok = true ↔ err = None)
         else ok = pok ∧ err = perr ∧ w' = w1
     | None => (ok = true ↔ passed ctx' conn (checkout_checks c v) w w') ∧ (ok = true ↔ err = None)
     end).
Proof.
  cbv zeta. unfold installConnectionValidation, checkout_checks.
  assert (Hany : ∀ l, anyCheck l = false ↔ omap id l = []).
  { intros l. unfold anyCheck. induction l as [|[p|] l IH]; [done| |]; cbn [existsb omap list_omap id].
    - rewrite bool_decide_eq_true_2 by eauto. done.
    - rewrite bool_decide_eq_false_2 by (by intros [? [=]]). exact IH. }
  rewrite <-omap_app. change ([onConnect v] ++ ?l) with (onConnect v :: l).
  destruct (anyCheck [onConnect v; restricted_check c; applied_check v]) eqn:E1; cbn [negb].
  2:{ pose proof E1 as E1'%Hany. split_and!; [done|done|].
      intros Hne. exfalso. apply Hne. revert E1'. cbn [omap list_omap id]. by destruct (onConnect v). }
  split; [intros H%Hany; congruence|]. split.
  - intros _. exists (after_connect (operationTimeout c) (AfterConnect h)
      [onConnect v; restricted_check c; applied_check v]). split; [by case_match|].
    intros ctx conn w w'. rewrite after_connect_ok, <-omap_app. split; [done|].
    intros Ht Hp. change ([AfterConnect h] ++ ?l) with (AfterConnect h :: l) in Hp.
    apply bounded_deadline with (ctx := ctx); [done|].
    destruct (omap id (AfterConnect h :: [onConnect v; restricted_check c; applied_check v])) as [|p ps] eqn:Eo.
    + apply Hany in Eo. cbn [anyCheck existsb] in Eo, E1. apply orb_false_iff in Eo as [_ Eo].
      unfold anyCheck in E1. cbn [existsb] in E1. congruence.
    + by apply passed_current in Hp.
  - intros Hne. destruct (anyCheck [restricted_check c; applied_check v]) eqn:E2; [|by apply Hany in E2].
    cbn [negb]. split; [done|]. eexists. split; [reflexivity|].
    intros ctx conn w w' ok err H. unfold prepare_conn in H. cbv zeta in H.
    set (ctx' := bounded_by (operationTimeout c) ctx w) in *.
    assert (Hchecked : ∀ w1, match validate_connection ctx' conn [restricted_check c; applied_check v] w1 with
        | (Ok _, w) => ((true, None), w) | (Err e, w) => ((false, Some e), w) end = ((ok, err), w') →
      (ok = true ↔ passed ctx' conn (omap id [restricted_check c; applied_check v]) w1 w') ∧
      (ok = true ↔ err = None)).
    { intros w1. rewrite <-validate_connection_ok.
      destruct (validate_connection _ _ _ w1) as [[[]|e] w2]; intros [= <- <- <-]; naive_solver. }
    destruct (prior_prepare h) as [prior|]; [|by apply Hchecked].
    destruct (prior ctx' conn w) as [[pok perr] w1].
    destruct pok; [destruct perr as [pe|]|].
    + rewrite decide_False by (by intros [_ [=]]). cbn [negb orb] in H.
      rewrite bool_decide_eq_true_2 in H by eauto. by injection H as <- <- <-.
    + rewrite decide_True by done. cbn [negb orb] in H.
      rewrite bool_decide_eq_false_2 in H by (by intros [? [=]]).
      destruct (ctx_Err ctx' w1); [|apply Hchecked in H as [H1 H2]; by rewrite H1, <-H2, H1; tauto].
      injection H as <- <- <-. by split; split; intros; repeat match goal with H : _ ∧ _ |- _ => destruct H end.
    + rewrite decide_False by (by intros [[=] _]). by injection H as <- <- <-.
Qed.
End install.

#[global] Arguments installConnectionValidation : simpl never.
