(* ===== verification/Store.v ===== *)
(** Authenticated, transaction-scoped access ([libs/go/store.go] and
    [libs/go/maintenance.go]): principals and workloads, the factory and its
    capabilities, and the transactions that run an application's callback. *)
From S2P Require Import Prelude GoStrings Traces ConnectionProfile Json Config.

Definition ErrUnauthenticated : string := "postgres scope requires an authenticated principal".
Definition ErrUnauthorized : string := "postgres write capability is not authorized".

(** ** Principals, authenticators and workloads *)

(** An application's own principal, or a workload's. *)
Inductive Principal :=
  | RequestPrincipal (tenant user : string)
  | WorkloadPrincipal (w : workloadPrincipal).
Definition DatabaseTenantID (p : Principal) : string :=
  match p with RequestPrincipal t _ => t | WorkloadPrincipal w => wp_tenantID w end.
Definition DatabaseUserID (p : Principal) : string :=
  match p with RequestPrincipal _ u => u | WorkloadPrincipal w => wp_userID w end.

(** What an application supplies; a nil principal is [None]. *)
Record Authenticator := {
  AuthenticatedPrincipal : option Context → result (option Principal);
  AuthorizeDatabaseWrite : option Context → Principal → result unit;
}.

(** [wi_self] is the issuer's address. *)
Record WorkloadIssuer := { wi_self : nat; wi_requests : option Authenticator }.
Record Workload := { principal : workloadPrincipal }.

Definition NewWorkloadIssuer (self : nat) (requests : option Authenticator) : result WorkloadIssuer :=
  match requests with
  | None => Err (ENew "request authenticator is required" [])
  | Some _ => Ok {| wi_self := self; wi_requests := requests |}
  end.

(** The issuer and its request authenticator, when both are there. *)
Definition live_issuer (issuer : option WorkloadIssuer) : option (nat * Authenticator) :=
  i ← issuer; r ← wi_requests i; Some (wi_self i, r).

Definition Issue (issuer : option WorkloadIssuer) (tenantID workloadID : string) (writable : bool) :
    result Workload :=
  match live_issuer issuer with
  | None => Err (ENew "workload issuer is not configured" [])
  | Some (self, _) =>
    let tenantID := trim_space tenantID in
    let workloadID := trim_space workloadID in
    _ ← guard_err (bool_decide (tenantID = "") || bool_decide (workloadID = ""))
          (ENew "workload tenant and identity are required" []);
    Ok {| principal := {| wp_issuer := Some self; wp_tenantID := tenantID;
                          wp_userID := "workload:" +:+ workloadID; wp_writable := writable |} |}
  end.

Definition workload_Context (workload : option Workload) (ctx : option Context) : Context :=
  let ctx := default Background ctx in
  match workload with
  | Some w =>
    match wp_issuer (principal w) with
    | Some _ => {| ctx_deadline := ctx_deadline ctx; ctx_workload := Some (principal w) |}
    | None => ctx
    end
  | None => ctx
  end.

Definition issuer_AuthenticatedPrincipal (issuer : option WorkloadIssuer) (ctx : option Context) :
    result (option Principal) :=
  match live_issuer issuer, ctx with
  | Some (self, requests), Some c =>
    match ctx_workload c with
    | Some w =>
      if bool_decide (wp_issuer w = Some self) && negb (bool_decide (wp_tenantID w = ""))
         && negb (bool_decide (wp_userID w = ""))
      then Ok (Some (WorkloadPrincipal w)) else AuthenticatedPrincipal requests ctx
    | None => AuthenticatedPrincipal requests ctx
    end
  | _, _ => Err (ENew ErrUnauthenticated [])
  end.

Definition issuer_AuthorizeDatabaseWrite (issuer : option WorkloadIssuer) (ctx : option Context)
    (p : Principal) : result unit :=
  match live_issuer issuer with
  | None => Err (ENew ErrUnauthorized [])
  | Some (self, requests) =>
    match p with
    | WorkloadPrincipal w =>
      if bool_decide (wp_issuer w = Some self)
      then guard_err (negb (wp_writable w)) (ENew "database workload has no write capability" [])
      else AuthorizeDatabaseWrite requests ctx p
    | RequestPrincipal _ _ => AuthorizeDatabaseWrite requests ctx p
    end
  end.

(** An issuer is itself an authenticator. *)
Definition issuer_authenticator (issuer : option WorkloadIssuer) : Authenticator :=
  {| AuthenticatedPrincipal := issuer_AuthenticatedPrincipal issuer;
     AuthorizeDatabaseWrite := issuer_AuthorizeDatabaseWrite issuer |}.

(** ** Transactions *)

Definition ReadOnly : string := "read only".
Definition ReadWrite : string := "read write".

(** What is asked of a pool and of its transaction. *)
Inductive tx_call :=
  | BeginTx (pool : nat) (ctx : Context) (mode isolation : string)
  | TxQuery (ctx : option Context) (sql : string) (args : list string)
  | TxQueryRow (ctx : option Context) (sql : string) (args : list string)
  | TxExec (ctx : option Context) (sql : string) (args : list string)
  | TxCopyFrom (ctx : option Context) (table columns : list string)
  | TxCommit (ctx : Context)
  | TxRollback (ctx : Context).

Record transactionScope := {
  ts_tenantSetting : string;
  ts_tenantID : string;
  ts_userSetting : string;
  ts_userID : string;
}.

(** What an application may ask of [ReadTx] and of [WriteTx]. *)
Inductive read_op :=
  | OpQuery (ctx : option Context) (sql : string) (args : list string)
  | OpQueryRow (ctx : option Context) (sql : string) (args : list string).
Inductive write_op :=
  | OpRead (op : read_op)
  | OpExec (ctx : option Context) (sql : string) (args : list string)
  | OpCopyIntoTemporaryTable (ctx : option Context) (table : string) (columns : list string) (source : bool)
  | OpScopedAdvisoryLock (ctx : option Context) (namespace : string) (components : list string).

Section store.
(** Replies to calls, and the database: it answers knowing the calls before. *)
Context {Reply : Type} (answer : trace tx_call → tx_call → result Reply) `{!Clock (trace tx_call)}.

Definition ask (c : tx_call) : io (trace tx_call) Reply := call answer c.

(** An application's callback: what it asks next depends on the replies so far. *)
Inductive program (Op : Type) : Type :=
  | Return (r : result unit)
  | Perform (op : Op) (next : result Reply → program Op).
#[global] Arguments Return {Op}.
#[global] Arguments Perform {Op}.

Fixpoint run {Op : Type} (perform : Op → io (trace tx_call) Reply) (p : program Op) : io (trace tx_call) unit :=
  match p with
  | Return r => io_lift r
  | Perform op next => reply ← io_try (perform op); run perform (next reply)
  end.

Definition perform_read (op : read_op) : io (trace tx_call) Reply :=
  match op with
  | OpQuery ctx sql args => ask (TxQuery ctx sql args)
  | OpQueryRow ctx sql args => ask (TxQueryRow ctx sql args)
  end.

Definition CopyIntoTemporaryTable (ctx : option Context) (table : string) (columns : list string)
    (source : bool) : io (trace tx_call) Reply :=
  let table := trim_space table in
  _ ← io_guard (bool_decide (ctx = None) || bool_decide (table = "") || bool_decide (columns = []) || negb source)
        (ENew "scoped Postgres temporary copy requires a transaction, context, table, columns, and source" []);
  _ ← io_guard (existsb blank columns) (ENew "scoped Postgres temporary copy columns cannot be empty" []);
  io_wrap "copy into scoped Postgres temporary table %q: %w" [table]
    (ask (TxCopyFrom ctx ["pg_temp"; table] columns)).

Definition advisory_lock_sql : string :=
  "
		SELECT pg_advisory_xact_lock(hashtextextended(
			jsonb_build_array(
				NULLIF(current_setting($1, true), ''),
				$2::text,
				$3::jsonb
			)::text,
			0
		))
	".

Definition ScopedAdvisoryLock (tenantSetting : string) (ctx : option Context) (namespace : string)
    (components : list string) : io (trace tx_call) Reply :=
  let namespace := trim_space namespace in
  _ ← io_guard (bool_decide (ctx = None) || bool_decide (tenantSetting = "") || bool_decide (namespace = ""))
        (ENew "scoped Postgres advisory lock requires a transaction, context, and namespace" []);
  io_wrap "acquire scoped Postgres advisory lock: %w" []
    (ask (TxExec ctx advisory_lock_sql [tenantSetting; namespace; Marshal_strings components])).

Definition perform_write (tenantSetting : string) (op : write_op) : io (trace tx_call) Reply :=
  match op with
  | OpRead op => perform_read op
  | OpExec ctx sql args => ask (TxExec ctx sql args)
  | OpCopyIntoTemporaryTable ctx table columns source => CopyIntoTemporaryTable ctx table columns source
  | OpScopedAdvisoryLock ctx namespace components => ScopedAdvisoryLock tenantSetting ctx namespace components
  end.

Definition scope_sql : string := "SELECT set_config($1, $2, true), set_config($3, $4, true)".
Definition scope_args (s : transactionScope) : list string :=
  [ts_tenantSetting s; ts_tenantID s; ts_userSetting s; ts_userID s].

Definition runTransaction (ctx : option Context) (beginner : nat) (scope : transactionScope)
    (operationTimeout : Z) (accessMode isolation : string)
    (callback : Context → io (trace tx_call) unit) : io (trace tx_call) unit :=
  match ctx with
  | None => io_fail (ENew "scoped Postgres transaction context is required" [])
  | Some ctx => λ w,
    let ctx := bounded_by operationTimeout ctx w in
    (_ ← io_wrap "begin scoped Postgres transaction: %w" [] (ask (BeginTx beginner ctx accessMode isolation));
     io_finally
       (_ ← io_wrap "install Postgres transaction scope: %w" []
              (ask (TxExec (Some ctx) scope_sql (scope_args scope)));
        _ ← callback ctx;
        _ ← io_wrap "commit scoped Postgres transaction: %w" [] (ask (TxCommit ctx));
        mret tt)
       (_ ← ask (TxRollback ctx); mret tt)) w
  end.

(** ** Capabilities *)

Record Reader := {
  r_isolation : string;
  r_beginner : nat;
  r_scope : transactionScope;
  r_operationTimeout : Z;
}.
Record Writer := { w_beginner : nat; w_scope : transactionScope; w_operationTimeout : Z }.

Definition reader_InTransaction (r : Reader) (ctx : option Context)
    (fn : option (Context → program read_op)) : io (trace tx_call) unit :=
  match fn with
  | None => io_fail (ENew "read transaction callback is required" [])
  | Some fn =>
    runTransaction ctx (r_beginner r) (r_scope r) (r_operationTimeout r) ReadOnly (r_isolation r)
      (λ ctx, run perform_read (fn ctx))
  end.

Definition writer_InTransaction (w : Writer) (ctx : option Context)
    (fn : option (Context → program write_op)) : io (trace tx_call) unit :=
  match fn with
  | None => io_fail (ENew "write transaction callback is required" [])
  | Some fn =>
    runTransaction ctx (w_beginner w) (w_scope w) (w_operationTimeout w) ReadWrite ""
      (λ ctx, run (perform_write (ts_tenantSetting (w_scope w))) (fn ctx))
  end.

(** ** The factory and the maintenance capability *)

Record Factory {W : Type} := {
  f_reader : nat;
  f_writer : nat;
  f_authenticator : option Authenticator;
  f_config : config W;
}.
Record Maintenance {W : Type} := { m_backend : option nat; m_config : config W }.
#[global] Arguments Factory W : clear implicits.
#[global] Arguments Maintenance W : clear implicits.

Section factory.
Context {W : Type}.

Definition newFactory (reader writer : option nat) (authenticator : option Authenticator)
    (options : list (option (Option (W := W)))) : result (Factory W) :=
  match reader, writer, authenticator with
  | None, _, _ | _, None, _ => Err (ENew "Postgres transaction beginners are required" [])
  | _, _, None => Err (ENew "Postgres authenticator is required" [])
  | Some reader, Some writer, Some _ =>
    c ← configured options;
    Ok {| f_reader := reader; f_writer := writer; f_authenticator := authenticator; f_config := c |}
  end.

Definition NewFactory (reader writer : option nat) (authenticator : option Authenticator)
    (options : list (option (Option (W := W)))) : result (Factory W) :=
  match reader, writer with
  | None, _ => Err (ENew "read-only Postgres pool is required" [])
  | _, None => Err (ENew "read-write Postgres pool is required" [])
  | Some reader, Some writer => newFactory (Some reader) (Some writer) authenticator options
  end.

(** [Factory.principal]: the authenticated principal and its trimmed scope. *)
Definition factory_principal (f : option (Factory W)) (ctx : option Context) :
    result (Principal * transactionScope) :=
  match f, ctx with
  | Some f, Some _ =>
    match f_authenticator f with
    | None => Err (ENew ErrUnauthenticated [])
    | Some a =>
      match AuthenticatedPrincipal a ctx with
      | Err e => Err (EJoin [ENew ErrUnauthenticated []; e])
      | Ok None => Err (ENew ErrUnauthenticated [])
      | Ok (Some p) =>
        let tenantID := trim_space (DatabaseTenantID p) in
        let userID := trim_space (DatabaseUserID p) in
        _ ← guard_err (bool_decide (tenantID = "") || bool_decide (userID = "")) (ENew ErrUnauthenticated []);
        Ok (p, {| ts_tenantSetting := tenantSetting (f_config f); ts_tenantID := tenantID;
                  ts_userSetting := userSetting (f_config f); ts_userID := userID |})
      end
    end
  | _, _ => Err (ENew ErrUnauthenticated [])
  end.

Definition factory_Reader (f : Factory W) (ctx : option Context) : result Reader :=
  '(_, scope) ← factory_principal (Some f) ctx;
  Ok {| r_isolation := readIsolation (f_config f); r_beginner := f_reader f; r_scope := scope;
        r_operationTimeout := operationTimeout (f_config f) |}.

(** [a] is the factory's authenticator, present once [factory_principal] succeeds. *)
Definition authorize (f : Factory W) (ctx : option Context) (p : Principal) : result unit :=
  match f_authenticator f with
  | None => Ok tt
  | Some a => match AuthorizeDatabaseWrite a ctx p with
              | Ok _ => Ok tt
              | Err e => Err (EJoin [ENew ErrUnauthorized []; e])
              end
  end.

Definition factory_Writer (f : Factory W) (ctx : option Context) : result Writer :=
  '(p, scope) ← factory_principal (Some f) ctx;
  _ ← authorize f ctx p;
  Ok {| w_beginner := f_writer f; w_scope := scope; w_operationTimeout := operationTimeout (f_config f) |}.

Definition RequireTenant (f : option (Factory W)) (ctx : option Context) (tenantID : string) : result unit :=
  '(_, scope) ← factory_principal f ctx;
  guard_err (blank tenantID || negb (bool_decide (trim_space tenantID = ts_tenantID scope)))
    (EJoin [ENew ErrUnauthorized [];
            ENew "artifact tenant does not match authenticated database scope" []]).

Definition RequireUser (f : option (Factory W)) (ctx : option Context) (userID : string) : result unit :=
  '(_, scope) ← factory_principal f ctx;
  guard_err (blank userID || negb (bool_decide (trim_space userID = ts_userID scope)))
    (EJoin [ENew ErrUnauthorized [];
            ENew "artifact user does not match authenticated database scope" []]).

Definition NewMaintenance (pool : option nat) (options : list (option (Option (W := W)))) :
    result (Maintenance W) :=
  match pool with
  | None => Err (ENew "maintenance Postgres pool is required" [])
  | Some _ => c ← configured options; Ok {| m_backend := pool; m_config := c |}
  end.

(** Both identities are cleared, so that only the explicit role has authority. *)
Definition maintenance_scope (m : Maintenance W) : transactionScope :=
  {| ts_tenantSetting := tenantSetting (m_config m); ts_tenantID := "";
     ts_userSetting := userSetting (m_config m); ts_userID := "" |}.

Definition maintenance_Reader (m : option (Maintenance W)) (ctx : option Context) : result Reader :=
  match m, ctx with
  | Some m, Some _ =>
    match m_backend m with
    | None => Err (ENew ErrUnauthenticated [])
    | Some pool => Ok {| r_isolation := readIsolation (m_config m); r_beginner := pool;
                         r_scope := maintenance_scope m; r_operationTimeout := operationTimeout (m_config m) |}
    end
  | _, _ => Err (ENew ErrUnauthenticated [])
  end.

Definition maintenance_Writer (m : option (Maintenance W)) (ctx : option Context) : result Writer :=
  match m, ctx with
  | Some m, Some _ =>
    match m_backend m with
    | None => Err (ENew ErrUnauthorized [])
    | Some pool => Ok {| w_beginner := pool; w_scope := maintenance_scope m;
                         w_operationTimeout := operationTimeout (m_config m) |}
    end
  | _, _ => Err (ENew ErrUnauthorized [])
  end.
End factory.

(** ** What a transaction does *)

(** Calls an application can make happen between the scope and the commit. *)
Definition read_call (c : tx_call) : Prop :=
  match c with TxQuery _ _ _ | TxQueryRow _ _ _ => True | _ => False end.
Definition write_call (c : tx_call) : Prop :=
  match c with
  | TxQuery _ _ _ | TxQueryRow _ _ _ | TxExec _ _ _ => True
  | TxCopyFrom _ table columns =>
    (∃ name, table = ["pg_temp"; name] ∧ name ≠ "" ∧ trim_space name = name) ∧ columns ≠ []
  | _ => False
  end.

(** The abstract contract of one transaction, over what the callback does when it runs
    on what was called [before] and the two calls that open its scope: the calls made and
    the result.  The scope is installed before anything the application asks for; the
    callback's error is the transaction's, and nothing is committed then; the commit
    comes last and only when the callback succeeded; the rollback always follows. *)
Inductive session (begin : tx_call) (ctx : Context) (scope : transactionScope) (allowed : tx_call → Prop)
    (callback : io (trace tx_call) unit) (before : trace tx_call) : result unit → trace tx_call → Prop :=
  | session_refused e : session begin ctx scope allowed callback before (Err e) [(begin, false)]
  | session_unscoped e b :
      session begin ctx scope allowed callback before (Err e)
        [(begin, true); (TxExec (Some ctx) scope_sql (scope_args scope), false); (TxRollback ctx, b)]
  | session_failed e ops b :
      let opened := [(begin, true); (TxExec (Some ctx) scope_sql (scope_args scope), true)] in
      callback (before ++ opened) = (Err e, before ++ opened ++ ops) → Forall (λ c, allowed c.1) ops →
      session begin ctx scope allowed callback before (Err e) (opened ++ ops ++ [(TxRollback ctx, b)])
  | session_uncommitted e ops b :
      let opened := [(begin, true); (TxExec (Some ctx) scope_sql (scope_args scope), true)] in
      callback (before ++ opened) = (Ok tt, before ++ opened ++ ops) → Forall (λ c, allowed c.1) ops →
      session begin ctx scope allowed callback before (Err e)
        (opened ++ ops ++ [(TxCommit ctx, false); (TxRollback ctx, b)])
  | session_committed ops b :
      let opened := [(begin, true); (TxExec (Some ctx) scope_sql (scope_args scope), true)] in
      callback (before ++ opened) = (Ok tt, before ++ opened ++ ops) → Forall (λ c, allowed c.1) ops →
      session begin ctx scope allowed callback before (Ok tt)
        (opened ++ ops ++ [(TxCommit ctx, true); (TxRollback ctx, b)]).

Definition only (allowed : tx_call → Prop) {A} (m : io (trace tx_call) A) : Prop :=
  runs m (λ _ new, Forall (λ c, allowed c.1) new).

Lemma run_only {Op : Type} (perform : Op → io (trace tx_call) Reply) allowed p :
  (∀ op, only allowed (perform op)) → only allowed (run perform p).
Proof.
  intros Hp. induction p as [r|op next IH]; cbn [run].
  - eapply runs_mono; [apply runs_lift|]. by intros r' new [_ ->].
  - eapply runs_mono; [eapply runs_bind; [apply runs_try, Hp|intros a; apply IH]|].
    intros r new [(e & (r0 & [=] & _) & _)|(a & n1 & n2 & (r0 & _ & H1) & H2 & ->)]. by apply Forall_app.
Qed.

Lemma ask_only allowed c : allowed c → only allowed (ask c).
Proof. intros Hc. eapply runs_mono; [apply runs_call|]. intros r new ->. by repeat constructor. Qed.

Lemma only_guard allowed {A} b e (m : io (trace tx_call) A) :
  (b = false → only allowed m) → only allowed (io_guard b e ≫= λ _, m).
Proof.
  intros Hm. destruct b; [|by apply Hm].
  eapply runs_mono; [apply runs_fail|]. by intros r new [_ ->].
Qed.
Lemma only_wrap allowed {A} f args (m : io (trace tx_call) A) :
  only allowed m → only allowed (io_wrap f args m).
Proof. intros Hm. eapply runs_mono; [by apply runs_wrap|]. by intros r new (r0 & _ & ?). Qed.

Lemma perform_read_only op : only read_call (perform_read op).
Proof. by destruct op; apply ask_only. Qed.

Lemma perform_write_only setting op : only write_call (perform_write setting op).
Proof.
  destruct op as [[]| |ctx table columns source|ctx namespace components]; cbn [perform_write perform_read];
    try (by apply ask_only).
  - unfold CopyIntoTemporaryTable. cbv zeta. apply only_guard. intros H. apply only_guard. intros _.
    apply only_wrap, ask_only. rewrite !orb_false_iff, !bool_decide_eq_false in H.
    destruct H as [[[_ Ht] Hc] _]. split; [|done]. exists (trim_space table). split; [done|]. split; [done|].
    apply trim_space_idem.
  - unfold ScopedAdvisoryLock. cbv zeta. apply only_guard. intros _. by apply only_wrap, ask_only.
Qed.

(** A transaction without a context makes no call; any other one is a session. *)
Lemma runTransaction_session ctx beginner scope timeout mode isolation callback allowed tr :
  (∀ c, only allowed (callback c)) →
  match ctx with
  | None => (runTransaction ctx beginner scope timeout mode isolation callback tr).2 = tr
  | Some c =>
    ∃ new, (runTransaction ctx beginner scope timeout mode isolation callback tr).2 = tr ++ new ∧
      let c' := bounded_by timeout c tr in
      session (BeginTx beginner c' mode isolation) c' scope allowed (callback c') tr
        (runTransaction ctx beginner scope timeout mode isolation callback tr).1 new
  end.
Proof.
  intros Hcb. destruct ctx as [ctx|]; [|done]. unfold runTransaction. cbv zeta.
  set (c := bounded_by timeout ctx tr).
  unfold io_finally, io_defer, io_wrap, ask, call, mbind, io_bind, mret, io_ret. cbv beta zeta.
  destruct (answer tr (BeginTx beginner c mode isolation)); cbn [wrap_err is_ok fst snd]; [|eexists; split; [done|constructor]].
  destruct (answer (tr ++ _) (TxExec (Some c) scope_sql (scope_args scope))); cbn [wrap_err is_ok fst snd]; rewrite <-app_assoc; cbn [app].
  2: { destruct (answer (tr ++ _) (TxRollback c)); cbn; rewrite <-app_assoc; (eexists; split; [done|apply session_unscoped]). }
  match goal with |- context [callback c (tr ++ ?o)] => set (opened := o) end.
  destruct (Hcb c (tr ++ opened)) as (ops & Eops & Hops). destruct (callback c (tr ++ opened)) as [[[]|e] tr'] eqn:Ecb;
    cbn [fst snd] in *; subst tr'; rewrite <-app_assoc in Ecb.
  - destruct (answer ((tr ++ opened) ++ ops) (TxCommit c)) as [r|e]; cbn [wrap_err is_ok fst snd];
      destruct (answer (((tr ++ opened) ++ ops) ++ _) (TxRollback c));
      cbn [wrap_err is_ok fst snd]; rewrite <-!app_assoc; (eexists; split; [done|]);
      first [by apply session_committed | by eapply session_uncommitted].
  - destruct (answer ((tr ++ opened) ++ ops) (TxRollback c)); cbn [is_ok fst snd]; rewrite <-!app_assoc;
      (eexists; split; [done|by apply session_failed]).
Qed.

(** The scope an authenticated request is confined to. *)
Definition authenticated_scope {W} (f : Factory W) (ctx : option Context) (p : Principal) (s : transactionScope) : Prop :=
  (∃ a, f_authenticator f = Some a ∧ AuthenticatedPrincipal a ctx = Ok (Some p)) ∧
  ts_tenantSetting s = tenantSetting (f_config f) ∧ ts_userSetting s = userSetting (f_config f) ∧
  ts_tenantID s = trim_space (DatabaseTenantID p) ∧ ts_tenantID s ≠ "" ∧
  ts_userID s = trim_space (DatabaseUserID p) ∧ ts_userID s ≠ "".

Lemma factory_principal_ok {W} (f : Factory W) ctx p s :
  factory_principal (Some f) ctx = Ok (p, s) → authenticated_scope f ctx p s.
Proof.
  unfold factory_principal, authenticated_scope. destruct ctx as [c|]; [|done].
  destruct (f_authenticator f) as [a|]; [|done].
  destruct (AuthenticatedPrincipal a (Some c)) as [[p'|]|] eqn:E; try done.
  intros (u & H%guard_ok & [= <- <-])%bind_ok.
  apply orb_false_iff in H as [H1%bool_decide_eq_false H2%bool_decide_eq_false].
  split; [by exists a|]. by split_and!.
Qed.

(** C1: every transaction of a capability a factory hands out is a session of
    that contract: on the reader pool and read only for a reader, on the writer
    pool for a writer whose principal the application also authorized; under the
    authenticated principal's own nonempty tenant and user and nothing else;
    within the operation timeout; with only queries for a reader, and for a
    writer no copy outside [pg_temp]; and committed exactly when the callback itself
    succeeded on what the transaction answered it, its error being returned otherwise. *)
Theorem scoped_transactions {W} (f : Factory W) ctx :
  (∀ r, factory_Reader f ctx = Ok r →
     ∃ p s, authenticated_scope f ctx p s ∧ ∀ tctx fn tr,
     match tctx with
     | None => (reader_InTransaction r None (Some fn) tr).2 = tr
     | Some c => ∃ new, (reader_InTransaction r (Some c) (Some fn) tr).2 = tr ++ new ∧
       let c' := bounded_by (operationTimeout (f_config f)) c tr in
       session (BeginTx (f_reader f) c' ReadOnly (readIsolation (f_config f))) c' s read_call
         (run perform_read (fn c')) tr
         (reader_InTransaction r (Some c) (Some fn) tr).1 new
     end) ∧
  (∀ w, factory_Writer f ctx = Ok w →
     ∃ p s, authenticated_scope f ctx p s ∧
     (∀ a, f_authenticator f = Some a → AuthorizeDatabaseWrite a ctx p = Ok tt) ∧ ∀ tctx fn tr,
     match tctx with
     | None => (writer_InTransaction w None (Some fn) tr).2 = tr
     | Some c => ∃ new, (writer_InTransaction w (Some c) (Some fn) tr).2 = tr ++ new ∧
       let c' := bounded_by (operationTimeout (f_config f)) c tr in
       session (BeginTx (f_writer f) c' ReadWrite "") c' s write_call
         (run (perform_write (tenantSetting (f_config f))) (fn c')) tr
         (writer_InTransaction w (Some c) (Some fn) tr).1 new
     end).
Proof.
  split.
  - intros r H. unfold factory_Reader in H. apply bind_ok in H as ([p s] & Hp & [= <-]).
    exists p, s. split; [by apply factory_principal_ok|]. intros tctx fn tr.
    pose proof (runTransaction_session tctx (f_reader f) s (operationTimeout (f_config f)) ReadOnly
      (readIsolation (f_config f)) (λ ctx, run perform_read (fn ctx)) read_call tr
      (λ c, run_only _ _ _ perform_read_only)) as Hs.
    by destruct tctx.
  - intros w H. unfold factory_Writer in H. apply bind_ok in H as ([p s] & Hp & H).
    apply bind_ok in H as ([] & Hw & [= <-]). exists p, s. split; [by apply factory_principal_ok|]. split.
    + intros a Ha. unfold authorize in Hw. rewrite Ha in Hw.
      by destruct (AuthorizeDatabaseWrite a ctx p) as [[]|].
    + intros tctx fn tr.
      pose proof (runTransaction_session tctx (f_writer f) s (operationTimeout (f_config f)) ReadWrite ""
        (λ ctx, run (perform_write (ts_tenantSetting s)) (fn ctx)) write_call tr
        (λ c, run_only _ _ _ (perform_write_only _))) as Hs.
      destruct (factory_principal_ok f ctx p s Hp) as (_ & <- & _). by destruct tctx.
Qed.

(** A workload capability. Bound to a context, the workload that an issuer
    gives for a tenant and an identity authenticates, under that issuer, exactly
    the trimmed tenant and the trimmed identity behind "workload:", whatever the
    context and its request say; it can read, and write precisely when it was
    issued writable. Under any other issuer it is nobody: the request
    authenticator decides, as it does where no workload is bound. *)
Theorem workload_capabilities {W} self requests tenantID workloadID writable w ctx (f : Factory W) :
  let issuer := Some {| wi_self := self; wi_requests := Some requests |} in
  let bound := workload_Context (Some w) ctx in
  let scope := {| ts_tenantSetting := tenantSetting (f_config f); ts_tenantID := trim_space tenantID;
                  ts_userSetting := userSetting (f_config f);
                  ts_userID := "workload:" +:+ trim_space workloadID |} in
  Issue issuer tenantID workloadID writable = Ok w →
  f_authenticator f = Some (issuer_authenticator issuer) →
  (r_scope <$> factory_Reader f (Some bound)) = Ok scope ∧
  (w_scope <$> factory_Writer f (Some bound)) =
    (if writable then Ok scope
     else Err (EJoin [ENew ErrUnauthorized []; ENew "database workload has no write capability" []])) ∧
  (∀ other requests', other ≠ self →
     issuer_AuthenticatedPrincipal (Some {| wi_self := other; wi_requests := Some requests' |}) (Some bound) =
     AuthenticatedPrincipal requests' (Some bound)) ∧
  (∀ c, ctx_workload c = None →
     issuer_AuthenticatedPrincipal issuer (Some c) = AuthenticatedPrincipal requests (Some c)).
Proof.
  intros issuer bound scope Hissue Hauth. unfold Issue in Hissue. cbn in Hissue.
  apply bind_ok in Hissue as (u & Hne%guard_ok & [= <-]).
  apply orb_false_iff in Hne as [Ht%bool_decide_eq_false Hw%bool_decide_eq_false].
  set (p := {| wp_issuer := Some self; wp_tenantID := trim_space tenantID;
               wp_userID := "workload:" +:+ trim_space workloadID; wp_writable := writable |}).
  assert (Hp : factory_principal (Some f) (Some bound) = Ok (WorkloadPrincipal p, scope)).
  { assert (Hiss : AuthenticatedPrincipal (issuer_authenticator issuer) (Some bound) = Ok (Some (WorkloadPrincipal p))).
    { cbn. rewrite !bool_decide_eq_true_2, bool_decide_eq_false_2 by done. done. }
    unfold factory_principal. rewrite Hauth, Hiss. cbn [DatabaseTenantID DatabaseUserID wp_tenantID wp_userID p].
    rewrite trim_space_idem, (trim_space_prefix "workload:") by (done || apply trim_space_idem).
    rewrite !bool_decide_eq_false_2 by done. done. }
  split_and!.
  - unfold factory_Reader. by rewrite Hp.
  - unfold factory_Writer. rewrite Hp. cbn [mbind result_bind]. unfold authorize. rewrite Hauth. cbn.
    rewrite bool_decide_eq_true_2 by done. by destruct writable.
  - intros other requests' Ho. cbn. by rewrite bool_decide_eq_false_2 by congruence.
  - intros c Hc. cbn. by rewrite Hc.
Qed.

Definition no_requests : Authenticator :=
  {| AuthenticatedPrincipal := λ _, Ok None; AuthorizeDatabaseWrite := λ _ _, Err (ENew "no" []) |}.

Lemma workload_capabilities_witness :
  let issuer := Some {| wi_self := 7; wi_requests := Some no_requests |} in
  let f : Factory unit := {| f_reader := 1; f_writer := 2; f_authenticator := Some (issuer_authenticator issuer);
                             f_config := default_config |} in
  ∃ w, Issue issuer " acme " "nightly" false = Ok w ∧
  (w_scope <$> factory_Writer f (Some (workload_Context (Some w) None))) =
    Err (EJoin [ENew ErrUnauthorized []; ENew "database workload has no write capability" []]).
Proof.
  intros issuer f. eexists. split; [reflexivity|].
  by apply (workload_capabilities 7 no_requests " acme " "nightly" false _ None f).
Defined.
End store.
#[global] Arguments Return {Reply Op}.
#[global] Arguments Perform {Reply Op}.
