(* ===== verification/Open.v ===== *)
(** Opening capabilities ([libs/go/open.go], [libs/go/pool.go], the constructor
    of [libs/go/maintenance.go] and [installAccessTokenProvider] of
    [libs/go/identity.go]): which connections a capability accepts, how its pool
    is configured, and who owns the pools when a step fails. *)
From S2P Require Import Prelude GoStrings ConnectionProfile Config ConnectionPolicy Store.

(** ** Pools *)

(** [pgxpool.Config] after the library's changes. *)
Record pool_config {W : Type} := {
  pc_connection : PoolConfig;
  pc_before_connect : option (Context → PoolConfig → io W PoolConfig);
  pc_hooks : PoolHooks W;
}.
#[global] Arguments pool_config W : clear implicits.

(** The pools of the process, by address: opening, pinging and closing one. *)
Class Pools (W : Type) := {
  NewWithConfig : Context → pool_config W → io W nat;
  Ping : Context → nat → io W unit;
  ClosePool : nat → W → W;
  open_pools : W → gset nat;
}.
Class PoolsLaws W (P : Pools W) : Prop := {
  new_ok : ∀ ctx c w p w', NewWithConfig ctx c w = (Ok p, w') →
    p ∉ open_pools w ∧ open_pools w' = {[p]} ∪ open_pools w;
  new_err : ∀ ctx c w e w', NewWithConfig ctx c w = (Err e, w') → open_pools w' = open_pools w;
  ping_pools : ∀ ctx p w, open_pools (Ping ctx p w).2 = open_pools w;
  close_pools : ∀ p w, open_pools (ClosePool p w) = open_pools w ∖ {[p]};
}.

(** A closer behind a [sync.Once]: the flag and what is left open. *)
Definition closer (W : Type) : Type := bool * W → bool * W.
Definition once_do {W} (close : W → W) : closer W := λ '(done, w), if done then (done, w) else (true, close w).

Definition with_password (c : PoolConfig) (password : string) : PoolConfig :=
  {| C_Host := C_Host c; C_Port := C_Port c; C_Database := C_Database c; C_User := C_User c;
     C_Password := password; C_Fallbacks := C_Fallbacks c; C_RuntimeParams := C_RuntimeParams c;
     C_TLS := C_TLS c |}.
Definition with_role (c : PoolConfig) (role : string) : PoolConfig :=
  {| C_Host := C_Host c; C_Port := C_Port c; C_Database := C_Database c; C_User := C_User c;
     C_Password := C_Password c; C_Fallbacks := C_Fallbacks c;
     C_RuntimeParams := <["role" := role]> (C_RuntimeParams c); C_TLS := C_TLS c |}.

Section open.
Context {W : Type} `{d : Driver} `{!Clock W} `{P : !Pools W}.
Context (azure gcp : Context → io W (AccessTokenProvider W)).
Context (restricted_query : list string → Context → Conn → io W bool).
(** The qualification query of the maintenance role. *)
Context (qualify_query : string → Context → Conn → io W bool).

(** The rest of a function under [context.WithTimeout], when there is a timeout. *)
Definition bounding {A} (timeout : Z) (ctx : Context) (k : Context → io W A) : io W A := λ w,
  k (bounded_by timeout ctx w) w.

Definition no_hooks : PoolHooks W :=
  {| AfterConnect := None; BeforeAcquire := None; PrepareConn := None |}.
Definition parsed (c : PoolConfig) : pool_config W :=
  {| pc_connection := c; pc_before_connect := None; pc_hooks := no_hooks |}.

Definition installAccessTokenProvider (pc : pool_config W) (provider : AccessTokenProvider W) : pool_config W :=
  {| pc_connection := pc_connection pc;
     pc_before_connect := Some (λ ctx conn, token ← provider ctx (C_User conn); mret (with_password conn token));
     pc_hooks := pc_hooks pc |}.
Definition install_provider (c : config W) (pc : pool_config W) : pool_config W :=
  match accessTokenProvider c with Some provider => installAccessTokenProvider pc provider | None => pc end.
Definition install_validation (c : config W) (v : connectionValidation W) (pc : pool_config W) : pool_config W :=
  {| pc_connection := pc_connection pc; pc_before_connect := pc_before_connect pc;
     pc_hooks := installConnectionValidation restricted_query (pc_hooks pc) c v |}.

Definition token_hook (c : config W) : bool := bool_decide (is_Some (accessTokenProvider c)).

Definition capabilityConfigsWithProfiles (readOnly readWrite : string) (c : config W) :
    result (PoolConfig * PoolConfig) :=
  _ ← guard_err (blank readOnly || blank readWrite)
        (ENew "distinct read-only and read-write Postgres connections are required" []);
  reader ← wrap_err "parse read-only Postgres capability: %w" []
             (ParseConnection readOnly (readerProfile c) (token_hook c));
  writer ← wrap_err "parse read-write Postgres capability: %w" []
             (ParseConnection readWrite (writerProfile c) (token_hook c));
  let readerUser := trim_space (C_User reader) in
  let writerUser := trim_space (C_User writer) in
  _ ← guard_err (bool_decide (readerUser = "") || bool_decide (writerUser = "") || bool_decide (readerUser = writerUser))
        (ENew "read-only and read-write Postgres capabilities must use distinct database roles" []);
  _ ← guard_err (distinctProxySockets c && bool_decide (Transport (readerProfile c) = LocalIdentityProxy)
                 && bool_decide (Transport (writerProfile c) = LocalIdentityProxy)
                 && bool_decide (C_Host reader = C_Host writer)) (ENew ErrConnectionProfile []);
  Ok (reader, writer).

(** [if err != nil { closePools(); return ..., profileConnectionError(...) }] *)
Definition or_close {A} (close : W → W) (fail : error → error) (m : io W A) : io W A := λ w,
  match m w with
  | (Ok a, w) => (Ok a, w)
  | (Err e, w) => (Err (fail e), close w)
  end.
Definition no_close : W → W := λ w, w.

Definition reader_config (c : config W) (reader : PoolConfig) : pool_config W :=
  install_validation c {| capability := "read-only"; onConnect := None; policy := readerPolicy c |}
    (install_provider c (parsed reader)).
Definition writer_config (c : config W) (writer : PoolConfig) : pool_config W :=
  install_validation c {| capability := "read-write"; onConnect := None; policy := writerPolicy c |}
    (install_provider c (parsed writer)).

Definition Open (ctx : option Context) (readOnly readWrite : string) (authenticator : option Authenticator)
    (options : list (option (Option (W := W)))) : io W (Factory W * closer W) :=
  match ctx with
  | None => io_fail (ENew "scoped Postgres context is required" [])
  | Some ctx =>
    c ← io_lift (configured options);
    c ← resolveExternalIdentity azure gcp ctx c;
    bounding (operationTimeout c) ctx (λ ctx,
     '(reader, writer) ← io_lift (capabilityConfigsWithProfiles readOnly readWrite c);
     let failed profile f e := profileConnectionError profile (EWrap f [] e) in
     readerPool ← or_close no_close (failed (readerProfile c) "open read-only Postgres capability: %w")
                    (NewWithConfig ctx (reader_config c reader));
     writerPool ← or_close (ClosePool readerPool) (failed (writerProfile c) "open read-write Postgres capability: %w")
                    (NewWithConfig ctx (writer_config c writer));
     let closePools w := ClosePool writerPool (ClosePool readerPool w) in
     _ ← or_close closePools (failed (readerProfile c) "ping read-only Postgres capability: %w") (Ping ctx readerPool);
     _ ← or_close closePools (failed (writerProfile c) "ping read-write Postgres capability: %w") (Ping ctx writerPool);
     factory ← or_close closePools
       (λ e, profileConnectionError (readerProfile c) (profileConnectionError (writerProfile c) e))
       (io_lift (NewFactory (Some readerPool) (Some writerPool) authenticator options));
     mret (factory, once_do closePools))
  end.

Definition OpenPool (ctx : option Context) (connection : string) (profile : ConnectionProfile)
    (options : list (option (Option (W := W)))) : io W (nat * closer W) :=
  match ctx with
  | None => io_fail (ENew "Postgres context is required" [])
  | Some ctx =>
    _ ← io_guard (bool_decide (connection = "")) (ENew "Postgres connection is required" []);
    c ← io_lift (configured options);
    c ← resolveExternalIdentity azure gcp ctx c;
    bounding (operationTimeout c) ctx (λ ctx,
     conn ← io_wrap "parse Postgres capability: %w" [] (io_lift (ParseConnection connection profile (token_hook c)));
     let failed f e := profileConnectionError profile (EWrap f [] e) in
     pool ← or_close no_close (failed "open Postgres capability: %w")
              (NewWithConfig ctx (install_provider c (parsed conn)));
     _ ← or_close (ClosePool pool) (failed "ping Postgres capability: %w") (Ping ctx pool);
     mret (pool, once_do (ClosePool pool)))
  end.

Definition qualify (applicationRole : string) : ConnectionPolicy W := λ ctx conn,
  r ← io_try (qualify_query applicationRole ctx conn);
  match r with
  | Err _ => io_fail (ENew "cannot qualify maintenance Postgres role" [])
  | Ok false => io_fail (ENew "maintenance requires a restricted login and non-owner application group" [])
  | Ok true => mret tt
  end.

Definition parse_maintenance (c : config W) (connection : string) : result PoolConfig :=
  match ParseConnection connection (maintenanceProfile c) (token_hook c) with
  | Ok conn => Ok conn
  | Err e => if bool_decide (Transport (maintenanceProfile c) ≠ "") then Err e
             else Err (ENew "invalid maintenance Postgres connection" [])
  end.

Definition maintenance_config (c : config W) (conn : PoolConfig) (applicationRole : string) : pool_config W :=
  install_validation c
    {| capability := "maintenance"; onConnect := Some (qualify applicationRole); policy := maintenancePolicy c |}
    (install_provider c (parsed (with_role conn applicationRole))).

Definition OpenMaintenance (ctx : option Context) (connection applicationRole : string)
    (options : list (option (Option (W := W)))) : io W (Maintenance W * closer W) :=
  match ctx with
  | None => io_fail (ENew "maintenance context, connection and application role are required" [])
  | Some ctx =>
    _ ← io_guard (blank connection || blank applicationRole)
          (ENew "maintenance context, connection and application role are required" []);
    c ← io_lift (configured options);
    c ← resolveExternalIdentity azure gcp ctx c;
    bounding (operationTimeout c) ctx (λ ctx,
     conn ← io_lift (parse_maintenance c connection);
     let role := default "" (C_RuntimeParams conn !! "role") in
     _ ← io_guard (negb (bool_decide (role = "")) && negb (bool_decide (role = applicationRole)))
           (ENew "maintenance application role conflicts with connection" []);
     let failed e := profileConnectionError (maintenanceProfile c) e in
     pool ← or_close no_close (λ _, failed (ENew "cannot open maintenance Postgres capability" []))
              (NewWithConfig ctx (maintenance_config c conn applicationRole));
     _ ← or_close (ClosePool pool) failed (Ping ctx pool);
     m ← or_close (ClosePool pool) failed (io_lift (NewMaintenance (Some pool) options));
     mret (m, once_do (ClosePool pool)))
  end.
End open.

(** ** Who owns the pools *)

Section pools.
Context {W : Type} `{P : !Pools W} `{!PoolsLaws W P}.

(** Started with the pools [S] open, [m] either fails leaving just [B] open or
    succeeds leaving what [Q] says. *)
Definition holds {A} (B S : gset nat) (m : io W A) (Q : A → gset nat → Prop) : Prop :=
  ∀ w, open_pools w = S →
  match m w with (Ok a, w') => Q a (open_pools w') | (Err _, w') => open_pools w' = B end.

(** [close] gets from [S] back to [B]. *)
Definition closes (B S : gset nat) (close : W → W) : Prop :=
  ∀ w, open_pools w = S → open_pools (close w) = B.

Lemma holds_bind {A C} B S (m : io W A) (k : A → io W C) Q R :
  holds B S m Q → (∀ a S', Q a S' → holds B S' (k a) R) → holds B S (m ≫= k) R.
Proof.
  intros Hm Hk w Hw. specialize (Hm w Hw). unfold mbind, io_bind.
  destruct (m w) as [[a|e] w1]; [|done]. by eapply Hk.
Qed.
Lemma holds_mono {A} B S (m : io W A) (Q R : A → gset nat → Prop) :
  holds B S m Q → (∀ a S', Q a S' → R a S') → holds B S m R.
Proof. intros Hm HQ w Hw. specialize (Hm w Hw). destruct (m w) as [[a|e] w1]; auto. Qed.
Lemma holds_ret {A} B S (a : A) (Q : A → gset nat → Prop) : Q a S → holds B S (mret a) Q.
Proof. by intros H w <-. Qed.
Lemma holds_lift {A} B (r : result A) : holds B B (io_lift r) (λ a S, r = Ok a ∧ S = B).
Proof. intros w Hw. unfold io_lift. by destruct r. Qed.
Lemma holds_guard B b e : holds B B (io_guard b e) (λ _ S, S = B).
Proof. intros w Hw. by destruct b. Qed.
Lemma holds_wrap {A} B S f args (m : io W A) Q : holds B S m Q → holds B S (io_wrap f args m) Q.
Proof. intros Hm w Hw. specialize (Hm w Hw). unfold io_wrap. by destruct (m w) as [[a|e] w1]. Qed.
Lemma holds_preserved {A} B (m : io W A) :
  (∀ w, open_pools (m w).2 = open_pools w) → holds B B m (λ _ S, S = B).
Proof. intros Hm w Hw. specialize (Hm w). destruct (m w) as [[a|e] w1]; simpl in Hm; congruence. Qed.

Lemma holds_close {A} B S close fail (m : io W A) (Q : A → gset nat → Prop) :
  closes B S close →
  (∀ w, open_pools w = S →
    match m w with (Ok a, w') => Q a (open_pools w') | (Err _, w') => open_pools w' = S end) →
  holds B S (or_close close fail m) Q.
Proof.
  intros Hc Hm w Hw. specialize (Hm w Hw). unfold or_close.
  destruct (m w) as [[a|e] w1]; [done|by apply Hc].
Qed.
Lemma holds_new B S close fail ctx c :
  closes B S close →
  holds B S (or_close close fail (NewWithConfig ctx c)) (λ p S', p ∉ S ∧ S' = {[p]} ∪ S).
Proof.
  intros Hc. apply holds_close; [done|]. intros w <-.
  destruct (NewWithConfig ctx c w) as [[p|e] w'] eqn:E; [by eapply new_ok|by eapply new_err].
Qed.
Lemma holds_ping B S close fail ctx p :
  closes B S close → holds B S (or_close close fail (Ping ctx p)) (λ _ S', S' = S).
Proof.
  intros Hc. apply holds_close; [done|]. intros w <-. pose proof (ping_pools ctx p w) as H.
  by destruct (Ping ctx p w) as [[]  w'].
Qed.
Lemma holds_lift_close {A} B S close fail (r : result A) :
  closes B S close → holds B S (or_close close fail (io_lift r)) (λ a S', r = Ok a ∧ S' = S).
Proof. intros Hc. apply holds_close; [done|]. intros w Hw. unfold io_lift. by destruct r. Qed.

Lemma closes_none B : closes B B no_close.
Proof. by intros w. Qed.
Lemma closes_one B p : p ∉ B → closes B ({[p]} ∪ B) (ClosePool p).
Proof. intros Hp w Hw. rewrite close_pools, Hw. set_solver. Qed.
Lemma closes_two B p q :
  p ∉ B → q ∉ {[p]} ∪ B → closes B ({[q]} ∪ ({[p]} ∪ B)) (λ w, ClosePool q (ClosePool p w)).
Proof. intros Hp Hq w Hw. rewrite !close_pools, Hw. set_solver. Qed.

(** A closer closes its pools, however often it runs, and only once. *)
Definition closer_of (pools : gset nat) (close : closer W) : Prop :=
  (∀ w, (close (false, w)).1 = true ∧ open_pools (close (false, w)).2 = open_pools w ∖ pools) ∧
  (∀ w n, Nat.iter n close (true, w) = (true, w)).
Lemma closer_once pools c : (∀ w, open_pools (c w) = open_pools w ∖ pools) → closer_of pools (once_do c).
Proof.
  intros Hc. split; [intros w; split; [done|apply Hc]|].
  intros w n. induction n as [|n IH]; [done|]. simpl. by rewrite IH.
Qed.
End pools.

Section opened.
Context {W : Type} `{d : Driver} `{!Clock W} `{P : !Pools W} `{!PoolsLaws W P}.
Context (azure gcp : Context → io W (AccessTokenProvider W)).
Context (restricted_query : list string → Context → Conn → io W bool).
Context (qualify_query : string → Context → Conn → io W bool).

(** Asking a cloud for a credential opens no pool of this process. *)
Definition mints : Prop :=
  (∀ ctx w, open_pools (azure ctx w).2 = open_pools w) ∧ (∀ ctx w, open_pools (gcp ctx w).2 = open_pools w).

Lemma resolve_holds B ctx c :
  mints → holds B B (resolveExternalIdentity azure gcp ctx c) (λ _ S, S = B).
Proof.
  intros [Ha Hg]. apply holds_preserved. intros w. unfold resolveExternalIdentity.
  case_bool_decide; [done|]. destruct (accessTokenProvider c); [done|]. unfold issuer_of.
  repeat case_bool_decide; try done; unfold io_wrap, mbind, io_bind.
  - specialize (Ha ctx w). by destruct (azure ctx w) as [[] ?].
  - specialize (Hg ctx w). by destruct (gcp ctx w) as [[] ?].
Qed.

Lemma holds_bounding {A} B S timeout ctx (k : Context → io W A) Q :
  (∀ ctx, holds B S (k ctx) Q) → holds B S (bounding timeout ctx k) Q.
Proof. intros Hk w Hw. by apply Hk. Qed.

(** Split a [holds] goal along the program. *)
Ltac hbind := eapply holds_bind; [|let a := fresh "a" in let S := fresh "S" in intros a S].

Lemma Open_holds ctx ro rw a options B :
  mints →
  holds B B (Open azure gcp restricted_query ctx ro rw a options)
    (λ '(f, close) S, f_reader f ≠ f_writer f ∧ {[f_reader f; f_writer f]} ## B ∧
       S = {[f_reader f; f_writer f]} ∪ B ∧ closer_of {[f_reader f; f_writer f]} close).
Proof.
  intros Hm. unfold Open. destruct ctx as [ctx|]; [|by intros w].
  hbind; [apply holds_lift|]. intros [_ ->]. hbind; [by apply resolve_holds|]. intros ->.
  apply holds_bounding. intros ctx'. hbind; [apply holds_lift|]. destruct a2 as [reader writer]. intros [_ ->].
  cbv zeta. hbind; [apply holds_new, closes_none|]. intros [Hp ->].
  hbind; [by apply holds_new, closes_one|]. intros [Hq ->].
  pose proof (closes_two B a2 a3 Hp Hq) as Hc.
  hbind; [by apply holds_ping|]. intros ->. hbind; [by apply holds_ping|]. intros ->.
  hbind; [by apply holds_lift_close|]. intros [Hf ->]. apply holds_ret.
  assert (f_reader a6 = a2 ∧ f_writer a6 = a3) as [-> ->].
  { unfold NewFactory, newFactory in Hf. destruct a; [|done]. by apply bind_ok in Hf as (? & _ & [= <-]). }
  split_and!; [set_solver..|]. apply closer_once. intros w. rewrite !close_pools. set_solver.
Qed.

Lemma OpenPool_holds ctx connection profile options B :
  mints →
  holds B B (OpenPool azure gcp ctx connection profile options)
    (λ '(p, close) S, p ∉ B ∧ S = {[p]} ∪ B ∧ closer_of {[p]} close).
Proof.
  intros Hm. unfold OpenPool. destruct ctx as [ctx|]; [|by intros w].
  hbind; [apply holds_guard|]. intros ->. hbind; [apply holds_lift|]. intros [_ ->].
  hbind; [by apply resolve_holds|]. intros ->. apply holds_bounding. intros ctx'.
  hbind; [apply holds_wrap, holds_lift|]. intros [_ ->]. cbv zeta.
  hbind; [apply holds_new, closes_none|]. intros [Hp ->]. hbind; [by apply holds_ping, closes_one|]. intros ->.
  apply holds_ret. split_and!; [done..|]. apply closer_once. intros w. apply close_pools.
Qed.

Lemma OpenMaintenance_holds ctx connection role options B :
  mints →
  holds B B (OpenMaintenance azure gcp restricted_query qualify_query ctx connection role options)
    (λ '(m, close) S, ∃ p, m_backend m = Some p ∧ p ∉ B ∧ S = {[p]} ∪ B ∧ closer_of {[p]} close).
Proof.
  intros Hm. unfold OpenMaintenance. destruct ctx as [ctx|]; [|by intros w].
  hbind; [apply holds_guard|]. intros ->. hbind; [apply holds_lift|]. intros [_ ->].
  hbind; [by apply resolve_holds|]. intros ->. apply holds_bounding. intros ctx'.
  hbind; [apply holds_lift|]. intros [_ ->]. cbv zeta. hbind; [apply holds_guard|]. intros ->.
  hbind; [apply holds_new, closes_none|]. intros [Hp ->].
  hbind; [by apply holds_ping, closes_one|]. intros ->.
  hbind; [by apply holds_lift_close, closes_one|]. intros [Hf ->]. apply holds_ret.
  unfold NewMaintenance in Hf. apply bind_ok in Hf as (c & _ & [= <-]). eexists. split_and!; [done..|].
  apply closer_once. intros w. apply close_pools.
Qed.

(** C17: opening a capability owns what it opens. Whatever step fails (an option,
    the external identity, a connection string, either pool, either ping or the
    factory itself), the pools open afterwards are those open before; on success
    exactly the capability's own pools are added, two distinct ones for [Open],
    and the closer returned closes those and no others, on its first call only. *)
Theorem open_owns_pools w :
  mints →
  (∀ ctx ro rw a options,
    match Open azure gcp restricted_query ctx ro rw a options w with
    | (Ok (f, close), w') => f_reader f ≠ f_writer f ∧ {[f_reader f; f_writer f]} ## open_pools w ∧
        open_pools w' = {[f_reader f; f_writer f]} ∪ open_pools w ∧ closer_of {[f_reader f; f_writer f]} close
    | (Err _, w') => open_pools w' = open_pools w
    end) ∧
  (∀ ctx connection profile options,
    match OpenPool azure gcp ctx connection profile options w with
    | (Ok (p, close), w') => p ∉ open_pools w ∧ open_pools w' = {[p]} ∪ open_pools w ∧ closer_of {[p]} close
    | (Err _, w') => open_pools w' = open_pools w
    end) ∧
  (∀ ctx connection role options,
    match OpenMaintenance azure gcp restricted_query qualify_query ctx connection role options w with
    | (Ok (m, close), w') => ∃ p, m_backend m = Some p ∧ p ∉ open_pools w ∧
        open_pools w' = {[p]} ∪ open_pools w ∧ closer_of {[p]} close
    | (Err _, w') => open_pools w' = open_pools w
    end).
Proof.
  intros Hm. split_and!; intros.
  - pose proof (Open_holds ctx ro rw a options (open_pools w) Hm w eq_refl) as H.
    by destruct (Open _ _ _ _ _ _ _ _ w) as [[[f close]|] w'].
  - pose proof (OpenPool_holds ctx connection profile options (open_pools w) Hm w eq_refl) as H.
    by destruct (OpenPool _ _ _ _ _ _ w) as [[[p close]|] w'].
  - pose proof (OpenMaintenance_holds ctx connection role options (open_pools w) Hm w eq_refl) as H.
    by destruct (OpenMaintenance _ _ _ _ _ _ _ _ w) as [[[m close]|] w'].
Qed.

(** ** What an opened capability is *)

Lemma or_close_ok {A} close fail (m : io W A) w a w' :
  or_close close fail m w = (Ok a, w') ↔ m w = (Ok a, w').
Proof. unfold or_close. by destruct (m w) as [[]?]; split; intros [=]; subst. Qed.

(** The configuration a constructor acts on: its options, with the credential
    provider of the declared identity; one credential source at most. *)
Definition acting_config (ctx : Context) (options : list (option (Option (W := W)))) (w : W) (c : config W) (w' : W) : Prop :=
  ∃ c0, configured options = Ok c0 ∧ resolveExternalIdentity azure gcp ctx c0 w = (Ok c, w') ∧
    (externalIdentity c0 ≠ "" → accessTokenProvider c0 = None ∧ token_hook c = true).

Lemma resolved ctx c0 w c w' :
  resolveExternalIdentity azure gcp ctx c0 w = (Ok c, w') →
  externalIdentity c0 ≠ "" → accessTokenProvider c0 = None ∧ token_hook c = true.
Proof.
  unfold resolveExternalIdentity. intros H He. rewrite bool_decide_eq_false_2 in H by done.
  destruct (accessTokenProvider c0) eqn:Ea; [done|]. split; [done|].
  destruct (issuer_of azure gcp (externalIdentity c0)); [|done].
  by apply io_bind_ok in H as (p & w1 & _ & [= <- <-]).
Qed.

(** [configured], then the identity, then the deadline. *)
Lemma acting {A} ctx options (k : config W → Context → io W A) w a w' :
  (c ← io_lift (configured options); c ← resolveExternalIdentity azure gcp ctx c;
   bounding (operationTimeout c) ctx (k c)) w = (Ok a, w') →
  ∃ c w0, acting_config ctx options w c w0 ∧ k c (bounded_by (operationTimeout c) ctx w0) w0 = (Ok a, w').
Proof.
  intros (c0 & Hc0 & H)%io_lift_bind_ok. apply io_bind_ok in H as (c & w0 & Hr & H).
  exists c, w0. split; [|exact H]. exists c0. split_and!; [done..|by eapply resolved].
Qed.

(** What an opened capability is made of. [Open] hands out a factory only
    over two pools whose logins are distinct and nonempty, each parsed under its
    own profile and with a token hook exactly when a provider is installed, each
    created with its capability's hooks and each having answered a ping within
    the operation's one deadline. [OpenMaintenance] hands out a pool whose
    connections all take the requested application role, and whose every new
    connection is admitted only after the qualification query answered yes. *)
Theorem opened_capabilities w :
  (∀ ctx ro rw a options f close w',
    Open azure gcp restricted_query ctx ro rw a options w = (Ok (f, close), w') →
    ∃ ctx0 c w0 reader writer w1 w2 w3, ctx = Some ctx0 ∧ acting_config ctx0 options w c w0 ∧ is_Some a ∧
      f_authenticator f = a ∧ configured options = Ok (f_config f) ∧
      ParseConnection ro (readerProfile c) (token_hook c) = Ok reader ∧
      ParseConnection rw (writerProfile c) (token_hook c) = Ok writer ∧
      trim_space (C_User reader) ≠ "" ∧ trim_space (C_User writer) ≠ "" ∧
      trim_space (C_User reader) ≠ trim_space (C_User writer) ∧
      let ctx' := bounded_by (operationTimeout c) ctx0 w0 in
      NewWithConfig ctx' (reader_config restricted_query c reader) w0 = (Ok (f_reader f), w1) ∧
      NewWithConfig ctx' (writer_config restricted_query c writer) w1 = (Ok (f_writer f), w2) ∧
      Ping ctx' (f_reader f) w2 = (Ok tt, w3) ∧ Ping ctx' (f_writer f) w3 = (Ok tt, w')) ∧
  (∀ ctx connection role options m close w',
    OpenMaintenance azure gcp restricted_query qualify_query ctx connection role options w = (Ok (m, close), w') →
    ∃ ctx0 c w0 pc p w1 connected, ctx = Some ctx0 ∧ acting_config ctx0 options w c w0 ∧ m_backend m = Some p ∧
      let ctx' := bounded_by (operationTimeout c) ctx0 w0 in
      NewWithConfig ctx' pc w0 = (Ok p, w1) ∧ Ping ctx' p w1 = (Ok tt, w') ∧
      C_RuntimeParams (pc_connection pc) !! "role" = Some role ∧
      AfterConnect (pc_hooks pc) = Some connected ∧
      ∀ cctx conn v v', connected cctx conn v = (Ok tt, v') →
        ∃ v1, qualify_query role (bounded_by (operationTimeout c) cctx v) conn v = (Ok true, v1)).
Proof.
  split.
  - intros ctx ro rw a options f close w' H. unfold Open in H. destruct ctx as [ctx|]; [|done].
    apply acting in H as (c & w0 & Hc & H). apply io_lift_bind_ok in H as ([reader writer] & Hrw & H).
    cbv zeta in H. apply io_bind_ok in H as (p & w1 & H1%or_close_ok & H).
    apply io_bind_ok in H as (q & w2 & H2%or_close_ok & H).
    apply io_bind_ok in H as ([] & w3 & H3%or_close_ok & H).
    apply io_bind_ok in H as ([] & w4 & H4%or_close_ok & H).
    apply io_bind_ok in H as (f' & w5 & H5%or_close_ok & [= <- _ <-]).
    injection H5 as Hf <-. unfold NewFactory, newFactory in Hf. destruct a as [a|]; [|done].
    apply bind_ok in Hf as (c1 & Hc1 & [= <-]).
    unfold capabilityConfigsWithProfiles in Hrw. apply bind_ok in Hrw as (u1 & _ & Hrw).
    apply bind_ok in Hrw as (rd & Hrd%wrap_err_ok & Hrw). apply bind_ok in Hrw as (wr & Hwr%wrap_err_ok & Hrw).
    cbv zeta in Hrw. apply bind_ok in Hrw as (u2 & Hu%guard_ok & Hrw).
    apply bind_ok in Hrw as (u3 & _ & [= -> ->]). rewrite !orb_false_iff, !bool_decide_eq_false in Hu.
    destruct Hu as [[? ?] ?]. exists ctx, c, w0, reader, writer, w1, w2, w3. by split_and!.
  - intros ctx connection role options m close w' H. unfold OpenMaintenance in H. destruct ctx as [ctx|]; [|done].
    apply io_lift_bind_ok in H as (u & _ & H).
    apply acting in H as (c & w0 & Hc & H). apply io_lift_bind_ok in H as (conn & Hconn & H).
    cbv zeta in H. apply io_lift_bind_ok in H as (u' & _ & H).
    apply io_bind_ok in H as (p & w1 & H1%or_close_ok & H).
    apply io_bind_ok in H as ([] & w2 & H2%or_close_ok & H).
    apply io_bind_ok in H as (m' & w3 & H3%or_close_ok & [= <- _ <-]). injection H3 as Hm <-.
    unfold NewMaintenance in Hm. apply bind_ok in Hm as (c1 & Hc1 & [= <-]).
    eexists ctx, c, w0, (maintenance_config restricted_query qualify_query c conn role), p, w1, _.
    do 2 (split; [done|]). split; [done|]. split; [exact H1|]. split; [exact H2|]. split; [|split].
    + unfold maintenance_config, install_validation, install_provider. simpl.
      destruct (accessTokenProvider c); apply lookup_insert_eq.
    + unfold maintenance_config, install_validation. simpl. unfold installConnectionValidation.
      cbn [onConnect anyCheck existsb]. rewrite bool_decide_eq_true_2 by eauto. cbn [orb negb].
      case_match; simpl; reflexivity.
    + intros cctx cn v v' Hv. simpl in Hv. apply after_connect_ok in Hv.
      assert (Hn : ∀ pc, AfterConnect (pc_hooks (install_provider c (parsed pc))) = None)
        by (intros pc; unfold install_provider; by destruct (accessTokenProvider c)).
      rewrite Hn in Hv.
      cbn [omap list_omap id] in Hv. inversion Hv as [|? ? ? v1 ? Hq _ _]; subst.
      unfold qualify in Hq. apply io_bind_ok in Hq as (r & v2 & Hr & Hq). unfold io_try in Hr.
      destruct (qualify_query role _ cn v) as [r0 v3]. injection Hr as -> ->.
      destruct r as [[]|]; try done. by exists v2.
Qed.
End opened.

(** ** Examples *)

(** A world that only counts its pools. *)
#[export] Instance counting_clock : Clock (gset nat) := {| clock _ := 0; cancelled _ _ := false |}.
Definition counting_pools : Pools (gset nat) := {|
  NewWithConfig := λ _ _ pools, (Ok (fresh pools), {[fresh pools]} ∪ pools);
  Ping := λ _ _ pools, (if bool_decide ((size pools < 2)%nat) then Err (ENew "refused" []) else Ok tt, pools);
  ClosePool := λ p pools, pools ∖ {[p]};
  open_pools := id;
|}.
#[export] Instance counting_laws : PoolsLaws (gset nat) counting_pools.
Proof.
  split.
  - intros ctx c w p w' [= <- <-]. split; [apply is_fresh|done].
  - intros ctx c w e w' [=].
  - intros ctx p w. done.
  - intros p w. done.
Qed.
Definition no_identity : Context → io (gset nat) (AccessTokenProvider (gset nat)) := λ _, io_fail (ENew "no" []).

Lemma open_owns_pools_witness :
  open_pools (Pools := counting_pools) (OpenPool (d := example_driver) (P := counting_pools) no_identity no_identity
     (Some Background) example_connection example_profile [] ∅).2 = ∅.
Proof.
  destruct (open_owns_pools (d := example_driver) (P := counting_pools) no_identity no_identity
    (λ _ _ _, io_fail (ENew "" [])) (λ _ _ _, io_fail (ENew "" [])) ∅ (conj (λ _ _, eq_refl) (λ _ _, eq_refl)))
    as (_ & H & _).
  specialize (H (Some Background) example_connection example_profile []).
  assert (Hr : is_ok (OpenPool (d := example_driver) (P := counting_pools) no_identity no_identity
     (Some Background) example_connection example_profile [] ∅).1 = false) by (vm_compute; reflexivity).
  destruct (OpenPool (d := example_driver) _ _ _ _ _ _ _) as [[[]|] w]; [discriminate Hr|exact H].
Defined.
