(* ===== verification/Attachment.v ===== *)
(** The public workload attachment ([libs/go/workloadattachment/attachment.go]):
    its data, how it is written as JSON, the seal over its canonical text, and the
    envelope [Validate] enforces. *)
From S2P Require Import Prelude GoStrings Sha256 Url Json.

Definition Version : string := "codefly.dev/postgres-workload-attachment/v1".
Definition VersionV2 : string := "codefly.dev/postgres-workload-attachment/v2".

(** ** Data *)

(** A Go slice: nil, or a list that may be empty; a pointer is an option. *)
Definition slice (A : Type) : Type := option (list A).
Definition items {A} (s : slice A) : list A := default [] s.

Record Connection := {
  Kind : string;
  SocketDirectory : string;
  Port : Z;
  PoolMode : string;
  SessionState : string;
  ConnectionLimitScope : string;
  MaxDBConnections : Z;
  StartupParameters : slice string;
}.
Record Binding := {
  Primitive : string;
  ID : string;
  Access : string;
  Database : string;
  User : string;
  connection : Connection;
}.
Record Mount := { m_Name : string; MountPath : string; ReadOnly : option bool }.
Record EmptyDir := { Medium : string; SizeLimit : string }.
Record Volume := { v_Name : string; emptyDir : EmptyDir }.
Record Capabilities := { Drop_ : slice string }.
Record Security := {
  AllowPrivilegeEscalation : option bool;
  ReadOnlyRootFilesystem : bool;
  capabilities : Capabilities;
}.
Record Seccomp := { Type_ : string }.
Record PodSecurity := {
  RunAsNonRoot : bool;
  RunAsUser : Z;
  RunAsGroup : Z;
  FSGroup : Z;
  SeccompProfile : Seccomp;
}.
Record ResourceValues := { CPU : string; Memory : string }.
Record Resources := { Requests : ResourceValues; Limits : ResourceValues }.
Record ExecAction := { Command : slice string }.
Record StartupProbe := { Exec_ : ExecAction; FailureThreshold : Z; PeriodSeconds : Z }.
Record Sidecar := {
  c_Name : string;
  Image : string;
  RestartPolicy : string;
  Args : slice string;
  c_VolumeMounts : slice Mount;
  SecurityContext : Security;
  resources : Resources;
  startupProbe : option StartupProbe;
}.
Record Attachment := {
  SchemaVersion : string;
  binding : Binding;
  Namespace : string;
  ServiceAccount : string;
  PodSecurityContext : PodSecurity;
  InitContainers : slice Sidecar;
  Volumes : slice Volume;
  VolumeMounts : slice Mount;
  Digest : string;
}.

(** ** As JSON: the fields in the order and under the names of their tags *)

Definition slice_json {A} (f : A → json) (s : slice A) : json :=
  match s with None => JNull | Some l => JArray (f <$> l) end.
Definition strings_json : slice string → json := slice_json JString.

(** An [omitempty] field: absent when its value is the empty one. *)
Definition omit (empty : bool) (name : string) (v : json) : list (string * json) :=
  if empty then [] else [(name, v)].

Definition Connection_json (c : Connection) : json := JObject (
  [("kind", JString (Kind c)); ("socket_directory", JString (SocketDirectory c)); ("port", JNumber (Port c))]
  ++ omit (bool_decide (PoolMode c = "")) "pool_mode" (JString (PoolMode c))
  ++ omit (bool_decide (SessionState c = "")) "session_state" (JString (SessionState c))
  ++ omit (bool_decide (ConnectionLimitScope c = "")) "connection_limit_scope" (JString (ConnectionLimitScope c))
  ++ omit (MaxDBConnections c =? 0) "max_db_connections" (JNumber (MaxDBConnections c))
  ++ omit (bool_decide (items (StartupParameters c) = [])) "startup_parameters" (strings_json (StartupParameters c))).
Definition Binding_json (b : Binding) : json := JObject
  [("primitive", JString (Primitive b)); ("binding_id", JString (ID b)); ("access", JString (Access b));
   ("database", JString (Database b)); ("user", JString (User b)); ("connection", Connection_json (connection b))].
Definition Mount_json (m : Mount) : json := JObject (
  [("name", JString (m_Name m)); ("mountPath", JString (MountPath m))]
  ++ match ReadOnly m with None => [] | Some b => [("readOnly", JBool b)] end).
Definition Volume_json (v : Volume) : json := JObject
  [("name", JString (v_Name v));
   ("emptyDir", JObject [("medium", JString (Medium (emptyDir v))); ("sizeLimit", JString (SizeLimit (emptyDir v)))])].
Definition Security_json (s : Security) : json := JObject
  [("allowPrivilegeEscalation", match AllowPrivilegeEscalation s with None => JNull | Some b => JBool b end);
   ("readOnlyRootFilesystem", JBool (ReadOnlyRootFilesystem s));
   ("capabilities", JObject [("drop", strings_json (Drop_ (capabilities s)))])].
Definition PodSecurity_json (p : PodSecurity) : json := JObject
  [("runAsNonRoot", JBool (RunAsNonRoot p)); ("runAsUser", JNumber (RunAsUser p));
   ("runAsGroup", JNumber (RunAsGroup p)); ("fsGroup", JNumber (FSGroup p));
   ("seccompProfile", JObject [("type", JString (Type_ (SeccompProfile p)))])].
Definition ResourceValues_json (r : ResourceValues) : json :=
  JObject [("cpu", JString (CPU r)); ("memory", JString (Memory r))].
Definition Resources_json (r : Resources) : json :=
  JObject [("requests", ResourceValues_json (Requests r)); ("limits", ResourceValues_json (Limits r))].
Definition StartupProbe_json (p : StartupProbe) : json := JObject
  [("exec", JObject [("command", strings_json (Command (Exec_ p)))]);
   ("failureThreshold", JNumber (FailureThreshold p)); ("periodSeconds", JNumber (PeriodSeconds p))].
Definition Sidecar_json (c : Sidecar) : json := JObject (
  [("name", JString (c_Name c)); ("image", JString (Image c)); ("restartPolicy", JString (RestartPolicy c));
   ("args", strings_json (Args c)); ("volumeMounts", slice_json Mount_json (c_VolumeMounts c));
   ("securityContext", Security_json (SecurityContext c)); ("resources", Resources_json (resources c))]
  ++ match startupProbe c with None => [] | Some p => [("startupProbe", StartupProbe_json p)] end).
Definition Attachment_json (a : Attachment) : json := JObject
  [("schema_version", JString (SchemaVersion a)); ("binding", Binding_json (binding a));
   ("namespace", JString (Namespace a)); ("service_account", JString (ServiceAccount a));
   ("pod_security_context", PodSecurity_json (PodSecurityContext a));
   ("init_containers", slice_json Sidecar_json (InitContainers a));
   ("volumes", slice_json Volume_json (Volumes a));
   ("volume_mounts", slice_json Mount_json (VolumeMounts a)); ("digest", JString (Digest a))].

(** [json.Marshal] *)
Definition Marshal (a : Attachment) : string := encode_value true (Attachment_json a).

(** ** The generic value of a text

    What decoding a written value into [map[string]any] gives: strings as they
    read back, objects as maps. A map is its fields in the order of their names,
    which is how [encoding/json] writes one. *)

Definition object : Type := list (string * json).
Fixpoint obj_lookup {V} (k : string) (o : list (string * V)) : option V :=
  match o with [] => None | (k', v) :: o => if bool_decide (k = k') then Some v else obj_lookup k o end.
Fixpoint obj_insert {V} (k : string) (v : V) (o : list (string * V)) : list (string * V) :=
  match o with
  | [] => [(k, v)]
  | (k', v') :: o' =>
    if bool_decide (k = k') then (k, v) :: o'
    else if str_ltb k k' then (k, v) :: o else (k', v') :: obj_insert k v o'
  end.
Fixpoint obj_delete {V} (k : string) (o : list (string * V)) : list (string * V) :=
  match o with [] => [] | (k', v) :: o => if bool_decide (k = k') then o else (k', v) :: obj_delete k o end.

(** A string after it has been written and read. *)
Definition reread (s : string) : string :=
  match unquote (string_body true s ++ [quote]) with Some (l, _) => of_bytes l | None => "" end.

Fixpoint generic (v : json) : json :=
  match v with
  | JString s => JString (reread s)
  | JArray l => JArray (map generic l)
  | JObject l => JObject (foldl (λ o f, f o) [] (map (λ p, obj_insert (reread p.1) (generic p.2)) l))
  | _ => v
  end.

(** ** The seal *)

Definition line_escape (l : list ascii) : option (list ascii * list ascii) :=
  match strip_bytes (backslash :: bytes "u2028") l with
  | Some rest => Some ([chr 226; chr 128; chr 168], rest)
  | None => match strip_bytes (backslash :: bytes "u2029") l with
            | Some rest => Some ([chr 226; chr 128; chr 169], rest)
            | None => None
            end
  end.

(** The walk over escape pairs that leaves line separators literal. *)
Fixpoint literal_separators (fuel : nat) (raw : list ascii) : list ascii :=
  match fuel with
  | O => []
  | S fuel =>
    match raw with
    | [] => []
    | c :: rest =>
      if bool_decide (c = backslash) then
        match rest with
        | [] => [c]
        | e :: rest' =>
          match line_escape raw with
          | Some (sep, after) => sep ++ literal_separators fuel after
          | None => c :: e :: literal_separators fuel rest'
          end
        end
      else c :: literal_separators fuel rest
    end
  end.

(** The decoded fields, less the digest. *)
Definition sealed_fields (a : Attachment) : object :=
  match generic (Attachment_json a) with JObject o => obj_delete "digest" o | _ => [] end.
Definition canonical (a : Attachment) : string :=
  let raw := bytes (encode_value false (JObject (sealed_fields a))) in
  of_bytes (literal_separators (length raw) raw).
Definition computedDigest (a : Attachment) : string := "sha256:" +:+ sha256_hex (canonical a).

Definition with_digest (a : Attachment) (digest : string) : Attachment :=
  {| SchemaVersion := SchemaVersion a; binding := binding a; Namespace := Namespace a;
     ServiceAccount := ServiceAccount a; PodSecurityContext := PodSecurityContext a;
     InitContainers := InitContainers a; Volumes := Volumes a; VolumeMounts := VolumeMounts a;
     Digest := digest |}.
Definition Seal (a : Attachment) : Attachment := with_digest a (computedDigest a).

(** ** Validation *)

Definition fail {A} : result A := Err (ENew "invalid PostgreSQL workload attachment" []).
Definition fail_if (b : bool) : result unit := if b then fail else Ok tt.

(** [^[a-z]([a-z0-9-]{0,61}[a-z0-9])?$] *)
Definition lower_alnum (c : ascii) : bool := is_lower (code c) || is_digit (code c).
Definition name_byte (c : ascii) : bool := lower_alnum c || bool_decide (c = "-"%char).
Definition namePattern (s : string) : bool :=
  match bytes s with
  | [] => false
  | c :: l =>
    is_lower (code c) &&
    match last l with
    | None => true
    | Some e => forallb name_byte l && lower_alnum e && (Z.of_nat (length l) <=? 62)
    end
  end.

(** [^[^\s@]+@sha256:[a-f0-9]{64}$] *)
Definition image_byte (c : ascii) : bool :=
  negb (bool_decide (code c ∈ [9; 10; 12; 13; 32]) || bool_decide (c = "@"%char)).
Definition hex64 (s : string) : bool := (len s =? 64) && all_bytes hex_byte s.
Definition imagePattern (s : string) : bool :=
  match cut s "@"%char with
  | None => false
  | Some (name, digest) =>
    negb (bool_decide (name = "")) && all_bytes image_byte name
    && has_prefix digest "sha256:" && hex64 (trim_prefix digest "sha256:")
  end.

Definition space_rune (r : Z) : bool :=
  bool_decide (r ∈ [9; 10; 11; 12; 13; 32; 133; 160; 5760; 8232; 8233; 8239; 8287; 12288])
  || in_range 8192 8202 r.
Definition validPath (value : string) : bool :=
  is_abs value && negb (bool_decide (value = "/")) && bool_decide (path_clean value = value)
  && negb (existsb (λ r, (r =? 0) || space_rune r) (runes value)) && negb (contains value ".s.PGSQL.").
Definition bounded (s : string) : bool :=
  (0 <? len s) && (len s <=? 1024) && negb (contains_any s (of_bytes [chr 0; chr 13; chr 10])).

Definition legacyConnection (c : Connection) : bool :=
  bool_decide (Kind c = "local-identity-proxy") && bool_decide (PoolMode c = "")
  && bool_decide (SessionState c = "") && bool_decide (ConnectionLimitScope c = "")
  && (MaxDBConnections c =? 0) && bool_decide (StartupParameters c = None).
Definition pool_parameters : list string :=
  ["application_name"; "client_encoding"; "datestyle"; "standard_conforming_strings"; "timezone"].
Definition pooledConnection (c : Connection) : bool :=
  bool_decide (Kind c = "local-transaction-pool") && bool_decide (PoolMode c = "transaction")
  && bool_decide (SessionState c = "transaction-local-only") && bool_decide (ConnectionLimitScope c = "pod")
  && (0 <? MaxDBConnections c) && (MaxDBConnections c <=? 100)
  && bool_decide (StartupParameters c = Some pool_parameters).

Definition invalid_binding (b : Binding) : bool :=
  let c := connection b in
  negb (bool_decide (Primitive b = "database"))
  || negb (bool_decide (Access b ∈ ["reader"; "writer"; "maintenance"]))
  || negb (bounded (ID b)) || negb (bounded (Database b)) || negb (bounded (User b))
  || negb (validPath (SocketDirectory c)) || (Port c <? 1) || (65535 <? Port c).

Definition invalid_pod (p : PodSecurity) : bool :=
  negb (RunAsNonRoot p) || (RunAsUser p <? 1) || (RunAsGroup p <? 1) || (FSGroup p <? 1)
  || negb (bool_decide (Type_ (SeccompProfile p) = "RuntimeDefault")).

Definition size_between {A} (lo hi : Z) (s : slice A) : bool :=
  let n := Z.of_nat (length (items s)) in (lo <=? n) && (n <=? hi).

Definition check_volume (seen : gset string) (v : Volume) : result (gset string) :=
  _ ← fail_if (negb (namePattern (v_Name v)) || bool_decide (v_Name v ∈ seen)
               || negb (bool_decide (Medium (emptyDir v) = "Memory")) || negb (bounded (SizeLimit (emptyDir v))));
  Ok ({[v_Name v]} ∪ seen).

(** Two mounts that shadow each other. *)
Definition overlap (p q : string) : bool :=
  bool_decide (p = q) || has_prefix p (q +:+ "/") || has_prefix q (p +:+ "/").

Definition check_mount (volumes : gset string) (consumer repeatedVolumes : bool)
    (st : gset string * list string) (m : Mount) : option (gset string * list string) :=
  let '(seen, paths) := st in
  if negb (bool_decide (m_Name m ∈ volumes)) || (bool_decide (m_Name m ∈ seen) && negb repeatedVolumes)
     || negb (validPath (MountPath m)) || (consumer && negb (bool_decide (ReadOnly m = Some true)))
  then None
  else if existsb (overlap (MountPath m)) paths then None
  else Some ({[m_Name m]} ∪ seen, paths ++ [MountPath m]).

Fixpoint check_each_mount (volumes : gset string) (consumer repeatedVolumes : bool)
    (st : gset string * list string) (mounts : list Mount) : bool :=
  match mounts with
  | [] => true
  | m :: mounts =>
    match check_mount volumes consumer repeatedVolumes st m with
    | None => false
    | Some st => check_each_mount volumes consumer repeatedVolumes st mounts
    end
  end.
Definition checkMounts (volumes : gset string) (mounts : slice Mount) (consumer repeatedVolumes : bool) : bool :=
  check_each_mount volumes consumer repeatedVolumes (∅, []) (items mounts) && size_between 1 16 mounts.

Definition socketMounted (socket : string) (mounts : slice Mount) : bool :=
  existsb (λ m, has_prefix socket (MountPath m +:+ "/") || bool_decide (socket = MountPath m)) (items mounts).

Definition invalid_security (s : Security) : bool :=
  negb (bool_decide (AllowPrivilegeEscalation s = Some false)) || negb (ReadOnlyRootFilesystem s)
  || negb (bool_decide (items (Drop_ (capabilities s)) = ["ALL"])).

Definition invalid_argument (version argument : string) : bool :=
  (len argument =? 0) || (1024 <? len argument) || contains_any argument (of_bytes [chr 0; chr 13])
  || (bool_decide (version = Version) && contains_any argument (of_bytes [chr 10])).

Definition invalid_probe (p : StartupProbe) : bool :=
  negb (size_between 1 16 (Command (Exec_ p))) || (FailureThreshold p <? 1) || (60 <? FailureThreshold p)
  || (PeriodSeconds p <? 1) || (60 <? PeriodSeconds p)
  || existsb (λ argument, negb (bounded argument)) (items (Command (Exec_ p))).

Definition resource_strings (r : Resources) : list string :=
  [CPU (Requests r); Memory (Requests r); CPU (Limits r); Memory (Limits r)].

(** One init container; the state is the names so far and the probes counted. *)
Definition check_container (version : string) (volumes : gset string) (st : gset string * Z) (c : Sidecar) :
    result (gset string * Z) :=
  let '(containers, probes) := st in
  _ ← fail_if (negb (namePattern (c_Name c)) || bool_decide (c_Name c ∈ containers) || negb (imagePattern (Image c))
               || negb (bool_decide (RestartPolicy c = "Always")) || negb (size_between 1 16 (Args c))
               || negb (checkMounts volumes (c_VolumeMounts c) false (bool_decide (version = VersionV2))));
  _ ← fail_if (invalid_security (SecurityContext c));
  _ ← fail_if (existsb (invalid_argument version) (items (Args c)));
  _ ← fail_if (existsb (λ v, negb (bounded v)) (resource_strings (resources c)));
  match startupProbe c with
  | None => Ok ({[c_Name c]} ∪ containers, probes)
  | Some p => _ ← fail_if (invalid_probe p); Ok ({[c_Name c]} ∪ containers, probes + 1)
  end.

(** Every check of [Validate] but the last, on the seal. *)
Definition envelope (a : Attachment) : result unit :=
  let version := SchemaVersion a in
  let b := binding a in
  _ ← fail_if ((negb (bool_decide (version = Version)) && negb (bool_decide (version = VersionV2)))
               || negb (namePattern (Namespace a)) || negb (namePattern (ServiceAccount a)));
  _ ← fail_if (invalid_binding b);
  _ ← fail_if ((bool_decide (version = Version) && negb (legacyConnection (connection b)))
               || (bool_decide (version = VersionV2) && negb (pooledConnection (connection b))));
  _ ← fail_if (invalid_pod (PodSecurityContext a));
  _ ← fail_if (negb (size_between 1 16 (InitContainers a)) || negb (size_between 1 16 (Volumes a))
               || negb (size_between 1 16 (VolumeMounts a)));
  volumes ← fold_result check_volume ∅ (items (Volumes a));
  _ ← fail_if (negb (checkMounts volumes (VolumeMounts a) true false));
  _ ← fail_if (negb (socketMounted (SocketDirectory (connection b)) (VolumeMounts a)));
  '(_, probes) ← fold_result (check_container version volumes) (∅, 0) (items (InitContainers a));
  _ ← fail_if ((bool_decide (version = Version) && negb (probes =? 0))
               || (bool_decide (version = VersionV2) && negb (probes =? 1)));
  Ok tt.
Definition Validate (a : Attachment) : result unit :=
  _ ← envelope a;
  fail_if (negb (bool_decide (computedDigest a = Digest a))).

(** ** The canonical text determines the sealed fields

    Line separators first: in what the encoder writes they are always escaped, so
    making them literal loses nothing. *)

Definition is_separator (l : list ascii) : bool :=
  match l with
  | a :: b :: c :: _ => (code a =? 226) && (code b =? 128) && ((code c =? 168) || (code c =? 169))
  | _ => false
  end.
Fixpoint separator_free (l : list ascii) : bool :=
  match l with [] => true | _ :: l' => negb (is_separator l) && separator_free l' end.

Lemma separator_other c l : code c ≠ 226 → is_separator (c :: l) = false.
Proof. intros Hc. destruct l as [|x [|y l]]; try done. cbn. by rewrite (proj2 (Z.eqb_neq _ _) Hc). Qed.

(** What can precede any text without making a separator. *)
Definition whole (l : list ascii) : Prop :=
  ∀ k, separator_free k = true → separator_free (l ++ k) = true.

Lemma whole_nil : whole [].
Proof. by intros k. Qed.
Lemma whole_app a b : whole a → whole b → whole (a ++ b).
Proof. intros Ha Hb k Hk. rewrite <-app_assoc. by apply Ha, Hb. Qed.
Lemma whole_other l : Forall (λ c, code c ≠ 226) l → whole l.
Proof.
  intros Hl k Hk. induction Hl as [|c l Hc _ IH]; [done|]. cbn [app separator_free]. rewrite IH, andb_true_r.
  apply negb_true_iff. by apply separator_other.
Qed.
(** The bytes of one rune that is not a separator. *)
Lemma whole_rune c l r n :
  128 ≤ code c → decode_rune (code <$> c :: l) = (r, n) →
  (r =? rune_error) && bool_decide (n = 1%nat) = false → (r =? 8232) || (r =? 8233) = false →
  whole (take n (c :: l)).
Proof.
  intros Hc Hd He Hr k Hk. rewrite fmap_cons in Hd. unfold decode_rune in Hd.
  rewrite (proj2 (Z.ltb_ge _ _)) in Hd by lia. unfold is_cont, in_range in Hd.
  assert (Herr : (65533 =? rune_error) && bool_decide (1%nat = 1%nat) = true) by reflexivity.
  destruct l as [|c1 [|c2 [|c3 l]]]; cbn [fmap list_fmap] in Hd;
  repeat case_match; injection Hd as <- <-; unfold rune_error in *; try discriminate;
    repeat match goal with H : _ && _ = true |- _ => apply andb_true_iff in H as [? ?] end;
    rewrite ?Z.leb_le, ?Z.eqb_eq in *; cbn [take app];
    first
    [ apply (whole_other [c; c1]); [repeat constructor; lia|done]
    | apply (whole_other [c; c1; c2; c3]); [repeat constructor; lia|done]
    | cbn [separator_free]; change (c1 :: c2 :: k) with ([c1; c2] ++ k);
      apply andb_true_iff; split; [|apply (whole_other [c1; c2]); [repeat constructor; lia|done]];
      apply negb_true_iff; cbn [app is_separator];
      apply orb_false_iff in Hr as [Hr1%Z.eqb_neq Hr2%Z.eqb_neq];
      destruct (Z.eqb_spec (code c) 226), (Z.eqb_spec (code c1) 128), (Z.eqb_spec (code c2) 168),
        (Z.eqb_spec (code c2) 169); try done; lia ].
Qed.

Lemma escape_whole html c : code c < 128 → whole (ascii_escape html c).
Proof.
  intros Hc. apply whole_other.
  assert (H : negb (code c <? 128) || forallb (λ x, negb (code x =? 226)) (ascii_escape html c) = true).
  { clear Hc. revert c. apply byte_forall. by destruct html; vm_compute. }
  rewrite (proj2 (Z.ltb_lt _ _) Hc) in H. simpl in H. rewrite Forall_forallb in H.
  eapply Forall_impl; [exact H|]. intros x Hx%negb_true_iff. by apply Z.eqb_neq.
Qed.

Lemma encoded_whole html v : whole (bytes (encode_value html v)).
Proof.
  apply value_whole.
  - apply whole_nil.
  - apply whole_app.
  - intros c Hc _. apply whole_other. constructor; [lia|done].
  - apply escape_whole.
  - by apply whole_other; repeat constructor.
  - by intros c [-> | ->]; apply whole_other; repeat constructor.
  - apply whole_rune.
Qed.

(** Escaping the separators again. *)
Fixpoint restore (l : list ascii) : list ascii :=
  match l with
  | a :: ((b :: c :: l') as rest) =>
    if is_separator l then (backslash :: bytes "u202") ++ (if code c =? 168 then "8"%char else "9"%char) :: restore l'
    else a :: restore rest
  | a :: rest => a :: restore rest
  | [] => []
  end.

Lemma restore_cons c l : is_separator (c :: l) = false → restore (c :: l) = c :: restore l.
Proof. intros H. destruct l as [|x [|y l]]; [done|done|]. cbn [restore]. by rewrite H. Qed.

(** The walk makes no byte that could complete a separator. *)
Lemma literal_head fuel l c k :
  literal_separators fuel l = c :: k → code c ≠ 226 → c ≠ backslash →
  ∃ f l', l = c :: l' ∧ k = literal_separators f l'.
Proof.
  destruct fuel as [|fuel], l as [|d l]; try done. cbn [literal_separators].
  case_bool_decide as Hd; [|intros [= -> <-] _ _; eauto].
  destruct l as [|e l]; [by intros [= -> _]|].
  destruct (line_escape (d :: e :: l)) as [[sep after]|] eqn:E; [|by intros [= -> _]].
  unfold line_escape in E. repeat case_match; try done; injection E as <- <-; by intros [= <- _].
Qed.

Lemma literal_not_separator fuel c l :
  is_separator (c :: l) = false → is_separator (c :: literal_separators fuel l) = false.
Proof.
  intros H. destruct (is_separator (c :: literal_separators fuel l)) eqn:E; [|done].
  destruct (literal_separators fuel l) as [|x [|y k]] eqn:El; try done. cbn [is_separator] in E.
  apply andb_true_iff in E as [E Ey]. apply andb_true_iff in E as [Ec%Z.eqb_eq Ex%Z.eqb_eq].
  assert (Hy : code y = 168 ∨ code y = 169) by (apply orb_true_iff in Ey; rewrite !Z.eqb_eq in Ey; done).
  assert (Hbs : ∀ z, 128 ≤ code z → z ≠ backslash) by (by intros z Hz ->).
  apply literal_head in El as (f & l' & -> & El); [|lia|apply Hbs; lia].
  symmetry in El. apply literal_head in El as (f' & l'' & -> & _); [|lia|apply Hbs; lia].
  cbn [is_separator] in H. rewrite (proj2 (Z.eqb_eq _ _) Ec), (proj2 (Z.eqb_eq _ _) Ex), Ey in H. done.
Qed.

Lemma separator_free_suffix a b : separator_free (a ++ b) = true → separator_free b = true.
Proof. induction a as [|c a IH]; [done|]. cbn [app separator_free]. intros [_ H]%andb_true_iff. auto. Qed.

Lemma restore_literal fuel l :
  (length l ≤ fuel)%nat → separator_free l = true → restore (literal_separators fuel l) = l.
Proof.
  revert l. induction fuel as [|fuel IH]; intros [|c l] Hl Hs; simpl in Hl; try lia; [done..|].
  pose proof Hs as Hs'. cbn [separator_free] in Hs'. apply andb_true_iff in Hs' as [Hc%negb_true_iff Hfree].
  cbn [literal_separators]. case_bool_decide as Hb.
  2:{ rewrite restore_cons by (by apply literal_not_separator). by rewrite IH by (done || lia). }
  subst c. destruct l as [|e l]; [done|]. destruct (line_escape (backslash :: e :: l)) as [[sep after]|] eqn:E.
  - assert (Ha : ∃ d, backslash :: e :: l = (backslash :: bytes "u202") ++ d :: after ∧
        sep = [chr 226; chr 128; if code d =? 56 then chr 168 else chr 169] ∧ (d = "8"%char ∨ d = "9"%char)).
    { unfold line_escape in E. destruct (strip_bytes (backslash :: bytes "u2028") _) eqn:E1.
      - apply strip_bytes_spec in E1. injection E as <- <-. exists "8"%char. rewrite E1. auto.
      - destruct (strip_bytes (backslash :: bytes "u2029") _) eqn:E2; [|done].
        apply strip_bytes_spec in E2. injection E as <- <-. exists "9"%char. rewrite E2. auto. }
    destruct Ha as (d & Ed & -> & Hd). rewrite Ed.
    assert (Hlen : (length after ≤ fuel)%nat).
    { apply (f_equal length) in Ed. rewrite length_app in Ed. cbn [length] in Ed, Hl.
      change (length (backslash :: bytes "u202")) with 5%nat in Ed. lia. }
    assert (Hafter : separator_free after = true).
    { rewrite Ed in Hs. change (d :: after) with ([d] ++ after) in Hs. rewrite app_assoc in Hs.
      by eapply separator_free_suffix. }
    transitivity ((backslash :: bytes "u202") ++ d :: restore (literal_separators fuel after));
      [by destruct Hd as [-> | ->]|by rewrite IH].
  - cbn [separator_free] in Hfree. apply andb_true_iff in Hfree as [He%negb_true_iff Hfree].
    rewrite restore_cons by (by apply separator_other). rewrite restore_cons by (by apply literal_not_separator).
    by rewrite IH by (done || (cbn [length] in Hl; lia)).
Qed.

Lemma literal_separators_inj v w :
  let raw v := bytes (encode_value false v) in
  literal_separators (length (raw v)) (raw v) = literal_separators (length (raw w)) (raw w) →
  encode_value false v = encode_value false w.
Proof.
  intros raw E. assert (Hfree : ∀ v, separator_free (raw v) = true).
  { intros u. rewrite <-(app_nil_r (raw u)). by apply encoded_whole. }
  apply (f_equal restore) in E. rewrite !restore_literal in E by (done || apply Hfree).
  by apply (inj bytes).
Qed.

(** ** Reading the sealed fields back *)

(** [generic] on values whose strings are valid UTF-8. *)
Fixpoint sorted (v : json) : json :=
  match v with
  | JArray l => JArray (map sorted l)
  | JObject l => JObject (foldl (λ o f, f o) [] (map (λ p, obj_insert p.1 (sorted p.2)) l))
  | _ => v
  end.

Lemma reread_utf8 s : valid_utf8 s = true → reread s = s.
Proof. intros H. unfold reread. rewrite unquote_string by done. apply of_bytes_bytes. Qed.

Lemma generic_sorted v : utf8_value v = true → generic v = sorted v.
Proof.
  induction v as [|b|n|s|l IH|l IH] using json_nested_ind; cbn [utf8_value generic sorted]; intros H; try done.
  - by rewrite reread_utf8.
  - f_equal. rewrite Forall_forallb in H. induction IH as [|v l Hv _ IHl]; [done|].
    apply Forall_cons in H as [H1 H2]. cbn [map]. by rewrite Hv, IHl.
  - do 2 f_equal. rewrite Forall_forallb in H. induction IH as [|[k v] l Hv _ IHl]; [done|].
    apply Forall_cons in H as [[H1 H1']%andb_true_iff H2]. cbn [map fst snd] in *. by rewrite Hv, reread_utf8, IHl.
Qed.

Definition utf8_object (o : object) : bool := utf8_value (JObject o).
Lemma utf8_insert k v o :
  valid_utf8 k = true → utf8_value v = true → utf8_object o = true → utf8_object (obj_insert k v o) = true.
Proof.
  intros Hk Hv. unfold utf8_object. cbn [utf8_value]. induction o as [|[k' v'] o IH]; cbn [obj_insert forallb fst snd].
  - by rewrite Hk, Hv.
  - intros [H1 H2]%andb_true_iff. case_bool_decide; [cbn [forallb fst snd]; by rewrite Hk, Hv, H2|].
    destruct (str_ltb k k'); cbn [forallb fst snd]; [by rewrite Hk, Hv, H1, H2|by rewrite H1, IH].
Qed.
Lemma utf8_delete k o : utf8_object o = true → utf8_object (obj_delete k o) = true.
Proof.
  unfold utf8_object. cbn [utf8_value]. induction o as [|[k' v'] o IH]; cbn [obj_delete forallb]; [done|].
  intros [H1 H2]%andb_true_iff. case_bool_decide; [done|]. cbn [forallb]. by rewrite H1, IH.
Qed.
Lemma utf8_sorted v : utf8_value v = true → utf8_value (sorted v) = true.
Proof.
  induction v as [|b|n|s|l IH|l IH] using json_nested_ind; cbn [utf8_value sorted]; intros H; try done.
  - rewrite Forall_forallb in *. induction IH as [|v l Hv _ IHl]; [done|].
    apply Forall_cons in H as [H1 H2]. cbn [map]. constructor; auto.
  - change (utf8_object (foldl (λ o f, f o) [] (map (λ p, obj_insert p.1 (sorted p.2)) l)) = true).
    rewrite Forall_forallb in H. assert (Ho : utf8_object [] = true) by done. revert Ho.
    generalize (@nil (string * json)) as o. induction IH as [|[k v] l Hv _ IHl]; intros o Ho; [done|].
    apply Forall_cons in H as [[H1 H1']%andb_true_iff H2]. cbn [map foldl]. apply IHl; [done|]. cbn [fst snd] in *.
    by apply utf8_insert; [|apply Hv|].
Qed.

Lemma lookup_obj_insert {V} k k' (v : V) o :
  obj_lookup k (obj_insert k' v o) = if bool_decide (k = k') then Some v else obj_lookup k o.
Proof.
  induction o as [|[k1 v1] o IH]; cbn [obj_insert obj_lookup]; [done|].
  destruct (decide (k' = k1)) as [->|E1].
  { rewrite bool_decide_eq_true_2 by done. cbn [obj_lookup]. by destruct (bool_decide (k = k1)). }
  rewrite (bool_decide_eq_false_2 (k' = k1)) by done. destruct (str_ltb k' k1); cbn [obj_lookup]; [done|].
  rewrite IH. destruct (decide (k = k')) as [->|E2]; [by rewrite (bool_decide_eq_false_2 (k' = k1))|].
  by rewrite (bool_decide_eq_false_2 (k = k')).
Qed.
Lemma lookup_obj_delete {V} k k' (o : list (string * V)) : k ≠ k' → obj_lookup k (obj_delete k' o) = obj_lookup k o.
Proof.
  intros Hk. induction o as [|[k1 v1] o IH]; cbn [obj_delete obj_lookup]; [done|].
  case_bool_decide; [subst; by rewrite bool_decide_eq_false_2|]. cbn [obj_lookup]. by rewrite IH.
Qed.
Lemma delete_obj_insert {V} k (v : V) o : obj_lookup k o = None → obj_delete k (obj_insert k v o) = o.
Proof.
  induction o as [|[k1 v1] o IH]; cbn [obj_insert obj_delete obj_lookup]; [intros _; by rewrite bool_decide_eq_true_2|].
  case_bool_decide as E1; [done|]. intros Hl. destruct (str_ltb k k1); cbn [obj_delete].
  - by rewrite bool_decide_eq_true_2.
  - rewrite bool_decide_eq_false_2 by done. by rewrite IH.
Qed.

(** The field of a name: the last one written. *)
Lemma lookup_sorted k l :
  NoDup l.*1 → obj_lookup k (foldl (λ o f, f o) [] (map (λ p, obj_insert p.1 (sorted p.2)) l)) =
  sorted <$> obj_lookup k l.
Proof.
  enough (H : ∀ o, NoDup l.*1 →
    obj_lookup k (foldl (λ o f, f o) o (map (λ p, obj_insert p.1 (sorted p.2)) l)) =
    match obj_lookup k l with Some v => Some (sorted v) | None => obj_lookup k o end).
  { intros Hl. rewrite H by done. by destruct (obj_lookup k l). }
  induction l as [|[k1 v1] l IH]; intros o Hnd; [done|].
  apply NoDup_cons in Hnd as [Hn Hnd]. cbn [map foldl obj_lookup fst snd]. rewrite IH by done.
  rewrite lookup_obj_insert. case_bool_decide; [subst|done].
  destruct (obj_lookup k1 l) eqn:E; [|done]. destruct Hn. clear -E.
  induction l as [|[k2 v2] l IH]; [done|]. cbn [obj_lookup] in E. case_bool_decide; [subst; by left|right; auto].
Qed.

Definition field (k : string) (v : json) : option json :=
  match v with JObject o => obj_lookup k o | _ => None end.
Lemma field_sorted k l : NoDup l.*1 → field k (sorted (JObject l)) = sorted <$> obj_lookup k l.
Proof. apply lookup_sorted. Qed.

Definition read_string (v : option json) : string := match v with Some (JString s) => s | _ => "" end.
Definition read_number (v : option json) : Z := match v with Some (JNumber n) => n | _ => 0 end.
Definition read_flag (v : option json) : option bool := match v with Some (JBool b) => Some b | _ => None end.
Definition read_bool (v : option json) : bool := default false (read_flag v).
Definition read_slice {A} (f : json → A) (v : option json) : slice A :=
  match v with Some (JArray l) => Some (f <$> l) | _ => None end.
Definition read_sub {A} (f : json → A) (v : option json) : A := f (default JNull v).

Definition read_Connection (v : json) : Connection := {|
  Kind := read_string (field "kind" v); SocketDirectory := read_string (field "socket_directory" v);
  Port := read_number (field "port" v); PoolMode := read_string (field "pool_mode" v);
  SessionState := read_string (field "session_state" v);
  ConnectionLimitScope := read_string (field "connection_limit_scope" v);
  MaxDBConnections := read_number (field "max_db_connections" v);
  StartupParameters := read_slice (λ v, read_string (Some v)) (field "startup_parameters" v) |}.
Definition read_Binding (v : json) : Binding := {|
  Primitive := read_string (field "primitive" v); ID := read_string (field "binding_id" v);
  Access := read_string (field "access" v); Database := read_string (field "database" v);
  User := read_string (field "user" v); connection := read_sub read_Connection (field "connection" v) |}.
Definition read_Mount (v : json) : Mount := {|
  m_Name := read_string (field "name" v); MountPath := read_string (field "mountPath" v);
  ReadOnly := read_flag (field "readOnly" v) |}.
Definition read_Volume (v : json) : Volume := {|
  v_Name := read_string (field "name" v);
  emptyDir := read_sub (λ e, {| Medium := read_string (field "medium" e);
                                SizeLimit := read_string (field "sizeLimit" e) |}) (field "emptyDir" v) |}.
Definition read_strings : option json → slice string := read_slice (λ v, read_string (Some v)).
Definition read_Security (v : json) : Security := {|
  AllowPrivilegeEscalation := read_flag (field "allowPrivilegeEscalation" v);
  ReadOnlyRootFilesystem := read_bool (field "readOnlyRootFilesystem" v);
  capabilities := read_sub (λ c, {| Drop_ := read_strings (field "drop" c) |}) (field "capabilities" v) |}.
Definition read_PodSecurity (v : json) : PodSecurity := {|
  RunAsNonRoot := read_bool (field "runAsNonRoot" v); RunAsUser := read_number (field "runAsUser" v);
  RunAsGroup := read_number (field "runAsGroup" v); FSGroup := read_number (field "fsGroup" v);
  SeccompProfile := read_sub (λ s, {| Type_ := read_string (field "type" s) |}) (field "seccompProfile" v) |}.
Definition read_ResourceValues (v : json) : ResourceValues :=
  {| CPU := read_string (field "cpu" v); Memory := read_string (field "memory" v) |}.
Definition read_Resources (v : json) : Resources :=
  {| Requests := read_sub read_ResourceValues (field "requests" v);
     Limits := read_sub read_ResourceValues (field "limits" v) |}.
Definition read_StartupProbe (v : json) : StartupProbe := {|
  Exec_ := read_sub (λ e, {| Command := read_strings (field "command" e) |}) (field "exec" v);
  FailureThreshold := read_number (field "failureThreshold" v);
  PeriodSeconds := read_number (field "periodSeconds" v) |}.
Definition read_Sidecar (v : json) : Sidecar := {|
  c_Name := read_string (field "name" v); Image := read_string (field "image" v);
  RestartPolicy := read_string (field "restartPolicy" v); Args := read_strings (field "args" v);
  c_VolumeMounts := read_slice read_Mount (field "volumeMounts" v);
  SecurityContext := read_sub read_Security (field "securityContext" v);
  resources := read_sub read_Resources (field "resources" v);
  startupProbe := read_StartupProbe <$> field "startupProbe" v |}.
Definition read_Attachment (v : json) : Attachment := {|
  SchemaVersion := read_string (field "schema_version" v); binding := read_sub read_Binding (field "binding" v);
  Namespace := read_string (field "namespace" v); ServiceAccount := read_string (field "service_account" v);
  PodSecurityContext := read_sub read_PodSecurity (field "pod_security_context" v);
  InitContainers := read_slice read_Sidecar (field "init_containers" v);
  Volumes := read_slice read_Volume (field "volumes" v);
  VolumeMounts := read_slice read_Mount (field "volume_mounts" v); Digest := "" |}.

(** An empty list of startup parameters is written like an absent one. *)
Definition normal_Connection (c : Connection) : Connection := {|
  Kind := Kind c; SocketDirectory := SocketDirectory c; Port := Port c; PoolMode := PoolMode c;
  SessionState := SessionState c; ConnectionLimitScope := ConnectionLimitScope c;
  MaxDBConnections := MaxDBConnections c;
  StartupParameters := if bool_decide (items (StartupParameters c) = []) then None else StartupParameters c |}.
Definition normal (a : Attachment) : Attachment := {|
  SchemaVersion := SchemaVersion a;
  binding := {| Primitive := Primitive (binding a); ID := ID (binding a); Access := Access (binding a);
                Database := Database (binding a); User := User (binding a);
                connection := normal_Connection (connection (binding a)) |};
  Namespace := Namespace a; ServiceAccount := ServiceAccount a; PodSecurityContext := PodSecurityContext a;
  InitContainers := InitContainers a; Volumes := Volumes a; VolumeMounts := VolumeMounts a; Digest := "" |}.

Lemma read_present k l v :
  NoDup l.*1 → obj_lookup k l = Some v → field k (sorted (JObject l)) = Some (sorted v).
Proof. intros Hl Hk. by rewrite field_sorted, Hk. Qed.
Lemma read_absent k l : NoDup l.*1 → obj_lookup k l = None → field k (sorted (JObject l)) = None.
Proof. intros Hl Hk. by rewrite field_sorted, Hk. Qed.

(** Read every field of an object whose names are known. *)
Ltac names := refine (bool_decide_unpack (NoDup _) _); vm_compute; exact I.
Ltac read_fields :=
  repeat (first [erewrite read_present; [|names|reflexivity] | rewrite read_absent; [|names|reflexivity]]).

Lemma read_slice_sorted {A} (f : A → json) (g : json → A) (s : slice A) :
  (∀ x, g (sorted (f x)) = x) → read_slice g (Some (sorted (slice_json f s))) = s.
Proof.
  intros Hg. destruct s as [l|]; [|done]. cbn [slice_json sorted read_slice]. f_equal.
  induction l as [|x l IH]; [done|]. cbn [fmap list_fmap map] in *. by rewrite Hg, IH.
Qed.
Lemma read_strings_sorted s : read_strings (Some (sorted (strings_json s))) = s.
Proof. by apply read_slice_sorted. Qed.

Lemma read_Mount_json m : read_Mount (sorted (Mount_json m)) = m.
Proof. destruct m as [n p [b|]]; unfold read_Mount, Mount_json; cbn; read_fields; done. Qed.
Lemma read_Volume_json v : read_Volume (sorted (Volume_json v)) = v.
Proof.
  destruct v as [n [m s]]. unfold read_Volume, Volume_json. read_fields. unfold read_sub. cbn [default from_option id]. read_fields. done.
Qed.
Lemma read_Security_json s : read_Security (sorted (Security_json s)) = s.
Proof.
  destruct s as [[b|] r [d]]; unfold read_Security, Security_json; read_fields; unfold read_sub; cbn [default from_option id];
    read_fields; by rewrite read_strings_sorted.
Qed.
Lemma read_PodSecurity_json p : read_PodSecurity (sorted (PodSecurity_json p)) = p.
Proof.
  destruct p as [r u g f [t]]. unfold read_PodSecurity, PodSecurity_json. read_fields. unfold read_sub. cbn [default from_option id].
  read_fields. done.
Qed.
Lemma read_Resources_json r : read_Resources (sorted (Resources_json r)) = r.
Proof.
  destruct r as [[c m] [c' m']]. unfold read_Resources, Resources_json. read_fields. unfold read_sub. cbn [default from_option id].
  unfold read_ResourceValues, ResourceValues_json. read_fields. done.
Qed.
Lemma read_StartupProbe_json p : read_StartupProbe (sorted (StartupProbe_json p)) = p.
Proof.
  destruct p as [[c] f n]. unfold read_StartupProbe, StartupProbe_json. read_fields. unfold read_sub. cbn [default from_option id].
  read_fields. by rewrite read_strings_sorted.
Qed.
Lemma read_Sidecar_json c : read_Sidecar (sorted (Sidecar_json c)) = c.
Proof.
  destruct c as [n i r a m s rs [p|]]; unfold read_Sidecar, Sidecar_json; cbn [startupProbe]; read_fields;
    unfold read_sub; cbn [default from_option id]; rewrite read_strings_sorted, (read_slice_sorted _ _ _ read_Mount_json),
      read_Security_json, read_Resources_json; cbn [fmap option_fmap option_map];
    by rewrite ?read_StartupProbe_json.
Qed.
Lemma read_Connection_json c : read_Connection (sorted (Connection_json c)) = normal_Connection c.
Proof.
  destruct c as [k d p m s l n q]. unfold read_Connection, Connection_json, normal_Connection, omit.
  cbn [Kind SocketDirectory Port PoolMode SessionState ConnectionLimitScope MaxDBConnections StartupParameters].
  destruct (bool_decide (m = "")) eqn:Em; [apply bool_decide_eq_true in Em as ->|];
  (destruct (bool_decide (s = "")) eqn:Es; [apply bool_decide_eq_true in Es as ->|]);
  (destruct (bool_decide (l = "")) eqn:El; [apply bool_decide_eq_true in El as ->|]);
  (destruct (n =? 0) eqn:En; [apply Z.eqb_eq in En as ->|]);
  (destruct (bool_decide (items q = [])) eqn:Eq); cbn [app]; read_fields; try done;
  change (read_slice (λ v, read_string (Some v))) with read_strings; by rewrite read_strings_sorted.
Qed.
Lemma read_Binding_json b : read_Binding (sorted (Binding_json b)) =
  {| Primitive := Primitive b; ID := ID b; Access := Access b; Database := Database b; User := User b;
     connection := normal_Connection (connection b) |}.
Proof.
  destruct b as [p i a d u c]. unfold read_Binding, Binding_json. read_fields.
  unfold read_sub. cbn [default from_option id connection]. by rewrite read_Connection_json.
Qed.
Lemma read_Attachment_json a : read_Attachment (sorted (Attachment_json a)) = normal a.
Proof.
  unfold read_Attachment, Attachment_json, normal. read_fields. unfold read_sub. cbn [default from_option id].
  by rewrite (read_slice_sorted _ _ _ read_Sidecar_json), (read_slice_sorted _ _ _ read_Volume_json),
    (read_slice_sorted _ _ _ read_Mount_json), read_Binding_json, read_PodSecurity_json.
Qed.

Definition utf8 (a : Attachment) : Prop := utf8_value (Attachment_json a) = true.

Lemma sealed_fields_utf8 a : utf8 a →
  utf8_object (sealed_fields a) = true ∧ read_Attachment (JObject (sealed_fields a)) = normal a.
Proof.
  intros Hu. unfold sealed_fields. rewrite generic_sorted by done. pose proof (utf8_sorted _ Hu) as Hs.
  rewrite <-(read_Attachment_json a).
  assert (Ho : ∃ o, sorted (Attachment_json a) = JObject o) by (by eexists).
  destruct Ho as [o Eo]. rewrite Eo in Hs |- *. clear Eo. split; [by apply utf8_delete|].
  unfold read_Attachment. cbn [field]. by rewrite !lookup_obj_delete by (clear; discriminate).
Qed.

Lemma canonical_inj a b : utf8 a → utf8 b → canonical a = canonical b → normal a = normal b.
Proof.
  intros Ha Hb E. destruct (sealed_fields_utf8 a Ha) as [Hsa <-], (sealed_fields_utf8 b Hb) as [Hsb <-].
  unfold canonical in E. cbv zeta in E. apply (f_equal bytes) in E. rewrite !bytes_of_bytes in E.
  apply literal_separators_inj, encode_value_inj in E; [|exact Hsa|exact Hsb].
  exact (f_equal read_Attachment E).
Qed.

(** The seal does not depend on the digest it replaces. *)
Lemma sealed_fields_digest a d : sealed_fields (with_digest a d) = sealed_fields a.
Proof.
  pose (fields (a : Attachment) := removelast (match Attachment_json a with JObject l => l | _ => [] end)).
  pose (o a := foldl (λ o f, f o) [] (map (λ p, obj_insert (reread p.1) (generic p.2)) (fields a))).
  assert (H : ∀ a, sealed_fields a = o a).
  { intros b. transitivity (obj_delete "digest" (obj_insert "digest" (generic (JString (Digest b))) (o b))).
    { reflexivity. }
    apply delete_obj_insert. unfold o, fields. cbn [Attachment_json removelast map].
    repeat match goal with |- context [reread ?k] => change (reread k) with k end.
    cbn [foldl fst snd]. by rewrite !lookup_obj_insert, !bool_decide_eq_false_2. }
  by rewrite !H.
Qed.

(** ** What an accepted attachment is *)

(** Mounts: of declared volumes, at clean absolute paths none of which is another
    or inside another; read-only for the consumer; one per volume unless repeated
    volumes are allowed. *)
Record mounts_ok (volumes : list string) (consumer repeatedVolumes : bool) (mounts : list Mount) : Prop := {
  mo_size : 1 ≤ Z.of_nat (length mounts) ≤ 16;
  mo_each : Forall (λ m, m_Name m ∈ volumes ∧ validPath (MountPath m) = true ∧
                         (consumer = true → ReadOnly m = Some true)) mounts;
  mo_names : repeatedVolumes = false → NoDup (m_Name <$> mounts);
  mo_paths : ∀ i j m m', mounts !! i = Some m → mounts !! j = Some m' → i ≠ j →
    overlap (MountPath m) (MountPath m') = false;
}.

Record volume_ok (v : Volume) : Prop := {
  vo_name : namePattern (v_Name v) = true;
  vo_medium : Medium (emptyDir v) = "Memory";
  vo_size : bounded (SizeLimit (emptyDir v)) = true;
}.

Record probe_ok (p : StartupProbe) : Prop := {
  po_command : 1 ≤ Z.of_nat (length (items (Command (Exec_ p)))) ≤ 16;
  po_arguments : Forall (λ s, bounded s = true) (items (Command (Exec_ p)));
  po_threshold : 1 ≤ FailureThreshold p ≤ 60;
  po_period : 1 ≤ PeriodSeconds p ≤ 60;
}.

Record container_ok (version : string) (volumes : list string) (c : Sidecar) : Prop := {
  co_name : namePattern (c_Name c) = true;
  co_image : imagePattern (Image c) = true;
  co_restart : RestartPolicy c = "Always";
  co_args : 1 ≤ Z.of_nat (length (items (Args c))) ≤ 16;
  co_arguments : Forall (λ s, invalid_argument version s = false) (items (Args c));
  co_mounts : mounts_ok volumes false (bool_decide (version = VersionV2)) (items (c_VolumeMounts c));
  co_escalation : AllowPrivilegeEscalation (SecurityContext c) = Some false;
  co_rootfs : ReadOnlyRootFilesystem (SecurityContext c) = true;
  co_drop : items (Drop_ (capabilities (SecurityContext c))) = ["ALL"];
  co_resources : Forall (λ s, bounded s = true) (resource_strings (resources c));
  co_probe : ∀ p, startupProbe c = Some p → probe_ok p;
}.

(** The containers that have a startup probe. *)
Definition probes (cs : list Sidecar) : Z := Z.of_nat (length (omap startupProbe cs)).

Record attachment_ok (a : Attachment) : Prop := {
  ao_version : SchemaVersion a = Version ∧ legacyConnection (connection (binding a)) = true ∧
                 probes (items (InitContainers a)) = 0 ∨
               SchemaVersion a = VersionV2 ∧ pooledConnection (connection (binding a)) = true ∧
                 probes (items (InitContainers a)) = 1;
  ao_names : namePattern (Namespace a) = true ∧ namePattern (ServiceAccount a) = true;
  ao_binding : invalid_binding (binding a) = false;
  ao_pod : invalid_pod (PodSecurityContext a) = false;
  ao_sizes : 1 ≤ Z.of_nat (length (items (InitContainers a))) ≤ 16 ∧
             1 ≤ Z.of_nat (length (items (Volumes a))) ≤ 16;
  ao_volumes : Forall volume_ok (items (Volumes a)) ∧ NoDup (v_Name <$> items (Volumes a));
  ao_mounts : mounts_ok (v_Name <$> items (Volumes a)) true false (items (VolumeMounts a));
  ao_socket : socketMounted (SocketDirectory (connection (binding a))) (VolumeMounts a) = true;
  ao_containers : Forall (container_ok (SchemaVersion a) (v_Name <$> items (Volumes a))) (items (InitContainers a)) ∧
                  NoDup (c_Name <$> items (InitContainers a));
  ao_digest : Digest a = computedDigest a;
}.

Lemma fail_if_ok b u : fail_if b = Ok u ↔ b = false.
Proof. destruct u. by destruct b. Qed.

Lemma check_volume_ok seen v seen' :
  check_volume seen v = Ok seen' ↔ volume_ok v ∧ v_Name v ∉ seen ∧ seen' = {[v_Name v]} ∪ seen.
Proof.
  unfold check_volume. rewrite bind_ok. split.
  - intros (u & H%fail_if_ok & [= <-]).
    rewrite !orb_false_iff, !negb_false_iff, bool_decide_eq_true, bool_decide_eq_false in H.
    destruct H as [[[H1 H2] H3] H4]. by split_and!.
  - intros ([H1 H2 H3] & H4 & ->). exists tt. split; [|done]. apply fail_if_ok.
    by rewrite H1, (bool_decide_eq_false_2 _ H4), H2, H3.
Qed.

Lemma size_between_ok {A} lo hi (s : slice A) :
  size_between lo hi s = true ↔ lo ≤ Z.of_nat (length (items s)) ≤ hi.
Proof. unfold size_between. rewrite andb_true_iff, !Z.leb_le. done. Qed.

Section mounts.
Context (volumes : gset string) (consumer repeatedVolumes : bool).

Definition mount_ok (m : Mount) : Prop :=
  m_Name m ∈ volumes ∧ validPath (MountPath m) = true ∧ (consumer = true → ReadOnly m = Some true).

Lemma check_mount_ok seen paths m st :
  check_mount volumes consumer repeatedVolumes (seen, paths) m = Some st ↔
  mount_ok m ∧ (repeatedVolumes = false → m_Name m ∉ seen) ∧
  Forall (λ p, overlap (MountPath m) p = false) paths ∧ st = ({[m_Name m]} ∪ seen, paths ++ [MountPath m]).
Proof.
  unfold check_mount, mount_ok. destruct (_ || _ || _ || _) eqn:E.
  - split; [done|]. intros ((H1 & H2 & H3) & H4 & _). exfalso.
    assert (Hs : bool_decide (m_Name m ∈ seen) && negb repeatedVolumes = false)
      by (destruct repeatedVolumes; [apply andb_false_r|by rewrite bool_decide_eq_false_2 by auto]).
    assert (Hc : consumer && negb (bool_decide (ReadOnly m = Some true)) = false)
      by (destruct consumer; [by rewrite bool_decide_eq_true_2 by auto|done]).
    by rewrite (bool_decide_eq_true_2 _ H1), H2, Hs, Hc in E.
  - rewrite !orb_false_iff, !negb_false_iff, bool_decide_eq_true in E. destruct E as [[[H1 H2] H3] H4].
    rewrite <-Forall_existsb_false. destruct (existsb _ paths) eqn:Eo.
    + split; [done|]. intros (_ & _ & ? & _). congruence.
    + split.
      * intros [= <-]. split_and!; try done.
        -- intros ->. by apply negb_false_iff, bool_decide_eq_true in H4.
        -- intros ->. rewrite andb_true_r in H2. by apply bool_decide_eq_false in H2.
      * by intros (_ & _ & _ & ->).
Qed.

Lemma check_each_mount_ok seen paths mounts :
  check_each_mount volumes consumer repeatedVolumes (seen, paths) mounts = true ↔
  Forall mount_ok mounts ∧
  (repeatedVolumes = false → NoDup (m_Name <$> mounts) ∧ Forall (λ m, m_Name m ∉ seen) mounts) ∧
  Forall (λ m, Forall (λ p, overlap (MountPath m) p = false) paths) mounts ∧
  (∀ i j m m', mounts !! i = Some m → mounts !! j = Some m' → (i < j)%nat →
     overlap (MountPath m') (MountPath m) = false).
Proof.
  revert seen paths. induction mounts as [|m mounts IH]; intros seen paths; cbn [check_each_mount].
  - split; [|done]. intros _. split_and!; try done; by repeat constructor.
  - destruct (check_mount _ _ _ _ m) as [[seen' paths']|] eqn:E.
    2:{ split; [done|]. intros (H1 & H2 & H3 & _). rewrite !Forall_cons in *. exfalso.
        enough (check_mount volumes consumer repeatedVolumes (seen, paths) m =
          Some ({[m_Name m]} ∪ seen, paths ++ [MountPath m])) by congruence.
        apply check_mount_ok. split_and!; naive_solver. }
    apply check_mount_ok in E as (Hm & Hn & Hp & [= -> ->]). rewrite IH, !Forall_cons, fmap_cons, NoDup_cons.
    setoid_rewrite Forall_app. setoid_rewrite Forall_singleton. split.
    + intros (H1 & H2 & H3 & H4). rewrite Forall_and in H3. destruct H3 as [H3 H3']. split_and!; try done.
      * intros Hr. destruct (H2 Hr) as [H5 H6]. rewrite Forall_forall in H6. split_and!; [|done|auto|].
        -- intros (y & Ey & Hy)%list_elem_of_fmap. apply (H6 y Hy). rewrite Ey. set_solver.
        -- apply Forall_forall. intros y Hy ?. apply (H6 y Hy). set_solver.
      * intros [|i] [|j] x y Hx Hy Hij; try lia; [|eapply H4; [exact Hx|exact Hy|lia]].
        injection Hx as <-. rewrite Forall_forall in H3'. apply H3'. by eapply list_elem_of_lookup_2.
    + intros ([_ H1] & H2 & [_ H3] & H4). split_and!; try done.
      * intros Hr. destruct (H2 Hr) as ([H5 H6] & H7 & H8). split; [done|]. rewrite Forall_forall in *.
        intros y Hy [Ey%elem_of_singleton|?]%elem_of_union; [|by apply (H8 y)].
        apply H5, list_elem_of_fmap. eauto.
      * rewrite Forall_and. split; [done|]. apply Forall_forall. intros y [j Hj]%list_elem_of_lookup_1.
        eapply (H4 0%nat (S j)); [done|exact Hj|lia].
      * intros i j x y Hx Hy Hij. eapply (H4 (S i) (S j)); [done|done|lia].
Qed.
End mounts.

Lemma overlap_sym p q : overlap p q = overlap q p.
Proof.
  unfold overlap. destruct (decide (p = q)) as [->|Hn]; [done|].
  rewrite !bool_decide_eq_false_2 by auto. cbn [orb]. apply orb_comm.
Qed.

Lemma checkMounts_ok volumes names mounts consumer repeatedVolumes :
  (∀ x, x ∈ volumes ↔ x ∈ names) →
  checkMounts volumes mounts consumer repeatedVolumes = true ↔ mounts_ok names consumer repeatedVolumes (items mounts).
Proof.
  intros Hv. unfold checkMounts. rewrite andb_true_iff, check_each_mount_ok, size_between_ok. unfold mount_ok.
  setoid_rewrite Hv. split.
  - intros ((H1 & H2 & _ & H4) & H5). split; [done|done|naive_solver|].
    intros i j m m' Hi Hj Hij. destruct (decide (i < j)%nat).
    + rewrite overlap_sym. by eapply H4.
    + eapply H4; [exact Hj|exact Hi|lia].
  - intros [H1 H2 H3 H4]. split; [|done]. split_and!; [done| |by apply Forall_true|].
    + intros Hr. split; [auto|]. by apply Forall_true.
    + intros i j m m' Hi Hj Hij. eapply H4; [done..|lia].
Qed.

Lemma bind_fail_if {A} b (k : unit → result A) r : (fail_if b ≫= k) = Ok r ↔ b = false ∧ k tt = Ok r.
Proof. destruct b; [split; [done|by intros []]|]. split; [done|by intros [_ ?]]. Qed.

Lemma invalid_probe_ok p : invalid_probe p = false ↔ probe_ok p.
Proof.
  unfold invalid_probe. rewrite !orb_false_iff, negb_false_iff, size_between_ok, !Z.ltb_ge, Forall_existsb_false.
  setoid_rewrite negb_false_iff. split; [by intros (((([??]&?)&?)&?)&?); split|]. intros [? ? [] []]. tauto.
Qed.

Section containers.
Context (version : string) (volumes : gset string) (names : list string).
Hypothesis Hnames : ∀ x, x ∈ volumes ↔ x ∈ names.

Lemma check_container_ok containers n c st :
  check_container version volumes (containers, n) c = Ok st ↔
  container_ok version names c ∧ c_Name c ∉ containers ∧ st = ({[c_Name c]} ∪ containers, n + probes [c]).
Proof.
  unfold check_container. rewrite !bind_fail_if.
  unfold invalid_security. rewrite !orb_false_iff, !negb_false_iff, !bool_decide_eq_true, bool_decide_eq_false,
    size_between_ok, (checkMounts_ok _ _ _ _ _ Hnames), !Forall_existsb_false.
  setoid_rewrite negb_false_iff. unfold probes. split.
  - intros ((((((H1 & H2) & H3) & H4) & H5) & H6) & ((H7 & H8) & H9) & H10 & H11 & Hp).
    assert (Hst : (∀ p, startupProbe c = Some p → probe_ok p) ∧
      st = ({[c_Name c]} ∪ containers, n + Z.of_nat (length (omap startupProbe [c])))).
    { cbn [omap list_omap]. destruct (startupProbe c) as [p|].
      - apply bind_fail_if in Hp as [Hp%invalid_probe_ok [= <-]]. split; [by intros p' [= <-]|done].
      - injection Hp as <-. split; [done|]. by rewrite Z.add_0_r. }
    destruct Hst as [Hpr ->]. by split_and!.
  - intros ([H1 H2 H3 H4 H5 H6 H7 H8 H9 H10 H11] & Hn & ->). split_and!; try done; try lia.
    cbn [omap list_omap]. destruct (startupProbe c) as [p|]; [|by rewrite Z.add_0_r].
    apply bind_fail_if. split; [by apply invalid_probe_ok, H11|done].
Qed.

Lemma check_containers_ok seen n cs st :
  fold_result (check_container version volumes) (seen, n) cs = Ok st ↔
  Forall (container_ok version names) cs ∧ NoDup (c_Name <$> cs) ∧ Forall (λ c, c_Name c ∉ seen) cs ∧
  st = (claim_all c_Name seen cs, n + probes cs).
Proof.
  revert seen n. induction cs as [|c cs IH]; intros seen n; cbn [fold_result].
  - split; [intros [= <-]|intros (_ & _ & _ & ->)]; [|by rewrite Z.add_0_r].
    split_and!; [by constructor..|]. by rewrite Z.add_0_r.
  - rewrite bind_ok, !Forall_cons, fmap_cons, NoDup_cons.
    assert (Hp : probes (c :: cs) = probes [c] + probes cs).
    { unfold probes. cbn [omap list_omap]. destruct (startupProbe c); cbn [length]; lia. }
    assert (Hx : Forall (λ y, c_Name y ∉ ({[c_Name c]} ∪ seen : gset string)) cs ↔
                 c_Name c ∉ c_Name <$> cs ∧ Forall (λ y, c_Name y ∉ seen) cs).
    { rewrite !Forall_forall, list_elem_of_fmap. split.
      - intros Hall. split; [intros (y & E & Hy); apply (Hall y Hy); rewrite E; set_solver|].
        intros y Hy ?. apply (Hall y Hy). set_solver.
      - intros [H1 H2] y Hy [E%elem_of_singleton|?]%elem_of_union; [|by apply (H2 y)]. apply H1. eauto. }
    split.
    + intros (s1 & (Hc & Hn & ->)%check_container_ok & (H1 & H2 & [H3 H3']%Hx & ->)%IH).
      split_and!; try done. cbn [claim_all foldl]. by rewrite Hp, Z.add_assoc.
    + intros ([Hc H1] & [H3 H2] & [Hn H3'] & ->). exists ({[c_Name c]} ∪ seen, n + probes [c]).
      split; [by apply check_container_ok|]. apply IH. split_and!; [done|done|by apply Hx|].
      by rewrite Hp, Z.add_assoc.
Qed.
End containers.

(** The version and what it requires of the connection and of the probes. *)
Lemma version_ok v legacy pooled (n : Z) :
  (negb (bool_decide (v = Version)) && negb (bool_decide (v = VersionV2))) = false →
  (bool_decide (v = Version) && negb legacy || bool_decide (v = VersionV2) && negb pooled) = false →
  (bool_decide (v = Version) && negb (n =? 0) || bool_decide (v = VersionV2) && negb (n =? 1)) = false ↔
  v = Version ∧ legacy = true ∧ n = 0 ∨ v = VersionV2 ∧ pooled = true ∧ n = 1.
Proof.
  assert (Hne : Version ≠ VersionV2) by discriminate.
  do 2 case_bool_decide; subst; try done; destruct legacy, pooled; cbn [negb andb orb]; try done; intros _ _;
    rewrite ?orb_false_r, ?negb_false_iff, ?Z.eqb_eq; naive_solver.
Qed.

Lemma claimed_volumes (vs : list Volume) x : x ∈ claim_all v_Name ∅ vs ↔ x ∈ v_Name <$> vs.
Proof. rewrite elem_of_claim_all. set_solver. Qed.

Lemma Validate_ok a : Validate a = Ok tt ↔ attachment_ok a.
Proof.
  unfold Validate, envelope. cbv zeta. split.
  - intros ([] & He & Hd%fail_if_ok)%bind_ok. apply bind_fail_if in He as [Hver He].
    apply bind_fail_if in He as [Hb He]. apply bind_fail_if in He as [Hconn He].
    apply bind_fail_if in He as [Hpod He]. apply bind_fail_if in He as [Hsz He].
    apply bind_ok in He as (vols & (Hv & Hnd & _ & ->)%(claiming_ok _ _ _ check_volume_ok) & He).
    apply bind_fail_if in He as [Hm He]. apply bind_fail_if in He as [Hs He].
    apply bind_ok in He as ([names n] & Hc & He).
    apply (check_containers_ok _ _ _ (claimed_volumes _)) in Hc as (Hcs & Hcn & _ & [= -> ->]).
    apply bind_fail_if in He as [Hn _]. rewrite Z.add_0_l in Hn.
    apply orb_false_iff in Hver as [Hver Hsa%negb_false_iff]. apply orb_false_iff in Hver as [Hver Hns%negb_false_iff].
    rewrite !orb_false_iff, !negb_false_iff, !size_between_ok in Hsz. destruct Hsz as [[H1 H2] _].
    apply negb_false_iff, (checkMounts_ok _ _ _ _ _ (claimed_volumes _)) in Hm.
    apply negb_false_iff in Hs. apply negb_false_iff, bool_decide_eq_true in Hd.
    by split; try apply (version_ok _ _ _ _ Hver Hconn).
  - intros [Hver [Hns Hsa] Hb Hpod [H1 H2] [Hv Hnd] Hm Hs [Hcs Hcn] Hd].
    apply bind_ok. exists tt. split; [|by apply fail_if_ok, negb_false_iff, bool_decide_eq_true].
    assert (Hv1 : (negb (bool_decide (SchemaVersion a = Version)) && negb (bool_decide (SchemaVersion a = VersionV2))) = false).
    { by destruct Hver as [[-> _]|[-> _]]. }
    assert (Hv2 : (bool_decide (SchemaVersion a = Version) && negb (legacyConnection (connection (binding a)))
      || bool_decide (SchemaVersion a = VersionV2) && negb (pooledConnection (connection (binding a)))) = false).
    { by destruct Hver as [(-> & -> & _)|(-> & -> & _)]. }
    apply bind_fail_if. split; [by rewrite Hv1, Hns, Hsa|]. apply bind_fail_if. split; [done|].
    apply bind_fail_if. split; [done|]. apply bind_fail_if. split; [done|]. apply bind_fail_if. split.
    { rewrite !orb_false_iff, !negb_false_iff, !size_between_ok. split; [done|]. apply Hm. }
    apply bind_ok. exists (claim_all v_Name ∅ (items (Volumes a))). split.
    { apply (claiming_ok _ _ _ check_volume_ok). split_and!; try done. apply Forall_true. set_solver. }
    apply bind_fail_if. split; [by apply negb_false_iff, (checkMounts_ok _ _ _ _ _ (claimed_volumes _))|].
    apply bind_fail_if. split; [by rewrite Hs|]. apply bind_ok. eexists. split.
    { apply (check_containers_ok _ _ _ (claimed_volumes _)). split_and!; try done. apply Forall_true. set_solver. }
    cbn beta iota. apply bind_fail_if. split; [|done]. rewrite Z.add_0_l. by apply (version_ok _ _ _ _ Hv1 Hv2).
Qed.

Lemma computedDigest_Seal a d : computedDigest (with_digest a d) = computedDigest a.
Proof. unfold computedDigest, canonical. by rewrite sealed_fields_digest. Qed.

Lemma envelope_digest a d : envelope (with_digest a d) = envelope a.
Proof. reflexivity. Qed.

(** [Validate] accepts exactly the attachments of the contract: the version
    with its kind of connection and number of startup probes, every name, binding,
    security setting and size, memory volumes of distinct names, mounts of them at
    clean paths none inside another, containers of distinct names each within its
    envelope, the socket reachable through a mount, and the digest of the rest.
    And [Seal] makes any attachment that passes the other checks pass this one,
    changing nothing but the digest. *)
Theorem Validate_exact a :
  (Validate a = Ok tt ↔ attachment_ok a) ∧
  (envelope a = Ok tt ↔ Validate (Seal a) = Ok tt) ∧ normal (Seal a) = normal a.
Proof.
  split; [apply Validate_ok|]. split; [|done]. unfold Validate, Seal.
  rewrite envelope_digest, computedDigest_Seal. cbn [Digest with_digest].
  rewrite bool_decide_eq_true_2 by done. destruct (envelope a) as [[]|]; done.
Qed.

Lemma accepted_normal a : Validate a = Ok tt → normal_Connection (connection (binding a)) = connection (binding a).
Proof.
  intros [Hv _ _ _ _ _ _ _ _ _]%Validate_ok. destruct (connection (binding a)) as [k d p m s l n q].
  unfold normal_Connection. cbn in *. f_equal. unfold legacyConnection, pooledConnection in Hv. cbn in Hv.
  destruct Hv as [(_ & H & _)|(_ & H & _)]; rewrite !andb_true_iff in H; destruct H as [_ Hq%bool_decide_eq_true];
    by rewrite Hq.
Qed.

(** C27: the seal binds every field. Two attachments that are accepted under one
    digest are the same attachment, field for field, unless SHA-256 collides on
    their canonical texts; so approving a digest approves every identity, image,
    argument, mount and limit of the document. *)
Theorem seal_binds_every_field a b :
  utf8 a → utf8 b → Validate a = Ok tt → Validate b = Ok tt → Digest a = Digest b →
  (sha256 (canonical a) = sha256 (canonical b) → canonical a = canonical b) → a = b.
Proof.
  intros Ha Hb Hva Hvb Hd Hc. pose proof (accepted_normal a Hva) as Hna. pose proof (accepted_normal b Hvb) as Hnb.
  assert (Hcan : canonical a = canonical b).
  { apply Hc. pose proof (ao_digest _ (proj1 (Validate_ok a) Hva)) as Ea.
    pose proof (ao_digest _ (proj1 (Validate_ok b) Hvb)) as Eb.
    rewrite Ea, Eb in Hd. unfold computedDigest in Hd. apply append_inj_r in Hd. by apply (inj hex). }
  apply canonical_inj in Hcan; [|done..]. destruct a as [? [] ? ? ? ? ? ? ?], b as [? [] ? ? ? ? ? ? ?].
  unfold normal in Hcan. cbn in *. rewrite Hna, Hnb in Hcan. injection Hcan as. by subst.
Qed.

Definition example_attachment : Attachment := {|
  SchemaVersion := Version;
  binding := {| Primitive := "database"; ID := "orders"; Access := "reader"; Database := "orders"; User := "orders-ro";
                connection := {| Kind := "local-identity-proxy"; SocketDirectory := "/run/postgres"; Port := 5432;
                                 PoolMode := ""; SessionState := ""; ConnectionLimitScope := "";
                                 MaxDBConnections := 0; StartupParameters := None |} |};
  Namespace := "shop"; ServiceAccount := "orders";
  PodSecurityContext := {| RunAsNonRoot := true; RunAsUser := 1000; RunAsGroup := 1000; FSGroup := 1000;
                           SeccompProfile := {| Type_ := "RuntimeDefault" |} |};
  InitContainers := Some [{|
    c_Name := "proxy"; RestartPolicy := "Always"; Args := Some ["--unix-socket"];
    Image := "proxy@sha256:0123456789abcdef0123456789abcdef0123456789abcdef0123456789abcdef";
    c_VolumeMounts := Some [{| m_Name := "socket"; MountPath := "/run/postgres"; ReadOnly := None |}];
    SecurityContext := {| AllowPrivilegeEscalation := Some false; ReadOnlyRootFilesystem := true;
                          capabilities := {| Drop_ := Some ["ALL"] |} |};
    resources := {| Requests := {| CPU := "10m"; Memory := "32Mi" |}; Limits := {| CPU := "1"; Memory := "64Mi" |} |};
    startupProbe := None |}];
  Volumes := Some [{| v_Name := "socket"; emptyDir := {| Medium := "Memory"; SizeLimit := "1Mi" |} |}];
  VolumeMounts := Some [{| m_Name := "socket"; MountPath := "/run/postgres"; ReadOnly := Some true |}];
  Digest := "" |}.

(** ASCII text is valid UTF-8. *)
Lemma valid_utf8_ascii s : all_bytes (λ c, code c <? 128) s = true → valid_utf8 s = true.
Proof.
  unfold all_bytes, valid_utf8. generalize (bytes s). intros l. generalize (length l) as fuel.
  intros fuel. revert l. induction fuel as [|fuel IH]; intros [|c l]; try done.
  cbn [forallb valid_runes]. intros [Hc Hl]%andb_true_iff. rewrite fmap_cons. unfold decode_rune. rewrite Hc.
  cbn [drop]. rewrite drop_0, (IH l Hl), andb_true_r. apply negb_true_iff. apply andb_false_iff. left.
  apply Z.eqb_neq. apply Z.ltb_lt in Hc. unfold rune_error. lia.
Qed.

Lemma utf8_digest a d : utf8 a → valid_utf8 d = true → utf8 (with_digest a d).
Proof.
  unfold utf8, Attachment_json. cbn [utf8_value forallb fst snd].
  intros H Hd. rewrite !andb_true_iff in H |- *. cbn [SchemaVersion binding Namespace ServiceAccount
    PodSecurityContext InitContainers Volumes VolumeMounts Digest with_digest]. tauto.
Qed.

Lemma Seal_utf8 a : utf8 a → utf8 (Seal a).
Proof.
  intros Ha. apply utf8_digest; [done|]. apply valid_utf8_ascii. unfold computedDigest.
  rewrite all_bytes_app. apply andb_true_iff. split; [done|]. eapply all_bytes_impl; [|apply hex_all].
  intros c Hc. unfold hex_byte, in_range in Hc. lia.
Qed.

Lemma example_accepted : Validate (Seal example_attachment) = Ok tt.
Proof.
  assert (He : envelope example_attachment = Ok tt) by (vm_compute; reflexivity).
  unfold Validate, Seal. rewrite envelope_digest, computedDigest_Seal, He. cbn [Digest with_digest].
  by rewrite bool_decide_eq_true_2.
Qed.

Lemma seal_binds_every_field_witness :
  let a := Seal example_attachment in
  Validate a = Ok tt ∧ a = with_digest a (Digest a).
Proof.
  intros a. assert (Hu : utf8 a) by (apply Seal_utf8; vm_compute; reflexivity).
  split; [exact example_accepted|].
  exact (seal_binds_every_field a (with_digest a (Digest a)) Hu Hu example_accepted example_accepted eq_refl (λ _, eq_refl)).
Defined.

#[global] Arguments computedDigest : simpl never.
#[global] Arguments canonical : simpl never.
#[global] Arguments Validate : simpl never.
