(* ===== verification/StrictJson.v ===== *)
(** Parsing a workload attachment ([Parse], [validUnicodeEscapes] and [strictJSON]
    of [libs/go/workloadattachment/attachment.go]): one JSON document, without a
    repeated field, without a lossy escape, and exactly the public contract. *)
From S2P Require Import Prelude GoStrings Sha256 Url Json Attachment.

(** ** Unicode escapes *)

(** [strconv.ParseUint(s, 16, 16)] of four bytes. *)
Definition parse_hex4 (a b c d : ascii) : option Z :=
  if forallb is_hex [a; b; c; d] then Some (unhex4 a b c d) else None.

(** No unpaired UTF-16 surrogate among the [\u] escapes. *)
Fixpoint valid_escapes (l : list ascii) : bool :=
  match l with
  | [] => true
  | c :: l =>
    if bool_decide (c = backslash) then
      match l with
      | [] => true
      | e :: l =>
        if bool_decide (e = "u"%char) then
          match l with
          | a :: b :: c :: d :: l =>
            match parse_hex4 a b c d with
            | None => false
            | Some code =>
              if in_range 56320 57343 code then false
              else if in_range 55296 56319 code then
                match l with
                | e :: u :: a :: b :: c :: d :: l =>
                  bool_decide (e = backslash) && bool_decide (u = "u"%char)
                  && match parse_hex4 a b c d with
                     | Some low => in_range 56320 57343 low
                     | None => false
                     end && valid_escapes l
                | _ => false
                end
              else valid_escapes l
            end
          | _ => false
          end
        else valid_escapes l
      end
    else valid_escapes l
  end.
Definition validUnicodeEscapes (data : string) : bool := valid_escapes (bytes data).

(** ** The token stream of [json.Decoder] *)

Inductive token :=
  | Delim (c : ascii)
  | TNull
  | TBool (b : bool)
  | TNumber (text : string)
  | TString (s : string).

(** A decoded [any]: maps are their fields in the order of their names. *)
Inductive any :=
  | ANull
  | ABool (b : bool)
  | ANumber (text : string)
  | AString (s : string)
  | AArray (l : list any)
  | AObject (l : list (string * any)).

Definition stray : error := ENew "invalid character" [].

Section strict.
(** The error of the first token that cannot be read; [None] is the end of the text. *)
Context (stop : option error).
Definition end_error : error := default (ENew "EOF" []) stop.

(** What reading a value takes and leaves; [None] when [fuel] runs out. Where the
    grammar has no such token, the decoder has already reported a syntax error. *)
Fixpoint value (fuel : nat) (ts : list token) : option (result (any * list token)) :=
  match fuel with
  | O => None
  | S fuel =>
    match ts with
    | [] => Some (Err end_error)
    | Delim c :: ts =>
      if bool_decide (c = "{"%char) then members fuel ts []
      else if bool_decide (c = "["%char) then elements fuel ts []
      else Some (Err stray)
    | TNull :: ts => Some (Ok (ANull, ts))
    | TBool b :: ts => Some (Ok (ABool b, ts))
    | TNumber n :: ts => Some (Ok (ANumber n, ts))
    | TString s :: ts => Some (Ok (AString s, ts))
    end
  end
with members (fuel : nat) (ts : list token) (object : list (string * any)) :
    option (result (any * list token)) :=
  match fuel with
  | O => None
  | S fuel =>
    match ts with
    | [] => Some (Err end_error)
    | Delim c :: ts => Some (if bool_decide (c = "}"%char) then Ok (AObject object, ts) else Err stray)
    | TString name :: ts =>
      match obj_lookup name object with
      | Some _ => Some (Err (ENew "duplicate JSON field" []))
      | None =>
        match value fuel ts with
        | Some (Ok (v, ts)) => members fuel ts (obj_insert name v object)
        | r => r
        end
      end
    | _ => Some (Err stray)
    end
  end
with elements (fuel : nat) (ts : list token) (array : list any) : option (result (any * list token)) :=
  match fuel with
  | O => None
  | S fuel =>
    match ts with
    | Delim c :: ts' =>
      if bool_decide (c = "]"%char) then Some (Ok (AArray array, ts'))
      else if bool_decide (c = "}"%char) then Some (Err stray)
      else match value fuel ts with
           | Some (Ok (item, ts)) => elements fuel ts (array ++ [item])
           | r => r
           end
    | _ => match value fuel ts with
           | Some (Ok (item, ts)) => elements fuel ts (array ++ [item])
           | r => r
           end
    end
  end.

Definition one_document_error : error := ENew "attachment must contain one JSON document" [].

Definition strictJSON (ts : list token) : result any :=
  match value (2 * length ts + 2)%nat ts with
  | None => Err (ENew "fuel" [])
  | Some (Err e) => Err e
  | Some (Ok (v, rest)) =>
    match rest, stop with
    | [], None => Ok v
    | _, _ => Err one_document_error
    end
  end.
End strict.

(** ** Parsing *)

(** [encoding/json]'s decoder: the tokens of a text and what ends them, the value
    a struct decoder with unknown fields disallowed reads first, and whether
    nothing but space follows it. *)
Class JsonDecoder := {
  Tokens : string → list token * option error;
  Decode : string → result Attachment;
  at_EOF : string → bool;
}.

#[export] Instance any_eq_dec : EqDecision any.
Proof.
  unfold EqDecision, Decision. fix go 1. intros x y.
  destruct x as [|b|n|s|l|l], y as [|b'|n'|s'|l'|l']; try (right; discriminate).
  - by left.
  - destruct (decide (b = b')) as [->|H]; [by left|right; congruence].
  - destruct (decide (n = n')) as [->|H]; [by left|right; congruence].
  - destruct (decide (s = s')) as [->|H]; [by left|right; congruence].
  - assert (Hl : {l = l'} + {l ≠ l'}); [|destruct Hl as [->|H]; [by left|right; congruence]].
    revert l'. induction l as [|a l IH]; intros [|a' l']; [by left|by right..|].
    destruct (go a a') as [->|H]; [|right; congruence].
    destruct (IH l') as [->|H]; [by left|right; congruence].
  - assert (Hl : {l = l'} + {l ≠ l'}); [|destruct Hl as [->|H]; [by left|right; congruence]].
    revert l'. induction l as [|[k a] l IH]; intros [|[k' a'] l']; [by left|by right..|].
    destruct (decide (k = k')) as [->|H]; [|right; congruence].
    destruct (go a a') as [->|H]; [|right; congruence].
    destruct (IH l') as [->|H]; [by left|right; congruence].
Defined.

Section parse.
Context `{D : !JsonDecoder}.

Definition strict (data : string) : result any := let '(ts, stop) := Tokens data in strictJSON stop ts.

Definition Parse (data : string) : result Attachment :=
  _ ← guard_err (negb (valid_utf8 data) || negb (validUnicodeEscapes data)) (ENew "attachment must be UTF-8" []);
  raw ← wrap_err "invalid attachment: %w" [] (strict data);
  a ← wrap_err "invalid attachment: %w" [] (Decode data);
  _ ← guard_err (negb (at_EOF data)) one_document_error;
  _ ← Validate a;
  match strict (Marshal a) with
  | Err _ => Err (ENew "attachment fields must match the public contract exactly" [])
  | Ok canonical =>
    _ ← guard_err (negb (bool_decide (raw = canonical)))
          (ENew "attachment fields must match the public contract exactly" []);
    Ok a
  end.
End parse.

(** ** What [strictJSON] accepts *)

Lemma any_nested_ind (P : any → Prop) :
  P ANull → (∀ b, P (ABool b)) → (∀ n, P (ANumber n)) → (∀ s, P (AString s)) →
  (∀ l, Forall P l → P (AArray l)) → (∀ l, Forall (λ p, P p.2) l → P (AObject l)) → ∀ v, P v.
Proof.
  intros Hn Hb Hz Hs Ha Ho. fix IH 1. intros [|b|n|s|l|l]; [done|done|done|done|apply Ha|apply Ho];
    (induction l as [|x l IHl]; constructor; [apply IH|exact IHl]).
Qed.

(** The tokens of a document, its fields in the order they are written. *)
Fixpoint tokens (d : any) : list token :=
  match d with
  | ANull => [TNull]
  | ABool b => [TBool b]
  | ANumber n => [TNumber n]
  | AString s => [TString s]
  | AArray l => Delim "["%char :: concat (map tokens l) ++ [Delim "]"%char]
  | AObject l => Delim "{"%char :: concat (map (λ p, TString p.1 :: tokens p.2) l) ++ [Delim "}"%char]
  end.

(** No object of the document repeats a field. *)
Fixpoint distinct (d : any) : Prop :=
  match d with
  | AArray l => foldr (λ d P, distinct d ∧ P) True l
  | AObject l => NoDup l.*1 ∧ foldr (λ p P, distinct p.2 ∧ P) True l
  | _ => True
  end.

(** The value of a document: its objects as maps. *)
Fixpoint map_value (d : any) : any :=
  match d with
  | AArray l => AArray (map map_value l)
  | AObject l => AObject (foldl (λ o f, f o) [] (map (λ p, obj_insert p.1 (map_value p.2)) l))
  | _ => d
  end.

Definition all_distinct (l : list any) : Prop := foldr (λ d P, distinct d ∧ P) True l.
Definition fields_distinct (l : list (string * any)) : Prop := foldr (λ p P, distinct p.2 ∧ P) True l.
Definition field_tokens (p : string * any) : list token := TString p.1 :: tokens p.2.
Definition put_fields (o : list (string * any)) (l : list (string * any)) : list (string * any) :=
  foldl (λ o f, f o) o (map (λ p, obj_insert p.1 (map_value p.2)) l).

Section exact.
Context (stop : option error).

Definition value_reads (ts : list token) (v : any) (rest : list token) : Prop :=
  ∃ d, ts = tokens d ++ rest ∧ distinct d ∧ v = map_value d.
Definition members_read (ts : list token) (o : list (string * any)) (v : any) (rest : list token) : Prop :=
  ∃ l, ts = concat (map field_tokens l) ++ Delim "}"%char :: rest ∧ fields_distinct l ∧ NoDup l.*1 ∧
    (∀ k, k ∈ l.*1 → obj_lookup k o = None) ∧ v = AObject (put_fields o l).
Definition elements_read (ts : list token) (acc : list any) (v : any) (rest : list token) : Prop :=
  ∃ l, ts = concat (map tokens l) ++ Delim "]"%char :: rest ∧ all_distinct l ∧
    v = AArray (acc ++ map map_value l).

Lemma element_step fuel ts acc v rest :
  (∀ ts v rest, value stop fuel ts = Some (Ok (v, rest)) → value_reads ts v rest) →
  (∀ ts acc v rest, elements stop fuel ts acc = Some (Ok (v, rest)) → elements_read ts acc v rest) →
  match value stop fuel ts with
  | Some (Ok (item, ts)) => elements stop fuel ts (acc ++ [item])
  | r => r
  end = Some (Ok (v, rest)) → elements_read ts acc v rest.
Proof.
  intros Hv He. destruct (value stop fuel ts) as [[[item ts1]|]|] eqn:E; try done. intros H.
  apply Hv in E as (d & -> & Hd & ->). apply He in H as (l & -> & Hl & ->).
  exists (d :: l). cbn [map concat]. rewrite <-!app_assoc. by split_and!.
Qed.

Lemma reads fuel :
  (∀ ts v rest, value stop fuel ts = Some (Ok (v, rest)) → value_reads ts v rest) ∧
  (∀ ts o v rest, members stop fuel ts o = Some (Ok (v, rest)) → members_read ts o v rest) ∧
  (∀ ts acc v rest, elements stop fuel ts acc = Some (Ok (v, rest)) → elements_read ts acc v rest).
Proof.
  induction fuel as [|fuel (IHv & IHm & IHe)]; [done|]. split_and!.
  - intros [|[c| |b|n|s] ts] v rest H; cbn [value] in H; try done.
    + case_bool_decide as Ec; [subst c|case_bool_decide as Ec'; [subst c|done]].
      * apply IHm in H as (l & -> & Hl & Hn & _ & ->). exists (AObject l). cbn [tokens].
        split; [cbn [app]; by rewrite <-app_assoc|done].
      * apply IHe in H as (l & -> & Hl & ->). exists (AArray l). cbn [tokens].
        split; [cbn [app]; by rewrite <-app_assoc|done].
    + injection H as <- <-. by exists ANull.
    + injection H as <- <-. by exists (ABool b).
    + injection H as <- <-. by exists (ANumber n).
    + injection H as <- <-. by exists (AString s).
  - intros [|[c| |b|n|k] ts] o v rest H; cbn [members] in H; try done.
    + case_bool_decide as Ec; [subst c|done]. injection H as <- <-. exists []. split_and!; try done.
      * constructor.
      * by intros k ?%not_elem_of_nil.
    + destruct (obj_lookup k o) eqn:Ek; [done|].
      destruct (value stop fuel ts) as [[[x ts1]|]|] eqn:E; try done.
      apply IHv in E as (d & -> & Hd & ->). apply IHm in H as (l & -> & Hl & Hn & Hk & ->).
      exists ((k, d) :: l). cbn [map concat field_tokens fst snd]. split_and!.
      * cbn [app]. by rewrite <-!app_assoc.
      * by split.
      * rewrite fmap_cons. constructor; [|done]. intros Hin. specialize (Hk k Hin).
        by rewrite lookup_obj_insert, bool_decide_eq_true_2 in Hk.
      * intros k' [->|Hin]%elem_of_cons; [done|]. specialize (Hk k' Hin). rewrite lookup_obj_insert in Hk.
        by case_bool_decide.
      * done.
  - intros ts acc v rest H. destruct ts as [|[c| |b|n|s] ts]; cbn [elements] in H;
      try (by eapply element_step in H).
    case_bool_decide as Ec; [subst c; injection H as <- <-; exists []; by rewrite app_nil_r|].
    case_bool_decide; [done|]. by eapply element_step in H.
Qed.

(** Reading a document back. *)
Lemma tokens_first d : ∃ t ts, tokens d = t :: ts ∧ t ≠ Delim "]"%char ∧ t ≠ Delim "}"%char.
Proof. destruct d; eexists _, _; (split; [reflexivity|split; discriminate]). Qed.

Definition readable (d : any) : Prop := ∀ fuel rest,
  distinct d → (2 * length (tokens d) ≤ fuel)%nat → value stop fuel (tokens d ++ rest) = Some (Ok (map_value d, rest)).

Lemma elements_readable l fuel acc rest :
  Forall readable l → all_distinct l → (2 * length (concat (map tokens l)) + 1 ≤ fuel)%nat →
  elements stop fuel (concat (map tokens l) ++ Delim "]"%char :: rest) acc =
  Some (Ok (AArray (acc ++ map map_value l), rest)).
Proof.
  intros Hl. revert fuel acc. induction Hl as [|d l Hd Hl IH]; intros [|fuel] acc Hdist Hf; cbn [map concat] in *;
    [cbn in Hf; lia| |cbn in Hf; lia|].
  - cbn [app elements]. rewrite bool_decide_eq_true_2 by done. by rewrite app_nil_r.
  - destruct Hdist as [Hdd Hdl]. rewrite length_app in Hf.
    destruct (tokens_first d) as (t & ts & Et & Hn & Hn').
    assert (Hv : value stop fuel (tokens d ++ (concat (map tokens l) ++ Delim "]"%char :: rest)) =
      Some (Ok (map_value d, concat (map tokens l) ++ Delim "]"%char :: rest))) by (apply Hd; [done|lia]).
    assert (He : elements stop fuel (concat (map tokens l) ++ Delim "]"%char :: rest) (acc ++ [map_value d]) =
      Some (Ok (AArray (acc ++ map_value d :: map map_value l), rest))).
    { rewrite IH; [|done|]; [by rewrite <-app_assoc|]. rewrite Et in Hf. cbn [length] in Hf. lia. }
    rewrite <-app_assoc. rewrite Et in Hv |- *. cbn [app elements] in *.
    destruct t as [c| |b|n|s]; try (by rewrite Hv).
    rewrite !bool_decide_eq_false_2 by congruence. by rewrite Hv.
Qed.

Lemma members_readable l fuel o rest :
  Forall (λ p, readable p.2) l → fields_distinct l → NoDup l.*1 → (∀ k, k ∈ l.*1 → obj_lookup k o = None) →
  (2 * length (concat (map field_tokens l)) + 1 ≤ fuel)%nat →
  members stop fuel (concat (map field_tokens l) ++ Delim "}"%char :: rest) o =
  Some (Ok (AObject (put_fields o l), rest)).
Proof.
  intros Hl. revert fuel o. induction Hl as [|[k d] l Hd Hl IH]; intros [|fuel] o Hdist Hn Ho Hf;
    cbn [map concat field_tokens fst snd app length] in *; try lia.
  - cbn [members]. by rewrite bool_decide_eq_true_2.
  - destruct Hdist as [Hdd Hdl]. rewrite fmap_cons in Hn, Ho. apply NoDup_cons in Hn as [Hk Hn].
    rewrite length_app in Hf. cbn [members]. rewrite (Ho k) by (by left). cbn [fst] in *. rewrite <-app_assoc.
    rewrite Hd by (done || lia). cbn [snd]. rewrite IH; [done|done|done| |lia].
    intros k' Hk'. rewrite lookup_obj_insert, bool_decide_eq_false_2 by (by intros ->).
    apply Ho. by right.
Qed.

Lemma document_readable d : readable d.
Proof.
  induction d as [|b|n|s|l IH|l IH] using any_nested_ind; intros [|fuel] rest Hd Hf; cbn [tokens] in *;
    try (cbn in Hf; lia); try done; cbn [length] in Hf; rewrite length_app in Hf; cbn [length] in Hf.
  - cbn [app value]. rewrite bool_decide_eq_false_2, bool_decide_eq_true_2 by done. rewrite <-app_assoc.
    cbn [app]. by rewrite elements_readable by (done || lia).
  - destruct Hd as [Hn Hd]. cbn [app value]. rewrite bool_decide_eq_true_2 by done. rewrite <-app_assoc.
    cbn [app]. change (map (λ p, TString p.1 :: tokens p.2) l) with (map field_tokens l) in *.
    by rewrite members_readable by (done || lia).
Qed.

Lemma strictJSON_ok ts v :
  strictJSON stop ts = Ok v ↔ ∃ d, ts = tokens d ∧ stop = None ∧ distinct d ∧ v = map_value d.
Proof.
  unfold strictJSON. split.
  - destruct (value stop _ ts) as [[[x rest]|]|] eqn:E; try done. destruct rest; [|done].
    apply (proj1 (reads _)) in E as (d & -> & Hd & ->). intros H. exists d. rewrite app_nil_r.
    destruct stop; [done|]. by injection H as <-.
  - intros (d & -> & Hs & Hd & ->). pose proof (document_readable d (2 * length (tokens d) + 2)%nat [] Hd) as Hr.
    rewrite app_nil_r in Hr. rewrite Hr by lia. by rewrite Hs.
Qed.
End exact.

(** ** What the encoder writes passes the textual checks *)

Definition escapes_whole (l : list ascii) : Prop := ∀ k, valid_escapes (l ++ k) = valid_escapes k.

Lemma escapes_app a b : escapes_whole a → escapes_whole b → escapes_whole (a ++ b).
Proof. intros Ha Hb k. by rewrite <-app_assoc, Ha, Hb. Qed.

Definition shape (l : list ascii) : bool :=
  match l with
  | [x] => negb (bool_decide (x = backslash))
  | [b; e] => bool_decide (b = backslash) && negb (bool_decide (e = "u"%char))
  | [b; u; x; y; z; w] => bool_decide (b = backslash) && bool_decide (u = "u"%char)
      && match parse_hex4 x y z w with Some code => negb (in_range 55296 57343 code) | None => false end
  | _ => false
  end.
Lemma shape_whole l : shape l = true → escapes_whole l.
Proof.
  destruct l as [|x [|y [|z [|w [|v [|t [|? ?]]]]]]]; simpl shape; try done.
  - intros H%negb_true_iff k. cbn [app valid_escapes]. by rewrite H.
  - intros [H1 H2%negb_true_iff]%andb_true_iff k. cbn [app valid_escapes]. by rewrite H1, H2.
  - intros [[H1 H2]%andb_true_iff H3]%andb_true_iff k. cbn [app valid_escapes]. rewrite H1, H2.
    destruct (parse_hex4 z w v t) as [code|]; [|done]. apply negb_true_iff in H3. unfold in_range in *.
    destruct (55296 <=? code) eqn:E1, (code <=? 57343) eqn:E2, (56320 <=? code) eqn:E3, (code <=? 56319) eqn:E4;
      cbn [andb] in *; try done; lia.
Qed.

Lemma high_whole l : Forall (λ c, 128 ≤ code c) l → escapes_whole l.
Proof.
  induction 1 as [|c l Hc _ IH]; [by intros k|]. apply (escapes_app [c]); [|done].
  apply shape_whole. simpl. apply negb_true_iff, bool_decide_eq_false. by intros ->.
Qed.

Lemma encoded_escapes html v : validUnicodeEscapes (encode_value html v) = true.
Proof.
  enough (H : escapes_whole (bytes (encode_value html v))).
  { unfold validUnicodeEscapes. rewrite <-(app_nil_r (bytes _)). by rewrite H. }
  apply value_whole.
  - by intros k.
  - apply escapes_app.
  - intros c _ Hc. apply shape_whole. simpl. by apply negb_true_iff, bool_decide_eq_false.
  - intros h c Hc. apply shape_whole.
    assert (H : negb (code c <? 128) || shape (ascii_escape h c) = true).
    { clear Hc. revert c. apply byte_forall. by destruct h; vm_compute. }
    by rewrite (proj2 (Z.ltb_lt _ _) Hc) in H.
  - by apply shape_whole.
  - by intros c [-> | ->]; apply shape_whole.
  - intros c l r n Hc Hd _ _. apply high_whole. rewrite fmap_cons in Hd.
    destruct (decode_high _ _ _ _ Hc Hd) as (_ & Ha & _). by rewrite <-fmap_cons, <-fmap_take, Forall_fmap in Ha.
Qed.

(** Valid UTF-8, whatever the fuel. *)
Definition utf8_bytes (l : list ascii) : Prop := ∀ fuel, (length l ≤ fuel)%nat → valid_runes fuel l = true.
Definition utf8_whole (l : list ascii) : Prop := ∀ k, utf8_bytes k → utf8_bytes (l ++ k).

Lemma decode_prefix c l r n k :
  decode_rune (code <$> c :: l) = (r, n) → (r =? rune_error) && bool_decide (n = 1%nat) = false →
  decode_rune (code <$> take n (c :: l) ++ k) = (r, n) ∧ length (take n (c :: l)) = n ∧ (1 ≤ n)%nat.
Proof.
  intros Hd He. rewrite fmap_cons in Hd. unfold decode_rune in Hd.
  destruct l as [|c1 [|c2 [|c3 l]]]; cbn [fmap list_fmap] in Hd;
  repeat case_match; injection Hd as <- <-; unfold rune_error in *; try discriminate;
    cbn [take app fmap list_fmap length]; (split; [|split; [done|lia]]); unfold decode_rune;
    repeat match goal with H : ?b = _ |- context [if ?b then _ else _] => rewrite H end; done.
Qed.

Lemma utf8_rune c l r n :
  decode_rune (code <$> c :: l) = (r, n) → (r =? rune_error) && bool_decide (n = 1%nat) = false →
  utf8_whole (take n (c :: l)).
Proof.
  intros Hd He k Hk [|fuel] Hf; [done|]. destruct (decode_prefix c l r n k Hd He) as (Hd' & Hl & Hn).
  rewrite length_app, Hl in Hf. revert Hd' Hl. generalize (take n (c :: l)) as p. intros p Hd' Hl.
  destruct p as [|x p]; [simpl in Hl; lia|]. cbn [app valid_runes] in *. rewrite Hd', He. cbn [negb andb].
  rewrite app_comm_cons, <-Hl, drop_app_length. apply Hk. lia.
Qed.
Lemma utf8_ascii l : Forall (λ c, code c < 128) l → utf8_whole l.
Proof.
  induction 1 as [|c l Hc _ IH]; [by intros k|]. intros k Hk.
  assert (Hd : decode_rune (code <$> [c]) = (code c, 1%nat)).
  { cbn [fmap list_fmap decode_rune]. by rewrite (proj2 (Z.ltb_lt _ _) Hc). }
  apply (utf8_rune c [] (code c) 1 Hd); [|by apply IH].
  apply andb_false_iff. left. unfold rune_error. lia.
Qed.

Lemma encoded_utf8 html v : valid_utf8 (encode_value html v) = true.
Proof.
  enough (H : utf8_whole (bytes (encode_value html v))).
  { unfold valid_utf8. rewrite <-(app_nil_r (bytes _)) at 2. apply H; [by intros []|]. by rewrite app_nil_r. }
  apply value_whole.
  - by intros k.
  - intros a b Ha Hb k Hk. rewrite <-app_assoc. by apply Ha, Hb.
  - intros c Hc _. by apply utf8_ascii; constructor.
  - intros h c Hc. apply utf8_ascii.
    assert (H : negb (code c <? 128) || forallb (λ c, code c <? 128) (ascii_escape h c) = true).
    { clear Hc. revert c. apply byte_forall. by destruct h; vm_compute. }
    rewrite (proj2 (Z.ltb_lt _ _) Hc) in H. simpl in H. rewrite Forall_forallb in H.
    eapply Forall_impl; [exact H|]. intros x Hx. by apply Z.ltb_lt.
  - by apply utf8_ascii; repeat constructor.
  - by intros c [-> | ->]; apply utf8_ascii; repeat constructor.
  - intros c l r n _ Hd He _. by eapply utf8_rune.
Qed.

(** ** Parsing and writing *)

(** A written value as a document. *)
Fixpoint document (v : json) : any :=
  match v with
  | JNull => ANull
  | JBool b => ABool b
  | JNumber n => ANumber (itoa n)
  | JString s => AString s
  | JArray l => AArray (map document l)
  | JObject l => AObject (map (λ p, (p.1, document p.2)) l)
  end.

(** What a struct decoder makes of the attachment written for [a]. *)
Definition decoded (a : Attachment) : Attachment := with_digest (normal a) (Digest a).

(** The decoder reads back what the encoder writes for [a]. *)
Definition reads_written (D : JsonDecoder) (a : Attachment) : Prop :=
  Tokens (Marshal a) = (tokens (document (Attachment_json a)), None) ∧
  Decode (Marshal a) = Ok (decoded a) ∧ at_EOF (Marshal a) = true.

Lemma distinct_array l : Forall distinct l → distinct (AArray l).
Proof. by induction 1; cbn; [|split]. Qed.
Lemma distinct_object l : NoDup l.*1 → Forall (λ p, distinct p.2) l → distinct (AObject l).
Proof. intros Hn H. split; [done|]. clear Hn. by induction H; cbn; [|split]. Qed.
Lemma distinct_strings s : distinct (document (strings_json s)).
Proof.
  destruct s as [l|]; [|done]. apply distinct_array. rewrite Forall_fmap. by induction l; constructor.
Qed.
Lemma distinct_slice {A} (f : A → json) s : (∀ x, distinct (document (f x))) → distinct (document (slice_json f s)).
Proof.
  intros Hf. destruct s as [l|]; [|done]. apply distinct_array. cbn [document slice_json].
  rewrite !Forall_fmap. apply Forall_true. intros x. apply Hf.
Qed.
Ltac object := cbn [document map]; apply distinct_object;
  [names|repeat first [apply Forall_nil; exact I|apply Forall_cons; split]; cbn [snd fst]; try exact I].
Lemma distinct_Mount m : distinct (document (Mount_json m)).
Proof. destruct m as [n p [b|]]; object. Qed.
Lemma distinct_Volume v : distinct (document (Volume_json v)).
Proof. object. object. Qed.
Lemma distinct_Connection c : distinct (document (Connection_json c)).
Proof.
  destruct c as [k d p m s l n q]. unfold Connection_json, omit.
  cbn [Kind SocketDirectory Port PoolMode SessionState ConnectionLimitScope MaxDBConnections StartupParameters].
  destruct (bool_decide (m = "")), (bool_decide (s = "")), (bool_decide (l = "")), (n =? 0),
    (bool_decide (items q = [])); cbn [app]; object; apply distinct_strings.
Qed.
Lemma distinct_Security s : distinct (document (Security_json s)).
Proof.
  destruct s as [[b|] r [d]]; unfold Security_json; object; object; apply distinct_strings.
Qed.
Lemma distinct_Resources r : distinct (document (Resources_json r)).
Proof. unfold Resources_json. object; unfold ResourceValues_json; object. Qed.
Lemma distinct_StartupProbe p : distinct (document (StartupProbe_json p)).
Proof. unfold StartupProbe_json. object. object. apply distinct_strings. Qed.
Lemma distinct_Sidecar c : distinct (document (Sidecar_json c)).
Proof.
  destruct c as [n i r a m s rs [p|]]; unfold Sidecar_json; cbn [startupProbe app]; object;
    first [apply distinct_strings|apply (distinct_slice Mount_json), distinct_Mount|apply distinct_Security
          |apply distinct_Resources|apply distinct_StartupProbe].
Qed.
Lemma distinct_Attachment a : distinct (document (Attachment_json a)).
Proof.
  unfold Attachment_json. object.
  - unfold Binding_json. object. apply distinct_Connection.
  - unfold PodSecurity_json. object. object.
  - apply (distinct_slice Sidecar_json), distinct_Sidecar.
  - apply (distinct_slice Volume_json), distinct_Volume.
  - apply (distinct_slice Mount_json), distinct_Mount.
Qed.

Lemma strict_Marshal (D : JsonDecoder) a :
  reads_written D a → strict (Marshal a) = Ok (map_value (document (Attachment_json a))).
Proof.
  intros (Ht & _ & _). unfold strict. rewrite Ht. apply strictJSON_ok.
  eexists. split_and!; [done|done|apply distinct_Attachment|done].
Qed.

Lemma decoded_accepted a : Validate a = Ok tt → decoded a = a.
Proof.
  intros Ha. pose proof (accepted_normal a Ha) as Hn. unfold decoded, normal, with_digest. rewrite Hn.
  by destruct a as [? [] ? ? ? ? ? ? ?].
Qed.

(** C20: [Parse] and the encoder are inverse on what [Validate] accepts. Writing
    an accepted attachment and parsing the text gives it back, and a text is
    parsed only as the attachment it is the contract of: it is valid UTF-8 without
    lossy escapes, one document none of whose objects repeats a field, and its
    value, member for member, is that of the attachment's own encoding, so neither
    an alias of a field name, nor a null, an unknown or a missing field survives. *)
Theorem Parse_roundtrip (D : JsonDecoder) a :
  reads_written D a →
  (Validate a = Ok tt → Parse (Marshal a) = Ok a) ∧
  (∀ data, Parse data = Ok a →
     valid_utf8 data = true ∧ validUnicodeEscapes data = true ∧ attachment_ok a ∧
     ∃ d, Tokens data = (tokens d, None) ∧ distinct d ∧
       map_value d = map_value (document (Attachment_json a))).
Proof.
  intros Hl. pose proof (strict_Marshal D a Hl) as Hs. destruct Hl as (_ & Hdec & Heof). split.
  - intros Hv. unfold Parse.
    assert (H1 : valid_utf8 (Marshal a) = true) by apply encoded_utf8.
    assert (H2 : validUnicodeEscapes (Marshal a) = true) by apply encoded_escapes.
    rewrite H1, H2. cbn [negb orb guard_err mbind result_bind].
    rewrite Hs. cbn [wrap_err mbind result_bind]. rewrite Hdec. cbn [wrap_err mbind result_bind].
    rewrite decoded_accepted by done. rewrite Heof. cbn [negb guard_err mbind result_bind].
    rewrite Hv. cbn [mbind result_bind]. rewrite Hs. by rewrite bool_decide_eq_true_2.
  - intros data H. unfold Parse in H. apply bind_ok in H as (u & Ht%guard_ok & H).
    apply orb_false_iff in Ht as [H1%negb_false_iff H2%negb_false_iff].
    apply bind_ok in H as (raw & Hraw%wrap_err_ok & H). apply bind_ok in H as (b & Hb%wrap_err_ok & H).
    apply bind_ok in H as (u' & _ & H). apply bind_ok in H as ([] & Hval & H).
    destruct (strict (Marshal b)) as [canonical|] eqn:Es; [|done].
    apply bind_ok in H as (u'' & Heq%guard_ok & [= ->]). apply negb_false_iff, bool_decide_eq_true in Heq as ->.
    rewrite Hs in Es. injection Es as <-. split_and!; [done|done|by apply Validate_ok|].
    unfold strict in Hraw. destruct (Tokens data) as [ts stop]. apply strictJSON_ok in Hraw as (d & -> & -> & Hd & E).
    by exists d.
Qed.

Definition example_decoder : JsonDecoder := {|
  Tokens _ := (tokens (document (Attachment_json (Seal example_attachment))), None);
  Decode _ := Ok (Seal example_attachment);
  at_EOF _ := true |}.

Lemma Parse_roundtrip_witness :
  ∃ a, Validate a = Ok tt ∧ Parse (D := example_decoder) (Marshal a) = Ok a.
Proof.
  exists (Seal example_attachment).
  assert (Hv : Validate (Seal example_attachment) = Ok tt) by exact example_accepted.
  split; [exact Hv|]. refine (proj1 (Parse_roundtrip example_decoder (Seal example_attachment) _) Hv).
  unfold reads_written. rewrite (decoded_accepted _ Hv). split_and!; reflexivity.
Defined.

(** [strictJSON] reads exactly the JSON documents without repeated fields: a
    token stream is accepted precisely when it is that of one document, complete
    and followed by nothing, none of whose objects has two fields of one name, and
    the result is its value. In particular it terminates on every stream. *)
Theorem strictJSON_exact stop ts v :
  strictJSON stop ts = Ok v ↔ ∃ d, ts = tokens d ∧ stop = None ∧ distinct d ∧ v = map_value d.
Proof. apply strictJSON_ok. Qed.
