(* ===== verification/BootstrapRun.v ===== *)
(** The managed bootstrap ([libs/go/bootstrap/run.go]): the passwordless
    connection it accepts and derives, and [Run], which stages the package, takes
    the control-plane lock, runs every lineage in a child process, and reconciles
    runtime access in one transaction.  The database, the child process and the
    cloud's credentials answer the calls of a trace. *)
From S2P Require Import Prelude GoStrings Traces Sha256 Timeouts Settings MigrationFiles RuntimeRoles SchemaPlan BootstrapPackage ControlPlane Url Net ConnectionProfile Config.

Record Options := {
  O_Directory : string;
  O_Binding : Binding;
  O_Connection : string;
  MigrateExecutable : string;
  O_Timeout : Z;
  LockTimeout : Z;
  StatementTimeout : Z;
  ExternalIdentity : string;
  O_ServerTrustAnchorPEM : string;
}.

Record Result := {
  R_PlanSHA256 : string;
  R_PlanDigest : string;
  CompletedLineages : list string;
  SkippedExtensions : list string;
  AccessCommitted : bool;
}.
Definition no_result : Result :=
  {| R_PlanSHA256 := ""; R_PlanDigest := ""; CompletedLineages := []; SkippedExtensions := []; AccessCommitted := false |}.

(** ** The connection *)

Definition set_host (u : URL) (host : string) : URL :=
  {| Scheme := Scheme u; Opaque := Opaque u; User := User u; Host := host; Path := Path u; RawPath := RawPath u;
     OmitHost := OmitHost u; ForceQuery := ForceQuery u; RawQuery := RawQuery u; Fragment := Fragment u |}.

Definition connection_keys : list string := ["sslmode"; "sslrootcert"; "sslcert"; "sslkey"; "host"].
Definition allowed_value (kv : string * list string) : bool :=
  bool_decide (kv.1 ∈ connection_keys) && bool_decide (length kv.2 = 1%nat).

(** [fmt.Sprint(d.Milliseconds())] *)
Definition sprint_ms (d : Z) : string := itoa_nat (Milliseconds d).

(** What the run itself fixes of the session. *)
Definition bounded_query (o : Options) (q : Values) : Values :=
  query_set (query_set (query_set (query_set q "search_path" "public") "connect_timeout" "5")
    "lock_timeout" (sprint_ms (LockTimeout o))) "statement_timeout" (sprint_ms (StatementTimeout o)).

Definition connection (o : Options) (p : Plan) : result string :=
  let invalid := ENew "managed connection requires an explicit passwordless postgres URL matching the plan and owner" [] in
  u ← match Parse (O_Connection o) with Ok u => Ok u | Err _ => Err invalid end;
  user ← match User u with Some user => Ok user | None => Err invalid end;
  _ ← guard_err (negb (bool_decide (Scheme u = "postgres"))
                 || negb (bool_decide (username user = B_OwnerRole (O_Binding o)))
                 || negb (bool_decide (Path u = "/" +:+ P_Database p)) || negb (bool_decide (Fragment u = ""))) invalid;
  _ ← guard_err (bool_decide (is_Some (user_password user))) invalid;
  q ← match ParseQuery (RawQuery u) with Ok q => Ok q | Err _ => Err invalid end;
  _ ← guard_err (negb (forallb allowed_value (map_to_list q))) invalid;
  _ ← guard_err (bool_decide (is_Some (q !! "host")) && bool_decide (query_get q "host" = "")) invalid;
  _ ← guard_err (contains (Hostname u) ",") invalid;
  let socket := query_get q "host" in
  '(u, q) ← (if negb (bool_decide (socket = "")) then
       _ ← guard_err (negb (bool_decide (Host u = "")) || negb (is_abs socket) || contains_any socket ("," +:+ nul)
                      || negb (bool_decide (query_get q "sslmode" = "disable"))) invalid;
       Ok (u, query_set q "port" "5432")
     else
       _ ← guard_err (bool_decide (Hostname u = "")) invalid;
       Ok (if bool_decide (Port u = "") then set_host u (JoinHostPort (Hostname u) "5432") else u, q));
  _ ← guard_err (bool_decide (query_get q "sslmode" = "")) invalid;
  Ok (URL_String (set_query u (bounded_query o q))).

Definition withAnchorFile (dsn path : string) : result string :=
  u ← match Parse dsn with Ok u => Ok u | Err _ => Err (ENew "invalid managed connection" []) end;
  let q := Query u in
  let existing := query_get q "sslrootcert" in
  _ ← guard_err (negb (bool_decide (existing = "")) && negb (bool_decide (existing = path)))
        (ENew "managed connection names a server authority file and a declared authority" []);
  Ok (URL_String (set_query u (query_set q "sslrootcert" path))).

(** The parameters a connection must not take from the environment. *)
Definition pinned_parameters : list (string * string) :=
  [("password", ""); ("passfile", "/dev/null"); ("servicefile", "/dev/null"); ("sslpassword", ""); ("sslsni", "1");
   ("sslnegotiation", "postgres"); ("options", ""); ("target_session_attrs", "any")].
Definition pin (q : Values) (kv : string * string) : Values := query_set q kv.1 kv.2.
Definition pin_absent (q : Values) (key : string) : Values :=
  if bool_decide (is_Some (q !! key)) then q else query_set q key "".
Definition managed_query (q : Values) : Values :=
  foldl pin_absent (foldl pin q pinned_parameters) ["sslcert"; "sslkey"; "sslrootcert"].
Definition managed_params (o : Options) : gmap string string :=
  <["lock_timeout" := sprint_ms (LockTimeout o)]> (<["statement_timeout" := sprint_ms (StatementTimeout o)]>
    {["search_path" := "public"]}).

(** The URL a child is given: one lineage's ledger and the child's own name. *)
Definition child_dsn (dsn ledger application : string) : result string :=
  u ← Parse dsn;
  Ok (URL_String (set_query u (query_set (query_set (Query u) "x-migrations-table" ledger) "application_name" application))).

(** ** Calls *)

Inductive rcall :=
  | Stage                                         (* [snapshot]: the private directory *)
  | RemoveAll
  | WriteAnchor (path pem : string)
  | IssueIdentity (issuer : string)
  | Mint (user : string)
  | OpenDB (c : PoolConfig)
  | DialConn
  | ConnClose
  | DBClose
  | Identify                                      (* current_database(), current_user *)
  | GroupRow (in_tx : bool) (group : string)
  | PrincipalRow (in_tx : bool) (principal : string)
  | Lock
  | CreateExtension (name : string)
  | Migrate (path database : string) (env : list string)
  | Terminate (application : string)
  | Remaining (application : string)
  | Begin
  | Rollback
  | Commit
  | TxExec (s : statement)
  | TxRoleExists (role : string)
  | TxRoleRow (role : string)
  | TxMembersOf (group : string)
  | TxMembershipsOf (member : string)
  | TxReaderAllowed (a : RuntimeAccess) (role : string).

(** The host, and how the outside answers knowing the calls before. *)
Class BootstrapHost := {
  stat : string → result (bool * Z);             (* regular, permission bits *)
  Getenv : string → string;
  pgx_ParseConfig : string → result PoolConfig;
  temp_dir : string;                             (* where the package is staged *)
  answer : trace rcall → rcall → result unit;
  answer_bool : trace rcall → rcall → result bool;
  answer_count : trace rcall → rcall → result Z;
  answer_text : trace rcall → rcall → result string;
  answer_names : trace rcall → rcall → result (list string);
  answer_role : trace rcall → rcall → result RoleAttributes;
  answer_session : trace rcall → rcall → result (string * string);
  (* the rows read, then [rows.Err()] and [rows.Close()] *)
  answer_rows : trace rcall → rcall → result (list (result bool) * result unit * result unit);
  random_bytes : trace rcall → string;
  map_order : gset string → list string;
}.

Section bootstrap.
Context {host : BootstrapHost} {pfs : PackageFS} `{d : Driver} `{!Clock (trace rcall)}.

Definition ask (c : rcall) : io (trace rcall) unit := call answer c.

(** The transaction the access engine runs in. *)
#[export] Instance bootstrap_transaction : Transaction (trace rcall) := {|
  Exec := λ s, ask (TxExec s);
  RoleExists := λ role, call answer_bool (TxRoleExists role);
  RoleRow := λ role, call answer_role (TxRoleRow role);
  MembersOf := λ group, call answer_names (TxMembersOf group);
  MembershipsOf := λ member, call answer_names (TxMembershipsOf member);
  ReaderAllowed := λ a role, call answer_bool (TxReaderAllowed a role);
  range := map_order;
|}.

Definition managedConfig (dsn : string) (o : Options) : result PoolConfig :=
  _ ← guard_err (negb (bool_decide (Getenv "PGSERVICE" = "")))
        (ENew "ambient PostgreSQL service binding is unsupported" []);
  u ← match Parse dsn with Ok u => Ok u | Err _ => Err (ENew "invalid managed connection" []) end;
  cfg ← match pgx_ParseConfig (URL_String (set_query u (managed_query (Query u)))) with
        | Ok cfg => Ok cfg
        | Err _ => Err (ENew "invalid managed connection" [])
        end;
  Ok {| C_Host := C_Host cfg; C_Port := C_Port cfg; C_Database := C_Database cfg; C_User := C_User cfg;
        C_Password := ""; C_Fallbacks := C_Fallbacks cfg; C_RuntimeParams := managed_params o; C_TLS := C_TLS cfg |}.

(** ** Preflight *)

(** A managed group is absent, or neither logs in nor is elevated. *)
Definition managed_group (r : result bool) : bool :=
  match r with Ok login => negb login | Err e => error_is ErrNoRows e end.
Definition check_group (in_tx : bool) (group : string) : io (trace rcall) unit :=
  r ← io_try (observe managed_group answer_bool (GroupRow in_tx group));
  login ← match r with
          | Ok login => mret login
          | Err e => if error_is ErrNoRows e then mret false else io_fail (ENew "cannot verify managed group" [])
          end;
  io_guard login (ENew "managed group binding names a login or elevated role" []).

Definition existing_login (r : result bool) : bool := match r with Ok login => login | Err _ => false end.
Definition check_principal (in_tx : bool) (principal : string) : io (trace rcall) unit :=
  r ← io_try (observe existing_login answer_bool (PrincipalRow in_tx principal));
  io_guard (negb (existing_login r))
    (ENew "external principal must be an existing login role" []).

Definition preflight (in_tx : bool) (p : Plan) (b : Binding) : io (trace rcall) unit :=
  _ ← io_each (check_group in_tx) [A_ReadOnlyRole (P_Access p); A_ReadWriteRole (P_Access p)];
  io_each (io_each (check_principal in_tx)) [B_ReadOnlyPrincipals b; B_ReadWritePrincipals b].

(** ** Children *)

Definition cleanup_uncertain : error :=
  ENew "migration session cleanup uncertain; reconcile owner sessions before retry" [].

Definition none_remain (r : result Z) : bool := match r with Ok remaining => remaining =? 0 | Err _ => false end.
Definition drainChild (application : string) : io (trace rcall) unit :=
  r ← io_try (call answer_rows (Terminate application));
  _ ← match r with
      | Err _ => io_fail cleanup_uncertain
      | Ok (rows, err, closed) =>
        io_guard (negb (forallb is_ok rows) || negb (is_ok err) || negb (is_ok closed)) cleanup_uncertain
      end;
  r ← io_try (observe none_remain answer_count (Remaining application));
  io_guard (negb (none_remain r)) cleanup_uncertain.

(** What [Run] computes besides its effects: the result it has filled in so far is
    returned with an error too. *)
Definition recorded (A : Type) : Type := Result → io (trace rcall) (result A * Result).
#[export] Instance recorded_ret : MRet recorded := λ A a res, mret (Ok a, res).
#[export] Instance recorded_bind : MBind recorded := λ A B k m res,
  '(r, res') ← m res; match r with Ok a => k a res' | Err e => mret (Err e, res') end.
Definition lift {A} (m : io (trace rcall) A) : recorded A := λ res, r ← io_try m; mret (r, res).
Definition record (f : Result → Result) : recorded unit := λ res, mret (Ok tt, f res).
Definition finally {A} (m : recorded A) (d : rcall) : recorded A := λ res, io_finally (m res) (ask d).
Fixpoint each_of {A} (f : A → recorded unit) (l : list A) : recorded unit :=
  match l with
  | [] => mret tt
  | x :: l => f x ≫= λ _, each_of f l
  end.

Definition set_plan (o : Options) (p : Plan) (r : Result) : Result :=
  {| R_PlanSHA256 := B_PlanSHA256 (O_Binding o); R_PlanDigest := P_Digest p; CompletedLineages := CompletedLineages r;
     SkippedExtensions := SkippedExtensions r; AccessCommitted := AccessCommitted r |}.
Definition add_skipped (name : string) (r : Result) : Result :=
  {| R_PlanSHA256 := R_PlanSHA256 r; R_PlanDigest := R_PlanDigest r; CompletedLineages := CompletedLineages r;
     SkippedExtensions := SkippedExtensions r ++ [name]; AccessCommitted := AccessCommitted r |}.
Definition add_completed (label : string) (r : Result) : Result :=
  {| R_PlanSHA256 := R_PlanSHA256 r; R_PlanDigest := R_PlanDigest r; CompletedLineages := CompletedLineages r ++ [label];
     SkippedExtensions := SkippedExtensions r; AccessCommitted := AccessCommitted r |}.
Definition set_committed (r : Result) : Result :=
  {| R_PlanSHA256 := R_PlanSHA256 r; R_PlanDigest := R_PlanDigest r; CompletedLineages := CompletedLineages r;
     SkippedExtensions := SkippedExtensions r; AccessCommitted := true |}.

Definition install_extension (x : PlanExtension) : recorded unit :=
  r ← lift (io_try (ask (CreateExtension (X_Name x))));
  match r with
  | Ok _ => mret tt
  | Err _ => if X_Required x then lift (io_fail (ENew "required extension failed" [])) else record (add_skipped (X_Name x))
  end.

(** [fmt.Sprintf("codefly-bootstrap-%x", randomIdentity())] *)
Definition child_name : io (trace rcall) string := λ tr, (Ok ("codefly-bootstrap-" +:+ hex (random_bytes tr)), tr).

Definition check_ctx (ctx : Context) (message : string) : io (trace rcall) unit := λ tr,
  match ctx_Err ctx tr with None => (Ok tt, tr) | Some _ => (Err (ENew message []), tr) end.

(** The child's environment: its credential is minted for it. *)
Definition child_env (credential : option (AccessTokenProvider (trace rcall))) (ctx : Context) (owner : string) :
    io (trace rcall) (list string) :=
  match credential with
  | None => mret ["PGPASSFILE=/dev/null"]
  | Some mint =>
    token ← io_saying "managed bootstrap could not mint the migration owner's credential" (mint ctx owner);
    mret ["PGPASSFILE=/dev/null"; "PGPASSWORD=" +:+ token]
  end.

Definition run_child (ctx : Context) (o : Options) (dsn : string)
    (credential : option (AccessTokenProvider (trace rcall))) (l : Lineage) : io (trace rcall) unit :=
  _ ← check_ctx ctx "managed bootstrap deadline or cancellation";
  application ← child_name;
  database ← io_lift (child_dsn dsn (L_Ledger l) application);
  env ← child_env credential ctx (B_OwnerRole (O_Binding o));
  runErr ← io_try (ask (Migrate (path_join [temp_dir; L_Stage l]) database env));
  _ ← drainChild application;
  io_guard (negb (is_ok runErr)) (ENew "migration lineage failed; inspect its ledger using docs/dirty-migrations.md" []).

Definition run_lineage ctx o dsn credential (l : Lineage) : recorded unit :=
  _ ← lift (run_child ctx o dsn credential l);
  record (add_completed (L_Label l)).

(** ** The run *)

Definition runtime_access (o : Options) (p : Plan) : RuntimeAccess := {|
  Database := P_Database p; OwnerRole := B_OwnerRole (O_Binding o);
  ReadOnlyRole := A_ReadOnlyRole (P_Access p); ReadWriteRole := A_ReadWriteRole (P_Access p);
  Schemas := A_Schemas (P_Access p);
  ReadWriteRoles := A_ReadWriteRoles (P_Access p); ReconcileReadWriteRoleMemberships := true;
  ReadOnlyRoles := default [] (A_ReadOnlyRoles (P_Access p));
  ReconcileReadOnlyRoleMemberships := bool_decide (P_ContractVersion p = ReaderRolesContractVersion);
  AuthMode := AuthModeExternalIdentity;
  ReadOnlyPrincipals := B_ReadOnlyPrincipals (O_Binding o); ReadWritePrincipals := B_ReadWritePrincipals (O_Binding o);
|}.

(** The last step: access, rechecked and reconciled in one transaction. *)
Definition reconcile (o : Options) (p : Plan) : recorded unit :=
  _ ← lift (preflight true p (O_Binding o));
  _ ← lift (io_saying "runtime access reconciliation failed" (ReconcileRuntimeAccess true true (runtime_access o p)));
  _ ← lift (io_saying "runtime access commit failed; verify database state before retry" (ask Commit));
  record set_committed.

Definition bound_session (o : Options) (p : Plan) (r : result (string * string)) : bool :=
  match r with
  | Ok (database, owner) => bool_decide (database = P_Database p) && bool_decide (owner = B_OwnerRole (O_Binding o))
  | Err _ => false
  end.
Definition identify (o : Options) (p : Plan) : io (trace rcall) unit :=
  r ← io_try (observe (bound_session o p) answer_session Identify);
  io_guard (negb (bound_session o p r)) (ENew "connected database or migration owner does not match binding" []).

(** The connected session, under the control-plane lock from [Lock] on. *)
Definition run_session (ctx : Context) (o : Options) (p : Plan) (dsn : string)
    (credential : option (AccessTokenProvider (trace rcall))) : recorded unit :=
  _ ← lift (identify o p);
  _ ← lift (preflight false p (O_Binding o));
  _ ← lift (io_saying "managed bootstrap lock unavailable" (ask Lock));
  _ ← record (set_plan o p);
  _ ← each_of install_extension (P_Extensions p);
  _ ← each_of (run_lineage ctx o dsn credential) (P_Lineages p);
  _ ← lift (io_saying "cannot begin runtime access reconciliation" (ask Begin));
  finally (reconcile o p) Rollback.

(** [BeforeConnect] mints the owner's credential for the one connection. *)
Definition dial (ctx : Context) (cfg : PoolConfig) (credential : option (AccessTokenProvider (trace rcall))) :
    io (trace rcall) unit :=
  _ ← match credential with None => mret tt | Some mint => _ ← mint ctx (C_User cfg); mret tt end;
  ask DialConn.

Definition connected (ctx : Context) (o : Options) (p : Plan) (dsn : string)
    (credential : option (AccessTokenProvider (trace rcall))) (cfg : PoolConfig) : recorded unit :=
  _ ← lift (call (λ _ _, Ok tt) (OpenDB cfg));
  finally (_ ← lift (io_saying "managed database connection failed" (dial ctx cfg credential));
           finally (run_session ctx o p dsn credential) ConnClose) DBClose.

Definition anchor_file : string := path_join [temp_dir; "server-authority.pem"].

Definition stage_anchor (o : Options) (dsn : string) : io (trace rcall) string :=
  if bool_decide (O_ServerTrustAnchorPEM o = "") then mret dsn
  else
    _ ← io_saying "managed server authority could not be staged" (ask (WriteAnchor anchor_file (O_ServerTrustAnchorPEM o)));
    io_lift (withAnchorFile dsn anchor_file).

(** The issuers of cloud credentials, behind the calls of the trace. *)
Definition cloud_identity (issuer : string) (_ : Context) : io (trace rcall) (AccessTokenProvider (trace rcall)) :=
  _ ← ask (IssueIdentity issuer); mret (λ _ user, call answer_text (Mint user)).

Definition credential_of (ctx : Context) (o : Options) : io (trace rcall) (option (AccessTokenProvider (trace rcall))) :=
  if bool_decide (ExternalIdentity o = "") then mret None
  else io_wrap "managed bootstrap identity: %w" []
         (ExternalIdentityProvider (cloud_identity IssuerAzureEntra) (cloud_identity IssuerGCPCloudSQL) ctx (ExternalIdentity o)).

Definition pinned_config (o : Options) (cfg : PoolConfig) : result PoolConfig :=
  if bool_decide (O_ServerTrustAnchorPEM o = "") then Ok cfg
  else
    pool ← serverTrustAnchor (O_ServerTrustAnchorPEM o);
    _ ← guard_err (negb (bool_decide (is_Some (C_TLS cfg))))
          (ENew "managed server authority declared on a connection that negotiates no TLS" []);
    Ok (with_roots cfg pool).

Definition with_budget {A} (ctx : Context) (timeout : Z) (k : Context → recorded A) : recorded A := λ res tr,
  k (WithTimeout ctx timeout tr) res tr.

Definition staged_run (ctx : Context) (o : Options) (p : Plan) : recorded unit :=
  dsn ← lift (io_lift (connection o p));
  dsn ← lift (stage_anchor o dsn);
  credential ← lift (credential_of ctx o);
  cfg ← lift (io_lift (managedConfig dsn o));
  cfg ← lift (io_lift (pinned_config o cfg));
  with_budget ctx (O_Timeout o) (λ ctx, connected ctx o p dsn credential cfg).

Definition Millisecond : Z := 1000000.
Definition Hour : Z := 3600 * Second.
Definition budgets_invalid (o : Options) : bool :=
  (O_Timeout o <? Second) || (Hour <? O_Timeout o) || (LockTimeout o <? Millisecond) || (O_Timeout o <? LockTimeout o)
  || (StatementTimeout o <? Millisecond) || (O_Timeout o <? StatementTimeout o).

Definition check_executable (path : string) : result unit :=
  _ ← guard_err (negb (is_abs path)) (ENew "absolute migrate executable path is required" []);
  guard_err (match stat path with
             | Ok (regular, perm) => negb regular || (Z.land perm 73 =? 0)    (* 0111 *)
             | Err _ => true
             end) (ENew "migrate executable is unavailable" []).

(** The plan the package holds, when it is the bound and attested one. *)
Definition planned (o : Options) : result Plan := (snapshot (O_Binding o) None).1.

Definition Run (ctx : option Context) (o : Options) : recorded unit :=
  let invalid := ENew "invalid managed bootstrap time budgets" [] in
  ctx ← lift (io_lift (match ctx with Some ctx => Ok ctx | None => Err invalid end));
  _ ← lift (io_guard (budgets_invalid o) invalid);
  _ ← lift (io_lift (check_executable (MigrateExecutable o)));
  p ← lift (call (λ _ _, planned o) Stage);
  finally (staged_run ctx o p) RemoveAll.
End bootstrap.

(** ** The protocol

    What the run holds, each level on top of the one before, and what it has done. *)
Inductive level := Nothing | StagedFiles | OpenPool | OwnerSession | ControlPlaneLock | AccessTransaction.

Record bstate := {
  held : level;
  identified : bool;                         (* the session's database and user are the bound ones *)
  checked : list string;                     (* roles found fit since the transaction began, if it did *)
  migrating : option (string * bool);        (* the last child's URL, and whether it is being drained *)
  ran : list string;                         (* the directories children were started on *)
  failed : bool;
  committed : bool;
  tried : list (string * bool);              (* the extensions asked for, and whether each was there then *)
}.
Definition idle : bstate :=
  {| held := Nothing; identified := false; checked := []; migrating := None; ran := []; failed := false; committed := false;
     tried := [] |}.

Definition at_level (s : bstate) (l : level) (fit : list string) : bstate :=
  {| held := l; identified := identified s; checked := fit; migrating := migrating s; ran := ran s;
     failed := failed s; committed := committed s; tried := tried s |}.
Definition set_migrating (s : bstate) (m : option (string * bool)) (paths : list string) (fail : bool) : bstate :=
  {| held := held s; identified := identified s; checked := checked s; migrating := m; ran := paths;
     failed := fail; committed := committed s; tried := tried s |}.

Definition bstep (s : bstate) (e : rcall * bool) : bstate :=
  let '(c, ok) := e in
  match c with
  | Stage => if ok then at_level s StagedFiles (checked s) else s
  | RemoveAll => at_level s Nothing (checked s)
  | OpenDB _ => at_level s OpenPool (checked s)
  | DBClose => at_level s StagedFiles (checked s)
  | DialConn => if ok then at_level s OwnerSession (checked s) else s
  | ConnClose => at_level s OpenPool (checked s)
  | Identify => {| held := held s; identified := ok; checked := checked s; migrating := migrating s; ran := ran s;
                   failed := failed s; committed := committed s; tried := tried s |}
  | GroupRow _ role | PrincipalRow _ role => if ok then at_level s (held s) (checked s ++ [role]) else s
  | Lock => if ok then at_level s ControlPlaneLock (checked s) else s
  | Begin => if ok then at_level s AccessTransaction [] else s
  | Rollback => at_level s ControlPlaneLock (checked s)
  | Commit => {| held := held s; identified := identified s; checked := checked s; migrating := migrating s;
                 ran := ran s; failed := failed s; committed := committed s || ok; tried := tried s |}
  | CreateExtension name => {| held := held s; identified := identified s; checked := checked s; migrating := migrating s;
                               ran := ran s; failed := failed s; committed := committed s; tried := tried s ++ [(name, ok)] |}
  | Migrate path database _ => set_migrating s (Some (database, false)) (ran s ++ [path]) (failed s || negb ok)
  | Terminate _ => set_migrating s ((λ m, (m.1, true)) <$> migrating s) (ran s) (failed s)
  | Remaining _ => set_migrating s (if ok then None else migrating s) (ran s) (failed s)
  | _ => s
  end.

Section rules.
Context {host : BootstrapHost} {pfs : PackageFS}.
Context (o : Options) (p : Plan).

(** The roles preflight must find fit. *)
Definition bound_names : list string :=
  [A_ReadOnlyRole (P_Access p); A_ReadWriteRole (P_Access p)]
  ++ B_ReadOnlyPrincipals (O_Binding o) ++ B_ReadWritePrincipals (O_Binding o).
Definition stage_path (l : Lineage) : string := path_join [temp_dir; L_Stage l].

(** The URL of every child is the derived one, with that lineage's ledger. *)
Definition derived_dsn (dsn : string) : Prop :=
  ∃ dsn0, connection o p = Ok dsn0 ∧
    (if bool_decide (O_ServerTrustAnchorPEM o = "") then Ok dsn0
     else withAnchorFile dsn0 (path_join [temp_dir; "server-authority.pem"])) = Ok dsn.

Definition brule (s : bstate) (c : rcall) : Prop :=
  match c with
  | Stage => held s = Nothing
  | RemoveAll | WriteAnchor _ _ | OpenDB _ | IssueIdentity _ => held s = StagedFiles
  | DBClose | DialConn => held s = OpenPool
  | Mint _ => held s = OpenPool ∨ held s = ControlPlaneLock
  | ConnClose =>
    (* the lock goes with the session: no child may be left behind unattended *)
    (held s = OwnerSession ∨ held s = ControlPlaneLock) ∧
    match migrating s with None => True | Some (_, draining) => draining = true end
  | Identify => held s = OwnerSession
  | GroupRow tx _ | PrincipalRow tx _ =>
    identified s = true ∧ held s = if tx then AccessTransaction else OwnerSession
  | Lock => held s = OwnerSession ∧ identified s = true ∧ checked s = bound_names
  | CreateExtension _ => held s = ControlPlaneLock ∧ ran s = []
  | Migrate path database env =>
    held s = ControlPlaneLock ∧ migrating s = None ∧ failed s = false ∧
    ∃ l dsn application, P_Lineages p !! length (ran s) = Some l ∧ path = stage_path l ∧
      derived_dsn dsn ∧ child_dsn dsn (L_Ledger l) application = Ok database ∧
      if bool_decide (ExternalIdentity o = "") then env = ["PGPASSFILE=/dev/null"]
      else ∃ token, env = ["PGPASSFILE=/dev/null"; "PGPASSWORD=" +:+ token]
  | Terminate application | Remaining application =>
    held s = ControlPlaneLock ∧ ∃ dsn ledger database draining,
      migrating s = Some (database, draining) ∧ child_dsn dsn ledger application = Ok database
  | Begin =>
    held s = ControlPlaneLock ∧ migrating s = None ∧ failed s = false ∧ ran s = stage_path <$> P_Lineages p
  | Rollback => held s = AccessTransaction
  | Commit | TxExec _ | TxRoleExists _ | TxRoleRow _ | TxMembersOf _ | TxMembershipsOf _ | TxReaderAllowed _ _ =>
    held s = AccessTransaction ∧ checked s = bound_names ∧ failed s = false ∧ ran s = stage_path <$> P_Lineages p
  end.

(** The extensions that could not be created. *)
Definition refused (t : list (string * bool)) : list string := omap (λ e : string * bool, if e.2 then None else Some e.1) t.
(** What a result says of the extensions: they are asked for in order, and those that
    could not be created are skipped, all of them unless a required one ended the run. *)
Definition accounted (ok : bool) (res : Result) (t : list (string * bool)) : Prop :=
  SkippedExtensions res `sublist_of` (X_Name <$> filter (λ x, X_Required x = false) (P_Extensions p)) ∧
  (t = [] ∧ SkippedExtensions res = [] ∧ ok = false ∨
   t.*1 = X_Name <$> P_Extensions p ∧ refused t = SkippedExtensions res ∨
   t.*1 `prefix_of` (X_Name <$> P_Extensions p) ∧ ok = false ∧
     ∃ x, x ∈ P_Extensions p ∧ X_Required x = true ∧ refused t = SkippedExtensions res ++ [X_Name x]).

(** A result that says what the run did, whether or not it failed. *)
Record outcome (r : result unit) (res : Result) (s : bstate) : Prop := {
  out_ok : is_ok r = AccessCommitted res;
  out_committed : committed s = AccessCommitted res;
  out_lineages : ∃ k, CompletedLineages res = L_Label <$> take k (P_Lineages p) ∧
    (ran s = stage_path <$> take k (P_Lineages p) ∨ ran s = stage_path <$> take (S k) (P_Lineages p)) ∧
    (AccessCommitted res = true → (length (P_Lineages p) ≤ k)%nat);
  out_skipped : accounted (is_ok r) res (tried s);
  out_plan : (R_PlanDigest res = "" ∧ ran s = []) ∨
    (R_PlanDigest res = P_Digest p ∧ R_PlanSHA256 res = B_PlanSHA256 (O_Binding o));
}.
End rules.

(** ** The logic of recorded programs *)

Section records.
Context {host : BootstrapHost} (rule : bstate → rcall → Prop).

Definition records {A} (s : bstate) (res : Result) (m : recorded A) (Q : result A → Result → bstate → Prop) : Prop :=
  moves bstep rule s (m res) (λ r s', match r with Ok (r', res') => Q r' res' s' | Err _ => False end).

Lemma records_mono {A} s res (m : recorded A) (P Q : result A → Result → bstate → Prop) :
  records s res m P → (∀ r res' s', P r res' s' → Q r res' s') → records s res m Q.
Proof. intros H HPQ. eapply moves_mono; [exact H|]. intros [[r res']|e] s'; [apply HPQ|done]. Qed.
Lemma records_ret {A} s res (a : A) (Q : result A → Result → bstate → Prop) : Q (Ok a) res s → records s res (mret a) Q.
Proof. intros H. by apply moves_ret. Qed.
Lemma records_record s res f (Q : result unit → Result → bstate → Prop) : Q (Ok tt) (f res) s → records s res (record f) Q.
Proof. intros H. by apply moves_ret. Qed.
Lemma records_lift {A} s res (m : io (trace rcall) A) (Q : result A → Result → bstate → Prop) :
  moves bstep rule s m (λ r s', Q r res s') → records s res (lift m) Q.
Proof.
  intros H. unfold records, lift.
  eapply moves_bind with (P := λ r s', match r with Ok r => Q r res s' | Err _ => False end); [by apply moves_try| |by intros ? ? []].
  intros r s' Hr. by apply moves_ret.
Qed.
Lemma records_bind {A B} s res (m : recorded A) (k : A → recorded B) P Q :
  records s res m P → (∀ a res' s', P (Ok a) res' s' → records s' res' (k a) Q) →
  (∀ e res' s', P (Err e) res' s' → Q (Err e) res' s') → records s res (m ≫= k) Q.
Proof.
  intros Hm Hk He. unfold records, mbind, recorded_bind. eapply moves_bind; [exact Hm| |by intros ? ? []].
  intros [[a|e] res'] s' H; [by apply Hk|]. apply moves_ret. by apply He.
Qed.
Lemma records_finally {A} s res (m : recorded A) (c : rcall) (Q : result A → Result → bstate → Prop) :
  records s res m (λ r res' s', rule s' c ∧ ∀ b, Q r res' (bstep s' (c, b))) → records s res (finally m c) Q.
Proof.
  intros H. unfold records, finally. apply moves_finally. eapply moves_mono; [exact H|].
  intros [[r res']|e] s'; [|done]. intros [Hc HQ]. by apply moves_call.
Qed.
End records.

(** ** What each part of the run does *)

Section steps.
Context {host : BootstrapHost} {pfs : PackageFS} `{d : Driver} `{!Clock (trace rcall)}.
Context (o : Options) (p : Plan).
Abbreviation moves := (moves bstep (brule o p)).
Abbreviation records := (records (brule o p)).
Abbreviation names := (bound_names o p).
Abbreviation paths := (stage_path <$> P_Lineages p).

(** [m] leaves the state as it is. *)
Definition stays {A} (s : bstate) (m : io (trace rcall) A) : Prop := moves s m (λ _ s', s' = s).

Lemma stays_ret {A} s (a : A) : stays s (mret a).
Proof. by apply moves_ret. Qed.
Lemma stays_lift {A} s (r : result A) : stays s (io_lift r).
Proof. by apply moves_lift. Qed.
Lemma stays_fail {A} s e : stays s (io_fail (A := A) e).
Proof. by apply moves_fail. Qed.
Lemma stays_bind {A B} s (m : io (trace rcall) A) (k : A → io (trace rcall) B) :
  stays s m → (∀ a, stays s (k a)) → stays s (m ≫= k).
Proof. intros Hm Hk. eapply moves_bind; [exact Hm|by intros a s' ->; apply Hk|done]. Qed.
Lemma stays_try {A} s (m : io (trace rcall) A) : stays s m → stays s (io_try m).
Proof. intros H. by apply moves_try. Qed.
Lemma stays_wrap {A} s f args (m : io (trace rcall) A) : stays s m → stays s (io_wrap f args m).
Proof. intros H. by apply moves_wrap. Qed.
Lemma stays_saying {A} s message (m : io (trace rcall) A) : stays s m → stays s (io_saying message m).
Proof. intros H. by apply moves_saying. Qed.
Lemma stays_each {A} s (f : A → io (trace rcall) unit) l : (∀ x, stays s (f x)) → stays s (io_each f l).
Proof.
  intros Hf. induction l as [|x l IH]; [apply stays_ret|]. apply stays_bind; [apply Hf|]. intros _. exact IH.
Qed.
Lemma stays_call {A} s (ans : trace rcall → rcall → result A) c :
  brule o p s c → (∀ b, bstep s (c, b) = s) → stays s (call ans c).
Proof. intros Hc Hs. apply moves_call; [done|]. intros tr. apply Hs. Qed.

(** Everything the access engine asks happens in the rechecked transaction. *)
Lemma access_stays s a :
  held s = AccessTransaction → checked s = names → failed s = false → ran s = paths →
  stays s (ReconcileRuntimeAccess true true a).
Proof.
  intros H1 H2 H3 H4.
  assert (Hc : ∀ {A} (ans : trace rcall → rcall → result A) c,
    match c with TxExec _ | TxRoleExists _ | TxRoleRow _ | TxMembersOf _ | TxMembershipsOf _ | TxReaderAllowed _ _ => True
    | _ => False end → stays s (call ans c)) by (intros A ans [] Hc; try done; by apply stays_call).
  assert (Hx : ∀ st, stays s (Exec st)) by (intros st; by apply Hc).
  assert (Hg : ∀ role, stays s (ensureGroupRole role)).
  { intros role. apply stays_bind; [by apply Hc|]. intros e. apply stays_bind; [destruct e; [apply stays_ret|apply Hx]|].
    intros _. apply stays_bind; [by apply Hc|]. intros row. cbv zeta. case_match; [apply stays_ret|apply Hx]. }
  assert (Hm : ∀ m l, stays s (reconcileRuntimeRoleMemberships m l)).
  { intros m l. apply stays_bind; [by apply Hc|]. intros cur. apply stays_bind; [by apply stays_each|]. intros _.
    apply stays_each. intros role. apply stays_bind; [by apply stays_try, Hc|]. intros [row|e].
    - apply stays_bind; [apply stays_lift|]. intros _. apply Hx.
    - case_match; apply stays_fail. }
  assert (Hp : ∀ g l cur, stays s (grant_principals g cur l)).
  { intros g l. induction l as [|x l IH]; intros cur; [apply stays_ret|]. cbn [grant_principals].
    apply stays_bind; [|intros; apply IH]. unfold grant_principal. case_decide; [apply stays_ret|].
    apply stays_bind; [by apply Hc|]. intros e. apply stays_bind; [apply stays_lift|]. intros _.
    apply stays_bind; [apply Hx|]. intros _. apply stays_ret. }
  assert (He : ∀ g l, stays s (reconcileExternalPrincipals g l)).
  { intros g l. apply stays_bind; [by apply Hc|]. intros members. apply stays_bind; [|intros _; apply Hp].
    apply stays_each. intros m. case_decide; [apply stays_ret|apply Hx]. }
  unfold ReconcileRuntimeAccess.
  apply stays_bind; [apply stays_lift|intros _]. apply stays_bind; [apply stays_lift|intros _].
  apply stays_bind; [apply stays_lift|intros _]. cbv zeta.
  apply stays_bind; [case_match; [by apply stays_bind|apply stays_ret]|intros _].
  apply stays_bind; [by apply stays_each|intros _].
  apply stays_bind; [by apply stays_each; intros; apply stays_each|intros _].
  apply stays_bind; [|intros _].
  { case_match; [|apply stays_ret]. apply stays_bind; [|intros _; apply Hm]. apply stays_each. intros role.
    apply stays_bind; [by apply stays_wrap, Hc|]. intros allowed. apply stays_lift. }
  apply stays_bind; [case_match; [apply Hm|apply stays_ret]|intros _].
  case_match; [by apply stays_bind|apply stays_ret].
Qed.

(** ** Preflight: the roles found fit, in order *)

Lemma check_group_moves (tx : bool) s g :
  identified s = true → held s = (if tx then AccessTransaction else OwnerSession) →
  moves s (check_group tx g) (λ (r : result unit) (s' : bstate), s' = match r with Ok _ => at_level s (held s) (checked s ++ [g]) | Err _ => s end).
Proof.
  intros Hi Hh. unfold check_group.
  eapply moves_bind with (P := λ (r : result (result bool)) s', match r with
    | Ok r => s' = (if managed_group r then at_level s (held s) (checked s ++ [g]) else s) | Err _ => False end);
    [|intros r s' ->|by intros ? ? []].
  { apply moves_try, moves_observe; [by split|]. intros tr. cbn. by case_match. }
  destruct r as [login|e]; cbn [managed_group].
  - apply moves_lift. by destruct login.
  - destruct (error_is ErrNoRows e); [by apply moves_lift|]. by apply moves_fail.
Qed.
Lemma check_principal_moves (tx : bool) s g :
  identified s = true → held s = (if tx then AccessTransaction else OwnerSession) →
  moves s (check_principal tx g) (λ (r : result unit) (s' : bstate), s' = match r with Ok _ => at_level s (held s) (checked s ++ [g]) | Err _ => s end).
Proof.
  intros Hi Hh. unfold check_principal.
  eapply moves_bind with (P := λ (r : result (result bool)) s', match r with
    | Ok r => s' = (if existing_login r then at_level s (held s) (checked s ++ [g]) else s) | Err _ => False end);
    [|intros r s' ->|by intros ? ? []].
  { apply moves_try, moves_observe; [by split|]. intros tr. cbn. by case_match. }
  apply moves_lift. by destruct (existing_login r).
Qed.

(** A loop over roles finds each of them fit, or fails having found some. *)
Definition fit_roles {A} (s : bstate) (l : list string) (r : result A) (s' : bstate) : Prop :=
  ∃ fit, s' = at_level s (held s) (checked s ++ fit) ∧ (is_ok r = true → fit = l).

Lemma fit_each {A} (f : A → io (trace rcall) unit) (roles : A → list string) l s :
  (∀ x fit, moves (at_level s (held s) fit) (f x) (fit_roles (at_level s (held s) fit) (roles x))) →
  moves s (io_each f l) (fit_roles s (l ≫= roles)).
Proof.
  intros Hf. cut (∀ fit, moves (at_level s (held s) fit) (io_each f l) (fit_roles (at_level s (held s) fit) (l ≫= roles))).
  { intros H. specialize (H (checked s)). by destruct s. }
  induction l as [|x l IH]; intros fit; cbn [io_each].
  - apply moves_ret. exists []. by rewrite app_nil_r.
  - eapply moves_bind; [apply Hf| |].
    + intros u s' (fx & -> & Hx). cbn in *. rewrite (Hx eq_refl). eapply moves_mono; [apply IH|].
      intros r s' (fl & -> & Hl). cbn. exists (roles x ++ fl). rewrite app_assoc. split; [done|]. intros Hr. by rewrite (Hl Hr).
    + intros e s' (fx & -> & _). cbn. by exists fx.
Qed.

Lemma bind_singletons {A} (l : list A) : l ≫= (λ x, [x]) = l.
Proof. induction l as [|x l IH]; [done|]. cbn. by rewrite <-IH at 2. Qed.

Lemma preflight_moves (tx : bool) s :
  identified s = true → held s = (if tx then AccessTransaction else OwnerSession) →
  moves s (preflight tx p (O_Binding o)) (fit_roles s names).
Proof.
  intros Hi Hh. unfold preflight.
  assert (Hone : ∀ (f : string → io (trace rcall) unit) x s', 
    moves s' (f x) (λ r s'', s'' = match r with Ok _ => at_level s' (held s') (checked s' ++ [x]) | Err _ => s' end) →
    moves s' (f x) (fit_roles s' [x])).
  { intros f x s' H. eapply moves_mono; [exact H|]. intros [u|e] s'' ->; [by exists [x]|].
    exists []. rewrite app_nil_r. by destruct s'. }
  eapply moves_bind; [apply (fit_each _ (λ x, [x]))| |].
  - intros g fit. apply Hone. by apply check_group_moves.
  - intros u s' (f1 & -> & H1). rewrite (H1 eq_refl). eapply moves_mono; [apply (fit_each _ (λ l, l ≫= λ x, [x]))|].
    + intros l fit. apply fit_each. intros g fit'. apply Hone. by apply check_principal_moves.
    + intros r s' (f2 & -> & H2). eexists (_ ++ f2). cbn. rewrite app_assoc. split; [done|]. intros Hr. rewrite (H2 Hr).
      unfold bound_names. cbn [mbind list_bind]. by rewrite !bind_singletons, app_nil_r.
  - intros e s' (f1 & -> & _). by exists f1.
Qed.

(** ** Children, extensions and lineages under the lock *)

Definition under_lock (t : list (string * bool)) (n : list string) : bstate :=
  {| held := ControlPlaneLock; identified := true; checked := names; migrating := None; ran := n;
     failed := false; committed := false; tried := t |}.
(** The run has given up after starting children on [n], each drained or being so. *)
Definition stopped (t : list (string * bool)) (n : list string) (s : bstate) : Prop :=
  held s = ControlPlaneLock ∧ match migrating s with None => True | Some (_, draining) => draining = true end ∧
  ran s = n ∧ committed s = false ∧ tried s = t.
Definition mint : AccessTokenProvider (trace rcall) := λ _ user, call answer_text (Mint user).
Definition issued (credential : option (AccessTokenProvider (trace rcall))) : Prop :=
  credential = if bool_decide (ExternalIdentity o = "") then None else Some mint.

Lemma under_lock_stopped t n : stopped t n (under_lock t n).
Proof. by repeat split. Qed.

Lemma child_env_moves s credential ctx :
  held s = ControlPlaneLock → issued credential →
  moves s (child_env credential ctx (B_OwnerRole (O_Binding o))) (λ r s', s' = s ∧ ∀ env, r = Ok env →
    if bool_decide (ExternalIdentity o = "") then env = ["PGPASSFILE=/dev/null"]
    else ∃ token, env = ["PGPASSFILE=/dev/null"; "PGPASSWORD=" +:+ token]).
Proof.
  intros Hs ->. case_bool_decide; cbn [child_env].
  - apply moves_ret. by split; [|intros env [= <-]].
  - eapply moves_bind with (P := λ _ s', s' = s).
    + apply stays_saying, stays_call; [by right|done].
    + intros token s' ->. apply moves_ret. split; [done|]. intros env [= <-]. by eexists.
    + intros e s' ->. split; [done|]. by intros env.
Qed.

Lemma drainChild_moves s dsn ledger database application :
  held s = ControlPlaneLock → migrating s = Some (database, false) → child_dsn dsn ledger application = Ok database →
  moves s (drainChild application) (λ r s',
    s' = set_migrating s (match r with Ok _ => None | Err _ => Some (database, true) end) (ran s) (failed s)).
Proof.
  intros Hh Hm Hd. unfold drainChild. set (s1 := set_migrating s (Some (database, true)) (ran s) (failed s)).
  eapply moves_bind with (P := λ r s', match r with Ok _ => s' = s1 | Err _ => False end);
    [|intros r s' ->|by intros ? ? []].
  { apply moves_try, moves_call; [split; [done|]; by eexists _, _, _, _|]. intros tr. cbn. by rewrite Hm. }
  eapply moves_bind with (P := λ _ s', s' = s1); [|intros _ s' ->|intros e s' ->; done].
  { destruct r as [[[rows err] closed]|e]; [apply stays_lift|apply stays_fail]. }
  eapply moves_bind with (P := λ (r : result (result Z)) s', match r with
    | Ok r => s' = (if none_remain r then set_migrating s1 None (ran s) (failed s) else s1) | Err _ => False end);
    [|intros r' s' ->|by intros ? ? []].
  { apply moves_try, moves_observe; [split; [done|]; by eexists _, _, _, _|]. intros tr. cbn. by case_match. }
  apply moves_lift. by destruct (none_remain r').
Qed.

Lemma run_child_moves ctx dsn credential l t n :
  P_Lineages p !! length n = Some l → derived_dsn o p dsn → issued credential →
  moves (under_lock t n) (run_child ctx o dsn credential l) (λ r s', match r with
    | Ok _ => s' = under_lock t (n ++ [stage_path l])
    | Err _ => stopped t n s' ∨ stopped t (n ++ [stage_path l]) s'
    end).
Proof.
  intros Hl Hdsn Hc. unfold run_child.
  assert (Herr : stopped t n (under_lock t n) ∨ stopped t (n ++ [stage_path l]) (under_lock t n)) by (left; apply under_lock_stopped).
  eapply moves_bind with (P := λ _ s', s' = under_lock t n); [|intros _ s' ->|by intros e s' ->].
  { intros tr. exists []. unfold check_ctx. rewrite app_nil_r. by case_match. }
  eapply moves_bind with (P := λ _ s', s' = under_lock t n); [|intros application s' ->|by intros e s' ->].
  { intros tr. exists []. by rewrite app_nil_r. }
  eapply moves_bind with (P := λ r s', s' = under_lock t n ∧ r = child_dsn dsn (L_Ledger l) application);
    [by apply moves_lift|intros database s' [-> Hd]|by intros e s' [-> _]].
  eapply moves_bind; [by apply child_env_moves|intros env s' [-> He]|by intros e s' [-> _]].
  specialize (He env eq_refl). set (n' := n ++ [stage_path l]).
  eapply moves_bind with (P := λ r s', match r with
    | Ok r => s' = set_migrating (under_lock t n) (Some (database, false)) n' (negb (is_ok r))
    | Err _ => False end); [|intros runErr s' ->|by intros ? ? []].
  { apply moves_try, moves_call; [|done]. split_and!; [done..|]. by exists l, dsn, application. }
  eapply moves_bind; [by eapply drainChild_moves|intros _ s' ->|intros e s' ->; by right].
  apply moves_lift. destruct (is_ok runErr); [done|]. by right.
Qed.

Definition skipping (res : Result) (ns : list string) : Result := foldl (λ res n, add_skipped n res) res ns.
Definition completing (res : Result) (ls : list Lineage) : Result := foldl (λ res l, add_completed (L_Label l) res) res ls.
Definition optional (xs : list PlanExtension) : list string := X_Name <$> filter (λ x, X_Required x = false) xs.

Lemma refused_app t1 t2 : refused (t1 ++ t2) = refused t1 ++ refused t2.
Proof. apply omap_app. Qed.
(** Asking for [xs] skipped [ns], as [t] tells. *)
Definition installed (xs : list PlanExtension) (r : result unit) (t : list (string * bool)) (ns : list string) : Prop :=
  ns `sublist_of` optional xs ∧
  match r with
  | Ok _ => t.*1 = X_Name <$> xs ∧ refused t = ns
  | Err _ => t.*1 `prefix_of` (X_Name <$> xs) ∧ ∃ x, x ∈ xs ∧ X_Required x = true ∧ refused t = ns ++ [X_Name x]
  end.

Lemma install_moves x t res :
  records (under_lock t []) res (install_extension x) (λ r res' s', ∃ t' ns,
    s' = under_lock (t ++ t') [] ∧ res' = skipping res ns ∧ installed [x] r t' ns).
Proof.
  unfold install_extension.
  eapply records_bind with (P := λ r res' s', res' = res ∧ ∃ x', r = Ok x' ∧ s' = under_lock (t ++ [(X_Name x, is_ok x')]) []);
    [|intros r res' s' (-> & ? & [= <-] & ->)|by intros e res' s' (_ & ? & ? & _)].
  { apply records_lift, moves_try, moves_call; [by split|]. intros tr. split; [done|]. by eexists. }
  destruct r as [u|e].
  { apply records_ret. exists [(X_Name x, true)], []. split_and!; [done..|]. split; [apply sublist_nil_l|done]. }
  unfold installed, optional. destruct (X_Required x) eqn:E.
  - apply records_lift, moves_fail. exists [(X_Name x, false)], []. split_and!; [done..|apply sublist_nil_l|done|].
    exists x. by split_and!; [left|..].
  - apply records_record. exists [(X_Name x, false)], [X_Name x]. split_and!; try done. by rewrite filter_cons_True.
Qed.

Lemma install_all_moves xs t res :
  records (under_lock t []) res (each_of install_extension xs) (λ r res' s', ∃ t' ns,
    s' = under_lock (t ++ t') [] ∧ res' = skipping res ns ∧ installed xs r t' ns).
Proof.
  revert t res. induction xs as [|x xs IH]; intros t res; cbn [each_of].
  - apply records_ret. exists [], []. rewrite app_nil_r. by split_and!.
  - assert (Hsplit : optional (x :: xs) = optional [x] ++ optional xs).
    { unfold optional. by rewrite <-fmap_app, <-filter_app. }
    unfold installed. rewrite Hsplit. eapply records_bind; [apply install_moves| |].
    + intros u res' s' (t1 & n1 & -> & -> & H1 & Ht1 & Hr1). eapply records_mono; [apply IH|].
      intros r res' s' (t2 & n2 & -> & -> & H2 & H). exists (t1 ++ t2), (n1 ++ n2). rewrite app_assoc. split; [done|].
      split; [unfold skipping; by rewrite foldl_app|]. split; [by apply sublist_app|].
      rewrite fmap_app, refused_app, Ht1, Hr1. destruct r as [v|e].
      * destruct H as [-> ->]. done.
      * destruct H as [[z Hz] (y & Hy & Hq & ->)]. split; [exists z; cbn; by rewrite Hz|].
        exists y. by rewrite app_assoc; split_and!; [right|..].
    + intros e res' s' (t1 & n1 & -> & -> & H1 & Ht1 & y & Hy & Hq & Hr1). exists t1, n1. split_and!; [done|done| | |].
      { by apply sublist_inserts_r. }
      { etrans; [exact Ht1|]. by exists (X_Name <$> xs). }
      exists y. apply list_elem_of_singleton in Hy as ->. by split_and!; [left|..].
Qed.

Lemma lineages_moves ctx dsn credential t res done_ rest :
  P_Lineages p = done_ ++ rest → derived_dsn o p dsn → issued credential →
  records (under_lock t (stage_path <$> done_)) res (each_of (run_lineage ctx o dsn credential) rest) (λ r res' s',
    match r with
    | Ok _ => s' = under_lock t paths ∧ res' = completing res rest
    | Err _ => ∃ k, (k < length rest)%nat ∧ res' = completing res (take k rest) ∧
        (stopped t (stage_path <$> done_ ++ take k rest) s' ∨ stopped t (stage_path <$> done_ ++ take (S k) rest) s')
    end).
Proof.
  intros Hp Hdsn Hc. revert done_ res Hp. induction rest as [|l rest IH]; intros done_ res Hp; cbn [each_of].
  - apply records_ret. rewrite Hp, app_nil_r. done.
  - assert (Hl : P_Lineages p !! length (stage_path <$> done_) = Some l).
    { rewrite length_fmap, Hp, list_lookup_middle; done. }
    eapply records_bind with (P := λ r res' s', match r with
      | Ok _ => s' = under_lock t (stage_path <$> done_ ++ [l]) ∧ res' = add_completed (L_Label l) res
      | Err _ => res' = res ∧ (stopped t (stage_path <$> done_) s' ∨ stopped t (stage_path <$> done_ ++ [l]) s') end).
    + unfold run_lineage. eapply records_bind with (P := λ r res' s', res' = res ∧ match r with
        | Ok _ => s' = under_lock t (stage_path <$> done_ ++ [l])
        | Err _ => stopped t (stage_path <$> done_) s' ∨ stopped t (stage_path <$> done_ ++ [l]) s' end).
      * apply records_lift. eapply moves_mono; [by apply run_child_moves|]. by rewrite !fmap_app.
      * intros u res' s' [-> ->]. by apply records_record.
      * done.
    + intros u res' s' [-> ->]. eapply records_mono; [apply IH; by rewrite <-app_assoc|].
      intros [v|e] res' s'; [done|]. intros (k & Hk & -> & Hs). exists (S k). cbn [length take]. split; [lia|].
      split; [done|]. by rewrite <-!app_assoc in Hs.
    + intros e res' s' [-> Hs]. exists 0%nat. cbn [length take]. split; [lia|]. split; [done|]. by rewrite app_nil_r.
Qed.

(** ** The whole run *)

Abbreviation outcome := (outcome o p).

Lemma outcome_level r res s l fit : outcome r res s → outcome r res (at_level s l fit).
Proof. by intros []. Qed.

(** Failing before the lock. *)
Lemma outcome_early e s : ran s = [] → committed s = false → tried s = [] → outcome (Err e) no_result s.
Proof.
  intros Hr Hc Ht. split; [done|done| |by split; [apply sublist_nil_l|left]|by left]. exists 0%nat. rewrite Hr. by split_and!; [|left|].
Qed.

Lemma skipping_spec ns res :
  skipping res ns = {| R_PlanSHA256 := R_PlanSHA256 res; R_PlanDigest := R_PlanDigest res;
    CompletedLineages := CompletedLineages res; SkippedExtensions := SkippedExtensions res ++ ns; AccessCommitted := AccessCommitted res |}.
Proof.
  revert res. induction ns as [|n ns IH]; intros []; cbn in *; [by rewrite app_nil_r|]. rewrite IH. cbn. by rewrite <-app_assoc.
Qed.
Lemma completing_spec ls res :
  completing res ls = {| R_PlanSHA256 := R_PlanSHA256 res; R_PlanDigest := R_PlanDigest res;
    CompletedLineages := CompletedLineages res ++ (L_Label <$> ls); SkippedExtensions := SkippedExtensions res; AccessCommitted := AccessCommitted res |}.
Proof.
  revert res. induction ls as [|l ls IH]; intros []; cbn in *; [by rewrite app_nil_r|]. rewrite IH. cbn. by rewrite <-app_assoc.
Qed.

(** Under the lock: what was skipped and completed, and whether access was committed. *)
Lemma outcome_locked r r' ns k s :
  installed (P_Extensions p) r' (tried s) ns → (is_ok r' = false → is_ok r = false) →
  ran s = stage_path <$> take k (P_Lineages p) ∨ ran s = stage_path <$> take (S k) (P_Lineages p) →
  is_ok r = committed s → (is_ok r = true → (length (P_Lineages p) ≤ k)%nat) →
  outcome r ((if is_ok r then set_committed else id)
    (completing (skipping (set_plan o p no_result) ns) (take k (P_Lineages p)))) s.
Proof.
  intros [Hns Hins] Hr' Hran Hc Hk.
  assert (Ha : ∀ res, SkippedExtensions res = ns → accounted p (is_ok r) res (tried s)).
  { intros res E. unfold accounted. rewrite E. split; [done|]. right. destruct r'; [by left|right].
    destruct Hins as [? ?]. by split_and!; [|apply Hr'|]. }
  rewrite completing_spec, skipping_spec. destruct (is_ok r) eqn:E; cbn;
    (split; [by rewrite E|by rewrite <-Hc|exists k; split_and!; [done|done|by auto]|rewrite E; by apply Ha|by right]).
Qed.

Definition ended (r : result unit) (res : Result) (s : bstate) : Prop :=
  outcome r res s ∧ (held s = OwnerSession ∨ held s = ControlPlaneLock) ∧
  match migrating s with None => True | Some (_, draining) => draining = true end.

Lemma reconcile_moves t res :
  records (at_level (under_lock t paths) AccessTransaction []) res (reconcile o p) (λ r res' s',
    held s' = AccessTransaction ∧ migrating s' = None ∧ ran s' = paths ∧ committed s' = is_ok r ∧ tried s' = t ∧
    res' = (if is_ok r then set_committed else id) res).
Proof.
  unfold reconcile. set (s := at_level (under_lock t paths) AccessTransaction []).
  eapply records_bind with (P := λ r res' s', res' = res ∧ fit_roles s names r s');
    [|intros [] res' s' [-> (fit & -> & Hfit)]|by intros e res' s' [-> (fit & -> & _)]].
  { apply records_lift. eapply moves_mono; [by apply preflight_moves|]. done. }
  rewrite (Hfit eq_refl). set (s1 := at_level s (held s) _).
  eapply records_bind with (P := λ r res' s', res' = res ∧ s' = s1); [|intros _ res' s' [-> ->]|by intros e res' s' [-> ->]].
  { apply records_lift. eapply moves_mono; [by apply stays_saying, access_stays|]. done. }
  eapply records_bind with (P := λ r res' s', res' = res ∧
    held s' = AccessTransaction ∧ migrating s' = None ∧ ran s' = paths ∧ committed s' = is_ok r ∧ tried s' = t);
    [|intros u res' s' (-> & ? & ? & ? & ? & ?)|by intros e res' s' (-> & ? & ? & ? & ? & ?)].
  { apply records_lift, moves_saying, moves_call; [by repeat split|]. intros tr. cbn. by case_match. }
  by apply records_record.
Qed.
Lemma identify_moves s :
  held s = OwnerSession →
  moves s (identify o p) (λ r s', s' = {| held := held s; identified := is_ok r; checked := checked s; migrating := migrating s;
    ran := ran s; failed := failed s; committed := committed s; tried := tried s |}).
Proof.
  intros Hs. unfold identify.
  eapply moves_bind with (P := λ r s', match r with
    | Ok r => s' = {| held := held s; identified := bound_session o p r; checked := checked s; migrating := migrating s;
        ran := ran s; failed := failed s; committed := committed s; tried := tried s |} | Err _ => False end); [|intros r s' ->|by intros ? ? []].
  { by apply moves_try, moves_observe. }
  apply moves_lift. by destruct (bound_session o p r).
Qed.

Definition fresh (l : level) : bstate := at_level idle l [].

Lemma session_moves ctx dsn credential :
  derived_dsn o p dsn → issued credential →
  records (fresh OwnerSession) no_result (run_session ctx o p dsn credential) ended.
Proof.
  intros Hdsn Hc. unfold run_session.
  assert (Hearly : ∀ e s, held s = OwnerSession ∨ held s = ControlPlaneLock → migrating s = None → ran s = [] →
    committed s = false → tried s = [] → ended (Err e) no_result s).
  { intros e s H1 H2 H3 H4 H5. split; [by apply outcome_early|]. by rewrite H2. }
  eapply records_bind with (P := λ r res' s', res' = no_result ∧ _ r s');
    [apply records_lift; eapply moves_mono; [by apply identify_moves|by intros; split]
    |intros [] res' s' [-> ->]|intros e res' s' [-> ->]; (apply Hearly; [by left|done..])].
  cbn. set (s1 := {| held := OwnerSession |}).
  eapply records_bind with (P := λ r res' s', res' = no_result ∧ fit_roles s1 names r s');
    [|intros [] res' s' [-> (fit & -> & Hfit)]|intros e res' s' [-> (fit & -> & _)]; (apply Hearly; [by left|done..])].
  { apply records_lift. eapply moves_mono; [by apply preflight_moves|]. done. }
  rewrite (Hfit eq_refl). set (s2 := at_level s1 (held s1) _).
  eapply records_bind with (P := λ r res' s', res' = no_result ∧ s' = if is_ok r then under_lock [] [] else s2);
    [|intros [] res' s' [-> ->]|intros e res' s' [-> ->]; (apply Hearly; [by left|done..])].
  { apply records_lift, moves_saying, moves_call; [by repeat split|]. intros tr. by destruct (answer tr Lock). }
  eapply records_bind with (P := λ r res' s', is_ok r = true ∧ res' = set_plan o p no_result ∧ s' = under_lock [] []);
    [by apply records_record|intros [] res' s' (_ & -> & ->)|by intros e res' s' [? _]].
  eapply records_bind; [apply install_all_moves|intros [] res' s' (t & ns & -> & -> & Hns)|].
  2: { intros e res' s' (t & ns & -> & -> & Hns). split; [|by split; [right|]].
       by apply (outcome_locked (Err e) (Err e) ns 0); [..|left| |]. }
  cbn [app].
  eapply records_bind; [by apply (lineages_moves ctx dsn credential t _ [])|intros [] res' s' [-> ->]|].
  2: { intros e res' s' (k & Hk & -> & Hs).
       assert (Hst : ∃ n, stopped t n s' ∧ (n = stage_path <$> take k (P_Lineages p) ∨ n = stage_path <$> take (S k) (P_Lineages p)))
         by (destruct Hs as [Hs|Hs]; eexists; (split; [exact Hs|]); auto).
       destruct Hst as (n & (H1 & H2 & <- & H4 & <-) & Hn). split; [|by split; [right|]].
       by apply (outcome_locked (Err e) (Ok tt) ns k). }
  rewrite <-(firstn_all (P_Lineages p)) at 2. set (res := completing _ _).
  assert (Hdone : ∀ r s, ran s = paths → is_ok r = committed s → tried s = t →
    outcome r ((if is_ok r then set_committed else id) res) s).
  { intros r s H1 H2 H3. apply (outcome_locked r (Ok tt)); [by rewrite H3|done|left; by rewrite firstn_all|done|done]. }
  eapply records_bind with (P := λ r res' s', res' = res ∧
      s' = if is_ok r then at_level (under_lock t paths) AccessTransaction [] else under_lock t paths);
    [|intros [] res' s' [-> ->]|intros e res' s' [-> ->]; split; [by apply (Hdone (Err e))|by split; [right|]]].
  { apply records_lift, moves_saying, moves_call; [by repeat split|]. intros tr. by destruct (answer tr Begin). }
  apply records_finally. eapply records_mono; [apply reconcile_moves|].
  intros r res' s' (H1 & H2 & H3 & H4 & H5 & ->). split; [done|]. intros b. split; [by apply Hdone|]. cbn. rewrite H2. by auto.
Qed.

Definition early (l : level) (res : Result) (s : bstate) : Prop := res = no_result ∧ s = fresh l.

Lemma credential_moves ctx :
  moves (fresh StagedFiles) (credential_of ctx o) (λ r s', s' = fresh StagedFiles ∧ ∀ credential, r = Ok credential → issued credential).
Proof.
  unfold credential_of, issued. case_bool_decide as He; [apply moves_ret; by split; [|intros ? [= <-]]|].
  apply moves_wrap. unfold ExternalIdentityProvider.
  set (known := WithExternalIdentity _ _ _ _).
  assert (Hk : ∀ c, known = Ok c → accessTokenProvider c = None ∧ externalIdentity c ≠ "").
  { intros c H. unfold known, WithExternalIdentity in H. destruct (issuer_of _ _ _) as [i|] eqn:Ei; [|done].
    injection H as <-. split; [done|]. cbn. intros E. rewrite E in Ei. done. }
  eapply moves_bind with (P := λ r s', s' = fresh StagedFiles ∧ r = known);
    [by apply moves_lift|intros c s' [-> Hc]|by intros e s' [-> _]; split].
  destruct (Hk c (eq_sym Hc)) as [Hp Hi]. unfold resolveExternalIdentity. rewrite bool_decide_eq_false_2, Hp by done.
  eapply moves_bind with (P := λ r s', s' = fresh StagedFiles ∧ ∀ c', r = Ok c' → accessTokenProvider c' = Some mint);
    [|intros c' s' [-> H]; apply moves_ret; by split; [|intros ? [= <-]; apply H]|by intros e s' [-> _]; split].
  destruct (issuer_of _ _ _) as [issue|] eqn:Ei; [|by apply moves_fail; split].
  assert (∃ issuer, issue = cloud_identity issuer) as [issuer ->].
  { unfold issuer_of in Ei. repeat case_bool_decide; naive_solver. }
  eapply moves_bind with (P := λ r s', s' = fresh StagedFiles ∧ ∀ provider, r = Ok provider → provider = mint);
    [|intros provider s' [-> H]; apply moves_ret; split; [done|]; intros ? [= <-]; cbn; by rewrite (H _ eq_refl)
    |by intros e s' [-> _]; split].
  apply moves_wrap. unfold cloud_identity. eapply moves_bind with (P := λ _ s', s' = fresh StagedFiles);
    [by apply stays_call|intros u s' ->; apply moves_ret; split; [done|by intros ? [= <-]]|by intros e s' ->; split].
Qed.

Lemma stage_anchor_moves dsn0 :
  connection o p = Ok dsn0 →
  moves (fresh StagedFiles) (stage_anchor o dsn0) (λ r s', s' = fresh StagedFiles ∧ ∀ dsn, r = Ok dsn → derived_dsn o p dsn).
Proof.
  intros Hc. assert (Hd : ∀ dsn, (if bool_decide (O_ServerTrustAnchorPEM o = "") then Ok dsn0
    else withAnchorFile dsn0 anchor_file) = Ok dsn → derived_dsn o p dsn) by (intros dsn H; by exists dsn0).
  unfold stage_anchor. case_bool_decide; [apply moves_ret; by split; [|intros ? [= <-]; apply Hd]|].
  eapply moves_bind with (P := λ _ s', s' = fresh StagedFiles); [|intros _ s' ->; by apply moves_lift|by intros e s' ->; split].
  apply stays_saying. by apply stays_call.
Qed.

Lemma dial_moves ctx cfg credential :
  issued credential →
  moves (fresh OpenPool) (dial ctx cfg credential) (λ (r : result unit) s',
    s' = fresh (if is_ok r then OwnerSession else OpenPool)).
Proof.
  intros ->. unfold dial. eapply moves_bind with (P := λ _ s', s' = fresh OpenPool).
  - case_bool_decide; [by apply moves_ret|]. apply stays_bind; [|intros; apply stays_ret]. apply stays_call; [by left|done].
  - intros u s' ->. apply moves_call; [done|]. intros tr. by destruct (answer tr DialConn).
  - by intros e s' ->.
Qed.

Lemma connected_moves ctx dsn credential cfg :
  derived_dsn o p dsn → issued credential →
  records (fresh StagedFiles) no_result (connected ctx o p dsn credential cfg) (λ r res s, outcome r res s ∧ held s = StagedFiles).
Proof.
  intros Hdsn Hc. unfold connected.
  assert (Hearly : ∀ e l, outcome (Err e) no_result (fresh l)) by by intros; apply outcome_early.
  eapply records_bind with (P := λ r res' s', is_ok r = true ∧ early OpenPool res' s');
    [by apply records_lift, moves_call|intros [] res' s' (_ & -> & ->)|by intros e res' s' [? _]].
  apply records_finally. eapply records_bind with (P := λ r res' s', early (if is_ok r then OwnerSession else OpenPool) res' s').
  - apply records_lift, moves_saying. eapply moves_mono; [by apply dial_moves|]. intros [[]|e] s' ->; by split.
  - intros [] res' s' [-> ->]. apply records_finally. eapply records_mono; [by apply session_moves|].
    intros r res' s' (Ho & Hh & Hm). split; [done|]. intros b. split; [done|]. intros b'. by split; [apply outcome_level, outcome_level|].
  - intros e res' s' [-> ->]. split; [done|]. intros b. by split; [apply Hearly|].
Qed.

Lemma staged_run_moves ctx :
  records (fresh StagedFiles) no_result (staged_run ctx o p) (λ r res s, outcome r res s ∧ held s = StagedFiles).
Proof.
  assert (Hearly : ∀ e res s, early StagedFiles res s → outcome (Err e) res s ∧ held s = StagedFiles).
  { intros e res s [-> ->]. by split; [apply outcome_early|]. }
  unfold staged_run.
  eapply records_bind with (P := λ r res' s', early StagedFiles res' s' ∧ r = connection o p);
    [by apply records_lift, moves_lift|intros dsn0 res' s' [[-> ->] E]|intros e res' s' [H _]; by apply Hearly].
  eapply records_bind with (P := λ r res' s', early StagedFiles res' s' ∧ ∀ dsn, r = Ok dsn → derived_dsn o p dsn);
    [|intros dsn res' s' [[-> ->] Hd]|intros e res' s' [H _]; by apply Hearly].
  { apply records_lift. eapply moves_mono; [by apply (stage_anchor_moves dsn0)|]. by intros r s' [-> H]. }
  specialize (Hd dsn eq_refl).
  eapply records_bind with (P := λ r res' s', early StagedFiles res' s' ∧ ∀ credential, r = Ok credential → issued credential);
    [|intros credential res' s' [[-> ->] Hi]|intros e res' s' [H _]; by apply Hearly].
  { apply records_lift. eapply moves_mono; [apply credential_moves|]. by intros r s' [-> H]. }
  specialize (Hi credential eq_refl).
  do 2 (eapply records_bind with (P := λ r res' s', early StagedFiles res' s');
    [by apply records_lift, moves_lift|intros ? res' s' [-> ->]|intros e res' s' H; by apply Hearly]).
  intros tr. by apply connected_moves.
Qed.
End steps.

(** ** The guarantees of a run *)

Section run.
Context {host : BootstrapHost} {pfs : PackageFS} `{d : Driver} `{!Clock (trace rcall)}.

(** The rules, for the plan the package holds; without one nothing is done. *)
Definition ballowed (o : Options) (s : bstate) (c : rcall) : Prop :=
  match planned o with Ok p => brule o p s c | Err _ => c = Stage end.
Definition planned_outcome (o : Options) (r : result unit) (res : Result) (s : bstate) : Prop :=
  match planned o with
  | Ok p => outcome o p r res s
  | Err _ => is_ok r = false ∧ res = no_result ∧ ran s = [] ∧ committed s = false ∧ tried s = []
  end.

Lemma safe_impl (f g : bstate → rcall → Prop) s new :
  (∀ s c, f s c → g s c) → safe bstep f s new → safe bstep g s new.
Proof. intros H. revert s. induction new as [|e new IH]; intros s; [done|]. intros [H1 H2]. split; [by apply H|by apply IH]. Qed.

Lemma Run_moves ctx o :
  records (ballowed o) idle no_result (Run ctx o) (λ r res s, planned_outcome o r res s ∧ held s = Nothing).
Proof.
  assert (Hnone : ∀ e, planned_outcome o (Err e) no_result idle).
  { intros e. unfold planned_outcome. case_match; [by apply outcome_early|done]. }
  unfold Run. do 3 (eapply records_bind with (P := λ r res s, res = no_result ∧ s = idle);
    [by apply records_lift, moves_lift|intros ? res s [-> ->]|by intros e res s [-> ->]]).
  eapply records_bind with (P := λ r res s, res = no_result ∧ r = planned o ∧ s = if is_ok r then fresh StagedFiles else idle).
  - apply records_lift, moves_call; [unfold ballowed; by case_match|]. intros tr. split; [done|]. split; [done|].
    by destruct (planned o).
  - intros p res s (-> & Hp & ->). cbn [is_ok].
    assert (Hr : ∀ s c, brule o p s c → ballowed o s c) by (intros s c; unfold ballowed; by rewrite <-Hp).
    apply records_finally. intros tr. edestruct (staged_run_moves o p) as (new & E & Hs & H). exists new.
    split; [exact E|]. split; [by eapply safe_impl|]. cbv beta in H |- *. case_match; [|exact H]. case_match.
    destruct H as [Ho Hh]. split; [unfold ballowed; by rewrite <-Hp|]. intros b. split; [|done].
    unfold planned_outcome. rewrite <-Hp. by apply outcome_level.
  - intros e res s (-> & Hp & ->). split; [|done]. unfold planned_outcome. by rewrite <-Hp.
Qed.

(** The directories children were started on, and whether a commit was reported. *)
Definition started (new : trace rcall) : list string :=
  omap (λ e, match e.1 with Migrate path _ _ => Some path | _ => None end) new.

Lemma ran_started s new : ran (foldl bstep s new) = ran s ++ started new.
Proof.
  revert s. induction new as [|[c ok] new IH]; intros s; [by rewrite app_nil_r|]. cbn [foldl]. rewrite IH.
  destruct c, ok; cbn; rewrite <-?app_assoc; done.
Qed.
(** The extensions asked for, each with whether it was there then. *)
Definition tries (new : trace rcall) : list (string * bool) :=
  omap (λ e, match e.1 with CreateExtension name => Some (name, e.2) | _ => None end) new.
Lemma tried_asked s new : tried (foldl bstep s new) = tried s ++ tries new.
Proof.
  revert s. induction new as [|[c ok] new IH]; intros s; [by rewrite app_nil_r|]. cbn [foldl]. rewrite IH.
  destruct c, ok; cbn; rewrite <-?app_assoc; done.
Qed.
Lemma committed_reported s new : committed (foldl bstep s new) = true ↔ committed s = true ∨ (Commit, true) ∈ new.
Proof.
  revert s. induction new as [|[c ok] new IH]; intros s; [by split; [left|intros [?|?%not_elem_of_nil]]|].
  cbn [foldl]. rewrite IH, elem_of_cons.
  assert (committed (bstep s (c, ok)) = true ↔ committed s = true ∨ (Commit, true) = (c, ok)) as ->; [|tauto].
  destruct c, ok; cbn; rewrite ?orb_true_r, ?orb_false_r; naive_solver.
Qed.

(** C2: however the database, the children and the cloud answer, a managed
    bootstrap keeps its protocol: it waits for the control-plane lock only on a
    session found to be the bound owner's on the bound database, after every bound
    group and principal was found fit; it starts the children of the declared
    lineages in order, one at a time, each on its own staged directory and the
    derived passwordless URL, and the next (or the access transaction) only once
    the last succeeded and its sessions were seen gone; access statements and the
    commit run only in one transaction, after all lineages and after the roles were
    found fit again; and the lock, the transaction, the session, the pool and the
    staged files are all given up on every path. *)
Theorem bootstrap_protocol ctx o tr :
  let '(r, tr') := Run ctx o no_result tr in
  ∃ out res new, r = Ok (out, res) ∧ tr' = tr ++ new ∧
    safe bstep (ballowed o) idle new ∧ held (foldl bstep idle new) = Nothing.
Proof.
  destruct (Run_moves ctx o tr) as (new & E & Hs & H). destruct (Run ctx o no_result tr) as [r tr']. simpl in *. subst.
  destruct r as [[out res]|]; [|done]. exists out, res, new. by destruct H.
Qed.

End run.

(** ** The derived URLs *)

Lemma allowed_values q :
  forallb allowed_value (map_to_list q) = true →
  proper_values q ∧ ∀ k, k ∈ dom q → k ∈ connection_keys.
Proof.
  rewrite Forall_forallb, Forall_forall. intros H.
  assert (Hk : ∀ k vs, q !! k = Some vs → k ∈ connection_keys ∧ length vs = 1%nat).
  { intros k vs E. specialize (H (k, vs)). rewrite elem_of_map_to_list in H. specialize (H E).
    apply andb_true_iff in H as [?%bool_decide_eq_true ?%bool_decide_eq_true]. done. }
  split.
  - intros k E. by destruct (Hk k [] E).
  - intros k [vs E]%elem_of_dom. by destruct (Hk k vs E).
Qed.

Lemma dom_query_set q k v : dom (query_set q k v) = {[k]} ∪ dom q.
Proof. apply dom_insert_L. Qed.

(** A passwordless URL of the owner, read back as it was written. *)
Section owner_url.
Context (owner host database : string) (Hhost : plain_address host).
Definition owner_url (q : Values) : URL :=
  authority_url "postgres" {| username := owner; user_password := None |} host database (Encode q).

Lemma Parse_owner_url q : Parse (URL_String (owner_url q)) = Ok (owner_url q).
Proof. apply Parse_URL_String; [done|done|by right|apply Encode_in_query]. Qed.
Lemma Query_owner_url q : proper_values q → Query (owner_url q) = q.
Proof. intros Hq. unfold Query. cbn [RawQuery owner_url authority_url]. by rewrite parse_query_Encode. Qed.
Lemma set_query_owner q q' : set_query (owner_url q) q' = owner_url q'.
Proof. done. Qed.
End owner_url.

Definition child_query (q : Values) (ledger application : string) : Values :=
  query_set (query_set q "x-migrations-table" ledger) "application_name" application.

Definition explicit_port (host : string) : string :=
  if bool_decide ((splitHostPort host).2 = "") then JoinHostPort (splitHostPort host).1 "5432" else host.

Lemma explicit_port_plain host :
  plain_address host →
  plain_address (explicit_port host) ∧ (splitHostPort (explicit_port host)).1 = (splitHostPort host).1 ∧
  (splitHostPort (explicit_port host)).2 ≠ "".
Proof.
  intros (h & p & -> & Hne & Hh & Hp). unfold explicit_port.
  destruct (splitHostPort_plain h p Hne Hh Hp) as (port & E & _). rewrite E. cbn [fst snd].
  case_bool_decide as Hport; [|by rewrite E; split; [exists h, p|]].
  unfold JoinHostPort. rewrite bool_decide_eq_false_2 by by apply (all_bytes_not_in _ _ _ Hh).
  destruct (splitHostPort_plain h ":5432" Hne Hh eq_refl) as (port' & E' & [[? _]|Hp']); [done|].
  change (":" +:+ "5432") with ":5432". rewrite E'. split; [by exists h, ":5432"|]. split; [done|].
  cbn [snd]. intros ->. discriminate Hp'.
Qed.

Lemma connection_tcp o p ui host path query dsn :
  Parse (O_Connection o) = Ok (authority_url "postgres" ui host path query) → host ≠ "" →
  connection o p = Ok dsn →
  ∃ q, dsn = URL_String (owner_url (B_OwnerRole (O_Binding o)) (explicit_port host) (P_Database p) (bounded_query o q)) ∧
    proper_values q ∧ (∀ k, k ∈ dom q → k ∈ ["sslmode"; "sslrootcert"; "sslcert"; "sslkey"]) ∧ query_get q "sslmode" ≠ "".
Proof.
  intros Hu Hh H. unfold connection in H. rewrite Hu in H. cbn [mbind result_bind authority_url User] in H.
  apply bind_ok in H as ([] & H1%guard_ok & H). cbn [Scheme Path Fragment authority_url] in H1.
  rewrite !orb_false_iff, !negb_false_iff, !bool_decide_eq_true in H1. destruct H1 as [[[_ Hname] Hpath] _].
  apply append_inj_r in Hpath.
  apply bind_ok in H as ([] & Hpw%guard_ok%bool_decide_eq_false%eq_None_not_Some & H).
  apply bind_ok in H as (q & _ & H).
  apply bind_ok in H as ([] & Hq%guard_ok%negb_false_iff%allowed_values & H). destruct Hq as [Hq Hdom].
  apply bind_ok in H as ([] & Hhost%guard_ok & H). apply bind_ok in H as ([] & _ & H).
  cbn [Host authority_url] in H. rewrite (bool_decide_eq_false_2 (host = "")) in H by done.
  apply bind_ok in H as ([u q'] & Hb & H).
  destruct (bool_decide (query_get q "host" = "")) eqn:Es; cbn [negb] in Hb.
  2: { apply bind_ok in Hb as ([] & Hg%guard_ok & _). done. }
  apply bind_ok in Hb as ([] & _ & [= <- <-]). apply bind_ok in H as ([] & Hssl%guard_ok%bool_decide_eq_false & [= <-]).
  exists q. split_and!; [|done| |done].
  - f_equal. unfold owner_url, explicit_port. rewrite <-Hpath. destruct ui as [name pw]. cbn in Hname, Hpw. subst.
    unfold Port, Hostname. cbn [Host authority_url]. destruct (bool_decide ((splitHostPort host).2 = "")); reflexivity.
  - intros k Hk. specialize (Hdom k Hk). rewrite andb_true_r in Hhost. apply bool_decide_eq_false in Hhost.
    unfold connection_keys in Hdom. rewrite !elem_of_cons in Hdom. rewrite !elem_of_cons.  destruct Hdom as [?|[?|[?|[?|[->|?]]]]]; auto.
    destruct Hhost. by apply elem_of_dom.
Qed.

(** From an accepted TCP connection every URL of the run (its own, the one
    with the staged authority, and each child's) reads back as a URL of the bound
    owner without a password, on the planned database and the caller's host with
    an explicit port. Its query holds the caller's TLS parameters and the run's own
    search path and time budgets, and nothing else: a child's adds its ledger and
    its name, and the staged authority is never set over another one. *)
Theorem derived_urls o p ui host path query dsn :
  Parse (O_Connection o) = Ok (authority_url "postgres" ui host path query) → plain_address host →
  connection o p = Ok dsn →
  ∃ host' q, let url := owner_url (B_OwnerRole (O_Binding o)) host' (P_Database p) in
    dsn = URL_String (url q) ∧ Parse dsn = Ok (url q) ∧ Query (url q) = q ∧
    Hostname (url q) = (splitHostPort host).1 ∧ Port (url q) ≠ "" ∧
    (∀ k, k ∈ dom q → k ∈ ["sslmode"; "sslrootcert"; "sslcert"; "sslkey"; "search_path"; "connect_timeout"; "lock_timeout"; "statement_timeout"]) ∧
    query_get q "sslmode" ≠ "" ∧ query_get q "search_path" = "public" ∧
    query_get q "lock_timeout" = sprint_ms (LockTimeout o) ∧ query_get q "statement_timeout" = sprint_ms (StatementTimeout o) ∧
    (∀ ledger application, child_dsn dsn ledger application = Ok (URL_String (url (child_query q ledger application))) ∧
       Parse (URL_String (url (child_query q ledger application))) = Ok (url (child_query q ledger application)) ∧
       Query (url (child_query q ledger application)) = child_query q ledger application) ∧
    (∀ file dsn', withAnchorFile dsn file = Ok dsn' ↔
       (query_get q "sslrootcert" = "" ∨ query_get q "sslrootcert" = file) ∧
       dsn' = URL_String (url (query_set q "sslrootcert" file))).
Proof.
  intros Hu Hh H. destruct (explicit_port_plain host Hh) as (Hh' & Hname & Hport).
  destruct (connection_tcp _ _ _ _ _ _ _ Hu (proj2 (plain_address_bytes _ Hh)) H) as (q0 & -> & Hq0 & Hdom & Hssl).
  set (url := owner_url _ _ _). set (q := bounded_query o q0).
  assert (Hq : proper_values q) by by repeat apply proper_set.
  exists (explicit_port host), q. cbv zeta. fold url.
  assert (HP : ∀ q, Parse (URL_String (url q)) = Ok (url q)) by by intros; apply Parse_owner_url.
  assert (HQ : ∀ q, proper_values q → Query (url q) = q) by by intros; apply Query_owner_url.
  split; [done|]. split; [apply HP|]. split; [by apply HQ|]. split; [exact Hname|]. split; [exact Hport|].
  split. { intros k. unfold q, bounded_query. rewrite !dom_query_set, !elem_of_union, !elem_of_singleton, !elem_of_cons.
           intros Hk. destruct Hk as [?|[?|[?|[?|Hk%Hdom]]]]; [by auto 10..|]. rewrite !elem_of_cons in Hk. naive_solver. }
  unfold q at 1 2 3 4, bounded_query.
  split; [by rewrite !query_get_set_ne by done|]. split; [by rewrite !query_get_set_ne, query_get_set by done|].
  split; [by rewrite query_get_set_ne, query_get_set by done|]. split; [by rewrite query_get_set|].
  split.
  - intros ledger application. assert (proper_values (child_query q ledger application)) by by repeat apply proper_set.
    unfold child_dsn. rewrite HP. cbn [mbind result_bind]. rewrite HQ by done. split; [done|]. by split; [apply HP|apply HQ].
  - intros file dsn'. unfold withAnchorFile. rewrite HP. cbn [mbind result_bind]. rewrite HQ by done. rewrite bind_ok.
    split.
    + intros ([] & Hg%guard_ok & [= <-]). split; [|done]. apply andb_false_iff in Hg as [Hg|Hg];
        apply negb_false_iff, bool_decide_eq_true in Hg; auto.
    + intros [Hg ->]. exists tt. split; [|done]. apply guard_ok, andb_false_iff. rewrite !negb_false_iff, !bool_decide_eq_true. done.
Qed.

Definition example_options : Options := {|
  O_Directory := "/package";
  O_Binding := {| B_PlanSHA256 := ""; B_PlanDigest := ""; B_OwnerRole := "app owner";
                  B_ReadOnlyPrincipals := ["reader"]; B_ReadWritePrincipals := ["writer"] |};
  O_Connection := "postgres://app%20owner@db.internal/shop?sslmode=verify-full";
  MigrateExecutable := "/usr/bin/migrate"; O_Timeout := 600 * Second; LockTimeout := 30 * Second;
  StatementTimeout := 300 * Second; ExternalIdentity := ""; O_ServerTrustAnchorPEM := "" |}.
Definition example_bound_plan : Plan := {|
  P_ContractVersion := ContractVersion; P_Database := "shop"; P_Extensions := []; P_Lineages := [];
  P_Access := {| A_ReadOnlyRole := "ro"; A_ReadWriteRole := "rw"; A_Schemas := ["public"]; A_ReadWriteRoles := [];
                 A_ReadOnlyRoles := None |}; P_Digest := "" |}.

Lemma derived_urls_witness :
  ∃ dsn host' q, connection example_options example_bound_plan = Ok dsn ∧
    dsn = "postgres://app%20owner@db.internal:5432/shop?connect_timeout=5&lock_timeout=30000&search_path=public&sslmode=verify-full&statement_timeout=300000" ∧
    Parse dsn = Ok (owner_url "app owner" host' "shop" q) ∧ query_get q "lock_timeout" = "30000".
Proof.
  destruct (derived_urls example_options example_bound_plan {| username := "app owner"; user_password := None |}
    "db.internal" "shop" "sslmode=verify-full"
    "postgres://app%20owner@db.internal:5432/shop?connect_timeout=5&lock_timeout=30000&search_path=public&sslmode=verify-full&statement_timeout=300000")
    as (host' & q & _ & HP & _ & _ & _ & _ & _ & _ & Hl & _).
  - vm_compute. reflexivity.
  - exists "db.internal", "". split; [reflexivity|]. split; [discriminate|]. split; vm_compute; reflexivity.
  - vm_compute. reflexivity.
  - eexists _, host', q. split; [vm_compute; reflexivity|]. split; [reflexivity|]. split; [exact HP|].
    rewrite Hl. vm_compute. reflexivity.
Defined.
