(* ===== verification/Migrations.v ===== *)
(** Applying migrations ([migrations.go] and [hotreload.go]): what one lineage
    opens, locks and bounds, that it releases all of it on every path, how the
    start-up run retries and fails, and the forward-only hot reload.
    golang-migrate and the SQL driver answer the calls of a trace. *)
From S2P Require Import Prelude GoStrings Traces Timeouts Settings MigrationFiles Schema ConnectionProfile Config.

(** ** Calls *)

(** What is asked of [database/sql], golang-migrate and the timer. *)
Inductive mcall :=
  | SqlOpen (dsn : string)
  | PoolConn (ctx : Context)
  | ConnExec (ctx : Context) (sql : string)
  | WithConnection (ctx : Context) (database table : string) (statementTimeout : Z)
  | NewWithInstance (source database : string)
  | Up
  | Version
  | CloseSource
  | CloseDatabase
  | DriverClose
  | ConnClose
  | PoolClose
  | After (d : Z) (deadline : Context).   (* [select] on the timer and the deadline: a success is the timer *)

Definition runtimeAccessLockID : string := "hashtext('codefly-runtime-access:' || current_database())".
Definition lock_sql : string := "SELECT pg_advisory_lock(" +:+ runtimeAccessLockID +:+ ")".
Definition unlock_sql : string := "SELECT pg_advisory_unlock(" +:+ runtimeAccessLockID +:+ ")".

Definition ErrNoChange : string := "no change".
Definition ErrNilVersion : string := "no migration".
Definition dirtyRecoveryRunbook : string := "docs/dirty-migrations.md".
Definition migrationOpenRetryInterval : Z := Second.
Definition migrationStatementGrace : Z := 15 * Second.

(** [fmt.Sprintf("SET %s = %d", setting, budget.Milliseconds())] *)
Definition set_sql (setting : string) (budget : Z) : string :=
  "SET " +:+ setting +:+ " = " +:+ itoa_nat (Milliseconds budget).

Definition wrapMigrationCloseError (resource : string) (r : result unit) : option error :=
  match r with Ok _ => None | Err e => Some (EWrap "close migration %s: %w" [resource] e) end.

Section migrations.
Context {fs : FileSystem}.
Context (settings : Settings) (dsn : string).
(** How the outside answers, knowing the calls before; the version and whether the
    ledger is dirty; and the version [errors.As] finds in an [ErrDirty]. *)
Context (answer : trace mcall → mcall → result unit).
Context (version : trace mcall → mcall → result (Z * bool)).
Context (dirty_version : error → option Z).
Context `{!Clock (trace mcall)}.

Definition ask (c : mcall) : io (trace mcall) unit := call answer c.

(** Close each resource, keeping every failure. *)
Fixpoint close_all (closers : list (string * mcall)) : io (trace mcall) (list (option error)) :=
  match closers with
  | [] => mret []
  | (resource, c) :: closers =>
    r ← io_try (ask c);
    errs ← close_all closers;
    mret (wrapMigrationCloseError resource r :: errs)
  end.

(** [if err != nil { return nil, errors.Join(err, close..., close...) }] *)
Definition releasing {A} (closers : list (string * mcall)) (m : io (trace mcall) A) : io (trace mcall) A :=
  r ← io_try m;
  match r with
  | Ok a => mret a
  | Err e =>
    errs ← close_all closers;
    io_fail (default e (errors_join (Some e :: errs)))
  end.

(** Which pointers of a handle are set. *)
Record migrationHandle := { h_migration : bool; h_pool : bool; h_conn : bool }.

Definition Close (h : option migrationHandle) : io (trace mcall) unit :=
  match h with
  | None => io_fail (ENew "migration handle is incomplete" [])
  | Some h =>
    _ ← io_guard (negb (h_migration h) || negb (h_pool h) || negb (h_conn h))
          (ENew "migration handle is incomplete" []);
    errs ← close_all [("control-plane advisory lock", ConnExec Background unlock_sql); ("source", CloseSource);
                      ("database connection", CloseDatabase); ("SQL pool", PoolClose)];
    match errors_join errs with None => mret tt | Some e => io_fail e end
  end.

Definition bound_setting (ctx : Context) (b : string * Z) : io (trace mcall) unit :=
  io_wrap "cannot bound migration %s" [b.1] (ask (ConnExec ctx (set_sql b.1 b.2))).
Definition session_budgets : list (string * Z) :=
  [("lock_timeout", migrationLock (STimeouts settings));
   ("statement_timeout", migrationStatement (STimeouts settings))].
Definition boundMigrationSession (ctx : Context) : io (trace mcall) unit :=
  io_each (bound_setting ctx) session_budgets.

Definition openMigration (ctx : Context) (src : migrationSource) : io (trace mcall) migrationHandle :=
  _ ← io_wrap "cannot open database" [] (ask (SqlOpen dsn));
  _ ← releasing [("SQL pool after connection failure", PoolClose)]
        (io_wrap "cannot reserve migration connection" [] (ask (PoolConn ctx)));
  _ ← releasing [("database connection after budget failure", ConnClose); ("SQL pool after budget failure", PoolClose)]
        (boundMigrationSession ctx);
  _ ← releasing [("database connection after lock failure", ConnClose); ("SQL pool after lock failure", PoolClose)]
        (io_wrap "cannot acquire control-plane lock for migration" [] (ask (ConnExec ctx lock_sql)));
  _ ← releasing [("database connection after driver failure", ConnClose); ("SQL pool after driver failure", PoolClose)]
        (io_wrap "cannot initialize migration driver" []
           (ask (WithConnection ctx (DatabaseName settings) (ms_table src)
                   (migrationStatement (STimeouts settings) + migrationStatementGrace))));
  _ ← releasing [("database driver after source failure", DriverClose); ("SQL pool after source failure", PoolClose)]
        (io_wrap "cannot read migrations for source %q" [label src] (io_lift (openSource (ms_dir src))));
  _ ← releasing [("database driver after migration failure", DriverClose); ("SQL pool after migration failure", PoolClose)]
        (io_wrap "cannot create migration" [] (ask (NewWithInstance (label src) (DatabaseName settings))));
  mret {| h_migration := true; h_pool := true; h_conn := true |}.

Definition runUp (src : migrationSource) : io (trace mcall) unit :=
  r ← io_try (ask Up);
  match r with
  | Ok _ => mret tt
  | Err err =>
    if error_is ErrNoChange err then mret tt
    else match dirty_version err with
    | Some v =>
      io_fail (EWrap "migration lineage %q is dirty at version %d (tracking table %s); an interrupted run left the schema out of step with the ledger and automatic recovery cannot be done safely — reconcile it by hand, see %s"
                 [label src; trackingTable src; dirtyRecoveryRunbook] err)
    | None => io_fail (EWrap "can't apply migration" [] err)
    end
  end.

(** [errors.Join(m(), handle.Close())] *)
Definition join_close (m : io (trace mcall) unit) (h : option migrationHandle) : io (trace mcall) unit :=
  r ← io_try m;
  c ← io_try (Close h);
  let err_of r := match r with Ok _ => None | Err e => Some e end in
  match errors_join [err_of r; err_of c] with None => mret tt | Some e => io_fail e end.

(** One handshake: the run when it succeeds; the wait, then [retry], when not. *)
Definition attempt (retry : io (trace mcall) (option unit)) (deadline : Context) (src : migrationSource) :
    io (trace mcall) (option unit) :=
  r ← io_try (openMigration deadline src);
  match r with
  | Ok handle => _ ← join_close (runUp src) (Some handle); mret (Some tt)
  | Err lastErr =>
    waited ← io_try (ask (After migrationOpenRetryInterval deadline));
    match waited with
    | Ok _ => retry
    | Err deadlineErr =>
      io_fail (EWrap "cannot prepare migration for source %q within %s" [label src] (EJoin [lastErr; deadlineErr]))
    end
  end.

(** The handshake with its retries, all within one deadline; [None] when [fuel]
    runs out. *)
Fixpoint apply_loop (fuel : nat) (deadline : Context) (src : migrationSource) :
    io (trace mcall) (option unit) :=
  match fuel with
  | O => mret None
  | S fuel => attempt (apply_loop fuel deadline src) deadline src
  end.

(** The retries a lock budget affords. *)
Definition retries : nat := Z.to_nat (migrationLock (STimeouts settings) / migrationOpenRetryInterval) + 2.

Definition applySource (ctx : Context) (src : migrationSource) : io (trace mcall) unit := λ tr,
  (r ← apply_loop retries (WithTimeout ctx (migrationLock (STimeouts settings)) tr) src;
   match r with Some _ => mret tt | None => io_fail (ENew "fuel" []) end) tr.

Definition applyMigration (ctx : Context) (sources : list migrationSource) : io (trace mcall) unit :=
  io_each (λ src, io_wrap "cannot apply migrations for source %q" [label src] (applySource ctx src)) sources.

(** ** Hot reload *)

Definition errAppliedMigrationEdited : string := "migration is already applied".
Definition errDirtyMigrationLedger : string := "migration ledger is dirty".
Definition errAmbiguousMigrationOwnership : string := "ambiguous migration source ownership".

Context (location own_dir : string).

Definition resolveMigrationPath (changed : string) : string :=
  if is_abs changed then path_clean changed else path_clean (path_join [location; changed]).

Definition claim_owner (changed : string) (owner : option migrationSource) (src : migrationSource) :
    result (option migrationSource) :=
  if negb (bool_decide (path_clean (ms_dir src) = path_dir changed)) then Ok owner
  else match owner with
  | Some first =>
    Err (EWrap "%w: %q is claimed by sources %q and %q" [changed; label first; label src]
           (ENew errAmbiguousMigrationOwnership []))
  | None => Ok (Some src)
  end.
Definition owningMigrationSource (sources : list migrationSource) (changed : string) :
    result (option migrationSource) := fold_result (claim_owner changed) None sources.

Definition dirtyLedgerError (src : migrationSource) (v : Z) : error :=
  EWrap "%w: source %q is dirty at version %d. An interrupted migration may or may not have committed, so hot reload will not repair it: inspect the schema and the %s table, reconcile them by hand, and clear the dirty flag"
    [label src; trackingTable src] (ENew errDirtyMigrationLedger []).

(** With the handle open: the version check, the forward call and its outcome. *)
Definition reload_forward (owner : migrationSource) (migration : migrationFile) : io (trace mcall) bool :=
  r ← io_try (call version Version);
  current ← match r with
            | Err err =>
              if error_is ErrNilVersion err then mret None
              else io_fail (EWrap "cannot read the applied version of source %q" [label owner] err)
            | Ok (current, true) => io_fail (dirtyLedgerError owner current)
            | Ok (current, false) =>
              if mf_version migration <=? current then
                io_fail (EWrap "%w: source %q is at version %d, so editing migration %d cannot change the schema — add a new forward migration instead"
                           [label owner] (ENew errAppliedMigrationEdited []))
              else mret (Some current)
            end;
  up ← io_try (ask Up);
  _ ← match up with
      | Ok _ => mret tt
      | Err err =>
        if error_is ErrNoChange err then mret tt
        else match dirty_version err with
        | Some v => io_fail (dirtyLedgerError owner v)
        | None => io_fail (EWrap "cannot apply migrations for source %q" [label owner] err)
        end
      end;
  updated ← io_wrap "cannot confirm the applied version of source %q" [label owner] (call version Version);
  mret (negb (bool_decide (current = Some updated.1))).

(** On the owning lineage; closing adds its own error. *)
Definition apply_change (ctx : Context) (owner : migrationSource) (migration : migrationFile) :
    io (trace mcall) (bool * option error) :=
  opened ← io_try (openMigration ctx owner);
  match opened with
  | Err e => mret (false, Some e)
  | Ok handle =>
    r ← io_try (reload_forward owner migration);
    c ← io_try (Close (Some handle));
    let err_of {A} (r : result A) := match r with Ok _ => None | Err e => Some e end in
    mret (match r with Ok applied => applied | Err _ => false end, errors_join [err_of r; err_of c])
  end.

(** The applied flag and the error, as returned. *)
Definition applyMigrationChange (ctx : Context) (changed : string) : io (trace mcall) (bool * option error) :=
  let file := resolveMigrationPath changed in
  match parseMigrationFile (path_base file) with
  | None => mret (false, None)
  | Some migration =>
    if negb (mf_forward migration) then mret (false, None)
    else match
      '(sources, _) ← resolveMigrationSources location own_dir (MigrationSources settings);
      owningMigrationSource sources file
    with
    | Err e => mret (false, Some e)
    | Ok None => mret (false, None)
    | Ok (Some owner) =>
      apply_change ctx owner migration
    end
  end.
End migrations.

(** ** The protocol of one lineage *)

(** What a run holds: the pool, its dedicated connection, the control-plane lock
    and the two budgets of that connection's session; the lineage migrated over them;
    and the lineages run forward so far. *)
Record held := {
  pool : bool;
  conn : bool;
  locked : bool;
  lock_bounded : bool;
  statement_bounded : bool;
  lineage : string;
  ups : list string;
}.
Definition free (n : list string) : held :=
  {| pool := false; conn := false; locked := false; lock_bounded := false; statement_bounded := false;
     lineage := ""; ups := n |}.
Definition holding (l : string) (n : list string) : held :=
  {| pool := true; conn := true; locked := true; lock_bounded := true; statement_bounded := true;
     lineage := l; ups := n |}.

Section protocol.
Context (settings : Settings).
Let lock_budget : string := set_sql "lock_timeout" (migrationLock (STimeouts settings)).
Let statement_budget : string := set_sql "statement_timeout" (migrationStatement (STimeouts settings)).

(** A closed resource is closed even when closing reports an error; a session's
    lock and settings end with it. *)
Definition mstep (s : held) (e : mcall * bool) : held :=
  match e.1 with
  | SqlOpen _ => if e.2 then {| pool := true; conn := conn s; locked := locked s; lock_bounded := lock_bounded s;
                              statement_bounded := statement_bounded s; lineage := lineage s; ups := ups s |} else s
  | PoolConn _ => if e.2 then {| pool := pool s; conn := true; locked := locked s; lock_bounded := lock_bounded s;
                                 statement_bounded := statement_bounded s; lineage := lineage s; ups := ups s |} else s
  | ConnExec _ sql =>
    if negb e.2 then s
    else {| pool := pool s; conn := conn s;
            locked := if bool_decide (sql = lock_sql) then true
                      else if bool_decide (sql = unlock_sql) then false else locked s;
            lock_bounded := lock_bounded s || bool_decide (sql = lock_budget);
            statement_bounded := statement_bounded s || bool_decide (sql = statement_budget); lineage := lineage s; ups := ups s |}
  | DriverClose | ConnClose | CloseDatabase =>
    {| pool := pool s; conn := false; locked := locked s; lock_bounded := lock_bounded s;
       statement_bounded := statement_bounded s; lineage := lineage s; ups := ups s |}
  | PoolClose =>
    {| pool := false; conn := conn s; locked := locked s && conn s; lock_bounded := lock_bounded s && conn s;
       statement_bounded := statement_bounded s && conn s; lineage := ""; ups := ups s |}
  | Up => {| pool := pool s; conn := conn s; locked := locked s; lock_bounded := lock_bounded s;
             statement_bounded := statement_bounded s; lineage := lineage s; ups := ups s ++ [lineage s] |}
  | NewWithInstance source _ =>
    if e.2 then {| pool := pool s; conn := conn s; locked := locked s; lock_bounded := lock_bounded s;
                   statement_bounded := statement_bounded s; lineage := source; ups := ups s |} else s
  | _ => s
  end.

Definition bounded_session (s : held) : Prop := conn s = true ∧ lock_bounded s = true ∧ statement_bounded s = true.

(** A pool is opened when none is, the lock is awaited under both budgets, and the
    driver works and migrates under the lock; [permitted] says more of the latter. *)
Definition mallowed (permitted : Prop) (s : held) (c : mcall) : Prop :=
  match c with
  | SqlOpen _ => pool s = false ∧ conn s = false ∧ locked s = false
  | PoolConn _ => pool s = true
  | ConnExec _ sql => conn s = true ∧ (sql = lock_sql → bounded_session s)
  | WithConnection _ _ _ _ | NewWithInstance _ _ | Version => bounded_session s ∧ locked s = true
  | Up => bounded_session s ∧ locked s = true ∧ permitted
  | _ => True
  end.
End protocol.

Lemma set_sql_other setting b b' :
  set_sql setting b ≠ lock_sql ∧ set_sql setting b ≠ unlock_sql ∧
  set_sql "lock_timeout" b ≠ set_sql "statement_timeout" b'.
Proof. split_and!; by intros [=]. Qed.

Section resources.
Context {fs : FileSystem}.
Context (settings : Settings) (dsn : string).
Context (answer : trace mcall → mcall → result unit).
Context (version : trace mcall → mcall → result (Z * bool)).
Context (dirty_version : error → option Z).
Context `{!Clock (trace mcall)}.
Context (permitted : Prop).
Abbreviation moves := (moves (mstep settings) (mallowed permitted)).
Abbreviation safe := (safe (mstep settings) (mallowed permitted)).

Lemma close_all_moves s cl (Q : result (list (option error)) → held → Prop) :
  (∀ bs, length bs = length cl →
     safe s (zip cl.*2 bs) ∧ ∀ errs, Q (Ok errs) (foldl (mstep settings) s (zip cl.*2 bs))) →
  moves s (close_all answer cl) Q.
Proof.
  revert s Q. induction cl as [|[resource c] cl IH]; intros s Q H; cbn [close_all].
  - apply moves_ret. by apply (H []).
  - assert (Hc : mallowed permitted s c).
    { destruct (H (replicate (length ((resource, c) :: cl)) true)) as [Hs _]; [by rewrite length_replicate|].
      by destruct Hs as [Hs _]. }
    eapply moves_bind; [eapply moves_try, moves_call; [exact Hc|]| |].
    { intros tr. instantiate (1 := λ r s', ∃ b, s' = mstep settings s (c, b) ∧ is_Some (match r with Ok x => Some x | Err _ => None end)).
      cbn. eexists. split; [reflexivity|]. by eexists. }
    2:{ intros e s' (b & _ & [? [=]]). }
    intros r s' (b & -> & _). eapply moves_bind.
    { apply IH with (Q := λ r' s'', match r' with Ok errs => Q (Ok (wrapMigrationCloseError resource r :: errs)) s'' | Err _ => False end).
      intros bs Hl. destruct (H (b :: bs)) as [Hs HQ]; [cbn; by rewrite Hl|]. cbn in Hs, HQ.
      split; [apply Hs|]. intros errs. apply HQ. }
    { intros errs s' HQ. by apply moves_ret. }
    { by intros e s'. }
Qed.

Lemma releasing_moves {A} s cl (m : io (trace mcall) A) (Q : result A → held → Prop) :
  moves s m (λ r s', match r with
    | Ok _ => Q r s'
    | Err _ => ∀ bs, length bs = length cl →
        safe s' (zip cl.*2 bs) ∧ ∀ e, Q (Err e) (foldl (mstep settings) s' (zip cl.*2 bs))
    end) →
  moves s (releasing answer cl m) Q.
Proof.
  intros Hm. unfold releasing. eapply moves_bind.
  - apply moves_try. eapply moves_mono; [exact Hm|]. intros r s' Hr.
    instantiate (1 := λ r s', match r with Ok r => _ r s' | Err _ => False end). exact Hr.
  - intros [a|e] s' Hr; [by apply moves_ret|].
    eapply moves_bind with (P := λ r s'', match r with Ok _ => ∀ e, Q (Err e) s'' | Err _ => False end).
    + apply close_all_moves. intros bs Hl. destruct (Hr bs Hl) as [? ?]. by split.
    + intros errs s'' HQ. by apply moves_fail.
    + by intros e' s''.
  - by intros e s'.
Qed.

(** One call whose failure leaves only what [cl] closes. *)
Lemma releasing_call s cl f args (c : mcall) (Q : result unit → held → Prop) :
  mallowed permitted s c →
  Q (Ok tt) (mstep settings s (c, true)) →
  (∀ bs, length bs = length cl → safe (mstep settings s (c, false)) (zip cl.*2 bs) ∧
     ∀ e, Q (Err e) (foldl (mstep settings) (mstep settings s (c, false)) (zip cl.*2 bs))) →
  moves s (releasing answer cl (io_wrap f args (ask answer c))) Q.
Proof.
  intros Ha Hok Herr. apply releasing_moves, moves_wrap, moves_call; [done|]. intros tr.
  by destruct (answer tr c) as [[]|].
Qed.

Definition opened (l : string) (n : list string) {A} (r : result A) (s : held) : Prop :=
  match r with Ok _ => s = holding l n | Err _ => s = free n end.

(** Two closers that give a partly opened lineage back. *)
Lemma released l n s a b c1 c2 :
  c1 ∈ [DriverClose; ConnClose] → ups s = n →
  ∀ bs, length bs = length [(a, c1); (b, PoolClose)] →
    safe s (zip ([(a, c1); (b, PoolClose)] : list (string * mcall)).*2 bs) ∧
    ∀ e, opened l n (Err (A := c2) e) (foldl (mstep settings) s (zip ([(a, c1); (b, PoolClose)] : list (string * mcall)).*2 bs)).
Proof.
  intros Hc Hu [|b1 [|b2 [|? ?]]] Hl; try discriminate Hl. cbn.
  rewrite !elem_of_cons in Hc. unfold opened, free. rewrite <-Hu.
  destruct Hc as [-> | [-> | []%not_elem_of_nil]]; cbn; by rewrite !andb_false_r.
Qed.

Lemma bound_moves (n : list string) ctx :
  let s := {| pool := true; conn := true; locked := false; lock_bounded := false; statement_bounded := false; lineage := ""; ups := n |} in
  moves s (boundMigrationSession settings answer ctx) (λ r s', ups s' = n ∧
    (is_ok r = true → s' = {| pool := true; conn := true; locked := false; lock_bounded := true;
                              statement_bounded := true; lineage := ""; ups := n |})).
Proof.
  intros s. unfold boundMigrationSession, session_budgets. cbn [io_each].
  destruct (set_sql_other "lock_timeout" (migrationLock (STimeouts settings)) (migrationStatement (STimeouts settings)))
    as (L1 & L2 & L3).
  destruct (set_sql_other "statement_timeout" (migrationStatement (STimeouts settings)) 0) as (S1 & S2 & _).
  eapply moves_bind; [apply moves_wrap, moves_call; [by split|]| |].
  - intros tr. instantiate (1 := λ r s', match r with
      | Ok _ => s' = {| pool := true; conn := true; locked := false; lock_bounded := true; statement_bounded := false; lineage := ""; ups := n |}
      | Err _ => ups s' = n end). cbn.
    destruct (answer tr _) as [[]|]; cbn; [|done].
    rewrite (bool_decide_eq_false_2 _ L1), (bool_decide_eq_false_2 _ L2), bool_decide_eq_true_2 by done.
    by rewrite (bool_decide_eq_false_2 _ L3).
  - intros [] s' ->. eapply moves_bind; [apply moves_wrap, moves_call; [by split|]| |].
    + intros tr. instantiate (1 := λ r s', match r with
        | Ok _ => s' = {| pool := true; conn := true; locked := false; lock_bounded := true; statement_bounded := true; lineage := ""; ups := n |}
        | Err _ => ups s' = n end). cbn.
      destruct (answer tr _) as [[]|]; cbn; [|done].
      rewrite (bool_decide_eq_false_2 _ S1), (bool_decide_eq_false_2 _ S2), (bool_decide_eq_true_2 (_ = _)) by done.
      done.
    + intros [] s' ->. by apply moves_ret.
    + intros e s' H. done.
  - intros e s' H. done.
Qed.

Lemma open_moves n ctx src : moves (free n) (openMigration settings dsn answer ctx src) (opened (label src) n).
Proof.
  unfold openMigration.
  eapply moves_bind with (P := λ r s', match r with
    | Ok _ => s' = {| pool := true; conn := false; locked := false; lock_bounded := false; statement_bounded := false; lineage := ""; ups := n |}
    | Err _ => s' = free n end); [|intros [] s' ->|by intros e s' H].
  { apply moves_wrap, moves_call; [done|]. intros tr. by destruct (answer tr _) as [[]|]. }
  eapply moves_bind with (P := λ r s', match r with
    | Ok _ => s' = {| pool := true; conn := true; locked := false; lock_bounded := false; statement_bounded := false; lineage := ""; ups := n |}
    | Err _ => s' = free n end); [|intros [] s' ->|by intros e s' H].
  { apply releasing_call; [done|done|]. intros [|b [|? ?]] Hl; try discriminate Hl. done. }
  eapply moves_bind with (P := λ r s', match r with
    | Ok _ => s' = {| pool := true; conn := true; locked := false; lock_bounded := true; statement_bounded := true; lineage := ""; ups := n |}
    | Err _ => s' = free n end); [|intros [] s' ->|by intros e s' H].
  { apply releasing_moves. eapply moves_mono; [apply bound_moves|]. intros [[]|e] s' [Hu Hok]; [by apply Hok|].
    apply (released (label src) n s' _ _ _ unit); [by right; left|done]. }
  eapply moves_bind with (P := λ r s', match r with Ok _ => s' = holding "" n | Err _ => s' = free n end);
    [|intros [] s' ->|by intros e s' H].
  { apply releasing_call; [by repeat split| |apply (released (label src) n _ _ _ _ unit); [by right; left|done]].
    cbn. by rewrite bool_decide_eq_true_2. }
  eapply moves_bind with (P := opened "" n); [|intros [] s' ->|by intros e s' H].
  { apply releasing_call; [by repeat split|done|apply (released "" n _ _ _ _ unit); [by right; left|done]]. }
  eapply moves_bind with (P := opened "" n); [|intros ? s' ->|by intros e s' H].
  { apply releasing_moves, moves_wrap, moves_lift. destruct (openSource (ms_dir src)); [done|].
    cbn [wrap_err]. apply (released "" n _ _ _ _ (list DirEntry)); [by left|done]. }
  eapply moves_bind with (P := opened (label src) n); [|intros [] s' ->|by intros e s' H].
  { apply releasing_call; [by repeat split|done|apply (released (label src) n _ _ _ _ unit); [by left|done]]. }
  by apply moves_ret.
Qed.

(** Closing gives everything back, whatever fails. *)
Lemma Close_moves l n (Q : result unit → held → Prop) :
  (∀ r, Q r (free n)) →
  moves (holding l n) (Close answer (Some {| h_migration := true; h_pool := true; h_conn := true |})) Q.
Proof.
  intros HQ. unfold Close. cbn [negb orb h_migration h_pool h_conn].
  assert (Hne : lock_sql ≠ unlock_sql) by done.
  eapply moves_bind; [apply moves_lift with (Q := λ r s', r = Ok tt ∧ s' = holding l n); done|intros u s' [_ ->]|by intros e s' [[=] _]].
  eapply moves_bind with (P := λ r s', match r with Ok _ => s' = free n | Err _ => False end);
    [|intros errs s' ->|by intros e s' []].
  - apply close_all_moves. intros [|b1 [|b2 [|b3 [|b4 [|? ?]]]]] Hl; try discriminate Hl. cbn. split.
    + split_and!; done.
    + intros _. destruct b1; cbn; by rewrite ?andb_false_r.
  - destruct (errors_join errs); [by apply moves_fail|by apply moves_ret].
Qed.

Lemma opened_handle ctx src tr h tr' :
  openMigration settings dsn answer ctx src tr = (Ok h, tr') → h = {| h_migration := true; h_pool := true; h_conn := true |}.
Proof.
  unfold openMigration. intros H. do 7 (apply io_bind_ok in H as (? & ? & _ & H)). by injection H as <- _.
Qed.

Lemma open_moves' n ctx src : moves (free n) (openMigration settings dsn answer ctx src)
  (λ r s, opened (label src) n r s ∧ ∀ h, r = Ok h → h = {| h_migration := true; h_pool := true; h_conn := true |}).
Proof.
  intros tr. destruct (open_moves n ctx src tr) as (new & E & Hs & HQ). exists new. split_and!; [done|done|done|].
  intros h Hh. destruct (openMigration _ _ _ _ _ tr) as [r tr'] eqn:Eo. simpl in Hh. subst.
  by eapply opened_handle.
Qed.

Hypothesis Hpermitted : permitted.

Lemma runUp_moves l n src : moves (holding l n) (runUp answer dirty_version src) (λ _ s', s' = holding l (n ++ [l])).
Proof.
  unfold runUp. eapply moves_bind with (P := λ r s', match r with Ok _ => s' = holding l (n ++ [l]) | Err _ => False end);
    [|intros r s' ->|by intros e s' []].
  - apply moves_try, moves_call; [by repeat split|]. intros tr. done.
  - destruct r as [[]|e]; [by apply moves_ret|]. destruct (error_is _ e); [by apply moves_ret|].
    destruct (dirty_version e); by apply moves_fail.
Qed.

Lemma join_close_moves l n m (Q : result unit → held → Prop) :
  moves (holding l n) m (λ _ s', s' = holding l (n ++ [l])) → (∀ r, Q r (free (n ++ [l]))) →
  moves (holding l n) (join_close answer m (Some {| h_migration := true; h_pool := true; h_conn := true |})) Q.
Proof.
  intros Hm HQ. unfold join_close.
  eapply moves_bind with (P := λ r s', match r with Ok _ => s' = holding l (n ++ [l]) | Err _ => False end);
    [by apply moves_try|intros r s' ->|by intros e s' []].
  eapply moves_bind with (P := λ r s', match r with Ok _ => s' = free (n ++ [l]) | Err _ => False end);
    [by apply moves_try, Close_moves|intros c s' ->|by intros e s' []].
  cbv zeta. destruct (errors_join _); [by apply moves_fail|by apply moves_ret].
Qed.

Lemma apply_loop_moves fuel n deadline src :
  moves (free n) (apply_loop settings dsn answer dirty_version fuel deadline src)
    (λ r s', match r with
             | Ok (Some _) => s' = free (n ++ [label src])
             | _ => s' = free n ∨ s' = free (n ++ [label src])
             end).
Proof.
  revert n. induction fuel as [|fuel IH]; intros n; cbn [apply_loop].
  - apply moves_ret. by left.
  - unfold attempt. eapply moves_bind with (P := λ r s', match r with
      | Ok (Ok h) => s' = holding (label src) n ∧ h = {| h_migration := true; h_pool := true; h_conn := true |}
      | Ok (Err _) => s' = free n | Err _ => False end).
    + apply moves_try. eapply moves_mono; [apply open_moves'|].
      intros [h|e] s' [Ho Hh]; [split; [exact Ho|by apply Hh]|exact Ho].
    + intros [h|e] s'.
      * intros [-> ->]. eapply moves_bind; [apply (join_close_moves _ n _ (λ _ s', s' = free (n ++ [label src]))); [apply runUp_moves|done]| |].
        -- intros u s' ->. by apply moves_ret.
        -- intros e s' ->. by right.
      * intros ->. eapply moves_bind with (P := λ r s', match r with Ok _ => s' = free n | Err _ => False end);
          [by apply moves_try, moves_call|intros w s' ->|by intros e' s' []].
        destruct w as [[]|]; [apply IH|]. apply moves_fail. by left.
    + by intros e s' [].
Qed.
End resources.

(** ** The retries terminate *)

Section waiting.
Context {fs : FileSystem}.
Context (settings : Settings) (dsn : string).
Context (answer : trace mcall → mcall → result unit) (dirty_version : error → option Z).
Context `{!Clock (trace mcall)}.

(** Time passes; the timer fires after its interval, and only before the deadline. *)
Record timely : Prop := {
  time_passes : ∀ tr new : trace mcall, clock (W := trace mcall) tr ≤ clock (W := trace mcall) (tr ++ new);
  timer_fires : ∀ tr d deadline end_, ctx_deadline deadline = Some end_ →
    answer tr (After d deadline) = Ok tt →
    clock tr < end_ ∧ clock (W := trace mcall) tr + d ≤ clock (W := trace mcall) (tr ++ [(After d deadline, true)]);
}.

Lemma openMigration_extends ctx src tr :
  ∃ new, (openMigration settings dsn answer ctx src tr).2 = tr ++ new.
Proof.
  destruct (open_moves settings dsn answer False [] ctx src tr) as (new & E & _). eauto.
Qed.

Lemma apply_loop_ends fuel deadline end_ src tr :
  timely → ctx_deadline deadline = Some end_ → (1 ≤ fuel)%nat →
  end_ - clock tr < (Z.of_nat fuel - 1) * migrationOpenRetryInterval →
  (apply_loop settings dsn answer dirty_version fuel deadline src tr).1 ≠ Ok None.
Proof.
  intros [Hmono Hfire] Hd. revert tr. induction fuel as [|fuel IH]; intros tr Hf Hlt; [lia|].
  cbn [apply_loop]. unfold attempt, mbind, io_bind, io_try.
  destruct (openMigration_extends deadline src tr) as [n1 E1].
  destruct (openMigration settings dsn answer deadline src tr) as [[h|lastErr] tr1]; simpl in E1; subst tr1.
  - by destruct (join_close _ _ _ _) as [[]].
  - unfold ask, call. destruct (answer (tr ++ n1) (After migrationOpenRetryInterval deadline)) as [[]|e] eqn:E; [|done].
    destruct (Hfire _ _ _ _ Hd E) as [H1 H2]. pose proof (Hmono tr n1). cbn [is_ok].
    assert (Hi : 0 < migrationOpenRetryInterval) by (by vm_compute).
    set (tr2 := (tr ++ n1) ++ _) in *. clearbody tr2.
    destruct fuel as [|fuel]; [exfalso; nia|]. apply IH; [lia|]. nia.
Qed.

Lemma applySource_ends ctx src tr :
  timely → 0 ≤ migrationLock (STimeouts settings) →
  (apply_loop settings dsn answer dirty_version (retries settings)
     (WithTimeout ctx (migrationLock (STimeouts settings)) tr) src tr).1 ≠ Ok None.
Proof.
  intros Ht Hb. unfold WithTimeout. cbv zeta. set (d := match ctx_deadline ctx with Some _ => _ | None => _ end).
  assert (Hd : d ≤ clock tr + migrationLock (STimeouts settings)) by (unfold d; case_match; lia).
  apply (apply_loop_ends _ _ d); [done|done| |]; unfold retries; [lia|].
  rewrite Nat2Z.inj_add, Z2Nat.id.
  - assert (0 < migrationOpenRetryInterval) by (by vm_compute).
    pose proof (Z.mul_succ_div_gt (migrationLock (STimeouts settings)) migrationOpenRetryInterval).
    rewrite Z.mul_comm. lia.
  - apply Z.div_pos; [done|by vm_compute].
Qed.
End waiting.

(** ** The start-up run *)

Section startup.
Context {fs : FileSystem}.
Context (settings : Settings) (dsn : string).
Context (answer : trace mcall → mcall → result unit) (dirty_version : error → option Z).
Context `{!Clock (trace mcall)}.
Abbreviation moves := (moves (mstep settings) (mallowed True)).

Lemma applySource_moves n ctx src :
  moves (free n) (applySource settings dsn answer dirty_version ctx src) (λ r s', match r with
    | Ok _ => s' = free (n ++ [label src])
    | Err _ => s' = free n ∨ s' = free (n ++ [label src])
    end).
Proof.
  intros tr. unfold applySource. generalize (WithTimeout ctx (migrationLock (STimeouts settings)) tr) as deadline.
  intros deadline.
  assert (H : moves (free n) (r ← apply_loop settings dsn answer dirty_version (retries settings) deadline src;
      match r with Some _ => mret tt | None => io_fail (ENew "fuel" []) end) (λ r s', match r with
    | Ok _ => s' = free (n ++ [label src])
    | Err _ => s' = free n ∨ s' = free (n ++ [label src])
    end)); [|exact (H tr)].
  eapply moves_bind; [by apply apply_loop_moves| |by intros e s' H].
  intros [u|] s' Hs; [by apply moves_ret|by apply moves_fail].
Qed.

Lemma applyMigration_moves n ctx sources :
  moves (free n) (applyMigration settings dsn answer dirty_version ctx sources) (λ r s', ∃ k,
    (k ≤ length sources)%nat ∧ s' = free (n ++ take k (label <$> sources)) ∧ (is_ok r = true → k = length sources)).
Proof.
  revert n. induction sources as [|src sources IH]; intros n; unfold applyMigration; cbn [io_each].
  - apply moves_ret. exists 0%nat. by rewrite app_nil_r.
  - eapply moves_bind; [apply moves_wrap; eapply moves_mono; [apply applySource_moves|]| |].
    { intros r s' Hr. instantiate (1 := λ r s', match r with
        | Ok _ => s' = free (n ++ [label src])
        | Err _ => s' = free n ∨ s' = free (n ++ [label src]) end). by destruct r. }
    + intros [] s' ->. eapply moves_mono; [apply IH|]. intros r s' (k & Hk & -> & Hr). exists (S k).
      rewrite fmap_cons. cbn [length take]. rewrite <-app_assoc. split; [lia|]. split; [done|].
      intros Hok. by rewrite (Hr Hok).
    + intros e s' [-> | ->]; [exists 0%nat|exists 1%nat]; cbn [length take fmap list_fmap]; rewrite ?app_nil_r;
        (split; [lia|]); split; done.
Qed.

(** C12: however the database, golang-migrate and the clock answer, the start-up
    run keeps the protocol of one lineage after another: a pool is opened only
    when nothing is held, the control-plane lock is awaited only on a session
    whose lock and statement budgets are set, and a lineage is run forward only
    while that session holds the lock. Whatever fails, everything opened is
    closed again; the lineages run forward are the first declared ones, each
    once and in order, and all of them exactly when the run succeeds. *)
Theorem migrations_release_everything ctx sources tr :
  let '(r, tr') := applyMigration settings dsn answer dirty_version ctx sources tr in
  ∃ new k, tr' = tr ++ new ∧ safe (mstep settings) (mallowed True) (free []) new ∧
    foldl (mstep settings) (free []) new = free (take k (label <$> sources)) ∧
    (k ≤ length sources)%nat ∧ (is_ok r = true → k = length sources).
Proof.
  pose proof (applyMigration_moves [] ctx sources tr) as (new & E & Hs & k & Hk & Hf & Hr).
  destruct (applyMigration _ _ _ _ _ _ tr) as [r tr']. by exists new, k.
Qed.

Lemma attempt_more k k' deadline src tr :
  (∀ tr, (k tr).1 ≠ Ok None → k' tr = k tr) →
  (attempt settings dsn answer dirty_version k deadline src tr).1 ≠ Ok None →
  attempt settings dsn answer dirty_version k' deadline src tr =
  attempt settings dsn answer dirty_version k deadline src tr.
Proof.
  intros Hk. unfold attempt, mbind, io_bind.
  destruct (io_try (openMigration settings dsn answer deadline src) tr) as [[[h|lastErr]|e] tr1]; [done| |done].
  destruct (io_try (ask answer (After migrationOpenRetryInterval deadline)) tr1) as [[[[]|de]|e] tr2]; [|done..].
  apply Hk.
Qed.
Lemma apply_loop_more fuel deadline src tr :
  (apply_loop settings dsn answer dirty_version fuel deadline src tr).1 ≠ Ok None →
  apply_loop settings dsn answer dirty_version (S fuel) deadline src tr =
  apply_loop settings dsn answer dirty_version fuel deadline src tr.
Proof.
  revert tr. induction fuel as [|fuel IH]; intros tr H; [by cbn in H|].
  by apply (attempt_more (apply_loop settings dsn answer dirty_version fuel deadline src)
              (apply_loop settings dsn answer dirty_version (S fuel) deadline src)).
Qed.

(** C31: the retries of a lineage end. With a timer that fires only before the
    deadline and after its interval, the attempts a lock budget affords are
    enough: the run never needs another one, and allowing any number more changes
    neither what it does nor what it returns. *)
Theorem applySource_terminates ctx src tr :
  timely answer → 0 ≤ migrationLock (STimeouts settings) →
  let deadline := WithTimeout ctx (migrationLock (STimeouts settings)) tr in
  ∃ r tr', apply_loop settings dsn answer dirty_version (retries settings) deadline src tr = (r, tr') ∧ r ≠ Ok None ∧
    ∀ more, apply_loop settings dsn answer dirty_version (retries settings + more) deadline src tr = (r, tr').
Proof.
  intros Ht Hb deadline. pose proof (applySource_ends settings dsn answer dirty_version ctx src tr Ht Hb) as Hn.
  fold deadline in Hn. destruct (apply_loop _ _ _ _ (retries settings) deadline src tr) as [r tr'] eqn:E.
  exists r, tr'. split; [done|]. split; [done|]. induction more as [|more IH]; [by rewrite Nat.add_0_r|].
  rewrite Nat.add_succ_r, apply_loop_more; [done|]. by rewrite IH.
Qed.
End startup.

(** ** Hot reload *)

Lemma claim_owner_fold changed sources owner r :
  fold_result (claim_owner changed) owner sources = Ok r →
  let mine := filter (λ src, path_clean (ms_dir src) = path_dir changed) sources in
  match owner with
  | Some _ => mine = [] ∧ r = owner
  | None => match r with Some src => mine = [src] | None => mine = [] end
  end.
Proof.
  revert owner. induction sources as [|src sources IH]; intros owner; cbn [fold_result].
  - intros [= <-]. by destruct owner.
  - intros (o & Ho & H)%bind_ok. apply IH in H. cbv zeta in *. rewrite filter_cons. unfold claim_owner in Ho.
    destruct (decide (path_clean (ms_dir src) = path_dir changed)) as [E|E].
    + rewrite bool_decide_eq_true_2 in Ho by done. cbn [negb] in Ho. destruct owner; [done|].
      injection Ho as <-. by destruct H as [-> ->].
    + rewrite bool_decide_eq_false_2 in Ho by done. injection Ho as <-. done.
Qed.

Section reload.
Context {fs : FileSystem}.
Context (settings : Settings) (dsn : string).
Context (answer : trace mcall → mcall → result unit).
Context (version : trace mcall → mcall → result (Z * bool)).
Context (dirty_version : error → option Z).
Context `{!Clock (trace mcall)} (location own_dir : string).

(** The changed file is a forward migration, and [owner] the one resolved lineage
    whose directory holds it. *)
Definition owns (changed : string) (migration : migrationFile) (owner : migrationSource) : Prop :=
  let file := resolveMigrationPath location changed in
  parseMigrationFile (path_base file) = Some migration ∧ mf_forward migration = true ∧
  ∃ sources skipped, resolveMigrationSources location own_dir (MigrationSources settings) = Ok (sources, skipped) ∧
    filter (λ src, path_clean (ms_dir src) = path_dir file) sources = [owner].

(** What must hold for a lineage to be run forward: the ledger read before it is
    clean and below the migration that was saved. *)
Definition forward_change (changed : string) : Prop :=
  ∃ migration owner before, owns changed migration owner ∧
  match version before Version with
  | Ok (current, dirty) => dirty = false ∧ current < mf_version migration
  | Err e => error_is ErrNilVersion e = true
  end.
Abbreviation moves changed := (moves (mstep settings) (mallowed (forward_change changed))).

Lemma reload_forward_moves changed migration owner l n :
  owns changed migration owner →
  moves changed (holding l n) (reload_forward answer version dirty_version owner migration) (λ r s',
    (s' = holding l n ∨ s' = holding l (n ++ [l])) ∧ (r = Ok true → s' = holding l (n ++ [l]))).
Proof.
  intros Ho. unfold reload_forward.
  eapply moves_bind with (P := λ r s', s' = holding l n ∧ ∃ before, r = Ok (version before Version));
    [|intros r s' [-> [before [= ->]]]|by intros e s' [_ [? [=]]]].
  { apply moves_try, moves_call; [by repeat split|]. intros tr. split; [done|]. by exists tr. }
  set (read := match version before Version with Ok _ => _ | Err _ => _ end).
  eapply moves_bind with (P := λ r s', s' = holding l n ∧ (is_ok r = true → forward_change changed));
    [|intros current s' [-> Hf]|intros e s' [-> _]; split; [by left|done]].
  { assert (Hr : ∃ r, read = io_lift r ∧ (is_ok r = true → forward_change changed)).
    { unfold read. destruct (version before Version) as [[current []]|err] eqn:Ev.
      - by eexists (Err _).
      - destruct (Z.leb_spec (mf_version migration) current); [by eexists (Err _)|]. exists (Ok (Some current)).
        split; [done|]. intros _. exists migration, owner, before. split; [done|]. rewrite Ev. split; [done|lia].
      - destruct (error_is ErrNilVersion err) eqn:Ee; [|by eexists (Err _)]. exists (Ok None). split; [done|].
        intros _. exists migration, owner, before. split; [done|]. by rewrite Ev. }
    destruct Hr as (r & -> & Hr). by apply moves_lift. }
  eapply moves_bind with (P := λ r s', match r with Ok _ => s' = holding l (n ++ [l]) | Err _ => False end);
    [|intros up s' ->|by intros e s' []].
  { apply moves_try, moves_call; [split; [done|split; [done|by apply Hf]]|]. done. }
  eapply moves_bind with (P := λ _ s', s' = holding l (n ++ [l])); [|intros [] s' ->|intros e s' ->; split; [by right|done]].
  { destruct up as [[]|err]; [by apply moves_ret|]. destruct (error_is _ err); [by apply moves_ret|].
    destruct (dirty_version err); by apply moves_fail. }
  eapply moves_bind with (P := λ _ s', s' = holding l (n ++ [l])); [|intros u s' ->|intros e s' ->; split; [by right|done]].
  { apply moves_wrap, moves_call; [by repeat split|]. done. }
  apply moves_ret. split; [by right|done].
Qed.

Lemma apply_change_moves changed migration owner n ctx :
  owns changed migration owner →
  moves changed (free n) (apply_change settings dsn answer version dirty_version ctx owner migration)
    (λ r s', ∃ applied err ran, r = Ok (applied, err) ∧ s' = free (n ++ ran) ∧ (ran = [] ∨ ran = [label owner]) ∧
       (applied = true → ran ≠ [])).
Proof.
  intros Ho. unfold apply_change.
  eapply moves_bind with (P := λ r s', match r with
      | Ok (Ok h) => s' = holding (label owner) n ∧ h = {| h_migration := true; h_pool := true; h_conn := true |}
      | Ok (Err _) => s' = free n | Err _ => False end);
    [|intros [h|e] s'|by intros e s' []].
  { apply moves_try. eapply moves_mono; [apply open_moves'|].
    intros [h|e] s' [H1 H2]; [split; [exact H1|by apply H2]|exact H1]. }
  2: { intros ->. apply moves_ret. eexists _, _, []. rewrite app_nil_r. by split_and!; auto. }
  intros [-> ->]. eapply moves_bind with (P := λ r s', match r with
    | Ok r => ∃ ran, s' = holding (label owner) (n ++ ran) ∧ (ran = [] ∨ ran = [label owner]) ∧ (r = Ok true → ran ≠ [])
    | Err _ => False end); [|intros r s' (ran & -> & Hran & Hr)|by intros e s' []].
  { apply moves_try. eapply moves_mono; [by apply reload_forward_moves|]. intros r s' [[-> | ->] Hr].
    - exists []. rewrite app_nil_r. split_and!; [done|by left|]. intros E _. specialize (Hr E).
      injection Hr as Hr%(f_equal length). rewrite length_app in Hr. cbn in Hr. lia.
    - exists [label owner]. by split_and!; auto. }
  eapply moves_bind with (P := λ r s', match r with Ok _ => s' = free (n ++ ran) | Err _ => False end);
    [by apply moves_try, Close_moves|intros c s' ->|by intros e s' []].
  apply moves_ret. eexists _, _, ran. split_and!; [done|done|done|]. destruct r as [[]|]; [by intros _; apply Hr|done..].
Qed.

(** A change that no lineage owns makes no call; one that is owned runs that lineage. *)
Lemma applyMigrationChange_cases changed ctx :
  (∃ err, applyMigrationChange settings dsn answer version dirty_version location own_dir ctx changed = mret (false, err)) ∨
  ∃ migration owner, owns changed migration owner ∧
    applyMigrationChange settings dsn answer version dirty_version location own_dir ctx changed
    = apply_change settings dsn answer version dirty_version ctx owner migration.
Proof.
  unfold applyMigrationChange. cbv zeta. set (file := resolveMigrationPath location changed).
  destruct (parseMigrationFile (path_base file)) as [migration|] eqn:Ep; [|by left; eexists].
  destruct (mf_forward migration) eqn:Ef; cbn [negb]; [|by left; eexists].
  destruct (_ ≫= _) as [[owner|]|e] eqn:Eo; [|by left; eexists..].
  right. exists migration, owner. split; [|done].
  apply bind_ok in Eo as ([sources skipped] & Hr & Hs). split; [done|]. split; [done|].
  exists sources, skipped. split; [done|]. by apply (claim_owner_fold file sources None (Some owner)) in Hs.
Qed.

Lemma applyMigrationChange_moves n ctx changed :
  moves changed (free n) (applyMigrationChange settings dsn answer version dirty_version location own_dir ctx changed)
    (λ r s', ∃ applied err ran, r = Ok (applied, err) ∧ s' = free (n ++ ran) ∧ (applied = true → ran ≠ [])).
Proof.
  destruct (applyMigrationChange_cases changed ctx) as [[err ->]|(migration & owner & Ho & ->)].
  - apply moves_ret. exists false, err, []. by rewrite app_nil_r.
  - eapply moves_mono; [by apply apply_change_moves|]. intros r s' (applied & err & ran & ? & ? & _ & ?). by exists applied, err, ran.
Qed.

(** C13: hot reload only ever moves forward. One change runs at most one lineage
    forward, and only when the changed path names a forward migration by the one
    file pattern, exactly one resolved lineage has its directory, and the ledger
    just read under the control-plane lock is clean and below that version. Any
    other change (an editor's leftover, a down file, an applied migration, an
    unowned or doubly owned path, a dirty ledger) runs nothing; a change no
    lineage owns opens no connection at all; SQL is reported applied only if that
    one run was made; and everything opened is closed again on every path. *)
Theorem hot_reload_forward_only ctx changed tr :
  let '(r, tr') := applyMigrationChange settings dsn answer version dirty_version location own_dir ctx changed tr in
  ∃ applied err new ran, r = Ok (applied, err) ∧ tr' = tr ++ new ∧
    safe (mstep settings) (mallowed (forward_change changed)) (free []) new ∧
    foldl (mstep settings) (free []) new = free ran ∧
    (new = [] ∨ ∃ migration owner, owns changed migration owner ∧ (ran = [] ∨ ran = [label owner])) ∧
    (new = [] → ran = []) ∧ (applied = true → ran ≠ []).
Proof.
  destruct (applyMigrationChange_cases changed ctx) as [[err ->]|(migration & owner & Ho & ->)].
  - exists false, err, [], []. rewrite app_nil_r. split_and!; first [done|by left].
  - destruct (apply_change_moves changed migration owner [] ctx Ho tr) as (new & E & Hs & applied & err & ran & Hr & Hf & Hran & Ha).
    destruct (apply_change _ _ _ _ _ ctx owner migration tr) as [r tr']. cbn [fst snd app] in *. subst.
    exists applied, err, new, ran. split_and!; [done|done|done|done|by right; exists migration, owner| |done].
    intros ->. cbn in Hf. by injection Hf.
Qed.
End reload.

(** ** A database that never comes up *)

(** A clock that only the timer moves, and a server that refuses every connection. *)
Definition waited (e : mcall * bool) : Z :=
  match e with (After d _, true) => Z.max 0 d | _ => 0 end.
Definition elapsed (tr : trace mcall) : Z := foldr (λ e t, waited e + t) 0 tr.
Definition down_clock : Clock (trace mcall) := {| clock := elapsed; cancelled := λ _ _, false |}.
Definition refused (tr : trace mcall) (c : mcall) : result unit :=
  match c with
  | After d deadline =>
    match ctx_deadline deadline with
    | Some end_ => guard_err (end_ <=? elapsed tr) (ENew DeadlineExceeded [])
    | None => Ok tt
    end
  | PoolConn _ => Err (ENew "connection refused" [])
  | _ => Ok tt
  end.
Definition no_files : FileSystem := {| ReadDir := λ _, Ok []; LstatMissing := λ _, false |}.
Definition down_source : migrationSource :=
  {| ms_name := "audit"; ms_dir := "/m"; ms_table := ""; ms_optional := false |}.
Definition down_settings : Settings := default_settings "app".

Lemma elapsed_app tr new : elapsed (tr ++ new) = elapsed tr + elapsed new.
Proof.
  induction tr as [|e tr IH]; [done|]. change (elapsed ((e :: tr) ++ new)) with (waited e + elapsed (tr ++ new)).
  change (elapsed (e :: tr)) with (waited e + elapsed tr). lia.
Qed.
Lemma elapsed_nonneg tr : 0 ≤ elapsed tr.
Proof.
  induction tr as [|[c ok] tr IH]; [done|]. change (elapsed ((c, ok) :: tr)) with (waited (c, ok) + elapsed tr).
  assert (0 ≤ waited (c, ok)) by (destruct c, ok; cbn [waited]; lia). lia.
Qed.

Lemma refused_timely : timely (Clock0 := down_clock) refused.
Proof.
  split; cbn [clock down_clock].
  - intros tr new. rewrite elapsed_app. pose proof (elapsed_nonneg new). lia.
  - intros tr d deadline end_ Hd. cbn [refused]. rewrite Hd, elapsed_app. unfold guard_err.
    destruct (Z.leb_spec end_ (elapsed tr)); [done|]. intros _. split; [done|]. cbn [elapsed foldr waited]. lia.
Qed.

(** Thirty attempts a second apart spend the default budget; the run then fails. *)
Lemma applySource_terminates_witness :
  let deadline := WithTimeout (Clock0 := down_clock) Background (migrationLock (STimeouts down_settings)) [] in
  ∃ r tr', apply_loop (fs := no_files) down_settings "postgres://db/app" refused (λ _, None)
      (retries down_settings) deadline down_source [] = (r, tr') ∧
    r ≠ Ok None ∧ is_ok r = false ∧ elapsed tr' = 30 * Second ∧
    ∀ more, apply_loop (fs := no_files) down_settings "postgres://db/app" refused (λ _, None)
      (retries down_settings + more) deadline down_source [] = (r, tr').
Proof.
  intros deadline.
  destruct (applySource_terminates (fs := no_files) down_settings "postgres://db/app" refused (λ _, None)
    (Clock0 := down_clock) Background down_source [] refused_timely ltac:(by vm_compute)) as (r & tr' & E & Hr & Hm).
  exists r, tr'. split; [exact E|]. split; [exact Hr|].
  assert (Ec : (is_ok r, elapsed tr') = (false, 30 * Second)).
  { change ((λ p, (is_ok p.1, elapsed p.2)) (r, tr') = (false, 30 * Second)). rewrite <-E. vm_compute. reflexivity. }
  injection Ec as H1 H2. split; [exact H1|]. split; [exact H2|exact Hm].
Defined.
