(* ===== verification/Forward.v ===== *)
(** A service's endpoint on its run's shared server ([forward.go]): the accept
    loop, one goroutine per session, and [Close], as a step relation over their
    interleavings.  A critical section of the mutex is one step: everything it
    shares is only touched under the mutex, and closing a connection twice does
    nothing. *)
From S2P Require Import Prelude.

Definition conn : Type := nat.

(** Where the accept loop is. *)
Inductive serve_state :=
  | Accepting
  | Accepted (client : conn)      (* before [track] *)
  | Rejecting (client : conn)     (* [track] refused: the client is closed next *)
  | ServeDone.

(** Where a session's goroutine is; the copiers are finished or not. *)
Inductive pipe_state :=
  | Dialing
  | Dialed (server : conn)
  | Refused (server : conn)
  | Carrying (server : conn) (up down : bool)
  | Ending (server : conn) (up down : bool)   (* both ends closed, waiting for the other copier *)
  | UntrackServer (server : conn)
  | UntrackClient.

Record socketForwarder := {
  listening : bool;
  opened : gset conn;             (* connections the process has open *)
  conns : gset conn;
  closed : bool;
  serve : serve_state;
  pipes : list (conn * pipe_state);   (* the running sessions, by their client *)
}.

(** [wg]'s counter. *)
Definition waiting (f : socketForwarder) : nat :=
  (match serve f with ServeDone => 0 | _ => 1 end + length (pipes f))%nat.

Definition with_serve (f : socketForwarder) (s : serve_state) : socketForwarder :=
  {| listening := listening f; opened := opened f; conns := conns f; closed := closed f; serve := s; pipes := pipes f |}.
Definition with_pipes (f : socketForwarder) (ps : list (conn * pipe_state)) : socketForwarder :=
  {| listening := listening f; opened := opened f; conns := conns f; closed := closed f; serve := serve f; pipes := ps |}.
Definition open_conn (f : socketForwarder) (c : conn) : socketForwarder :=
  {| listening := listening f; opened := {[c]} ∪ opened f; conns := conns f; closed := closed f; serve := serve f; pipes := pipes f |}.
(** [conn.Close()] *)
Definition close_conn (f : socketForwarder) (c : conn) : socketForwarder :=
  {| listening := listening f; opened := opened f ∖ {[c]}; conns := conns f; closed := closed f; serve := serve f; pipes := pipes f |}.

(** ** Operations *)

Definition forwardToSocket : socketForwarder :=
  {| listening := true; opened := ∅; conns := ∅; closed := false; serve := Accepting; pipes := [] |}.

Definition track (f : socketForwarder) (c : conn) : bool * socketForwarder :=
  if closed f then (false, f)
  else (true, {| listening := listening f; opened := opened f; conns := {[c]} ∪ conns f; closed := closed f;
                 serve := serve f; pipes := pipes f |}).

Definition untrack (f : socketForwarder) (c : conn) : socketForwarder :=
  close_conn {| listening := listening f; opened := opened f; conns := conns f ∖ {[c]}; closed := closed f;
                serve := serve f; pipes := pipes f |} c.

(** [Close] up to [f.wg.Wait()]. *)
Definition Close_section (f : socketForwarder) : socketForwarder :=
  {| listening := false; opened := opened f ∖ conns f; conns := conns f; closed := true; serve := serve f; pipes := pipes f |}.
(** [f.wg.Wait()] returns. *)
Definition Close_returns (f : socketForwarder) : bool := closed f && bool_decide (waiting f = 0%nat).

(** ** Interleavings *)

(** The connections the goroutines hold. *)
Definition serve_ids (s : serve_state) : list conn :=
  match s with Accepted c | Rejecting c => [c] | Accepting | ServeDone => [] end.
Definition server_ids (p : pipe_state) : list conn :=
  match p with
  | Dialing | UntrackClient => []
  | Dialed s | Refused s | Carrying s _ _ | Ending s _ _ | UntrackServer s => [s]
  end.
Definition pipe_ids (p : conn * pipe_state) : list conn := p.1 :: server_ids p.2.
Definition ids (f : socketForwarder) : list conn := serve_ids (serve f) ++ (pipes f ≫= pipe_ids).

(** A new connection is none of those in use. *)
Definition fresh (f : socketForwarder) (c : conn) : Prop := c ∉ opened f ∧ c ∉ conns f ∧ c ∉ ids f.

(** One step of the accept loop. *)
Inductive serve_step (f : socketForwarder) : socketForwarder → Prop :=
  | accept c : serve f = Accepting → listening f = true → fresh f c →
      serve_step f (with_serve (open_conn f c) (Accepted c))
  | accept_fails : serve f = Accepting → serve_step f (with_serve f ServeDone)
  | accept_track c f' : serve f = Accepted c → track f c = (true, f') →
      serve_step f (with_pipes (with_serve f' Accepting) ((c, Dialing) :: pipes f))
  | accept_refuse c f' : serve f = Accepted c → track f c = (false, f') →
      serve_step f (with_serve f' (Rejecting c))
  | accept_close c : serve f = Rejecting c → serve_step f (with_serve (close_conn f c) ServeDone).

(** One step of the goroutine of client [c], or of one of its copiers: what the
    forwarder becomes, and the goroutine's next state unless it ends. *)
Inductive pipe_step (f : socketForwarder) (c : conn) : pipe_state → socketForwarder → option pipe_state → Prop :=
  | dial s : fresh f s → pipe_step f c Dialing (open_conn f s) (Some (Dialed s))
  | dial_fails : pipe_step f c Dialing f (Some UntrackClient)
  | pipe_track s f' : track f s = (true, f') → pipe_step f c (Dialed s) f' (Some (Carrying s false false))
  | pipe_refuse s f' : track f s = (false, f') → pipe_step f c (Dialed s) f' (Some (Refused s))
  | pipe_close s : pipe_step f c (Refused s) (close_conn f s) (Some UntrackClient)
  | copy_up s d : pipe_step f c (Carrying s false d) f (Some (Carrying s true d))
  | copy_down s u : pipe_step f c (Carrying s u false) f (Some (Carrying s u true))
  | first_done s u d : u || d = true →
      pipe_step f c (Carrying s u d) (close_conn (close_conn f c) s) (Some (Ending s u d))
  | last_up s d : pipe_step f c (Ending s false d) f (Some (Ending s true d))
  | last_down s u : pipe_step f c (Ending s u false) f (Some (Ending s u true))
  | both_done s : pipe_step f c (Ending s true true) f (Some (UntrackServer s))
  | untrack_server s : pipe_step f c (UntrackServer s) (untrack f s) (Some UntrackClient)
  | untrack_client : pipe_step f c UntrackClient (untrack f c) None.

(** A step of the goroutines. *)
Inductive step (f : socketForwarder) : socketForwarder → Prop :=
  | step_serve f' : serve_step f f' → step f f'
  | step_pipe l1 c p l2 f' next : pipes f = l1 ++ (c, p) :: l2 → pipe_step f c p f' next →
      step f (with_pipes f' (l1 ++ match next with Some p' => [(c, p')] | None => [] end ++ l2)).

(** A step of the goroutines, or of some call of [Close]. *)
Inductive run_step (f : socketForwarder) : socketForwarder → Prop :=
  | run_own f' : step f f' → run_step f f'
  | run_close : run_step f (Close_section f).

(** ** The invariant *)

(** The connections in the set a session's goroutine has tracked. *)
Definition tracked (p : conn * pipe_state) : list conn :=
  p.1 :: match p.2 with Carrying s _ _ | Ending s _ _ | UntrackServer s => [s] | _ => [] end.

Record inv (f : socketForwarder) : Prop := {
  inv_ids : NoDup (ids f);
  inv_conns : ∀ x, x ∈ conns f ↔ x ∈ pipes f ≫= tracked;
  inv_opened : ∀ x, x ∈ opened f → x ∈ ids f;
  inv_closed : closed f = true → listening f = false ∧ conns f ## opened f;
  inv_ending : ∀ c s u d, (c, Ending s u d) ∈ pipes f → c ∉ opened f ∧ s ∉ opened f;
}.

Lemma tracked_ids ps x : x ∈ ps ≫= tracked → x ∈ ps ≫= pipe_ids.
Proof.
  rewrite !list_elem_of_bind. intros ([c p] & Hx & Hp). exists (c, p). split; [|done].
  unfold tracked, pipe_ids in *. cbn in *. destruct p; cbn in *; set_solver.
Qed.

Lemma inv_initial : inv forwardToSocket.
Proof. split; cbn; [constructor|set_solver..]. Qed.

Lemma inv_serve f f' : inv f → serve_step f f' → inv f'.
Proof.
  intros [Hid Hc Ho Hcl He] Hs. unfold ids in *. destruct Hs as [c Es Hl Hf|Es|c f' Es Ht|c f' Es Ht|c Es]; rewrite Es in *; cbn in *.
  - destruct Hf as (H1 & H2 & H3). unfold ids in H3. rewrite Es in H3. cbn in H3. split; cbn.
    + by constructor.
    + done.
    + intros x [->%elem_of_singleton|Hx]%elem_of_union; [by left|right; by apply Ho].
    + intros E. destruct (Hcl E). congruence.
    + intros c' s u d Hin. destruct (He _ _ _ _ Hin). assert (c' ∈ pipes f ≫= pipe_ids ∧ s ∈ pipes f ≫= pipe_ids).
      { split; apply list_elem_of_bind; eexists; (split; [|exact Hin]); cbn; set_solver. }
      set_solver.
  - by split.
  - unfold track in Ht. destruct (closed f) eqn:Ecl; [done|]. injection Ht as <-. split; cbn.
    + done.
    + intros x. rewrite elem_of_union, elem_of_singleton, elem_of_cons, Hc. done.
    + done.
    + done.
    + intros c' s u d [[=]|Hin]%elem_of_cons. eauto.
  - unfold track in Ht. destruct (closed f) eqn:Ecl; [|done]. injection Ht as <-. split; cbn; auto.
  - apply NoDup_cons in Hid as [Hn Hid]. split; cbn.
    + done.
    + done.
    + intros x [Hx Hne]%elem_of_difference. apply Ho in Hx. set_solver.
    + intros E. destruct (Hcl E). split; [done|]. set_solver.
    + intros c' s u d Hin. destruct (He _ _ _ _ Hin). set_solver.
Qed.

(** The invariant seen from one session: [R] holds the other connections in use,
    [T] the other tracked ones. *)
Definition local (f : socketForwarder) (mine marks : list conn) (R T : list conn) : Prop :=
  NoDup (mine ++ R) ∧ (∀ x, x ∈ conns f ↔ x ∈ marks ∨ x ∈ T) ∧ (∀ x, x ∈ T → x ∈ R) ∧
  (∀ x, x ∈ opened f → x ∈ mine ∨ x ∈ R) ∧
  (closed f = true → listening f = false) ∧ (closed f = true → ∀ x, x ∈ conns f → x ∉ opened f).

(** Membership facts about one connection. *)
Ltac conn_facts := rewrite ?not_elem_of_cons, ?elem_of_difference, ?elem_of_union, ?elem_of_singleton, ?elem_of_cons in *;
  rewrite ?elem_of_nil in *.

Lemma pipe_local f c p f' next R T :
  local f (pipe_ids (c, p)) (tracked (c, p)) R T →
  (∀ x, x ∈ ids f ↔ x ∈ pipe_ids (c, p) ∨ x ∈ R) → pipe_step f c p f' next →
  local f' (from_option (λ p', pipe_ids (c, p')) [] next) (from_option (λ p', tracked (c, p')) [] next) R T ∧
  (∀ x, x ∈ opened f' → x ∈ R → x ∈ opened f) ∧ serve f' = serve f ∧
  (match p with Ending s _ _ => c ∉ opened f ∧ s ∉ opened f | _ => True end →
   ∀ s u d, next = Some (Ending s u d) → c ∉ opened f' ∧ s ∉ opened f').
Proof.
  intros (Hn & Hc & HT & Ho & Hl & Hcl) Hids Hs. unfold local, pipe_ids, tracked, fresh in *.
  assert (Htrack : ∀ s f' b, track f s = (b, f') → b = negb (closed f) ∧
    f' = if closed f then f else (track f s).2) by (unfold track; intros s0 f0 b; destruct (closed f); intros [= <- <-]; done).
  destruct Hs as [s Hf| |s f' Ht|s f' Ht|s|s d|s u|s u d Hud|s d|s u|s|s|]; cbn in *. all:
    rewrite ?NoDup_cons in *; try (apply Htrack in Ht as [Hb ->]; destruct (closed f) eqn:Ecl; try done; unfold track; rewrite Ecl); cbn in *.
  all: try (destruct Hf as (Hf1 & Hf2 & Hf3); rewrite Hids in Hf3; cbn in Hf3).
  all: clear Hids Htrack; split_and!; try done; try tauto.
  all: try (intros x; clear Hcl; specialize (Ho x); specialize (Hc x); specialize (HT x); conn_facts;
    match goal with s : conn |- _ => destruct (decide (x = s)) as [->|]; solve [intuition congruence] end).
  all: try (intros Ec x Hx Hx'; specialize (Hcl Ec x); clear Ho Hc HT; conn_facts; solve [intuition congruence]).
  all: try (intros H s0 u0 d0 [=]; subst; solve [done|split; intros Hx; conn_facts; tauto]).
  all: conn_facts; intuition congruence.
Qed.


Lemma perm_middle {A} (l b1 m b2 : list A) : l ++ b1 ++ m ++ b2 ≡ₚ m ++ l ++ b1 ++ b2.
Proof. rewrite !(assoc_L (++) l b1). apply Permutation_app_swap_app. Qed.

Lemma inv_pipe f l1 c p l2 f' next :
  inv f → pipes f = l1 ++ (c, p) :: l2 → pipe_step f c p f' next →
  inv (with_pipes f' (l1 ++ match next with Some p' => [(c, p')] | None => [] end ++ l2)).
Proof.
  intros [Hid Hc Ho Hcl He] E Hs. set (R := serve_ids (serve f) ++ (l1 ≫= pipe_ids) ++ (l2 ≫= pipe_ids)).
  assert (Hp : ids f ≡ₚ pipe_ids (c, p) ++ R).
  { unfold ids, R. rewrite E, bind_app, bind_cons. apply perm_middle. }
  destruct (pipe_local f c p f' next R ((l1 ≫= tracked) ++ (l2 ≫= tracked))) as ((Hn & Hc' & HT & Ho' & Hl' & Hcl') & HR & Hsv & Hend).
  - split_and!; [by rewrite <-Hp|..].
    + intros x. rewrite Hc, E, bind_app, bind_cons, !elem_of_app. tauto.
    + intros x Hx. unfold R. rewrite !elem_of_app in *. destruct Hx as [Hx|Hx]; apply tracked_ids in Hx; tauto.
    + intros x Hx. by rewrite <-elem_of_app, <-Hp; apply Ho.
    + intros Ec. by destruct (Hcl Ec).
    + intros Ec x H1 H2. destruct (Hcl Ec) as [_ Hd]. by apply (Hd x).
  - intros x. by rewrite Hp, elem_of_app.
  - done.
  - assert (Hp' : ids (with_pipes f' (l1 ++ match next with Some p' => [(c, p')] | None => [] end ++ l2)) ≡ₚ
      from_option (λ p', pipe_ids (c, p')) [] next ++ R).
    { unfold ids, R. cbn. rewrite Hsv, !bind_app. destruct next as [p'|]; [|done].
    assert ([(c, p')] ≫= pipe_ids = pipe_ids (c, p')) as -> by apply app_nil_r. apply perm_middle. }
    split.
    + by rewrite Hp'.
    + intros x. change (conns (with_pipes f' _)) with (conns f'). rewrite Hc'. cbn [pipes with_pipes].
      rewrite !bind_app, !elem_of_app. destruct next as [p'|]; cbn [from_option].
      * assert ([(c, p')] ≫= tracked = tracked (c, p')) as -> by apply app_nil_r. tauto.
      * change ([] ≫= tracked) with (@nil conn). rewrite !elem_of_nil. tauto.
    + intros x Hx. rewrite Hp'. apply elem_of_app. by apply Ho'.
    + intros Ec. split; [by apply Hl'|]. intros x. by apply Hcl'.
    + intros c' s u d Hin. cbn in Hin |- *.
      assert (Hother : (c', Ending s u d) ∈ l1 ++ l2 → c' ∉ opened f' ∧ s ∉ opened f').
      { intros Hl. assert (Hin' : (c', Ending s u d) ∈ pipes f) by (rewrite E; set_solver).
        destruct (He _ _ _ _ Hin') as [H1 H2].
        assert (c' ∈ R ∧ s ∈ R) as [HR1 HR2]; [|by split; intros ?%HR].
        unfold R. rewrite <-bind_app. rewrite !elem_of_app, !list_elem_of_bind.
        split; right; eexists; (split; [|exact Hl]); cbn; set_solver. }
      rewrite !elem_of_app in Hin. destruct Hin as [Hin|[Hin|Hin]]; [apply Hother; set_solver| |apply Hother; set_solver].
      destruct next as [p'|]; [|by apply elem_of_nil in Hin]. apply list_elem_of_singleton in Hin as [= -> <-].
      eapply Hend; [|done]. destruct p; try done. eapply He. rewrite E. apply elem_of_app. by right; left.
Qed.

Lemma inv_step f f' : inv f → run_step f f' → inv f'.
Proof.
  intros Hf [f'' [f3 H|l1 c p l2 f3 next E H]|].
  - by eapply inv_serve.
  - by eapply inv_pipe.
  - destruct Hf as [Hid Hc Ho Hcl He]. split; cbn; [done|done|set_solver| |].
    + intros _. split; [done|set_solver].
    + intros c s u d Hin. destruct (He _ _ _ _ Hin). set_solver.
Qed.

Lemma inv_reachable f : rtc run_step forwardToSocket f → inv f.
Proof. apply rtc_invariant; [intros x y; apply inv_step|apply inv_initial]. Qed.

(** ** What is left to do

    Every step of the goroutines but a new client's arrival uses some of it up. *)
Definition copier (finished : bool) : nat := if finished then 0 else 1.
Definition pipe_work (p : pipe_state) : nat :=
  match p with
  | Dialing => 8
  | Dialed _ => 7
  | Refused _ => 2
  | Carrying _ u d => 4 + copier u + copier d
  | Ending _ u d => 3 + copier u + copier d
  | UntrackServer _ => 2
  | UntrackClient => 1
  end.
Definition work (f : socketForwarder) : nat :=
  (match serve f with Accepting => 1 | Accepted _ => 10 | Rejecting _ => 1 | ServeDone => 0 end
   + sum_list_with (λ p, pipe_work p.2) (pipes f))%nat.

Lemma pipe_step_work f c p f' next :
  pipe_step f c p f' next →
  serve f' = serve f ∧ listening f' = listening f ∧ closed f' = closed f ∧ 
  (from_option pipe_work 0 next < pipe_work p)%nat.
Proof.
  assert (Htrack : ∀ s b f', track f s = (b, f') → serve f' = serve f ∧ listening f' = listening f ∧ closed f' = closed f)
    by (unfold track; intros s b f0; destruct (closed f) eqn:E; intros [= _ <-]; by rewrite ?E).
  destruct 1; cbn; try (destruct (Htrack _ _ _ H) as (-> & -> & ->));
    repeat match goal with b : bool |- _ => destruct b end; split_and!; try done; cbn; lia.
Qed.

Lemma step_work f f' :
  step f f' → listening f = false → listening f' = false ∧ closed f' = closed f ∧ (work f' < work f)%nat.
Proof.
  unfold work. intros [f'' [c Es Hl _|Es|c f3 Es Ht|c f3 Es Ht|c Es]|l1 c p l2 f'' next E Hs] Hn; try congruence;
    try (rewrite Es; cbn; split_and!; [done..|lia]).
  - unfold track in Ht. destruct (closed f); [done|]. injection Ht as <-. rewrite Es. cbn. split_and!; [done..|lia].
  - unfold track in Ht. destruct (closed f) eqn:Ec; [|done]. injection Ht as <-. rewrite Es. cbn. split_and!; [done..|lia].
  - destruct (pipe_step_work _ _ _ _ _ Hs) as (H1 & H2 & H3 & Hw). cbn [serve listening closed pipes with_pipes].
    rewrite H1, H2, H3, E. split_and!; [done..|].
    rewrite !sum_list_with_app. destruct next; cbn in Hw |- *; lia.
Qed.

(** Nobody waits for anything outside: the listener is closed, and so is every
    connection a copier reads from. *)
Definition unblocked (f : socketForwarder) : Prop :=
  listening f = false ∧
  ∀ c s u d, (c, Carrying s u d) ∈ pipes f ∨ (c, Ending s u d) ∈ pipes f → c ∉ opened f ∧ s ∉ opened f.

Lemma inv_unblocked f : inv f → closed f = true → unblocked f.
Proof.
  intros [Hid Hc Ho Hcl He] E. destruct (Hcl E) as [Hl Hd]. split; [done|].
  intros c s u d [Hin|Hin]; [|by eapply He].
  assert (c ∈ conns f ∧ s ∈ conns f) as [H1 H2] by (rewrite !Hc, !list_elem_of_bind; split; eexists; (split; [|exact Hin]); cbn; set_solver).
  set_solver.
Qed.

Lemma pipe_progress f c p : ∃ f' next, pipe_step f c p f' next.
Proof.
  destruct p as [|s|s|s u d|s u d|s|].
  - eexists _, _. apply dial_fails.
  - destruct (track f s) as [[] f'] eqn:E; eexists _, _; [by apply pipe_track|by apply pipe_refuse].
  - eexists _, _. apply pipe_close.
  - destruct u; [eexists _, _; by apply first_done|]. eexists _, _. apply copy_up.
  - destruct u, d; eexists _, _; first [apply both_done|apply last_up|apply last_down].
  - eexists _, _. apply untrack_server.
  - eexists _, _. apply untrack_client.
Qed.

Lemma progress f : closed f = true → (∀ f', ¬ step f f') → Close_returns f = true.
Proof.
  intros E Hno. unfold Close_returns. rewrite E. apply bool_decide_eq_true. unfold waiting.
  destruct (pipes f) as [|[c p] ps] eqn:Ep.
  - destruct (serve f) as [|c|c|] eqn:Es; [..|done]; exfalso.
    + eapply Hno, step_serve. by apply accept_fails.
    + destruct (track f c) as [[] f'] eqn:Et; eapply Hno, step_serve; [by eapply accept_track|by eapply accept_refuse].
    + eapply Hno, step_serve. by apply accept_close.
  - exfalso. destruct (pipe_progress f c p) as (f' & next & Hs). eapply Hno. by apply (step_pipe f [] c p ps f' next).
Qed.

Lemma done_released f : inv f → Close_returns f = true → opened f = ∅ ∧ conns f = ∅ ∧ listening f = false.
Proof.
  intros [Hid Hc Ho Hcl He] [E Hw%bool_decide_eq_true]%andb_true_iff. unfold waiting in Hw.
  destruct (serve f) eqn:Es; try lia. destruct (pipes f) eqn:Ep; [|cbn in Hw; lia].
  unfold ids in Ho. rewrite Es, Ep in Ho. split_and!; [set_solver|set_solver|by apply Hcl].
Qed.

Lemma step_run f f' : rtc step f f' → rtc run_step f f'.
Proof. apply rtc_subrel. intros x y. apply run_own. Qed.

Lemma steps_closed f f' : rtc step f f' → listening f = false → closed f' = closed f.
Proof.
  intros H. induction H as [|f f1 f2 H _ IH]; intros Hl; [done|]. destruct (step_work _ _ H Hl) as (H1 & H2 & _).
  by rewrite IH, H2.
Qed.

(** C36: [Close] always returns. From any reachable interleaving in which it has
    been called, the goroutines take at most [work] further steps, whatever
    clients and servers do; none of them waits for anything outside, as the
    listener and both ends of every session are closed; and when none can move,
    the wait group is at zero and nothing is open or tracked. *)
Theorem Close_terminates f :
  rtc run_step forwardToSocket f → closed f = true →
  (∀ n f', nsteps step n f f' → (n + work f' ≤ work f)%nat) ∧
  ∀ f', rtc step f f' → unblocked f' ∧
    ((∀ f'', ¬ step f' f'') → Close_returns f' = true ∧ opened f' = ∅ ∧ conns f' = ∅).
Proof.
  intros Hr Hc. pose proof (inv_reachable f Hr) as Hi. destruct (inv_closed f Hi Hc) as [Hl _]. split.
  - intros n. clear Hr Hc Hi. revert f Hl. induction n as [|n IH]; intros f Hl f' H; inversion H; subst; [lia|].
    destruct (step_work _ _ ltac:(eassumption) Hl) as (Hl' & _ & Hw). specialize (IH _ Hl' _ ltac:(eassumption)). lia.
  - intros f' H. assert (Hi' : inv f') by (apply inv_reachable; etrans; [exact Hr|by apply step_run]).
    assert (Hc' : closed f' = true) by by rewrite (steps_closed _ _ H Hl).
    split; [by apply inv_unblocked|]. intros Hno. assert (Hd : Close_returns f' = true) by by apply progress.
    split; [done|]. by destruct (done_released f' Hi' Hd) as (? & ? & _).
Qed.

(** While [Close] has not been called every open connection belongs to a
    running goroutine; as soon as it is called no tracked connection and no
    listener is open; a session one of whose ends closed has both closed; and once
    [Close] returned nothing is open, and nothing is ever opened again. *)
Theorem endpoint_released f :
  rtc run_step forwardToSocket f →
  NoDup (ids f) ∧ (∀ c, c ∈ opened f → c ∈ ids f) ∧
  (closed f = true → listening f = false ∧ conns f ## opened f) ∧
  (∀ c s u d, (c, Ending s u d) ∈ pipes f → c ∉ opened f ∧ s ∉ opened f) ∧
  (Close_returns f = true → ∀ f', rtc run_step f f' →
     Close_returns f' = true ∧ opened f' = ∅ ∧ conns f' = ∅ ∧ listening f' = false).
Proof.
  intros Hr. pose proof (inv_reachable f Hr) as Hi. destruct Hi as [Hid Hc Ho Hcl He] eqn:Ei.
  split; [done|]. split; [done|]. split; [done|]. split; [done|]. intros Hd f' H.
  assert (Hf : Close_returns f' = true).
  { clear -Hd H. induction H as [|f f1 f2 H _ IH]; [done|]. apply IH. clear IH.
    unfold Close_returns in *. apply andb_true_iff in Hd as [E Hw%bool_decide_eq_true]. unfold waiting in Hw.
    destruct (serve f) eqn:Es; try lia. destruct (pipes f) eqn:Ep; [|cbn in Hw; lia].
    destruct H as [f' [f'' H|l1 c p l2 f'' next E' _]|].
    - inversion H; congruence.
    - rewrite Ep in E'. by destruct l1.
    - cbn. apply bool_decide_eq_true. unfold waiting. cbn. by rewrite Es, Ep. }
  split; [done|]. apply done_released; [|done]. apply inv_reachable. by etrans.
Qed.

(** ** A session cut short

    A client connects, its session reaches the server, and [Close] is called while
    another client has just been accepted. *)
Definition session_running : socketForwarder :=
  {| listening := true; opened := {[3%nat]} ∪ ({[2%nat]} ∪ ({[1%nat]} ∪ ∅)); conns := {[2%nat]} ∪ ({[1%nat]} ∪ ∅);
     closed := false; serve := Accepted 3%nat; pipes := [(1%nat, Carrying 2%nat false false)] |}.

Lemma session_running_reachable : rtc run_step forwardToSocket session_running.
Proof.
  eapply rtc_l; [apply run_own, step_serve; apply (accept _ 1%nat); [done|done|split_and!; compute_done]|].
  eapply rtc_l; [apply run_own, step_serve; eapply (accept_track _ 1%nat); done|].
  eapply rtc_l; [apply run_own; eapply (step_pipe _ [] 1%nat Dialing []); [done|]; apply (dial _ _ 2%nat); split_and!; compute_done|].
  eapply rtc_l; [apply run_own; eapply (step_pipe _ [] 1%nat (Dialed 2%nat) []); [done|]; by eapply pipe_track|].
  eapply rtc_l; [apply run_own, step_serve; apply (accept _ 3%nat); [done|done|split_and!; compute_done]|].
  apply rtc_refl.
Qed.

Lemma Close_terminates_witness :
  closed (Close_section session_running) = true ∧ work (Close_section session_running) = 16%nat ∧
  unblocked (Close_section session_running).
Proof.
  split; [reflexivity|]. split; [reflexivity|].
  exact (proj1 (proj2 (Close_terminates (Close_section session_running)
    (rtc_r _ _ _ session_running_reachable (run_close session_running)) eq_refl) _ (rtc_refl _ _))).
Defined.

Lemma endpoint_released_witness : conns (Close_section session_running) ## opened (Close_section session_running).
Proof.
  exact (proj2 (proj1 (proj2 (proj2 (endpoint_released (Close_section session_running)
    (rtc_r _ _ _ session_running_reachable (run_close session_running))))) eq_refl)).
Defined.
