(* ===== verification/NixHost.v ===== *)
(** The data of the native runtime ([nixpg.go]): process marks, holder and
    postmaster records, the paths under a run server's root, the options and
    arguments its processes are given, the administrator's connection, and the
    calls the agent makes on the host and on the server. *)
From S2P Require Import Prelude GoStrings Traces Sha256 Timeouts RuntimeRoles Url Json Config.

(** ** Numbers and fields *)

(** [strconv.Atoi] *)
Definition Atoi (s : string) : option Z :=
  let '(neg, digits) := match bytes s with
                        | c :: l => if decide (c = "-"%char) then (true, of_bytes l)
                                    else if decide (c = "+"%char) then (false, of_bytes l) else (false, s)
                        | [] => (false, s)
                        end in
  v ← parse_uint 64 digits;
  let z := if (neg : bool) then - v else v in
  if (min_int64 <=? z) && (z <=? max_int64) then Some z else None.

(** The bytes up to the first white space. *)
Fixpoint to_space (l : list ascii) : list ascii :=
  match l with
  | [] => []
  | c :: l' => match strip_one space_seqs l with Some _ => [] | None => c :: to_space l' end
  end.
(** [strings.Fields(s)[0]] *)
Definition first_field (s : string) : option string :=
  match trim_left_bytes (bytes s) with [] => None | l => Some (of_bytes (to_space l)) end.

(** ** Processes *)

(** What [runners.InspectProcess] reports of a live process. *)
Record ProcessIdentity := { Id_StartID : Z; Id_BootID : string; Executable : string }.

(** [runners.ErrProcessNotFound] and [os.ErrNotExist] *)
Definition ErrProcessNotFound : string := "process not found".
Definition ErrNotExist : string := "file does not exist".

Record processMark := { PID : Z; StartID : Z; BootID : string }.
#[export] Instance processMark_eq_dec : EqDecision processMark.
Proof. solve_decision. Defined.

Definition mark_of (pid : Z) (id : ProcessIdentity) : processMark :=
  {| PID := pid; StartID := Id_StartID id; BootID := Id_BootID id |}.

(** [identity.StartID == m.StartID && identity.BootID == m.BootID] *)
Definition same_birth (m : processMark) (id : ProcessIdentity) : bool :=
  (Id_StartID id =? StartID m) && bool_decide (Id_BootID id = BootID m).

(** What an inspection of the marked PID says: [alive], and its opposite default
    [confirmed]. *)
Definition alive_seen (m : processMark) (seen : result ProcessIdentity) : bool :=
  match seen with Ok id => same_birth m id | Err e => negb (error_is ErrProcessNotFound e) end.
Definition confirmed_seen (m : processMark) (seen : result ProcessIdentity) : bool :=
  match seen with Ok id => same_birth m id | Err _ => false end.

(** [serverHolder] *)
Record serverHolder := { H_Service : string; Agent : processMark; H_Run : option processMark }.
Record postmasterRecord := { Postmaster : processMark; SocketDir : string }.

Definition isPostmasterExecutable (executable : string) : bool :=
  bool_decide (executable = "postgres") || bool_decide (executable = "postmaster").

(** The PID line 1 of a postmaster.pid names; the caller probes it. *)
Definition pid_file_names (data : result string) : option Z :=
  match data with
  | Err _ => None
  | Ok data => field ← first_field data; pid ← Atoi field; if pid <=? 0 then None else Some pid
  end.

(** ** Places

    [filepath.Join] is kept symbolic, so that two places are the same when they
    were joined from the same parts. *)
Inductive place := Under (root : string) (names : list string) | At (name : string).
#[export] Instance place_eq_dec : EqDecision place.
Proof. solve_decision. Defined.
Definition place_string (p : place) : string :=
  match p with Under root names => path_join (root :: names) | At name => name end.

Definition holdersDir (root : string) : place := Under root ["holders"].
Definition holderPath (root name : string) : place := Under root ["holders"; name].
Definition pgdata (root : string) : place := Under root ["pgdata"].
Definition postmasterRecordPath (root : string) : place := Under root ["postmaster.json"].
Definition adminPasswordPath (root : string) : place := Under root ["admin.password"].
Definition logPath (root : string) : place := Under root ["server.log"].
Definition beneath (p : place) (name : string) : place :=
  match p with Under root names => Under root (names ++ [name]) | At q => At (path_join [q; name]) end.

(** ** Identities and names *)

Definition nativeMajor : string := "17".
Definition serverAdminRole : string := "codefly_admin".
Definition serverSocketPort : Z := 5432.
Definition serverMaxConnections : Z := 500.
Definition serverStartSeconds : Z := 60.
Definition serverStopTimeout : Z := 60 * Second.

Definition runServerKey (workspacePath namingScope : string) : string :=
  workspacePath +:+ nul +:+ "naming-scope" +:+ nul +:+ namingScope +:+ nul +:+ "postgres" +:+ nul +:+ nativeMajor.

Definition serviceHash (key : string) : string := sha256_hex key.
Definition hash16 (key : string) : string := of_bytes (take 16 (bytes (serviceHash key))).
Definition holder_name (service : string) : string := hash16 service +:+ ".json".

Definition databaseClaimPrefix : string := "codefly service ".
Definition databaseClaim (service : string) : string := databaseClaimPrefix +:+ service.

(** ** What the processes are given *)

Definition initdbArgs (dataDir passwordFile : string) : list string :=
  ["-D"; dataDir; "-U"; serverAdminRole; "--auth-local=scram-sha-256"; "--auth-host=scram-sha-256";
   "--pwfile=" +:+ passwordFile; "--no-locale"; "-E"; "UTF8"].
Definition startArgs (dataDir log options : string) : list string :=
  ["start"; "-D"; dataDir; "-w"; "-t"; itoa_nat serverStartSeconds; "-l"; log; "-o"; options].

(** White space, newlines, quotes, the backslash, the dollar sign and the back quote. *)
Definition shell_bytes : string := of_bytes (chr <$> [32; 9; 10; 39; 34; 92; 36; 96]).

Definition level_options (lvl : string) : list string :=
  ["-c log_min_messages=" +:+ lvl; "-c log_statement=none"; "-c log_connections=off"; "-c log_disconnections=off"].

Section options.
Context {u : Unicode}.

(** [strings.ToLower(strings.TrimSpace(logLevel))], as runes. *)
Definition lower_level (logLevel : string) : list Z := lower_rune <$> runes (trim_space logLevel).
Definition level_rune (r : Z) : bool := is_lower r || is_digit r.

Definition serverOptions (socketDir logLevel : string) : result string :=
  _ ← guard_err (contains_any socketDir shell_bytes)
        (ENew "postgres socket dir %q cannot be passed to pg_ctl" [socketDir]);
  let options := ["-c listen_addresses=" +:+ of_bytes [chr 39; chr 39]; "-k " +:+ socketDir;
                  "-p " +:+ itoa_nat serverSocketPort; "-c max_connections=" +:+ itoa_nat serverMaxConnections] in
  let lvl := lower_level logLevel in
  options ← (if bool_decide (lvl = []) then Ok options
             else _ ← guard_err (negb (forallb level_rune lvl))
                        (ENew "log-level %q is not a postgres log level" [logLevel]);
                  Ok (options ++ level_options (of_bytes (chr <$> lvl))));
  Ok (join " " options).
End options.

(** The last twenty lines of the server's log. *)
Definition trim_newlines (l : list ascii) : list ascii :=
  reverse (span_bytes (λ c, bool_decide (c = chr 10)) (reverse l)).2.
Definition logTail (root : string) (log : result string) : string :=
  match log with
  | Err _ | Ok "" => ""
  | Ok data =>
    let newline := of_bytes [chr 10] in
    let lines := split_on (chr 10) (of_bytes (trim_newlines (bytes data))) in
    newline +:+ "server log (" +:+ place_string (logPath root) +:+ "):" +:+ newline
      +:+ join newline (drop (length lines - 20) lines)
  end.

(** ** The administrator's connection *)

Definition admin_query (socketDir : string) : Values :=
  query_set (query_set (query_set ∅ "host" socketDir) "port" (itoa_nat serverSocketPort)) "sslmode" "disable".
Definition adminDSN (adminPassword socketDir database : string) : string :=
  URL_String (authority_url "postgresql" {| username := serverAdminRole; user_password := Some adminPassword |} "" database
                (Encode (admin_query socketDir))).

Definition withConnectTimeout (dsn : string) (budget : Z) : result string :=
  match Parse dsn with
  | Err e => Err (EWrap "cannot parse postgres connection string: %w" [] e)
  | Ok parsed => Ok (URL_String (set_query parsed
      (query_set (Query parsed) "connect_timeout" (itoa (Z.quot budget Second)))))
  end.

Definition socketPath (socketDir : string) : string :=
  path_join [socketDir; ".s.PGSQL." +:+ itoa_nat serverSocketPort].

(** ** The build of postgres *)

Section builds.
Context (Stat : string → bool).

Definition hasFiles (dir : string) (names : list string) : bool := forallb (λ name, Stat (path_join [dir; name])) names.
Definition vectorControl (binDir : string) : string :=
  path_join [path_dir binDir; "share"; "postgresql"; "extension"; "vector.control"].
Definition complete_build (binDir : string) : bool := hasFiles binDir ["postgres"; "pg_ctl"].

Fixpoint choose_build (fallback : string) (matches : list string) : string :=
  match matches with
  | [] => fallback
  | m :: matches =>
    let binDir := path_dir m in
    if negb (complete_build binDir) then choose_build fallback matches
    else if Stat (vectorControl binDir) then binDir
    else choose_build (if bool_decide (fallback = "") then binDir else fallback) matches
  end.

Definition resolveBinDir (glob : result (list string)) : result string :=
  matches ← wrap_err "glob nix postgres: %w" [] glob;
  let chosen := choose_build "" matches in
  _ ← guard_err (bool_decide (chosen = ""))
        (ENew "no nix postgresql-%s with initdb, pg_ctl and postgres found in /nix/store (materialization may have failed)" [nativeMajor]);
  Ok chosen.
End builds.

(** ** Calls *)

Record entry := { e_name : string; e_dir : bool }.

(** The statements of [restrictMaintenanceDatabases] and [provisionDatabase]. *)
Inductive nstatement :=
  | RevokeMaintenance (database : string)
  | CreateRole (owner : string)
  | AlterRole (owner password : string)      (* LOGIN NOSUPERUSER CREATEROLE CREATEDB NOREPLICATION NOBYPASSRLS *)
  | CreateDatabase (database owner : string)
  | CommentDatabase (database marker : string)
  | OwnerTo (database owner : string)
  | RevokePublic (database : string).

(** A claim on a database: its comment and its owner. *)
Definition claim : Type := option string * string.

Inductive Signal := SIGINT | SIGQUIT.

(** Each call, with what it answered where the protocol depends on it. *)
Inductive ncall :=
  | MkdirAll (p : place)
  | WriteFile (p : place) (content : string)
  | ReadFile (p : place) (seen : result string)
  | ReadDir (p : place) (seen : result (list entry))
  | Stat (p : place)
  | Remove (p : place)
  | RemoveAll (p : place)
  | MkdirTemp (pattern : string) (seen : result string)
  | Chmod (p : place)
  | CreateTemp (dir : place) (pattern : string) (seen : result string)
  | ChmodTemp (name : string)
  | WriteTemp (name content : string)
  | CloseTemp (name : string)
  | Rename (name : string) (p : place)
  | NewNixEnvironment (p : place)
  | NixInit (ctx : Context)
  | NewProcess (bin : string) (args : list string)
  | RunProcess (ctx : Context) (bin : string) (args : list string)
  | RandRead (seen : result string)
  | InspectProcess (pid : Z) (seen : result ProcessIdentity)
  | Probe (pid : Z)                                   (* signal 0 *)
  | SignalProcess (pid : Z) (identity : ProcessIdentity) (signal : Signal)
  | Sleep (d : Z)
  | Glob (seen : result (list string))
  | TryLock (root : string)
  | TryLockContext (ctx : Context) (root : string)
  | Unlock (root : string)
  | SqlOpen (dsn : string)
  | SqlClose
  | Ping (ctx : Context)
  | NExec (ctx : Context) (s : nstatement)
  | QueryClaim (ctx : Context) (database : string) (seen : result claim)
  | QueryOwner (ctx : Context) (owner : string) (seen : result (bool * bool))
  | CloseForwarder.

(** The host: its constants, the encoding of the records, and how it answers
    knowing the calls before. *)
Class NixHost := {
  servers_dir : result string;                        (* [runServersDir] *)
  flake_nix : string;
  flake_lock : string;
  getpid : Z;
  getppid : Z;
  Unmarshal_record : string → option postmasterRecord;
  Marshal_record : postmasterRecord → result string;
  Unmarshal_holder : string → option serverHolder;
  Marshal_holder : serverHolder → result string;
  does : trace ncall → ncall → result unit;
  locks : trace ncall → ncall → result bool;
  reads : trace ncall → place → result string;
  lists : trace ncall → place → result (list entry);
  temp_name : trace ncall → string → result string;
  random : trace ncall → result string;               (* 32 bytes *)
  inspects : trace ncall → Z → result ProcessIdentity;
  stats : trace ncall → string → bool;
  globs : trace ncall → result (list string);
  query_claim : trace ncall → string → result claim;
  query_owner : trace ncall → string → result (bool * bool);
}.

Section calls.
Context {host : NixHost}.

Definition ask (c : ncall) : io (trace ncall) unit := call does c.
Definition readFile (p : place) : io (trace ncall) string := inquire (λ tr, reads tr p) (ReadFile p).
Definition inspectProcess (pid : Z) : io (trace ncall) ProcessIdentity :=
  inquire (λ tr, inspects tr pid) (InspectProcess pid).

(** [errors.Is(err, os.ErrNotExist)] accepted: is the file gone? *)
Definition is_gone (r : result unit) : bool :=
  match r with Ok _ => true | Err e => error_is ErrNotExist e end.
Definition remove (p : place) : io (trace ncall) unit := observe is_gone does (Remove p).

Definition unlisted {A} (m : io (trace ncall) A) : io (trace ncall) unit := _ ← io_try m; mret tt.
End calls.

(** ** The administrator's connection reads back *)

Lemma admin_query_proper socketDir : proper_values (admin_query socketDir).
Proof. do 3 apply proper_set. apply proper_empty. Qed.

Lemma Parse_admin_url ui database q :
  proper_values q →
  Parse (URL_String (authority_url "postgresql" ui "" database (Encode q)))
  = Ok (authority_url "postgresql" ui "" database (Encode q)).
Proof. intros Hq. apply Parse_URL_String; [done|done|by left|apply Encode_in_query]. Qed.

(** The administrator's connection of a run's server, bounded by a connect timeout,
    reads back as a URL without host that names the administrator and the database,
    whatever bytes the password, the socket directory and the database's name hold,
    with exactly the private socket, its port, no TLS and the timeout as parameters. *)
Theorem admin_connection password socketDir database budget :
  ∃ dsn parsed, withConnectTimeout (adminDSN password socketDir database) budget = Ok dsn ∧
    Parse dsn = Ok parsed ∧
    User parsed = Some {| username := serverAdminRole; user_password := Some password |} ∧
    Host parsed = "" ∧ Path parsed = "/" +:+ database ∧
    ParseQuery (RawQuery parsed) = Ok (<["connect_timeout" := [itoa (Z.quot budget Second)]]>
      (<["sslmode" := ["disable"]]> (<["port" := ["5432"]]> {["host" := [socketDir]]}))).
Proof.
  set (q := query_set (admin_query socketDir) "connect_timeout" (itoa (Z.quot budget Second))).
  assert (Hq : proper_values q) by (apply proper_set, admin_query_proper).
  set (ui := {| username := serverAdminRole; user_password := Some password |}).
  exists (URL_String (authority_url "postgresql" ui "" database (Encode q))), (authority_url "postgresql" ui "" database (Encode q)).
  split_and!; [|by apply Parse_admin_url|done..|].
  - unfold withConnectTimeout, adminDSN. rewrite Parse_admin_url by apply admin_query_proper.
    unfold Query. cbn [RawQuery authority_url]. rewrite parse_query_Encode by apply admin_query_proper. done.
  - cbn [RawQuery authority_url]. rewrite ParseQuery_Encode by done. done.
Qed.

(** ** The words of pg_ctl's options *)

Section words.
Context {u : Unicode}.

Definition option_words (socketDir : string) (lvl : list Z) : list string :=
  ["-c"; "listen_addresses=" +:+ of_bytes [chr 39; chr 39]; "-k"; socketDir; "-p"; "5432"; "-c"; "max_connections=500"]
  ++ (if bool_decide (lvl = []) then []
      else ["-c"; "log_min_messages=" +:+ of_bytes (chr <$> lvl); "-c"; "log_statement=none";
            "-c"; "log_connections=off"; "-c"; "log_disconnections=off"]).

Lemma no_blank_dir dir : contains_any dir shell_bytes = false → blank_byte ∉ bytes dir.
Proof.
  unfold contains_any. intros H Hin. apply Forall_existsb_false in H. rewrite Forall_forall in H.
  specialize (H _ Hin). by vm_compute in H.
Qed.
Lemma no_blank_level lvl : forallb level_rune lvl = true → blank_byte ∉ bytes (of_bytes (chr <$> lvl)).
Proof.
  rewrite bytes_of_bytes. intros H (r & Hr & Hin)%list_elem_of_fmap.
  rewrite Forall_forallb, Forall_forall in H. specialize (H _ Hin). apply (f_equal code) in Hr.
  unfold level_rune, is_lower, is_digit, in_range in H.
  assert (E : code (chr r) = r) by (apply code_chr; lia). rewrite E in Hr. change (code blank_byte) with 32 in Hr. lia.
Qed.

(** Options that are accepted reach pg_ctl, and so postgres, as exactly these words
    whatever the socket directory and the log level are: splitting them at blanks
    gives no listener, the private directory, the port, the connection budget and, for
    a level, the four settings that quieten the server. *)
Theorem serverOptions_words socketDir logLevel options :
  serverOptions socketDir logLevel = Ok options →
  split_on blank_byte options = option_words socketDir (lower_level logLevel).
Proof.
  unfold serverOptions. rewrite bind_ok. intros ([] & Hd%guard_ok & H).
  assert (E : options = join " " (option_words socketDir (lower_level logLevel))
              ∧ forallb level_rune (lower_level logLevel) = true).
  { unfold option_words. destruct (bool_decide (lower_level logLevel = [])) eqn:El.
    - apply bool_decide_eq_true in El. rewrite El. split; [|done]. injection H as <-. reflexivity.
    - apply bind_ok in H as (os & (? & Hl%guard_ok%negb_false_iff & [= <-])%bind_ok & [= <-]).
      split; [reflexivity|done]. }
  destruct E as [-> Hl]. apply split_on_join; [by unfold option_words; case_bool_decide|].
  unfold option_words. apply no_blank_dir in Hd. apply no_blank_level in Hl.
  assert (Hlit : ∀ s, bool_decide (blank_byte ∉ bytes s) = true → blank_byte ∉ bytes s) by (intros s; apply bool_decide_eq_true).
  repeat (constructor; [first [done|apply Hlit; reflexivity]|]).
  case_bool_decide; [constructor|].
  repeat (constructor; [first [apply Hlit; reflexivity|rewrite bytes_app, elem_of_app; by intros [?%Hlit|?]]|]).
  constructor.
Qed.
End words.

Lemma serverOptions_words_witness :
  ∃ options, serverOptions (u := ascii_unicode) "/tmp/cfpg-1" " Warning " = Ok options ∧
    split_on blank_byte options = option_words "/tmp/cfpg-1" (lower_level (u := ascii_unicode) " Warning ").
Proof. eexists. split; [vm_compute; reflexivity|]. apply (serverOptions_words (u := ascii_unicode)). vm_compute. reflexivity. Defined.

(** The guard passes bytes that a shell does not take for part of a word. *)
Example serverOptions_metacharacters :
  serverOptions (u := ascii_unicode) "/tmp/a;b&c|d(e)<f>" "" = Ok ("-c listen_addresses=" +:+ of_bytes [chr 39; chr 39]
    +:+ " -k /tmp/a;b&c|d(e)<f> -p 5432 -c max_connections=500").
Proof. reflexivity. Qed.
