(* ===== verification/NixServer.v ===== *)
(** One agent's use of its run's postgres server ([nixpg.go]): the lock, the holder
    records, the postmaster's record, starting and stopping the server, the
    collection of abandoned ones, and the database each service is given.  The host
    and the server answer the calls of a trace. *)
From S2P Require Import Prelude GoStrings Traces Timeouts RuntimeRoles Url Json Config NixHost.

(** An agent's attachment; an empty holder path is [None], and [watching] is the
    postmaster [watch] supervises. *)
Record nixPostgres := {
  root : string;
  dataDir : place;
  socketDir : string;
  adminPassword : string;
  holder : option place;
  forwarder : bool;
  watching : option processMark;
}.
Definition with_socket (n : nixPostgres) (s : string) : nixPostgres :=
  {| root := root n; dataDir := dataDir n; socketDir := s; adminPassword := adminPassword n;
     holder := holder n; forwarder := forwarder n; watching := watching n |}.
Definition with_password (n : nixPostgres) (s : string) : nixPostgres :=
  {| root := root n; dataDir := dataDir n; socketDir := socketDir n; adminPassword := s;
     holder := holder n; forwarder := forwarder n; watching := watching n |}.
Definition with_holder (n : nixPostgres) (h : option place) : nixPostgres :=
  {| root := root n; dataDir := dataDir n; socketDir := socketDir n; adminPassword := adminPassword n;
     holder := h; forwarder := forwarder n; watching := watching n |}.
Definition with_watch (n : nixPostgres) (w : option processMark) : nixPostgres :=
  {| root := root n; dataDir := dataDir n; socketDir := socketDir n; adminPassword := adminPassword n;
     holder := holder n; forwarder := forwarder n; watching := w |}.
Definition without_forwarder (n : nixPostgres) : nixPostgres :=
  {| root := root n; dataDir := dataDir n; socketDir := socketDir n; adminPassword := adminPassword n;
     holder := holder n; forwarder := false; watching := watching n |}.
Definition n_adminDSN (n : nixPostgres) (database : string) : string := adminDSN (adminPassword n) (socketDir n) database.

Section server.
Context {host : NixHost} {u : Unicode} `{!Clock (trace ncall)}.
#[local] Abbreviation prog := (io (trace ncall)).

(** ** Processes *)

Definition markProcess (pid : Z) : prog processMark :=
  identity ← inspectProcess pid; mret (mark_of pid identity).
Definition alive (m : processMark) : prog bool :=
  r ← io_try (inspectProcess (PID m)); mret (alive_seen m r).
Definition confirmed (m : processMark) : prog bool :=
  r ← io_try (inspectProcess (PID m)); mret (confirmed_seen m r).

Definition holder_alive (h : serverHolder) : prog bool :=
  agent ← alive (Agent h);
  if negb agent then mret false
  else match H_Run h with None => mret true | Some run => alive run end.

Definition processAlive (pid : Z) : prog bool :=
  r ← io_try (ask (Probe pid)); mret (is_ok r).

(** ** The lock *)

Definition is_locked (r : result bool) : bool := match r with Ok b => b | Err _ => false end.
Definition lockRunServer (ctx : Context) (root : string) : prog unit :=
  locked ← io_wrap "lock the run's postgres server: %w" [] (observe is_locked locks (TryLockContext ctx root));
  io_guard (negb locked) (ENew "lock the run's postgres server: not acquired" []).

(** [unlock, err := lockRunServer(ctx, root)] and [defer unlock()]. *)
Definition locking {A} (ctx : Context) (root : string) (m : prog A) : prog A :=
  _ ← lockRunServer ctx root; io_finally m (ask (Unlock root)).

(** ** Owner-only files *)

(** [defer os.Remove(name)] *)
Definition writeOwnerOnly (p : place) (content : string) : prog unit :=
  let '(dir, base) := match p with
                      | Under r names => (Under r (take (length names - 1) names), default "" (last names))
                      | At q => (At (path_dir q), path_base q)
                      end in
  let pattern := "." +:+ base +:+ "-*" in
  name ← inquire (λ tr, temp_name tr pattern) (CreateTemp dir pattern);
  let closing m := r ← io_try m;
                   match r with
                   | Ok _ => mret tt
                   | Err e => _ ← unlisted (ask (CloseTemp name)); io_fail e
                   end in
  io_finally
    (_ ← closing (ask (ChmodTemp name));
     _ ← closing (ask (WriteTemp name content));
     _ ← ask (CloseTemp name);
     ask (Rename name p))
    (unlisted (remove (At name))).

(** ** The postmaster's record and its pid file *)

Definition decode_record (seen : result string) : option postmasterRecord :=
  match seen with
  | Err _ => None
  | Ok data => record ← Unmarshal_record data; if PID (Postmaster record) <=? 0 then None else Some record
  end.
Definition readPostmasterRecord (root : string) : prog (option postmasterRecord) :=
  r ← io_try (readFile (postmasterRecordPath root)); mret (decode_record r).

Definition writePostmasterRecord (root : string) (record : postmasterRecord) : prog unit :=
  data ← io_lift (Marshal_record record); writeOwnerOnly (postmasterRecordPath root) data.

Definition forgetPostmasterRecord (root : string) (recorded : bool) : prog unit :=
  if recorded then unlisted (remove (postmasterRecordPath root)) else mret tt.

Definition pidFile (dataDir : place) : place := beneath dataDir "postmaster.pid".

Definition postmasterPidFileOwner (pidPath : place) : prog (option Z) :=
  data ← io_try (readFile pidPath);
  match pid_file_names data with
  | None => mret None
  | Some pid => live ← processAlive pid; mret (if (live : bool) then Some pid else None)
  end.

Definition held_error (dataDir : place) (record : option postmasterRecord) : error :=
  match record with
  | Some _ => ENew "the postgres server at %s is held by pid %d, which is not the postmaster this run started (pid %d): stop it before running again" [place_string dataDir]
  | None => ENew "the postgres server at %s is held by pid %d, which this run did not start: stop it before running again" [place_string dataDir]
  end.

Definition clearDisownedPostmasterPid (dataDir : place) (record : option postmasterRecord) : prog unit :=
  let pidPath := pidFile dataDir in
  owner ← postmasterPidFileOwner pidPath;
  match owner with
  | None =>
    r ← io_try (remove pidPath);
    match r with
    | Ok _ => mret tt
    | Err e => if error_is ErrNotExist e then mret tt
               else io_fail (EWrap "remove the stale postgres lock file %s: %w" [place_string pidPath] e)
    end
  | Some pid =>
    r ← io_try (inspectProcess pid);
    match r with
    | Err e =>
      if error_is ErrProcessNotFound e then remove pidPath
      else io_fail (EWrap "inspect the process holding %s (pid %d): %w" [place_string pidPath] e)
    | Ok identity =>
      _ ← io_guard (isPostmasterExecutable (Executable identity)) (held_error dataDir record);
      remove pidPath
    end
  end.

(** The record of the run's live server, or none once the cluster can be started. *)
Definition attachedPostmaster (root : string) (dataDir : place) : prog (option postmasterRecord) :=
  record ← readPostmasterRecord root;
  live ← match record with Some r => alive (Postmaster r) | None => mret false end;
  match record with
  | Some r => if live && negb (bool_decide (SocketDir r = "")) then mret (Some r)
              else _ ← clearDisownedPostmasterPid dataDir record; mret None
  | None => _ ← clearDisownedPostmasterPid dataDir record; mret None
  end.

(** ** The administrator's password and the cluster *)

Definition readAdminPassword (root : string) : prog string :=
  data ← io_wrap "read the run server's administrator password (remove %s to start this run's databases over): %w" [root]
           (readFile (adminPasswordPath root));
  let password := trim_space data in
  _ ← io_guard (bool_decide (password = ""))
        (ENew "the run server's administrator password at %s is empty" [place_string (adminPasswordPath root)]);
  mret password.

(** [env.NewProcess] and [proc.Run]. *)
Definition run_process (ctx : Context) (bin : string) (args : list string) (message : string) (tail : list string) : prog unit :=
  _ ← ask (NewProcess bin args);
  io_wrap message tail (ask (RunProcess ctx bin args)).

Definition initdbIfNeeded (n : nixPostgres) (ctx : Context) (binDir : string) : prog unit :=
  r ← io_try (ask (Stat (beneath (dataDir n) "PG_VERSION")));
  if is_ok r then mret tt else
  _ ← io_wrap "clear an uninitialized data dir: %w" [] (ask (RemoveAll (dataDir n)));
  _ ← io_wrap "create data dir: %w" [] (ask (MkdirAll (dataDir n)));
  secret ← io_wrap "generate the run server's administrator password: %w" [] (inquire random RandRead);
  _ ← io_wrap "write the run server's administrator password: %w" []
        (writeOwnerOnly (adminPasswordPath (root n)) (Sha256.hex secret +:+ of_bytes [chr 10]));
  run_process ctx (path_join [binDir; "initdb"])
    (initdbArgs (place_string (dataDir n)) (place_string (adminPasswordPath (root n)))) "initdb: %w" [].

Definition maintenance : list nstatement := [RevokeMaintenance "postgres"; RevokeMaintenance "template1"].
Definition exec_saying (ctx : Context) (message : string) (args : list string) (s : nstatement) : prog unit :=
  io_wrap message args (ask (NExec ctx s)).

(** [sql.Open] and [defer db.Close()]. *)
Definition opened {A} (dsn : string) (m : prog A) : prog A :=
  _ ← ask (SqlOpen dsn); io_finally m (ask SqlClose).

Definition restrictMaintenanceDatabases (n : nixPostgres) (ctx : Context) (socketDir : string) : prog nixPostgres :=
  let n := with_socket n socketDir in
  password ← readAdminPassword (root n);
  let n := with_password n password in
  _ ← opened (n_adminDSN n "postgres")
        (io_each (exec_saying ctx "restrict the run server's maintenance databases: %w" []) maintenance);
  mret n.

(** ** Holders *)

Definition holder_entry (e : entry) : bool := negb (e_dir e) && has_suffix (e_name e) ".json".
Definition decode_holder (data : result string) : option serverHolder :=
  match data with Ok data => Unmarshal_holder data | Err _ => None end.

(** [err == nil && json.Unmarshal(data, &holder) == nil && holder.alive()] *)
Definition record_alive (root name : string) : prog bool :=
  data ← io_try (readFile (holderPath root name));
  match decode_holder data with Some h => holder_alive h | None => mret false end.

(** The live ones among the holder records; the others are removed. *)
Fixpoint prune_each (root : string) (names : list string) : prog nat :=
  match names with
  | [] => mret 0%nat
  | name :: names =>
    live ← record_alive root name;
    _ ← (if (live : bool) then mret tt else unlisted (remove (holderPath root name)));
    rest ← prune_each root names;
    mret ((if (live : bool) then 1 else 0) + rest)%nat
  end.
Definition pruneHolders (root : string) : prog nat :=
  r ← io_try (inquire (λ tr, lists tr (holdersDir root)) (ReadDir (holdersDir root)));
  match r with
  | Ok entries => prune_each root (e_name <$> filter holder_entry entries)
  | Err e => if error_is ErrNotExist e then mret 0%nat
             else io_fail (EWrap "read the run server's holders: %w" [] e)
  end.

Definition register (n : nixPostgres) (service : string) : prog nixPostgres :=
  agent ← io_wrap "inspect this agent: %w" [] (markProcess getpid);
  run ← (if 1 <? getppid then r ← io_try (markProcess getppid); mret (match r with Ok run => Some run | Err _ => None end)
         else mret None);
  data ← io_lift (Marshal_holder {| H_Service := service; Agent := agent; H_Run := run |});
  let path := holderPath (root n) (holder_name service) in
  _ ← writeOwnerOnly path data;
  mret (with_holder n (Some path)).

(** ** Stopping *)

Definition not_ours : error := EWrap "postgres server %d is no longer the process this run started: %w" [] (ENew ErrProcessNotFound []).
Definition signalPostmaster (postmaster : processMark) (signal : Signal) : prog unit :=
  identity ← inspectProcess (PID postmaster);
  _ ← io_guard (negb (same_birth postmaster identity)) not_ours;
  ask (SignalProcess (PID postmaster) identity signal).

Definition wait_interval : Z := 100 * 1000000.
Fixpoint wait_loop (fuel : nat) (postmaster : processMark) (deadline : Z) : prog (option bool) :=
  match fuel with
  | O => mret None
  | S fuel =>
    now ← io_get;
    here ← confirmed postmaster;
    if clock now <? deadline then
      if negb here then mret (Some true)
      else _ ← unlisted (ask (Sleep wait_interval)); wait_loop fuel postmaster deadline
    else mret (Some (negb here))
  end.
(** The turns a budget affords. *)
Definition turns (budget : Z) : nat := Z.to_nat (budget / wait_interval) + 2.
Definition waitGone (postmaster : processMark) (budget : Z) : prog bool :=
  now ← io_get;
  r ← wait_loop (turns budget) postmaster (clock now + budget);
  match r with Some gone => mret gone | None => io_fail (ENew "fuel" []) end.

Definition forget_server (record : postmasterRecord) (root : string) (dataDir : place) : prog bool :=
  _ ← (if has_prefix (path_base (SocketDir record)) "cfpg-" then unlisted (ask (RemoveAll (At (SocketDir record))))
       else mret tt);
  _ ← forgetPostmasterRecord root true;
  _ ← unlisted (remove (pidFile dataDir));
  mret true.

Definition stop_recorded (record : postmasterRecord) (root : string) (dataDir : place) : prog bool :=
  interrupted ← io_try (signalPostmaster (Postmaster record) SIGINT);
  match interrupted with
  | Err err =>
    here ← confirmed (Postmaster record);
    if negb here then _ ← forgetPostmasterRecord root true; mret false
    else io_fail (EWrap "stop the run's postgres server (pid %d): %w" [] err)
  | Ok _ =>
    gone ← waitGone (Postmaster record) serverStopTimeout;
    _ ← (if (gone : bool) then mret tt
         else _ ← unlisted (signalPostmaster (Postmaster record) SIGQUIT);
              gone ← waitGone (Postmaster record) (10 * Second);
              io_guard (negb gone) (ENew "the run's postgres server (pid %d) did not stop" []));
    forget_server record root dataDir
  end.

Definition stopServer (root : string) (dataDir : place) : prog bool :=
  record ← readPostmasterRecord root;
  match record with
  | None => mret false
  | Some record =>
    here ← confirmed (Postmaster record);
    if negb here then _ ← forgetPostmasterRecord root true; mret false
    else stop_recorded record root dataDir
  end.

Definition collect_one (root : string) : prog unit :=
  r ← io_try (observe is_locked locks (TryLock root));
  if negb (is_locked r) then mret tt else
  live ← io_try (pruneHolders root);
  _ ← match live with
      | Ok O => unlisted (stopServer root (pgdata root))
      | _ => mret tt
      end;
  unlisted (ask (Unlock root)).

(** [ctx.Err() != nil] *)
Definition ctx_done (ctx : Context) : prog bool := now ← io_get; mret (bool_decide (is_Some (ctx_Err ctx now))).

Definition collect_entry (ctx : Context) (servers self : string) (e : entry) : prog unit :=
  let root := path_join [servers; e_name e] in
  if negb (e_dir e) || bool_decide (root = self) then mret tt else
  finished ← ctx_done ctx;
  if (finished : bool) then mret tt else collect_one root.

Definition collectAbandonedServers (ctx : Context) (servers self : string) : prog unit :=
  r ← io_try (inquire (λ tr, lists tr (At servers)) (ReadDir (At servers)));
  match r with
  | Err _ => mret tt
  | Ok entries => io_each (collect_entry ctx servers self) entries
  end.

(** ** Starting *)

(** [if err != nil { _ = os.RemoveAll(dir); return err }] *)
Definition removing {A} (dir : place) (m : prog A) : prog A :=
  r ← io_try m;
  match r with Ok a => mret a | Err e => _ ← unlisted (ask (RemoveAll dir)); io_fail e end.

Definition prepare_nix (n : nixPostgres) (ctx : Context) : prog string :=
  let flakeDir := Under (root n) ["nix"] in
  _ ← io_wrap "create nix flake dir: %w" [] (ask (MkdirAll flakeDir));
  _ ← io_wrap "write flake.nix: %w" [] (ask (WriteFile (beneath flakeDir "flake.nix") flake_nix));
  _ ← io_wrap "write flake.lock: %w" [] (ask (WriteFile (beneath flakeDir "flake.lock") flake_lock));
  _ ← io_wrap "nix environment (is nix installed?): %w" [] (ask (NewNixEnvironment flakeDir));
  _ ← io_wrap "materialize nix postgres env: %w" [] (ask (NixInit ctx));
  matches ← io_try (inquire globs Glob);
  now ← io_get;
  io_lift (resolveBinDir (stats now) matches).

(** [pg_ctl start], its failure told with the end of the server's log. *)
Definition launch (n : nixPostgres) (ctx : Context) (binDir socketDir options : string) : prog unit :=
  let args := startArgs (place_string (dataDir n)) (place_string (logPath (root n))) options in
  let pg_ctl := path_join [binDir; "pg_ctl"] in
  _ ← removing (At socketDir) (ask (NewProcess pg_ctl args));
  r ← io_try (ask (RunProcess ctx pg_ctl args));
  match r with
  | Ok _ => mret tt
  | Err err =>
    _ ← unlisted (ask (RemoveAll (At socketDir)));
    log ← io_try (readFile (logPath (root n)));
    io_fail (EWrap "start the run's postgres server: %w%s" [logTail (root n) log] err)
  end.

Definition start (n : nixPostgres) (ctx : Context) (logLevel : string) : prog (nixPostgres * postmasterRecord) :=
  binDir ← prepare_nix n ctx;
  _ ← initdbIfNeeded n ctx binDir;
  let pattern := "cfpg-" +:+ of_bytes (take 8 (bytes (path_base (root n)))) +:+ "-" in
  socketDir ← io_wrap "create postgres socket dir: %w" [] (inquire (λ tr, temp_name tr pattern) (MkdirTemp pattern));
  _ ← removing (At socketDir) (io_wrap "secure postgres socket dir: %w" [] (ask (Chmod (At socketDir))));
  options ← removing (At socketDir) (io_lift (serverOptions socketDir logLevel));
  _ ← launch n ctx binDir socketDir options;
  owner ← postmasterPidFileOwner (pidFile (dataDir n));
  pid ← match owner with
        | Some pid => mret pid
        | None => io_fail (ENew "postgres reported started but %s names no live postmaster; see %s"
                     [place_string (pidFile (dataDir n)); place_string (logPath (root n))])
        end;
  postmaster ← io_wrap "inspect the run's postmaster (pid %d): %w" [] (markProcess pid);
  let record := {| Postmaster := postmaster; SocketDir := socketDir |} in
  _ ← io_wrap "record the run's postmaster: %w" [] (writePostmasterRecord (root n) record);
  n ← restrictMaintenanceDatabases n ctx socketDir;
  mret (n, record).

Definition ping_timeout : Z := 10 * Second.
Definition ping (n : nixPostgres) (ctx : Context) : prog unit :=
  opened (n_adminDSN n "postgres") (now ← io_get; ask (Ping (WithTimeout ctx ping_timeout now))).

(** ** Acquiring *)

(** A server this call starts and then cannot hand out is stopped. *)
Definition stopping_if {A} (started : bool) (root : string) (dataDir : place) (m : prog A) : prog A :=
  r ← io_try m;
  match r with
  | Ok a => mret a
  | Err e => _ ← (if started then unlisted (stopServer root dataDir) else mret tt); io_fail e
  end.

Definition attach (n : nixPostgres) (ctx : Context) (service : string) (record : postmasterRecord) : prog nixPostgres :=
  let n := with_socket n (SocketDir record) in
  password ← readAdminPassword (root n);
  let n := with_password n password in
  _ ← io_wrap "the run's postgres server (pid %d) does not answer on %s: %w; see %s"
        [socketDir n; place_string (logPath (root n))] (ping n ctx);
  n ← register n service;
  mret (with_watch n (Some (Postmaster record))).

Definition acquire_locked (root : string) (ctx : Context) (service logLevel : string) : prog nixPostgres :=
  let n := {| root := root; dataDir := pgdata root; socketDir := ""; adminPassword := ""; holder := None;
              forwarder := false; watching := None |} in
  live ← pruneHolders root;
  record ← attachedPostmaster root (dataDir n);
  match record with
  | Some record => attach n ctx service record
  | None =>
    stopping_if (bool_decide (live = 0%nat)) root (dataDir n)
      ('(n, record) ← start n ctx logLevel; attach n ctx service record)
  end.

Definition acquireRunServer (ctx : Context) (key service logLevel : string) : prog nixPostgres :=
  servers ← io_lift servers_dir;
  let root := path_join [servers; hash16 key] in
  _ ← io_wrap "create run server directory: %w" [] (ask (MkdirAll (holdersDir root)));
  _ ← collectAbandonedServers ctx servers root;
  locking ctx root (acquire_locked root ctx service logLevel).

(** ** Releasing *)

Definition err_of {A} (r : result A) : option error := match r with Ok _ => None | Err e => Some e end.
Definition outcome : Type := (bool * option error) * nixPostgres.

Definition release_locked (n : nixPostgres) (forwardErr : option error) : prog outcome :=
  let failed n (err : option error) : prog outcome := mret ((false, errors_join [forwardErr; err]), n) in
  removed ← match holder n with Some p => io_try (remove p) | None => mret (Ok tt) end;
  if negb (is_gone removed) then failed n (err_of removed) else
  let n := with_holder n None in
  live ← io_try (pruneHolders (root n));
  match live with
  | Err e => failed n (Some e)
  | Ok (S _) => failed n None
  | Ok O =>
    stopped ← io_try (stopServer (root n) (dataDir n));
    mret ((match stopped with Ok b => b | Err _ => false end, errors_join [forwardErr; err_of stopped]), n)
  end.

Definition release (n : nixPostgres) (ctx : Context) : prog outcome :=
  let n := with_watch n None in
  forwardErr ← (if forwarder n then r ← io_try (ask CloseForwarder); mret (err_of r) else mret None);
  let n := without_forwarder n in
  if bool_decide (root n = "") then mret ((false, forwardErr), n) else
  r ← io_try (locking ctx (root n) (release_locked n forwardErr));
  match r with
  | Ok o => mret o
  | Err e => mret ((false, errors_join [forwardErr; Some e]), n)
  end.

(** ** One service's database *)

Definition ErrNoRows : string := "sql: no rows in result set".

(** Whether the database is to be created and whether it has been claimed, unless
    it is another service's. *)
Definition check_claim (service database owner : string) (found : result claim) : result (bool * bool) :=
  match found with
  | Err e => if error_is ErrNoRows e then Ok (true, false) else Err (EWrap "look up database %q: %w" [database] e)
  | Ok (claimed, currentOwner) =>
    _ ← guard_err (negb (bool_decide (currentOwner = owner)))
          (ENew "database %q on this run's postgres server is owned by %q, not by %s's migration owner: give each service of a run its own database-name" [database; currentOwner; service]);
    match claimed with
    | None => Ok (false, false)
    | Some c =>
      _ ← guard_err (negb (bool_decide (c = databaseClaim service)))
            (ENew "database %q on this run's postgres server belongs to %s, not %s: give each service of a run its own database-name" [database; trim_prefix c databaseClaimPrefix; service]);
      Ok (false, true)
    end
  end.

Definition provision_open (ctx : Context) (service database owner password : string) : prog unit :=
  found ← io_try (inquire (λ tr, query_claim tr database) (QueryClaim ctx database));
  '(createDatabase, claimed) ← io_lift (check_claim service database owner found);
  '(exists_, granted) ← io_wrap "look up the migration owner: %w" []
                          (inquire (λ tr, query_owner tr owner) (QueryOwner ctx owner));
  _ ← io_guard (granted : bool)
        (ENew "migration owner %q on this run's postgres server is granted to another role, so it was not created for %s: remove it, or give this service its own database-name" [owner; service]);
  _ ← (if exists_ : bool then mret tt else exec_saying ctx "create the migration owner: %w" [] (CreateRole owner));
  _ ← exec_saying ctx "configure the migration owner: %w" [] (AlterRole owner password);
  _ ← (if createDatabase : bool then exec_saying ctx "create database %q: %w" [database] (CreateDatabase database owner)
       else mret tt);
  _ ← (if claimed : bool then mret tt
       else exec_saying ctx "record database %q's service: %w" [database] (CommentDatabase database (databaseClaim service)));
  io_each (exec_saying ctx "restrict database %q to its service: %w" [database])
    [OwnerTo database owner; RevokePublic database].

Definition provisionDatabase (n : nixPostgres) (ctx : Context) (service database owner password : string) : prog unit :=
  locking ctx (root n) (opened (n_adminDSN n "postgres") (provision_open ctx service database owner password)).
End server.
