(* ===== verification/NixProtocol.v ===== *)
(** The protocol of a run's postgres server: what an agent may do with what it has
    seen since it took the lock.  A signal goes to a birth recorded by this run and
    just re-established, once no holder is left; another agent's holder record goes when
    it is unreadable or found gone, the postmaster's record and the pid file when an
    inspection did not confirm what they name; a server is launched once, on a cluster
    whose pid file is gone; and every lock and session is given up.  What the agent left
    on the host, and what it carried out, is kept too. *)
From S2P Require Import Prelude GoStrings Traces Timeouts RuntimeRoles Url Json Config NixHost NixServer.

(** What the calls made under the lock have shown. *)
Record seen_state := Seen {
  s_lock : option string;                            (* the root whose lock is held *)
  s_live : option (list string);                     (* holders listed and not removed *)
  s_hand : option (place * option serverHolder * bool);  (* the holder record read last; found gone? *)
  s_record : option postmasterRecord;                (* the postmaster's record read last *)
  s_unconfirmed : bool;                                     (* its last inspection did not confirm it *)
  s_birth : option (Z * result ProcessIdentity);     (* the last inspection *)
  s_pidfile : option (option Z);                     (* the process the pid file read last may name *)
  s_cleared : bool;                                  (* the pid file was removed *)
  s_uninit : bool;                                   (* the cluster's PG_VERSION was not found *)
  s_started : bool;                                  (* pg_ctl start was run *)
  s_temps : list string;                             (* temporary names made *)
  s_open : bool;                                     (* a session with the server *)
  s_claim : option (result claim);
  s_owner : option (bool * bool);
  s_mine : list place;                               (* the holder records this agent wrote *)
  s_disk : list place;                               (* those of them not removed since *)
  s_read : bool;                                     (* the postmaster's record was read *)
  s_met : bool;                                      (* a holder was found alive *)
  s_left : option (bool * bool);                     (* at the last unlock: a holder met? the server over? *)
  s_done : list nstatement;                          (* the statements carried out *)
}.

(** The recorded postmaster, read under the lock, is none or was last not confirmed. *)
Definition over (s : seen_state) : bool :=
  s_read s && (bool_decide (s_record s = None) || s_unconfirmed s).

(** An agent that wrote the records [mine], of which [disk] are there. *)
Definition apart (mine disk : list place) : seen_state :=
  Seen None None None None false None None false false false [] false None None mine disk false false None [].
(** The lock is given up, or taken: what is on the host, and what was done, stays. *)
Definition unlocked (s : seen_state) : seen_state :=
  Seen None None None None false None None false false false (s_temps s) false (s_claim s) (s_owner s) (s_mine s)
    (s_disk s) false false (Some (s_met s, over s)) (s_done s).
Definition locked_at (root : string) (s : seen_state) : seen_state :=
  Seen (Some root) None None None false None None false false false (s_temps s) false None None (s_mine s)
    (s_disk s) false false (s_left s) (s_done s).

Section protocol.
Context {host : NixHost}.

Definition set_live (s : seen_state) (v : option (list string)) : seen_state :=
  Seen (s_lock s) v (s_hand s) (s_record s) (s_unconfirmed s) (s_birth s) (s_pidfile s) (s_cleared s) (s_uninit s)
    (s_started s) (s_temps s) (s_open s) (s_claim s) (s_owner s)
    (s_mine s) (s_disk s) (s_read s) (s_met s) (s_left s) (s_done s).
Definition set_hand (s : seen_state) v : seen_state :=
  Seen (s_lock s) (s_live s) v (s_record s) (s_unconfirmed s) (s_birth s) (s_pidfile s) (s_cleared s) (s_uninit s)
    (s_started s) (s_temps s) (s_open s) (s_claim s) (s_owner s)
    (s_mine s) (s_disk s) (s_read s) (s_met s) (s_left s) (s_done s).
Definition set_record (s : seen_state) v : seen_state :=
  Seen (s_lock s) (s_live s) (s_hand s) v false (s_birth s) (s_pidfile s) (s_cleared s) (s_uninit s)
    (s_started s) (s_temps s) (s_open s) (s_claim s) (s_owner s)
    (s_mine s) (s_disk s) true (s_met s) (s_left s) (s_done s).
Definition set_pidfile (s : seen_state) v : seen_state :=
  Seen (s_lock s) (s_live s) (s_hand s) (s_record s) (s_unconfirmed s) (s_birth s) v (s_cleared s) (s_uninit s)
    (s_started s) (s_temps s) (s_open s) (s_claim s) (s_owner s)
    (s_mine s) (s_disk s) (s_read s) (s_met s) (s_left s) (s_done s).
Definition set_cleared (s : seen_state) : seen_state :=
  Seen (s_lock s) (s_live s) (s_hand s) (s_record s) (s_unconfirmed s) (s_birth s) (s_pidfile s) true (s_uninit s)
    (s_started s) (s_temps s) (s_open s) (s_claim s) (s_owner s)
    (s_mine s) (s_disk s) (s_read s) (s_met s) (s_left s) (s_done s).
Definition set_uninit (s : seen_state) v : seen_state :=
  Seen (s_lock s) (s_live s) (s_hand s) (s_record s) (s_unconfirmed s) (s_birth s) (s_pidfile s) (s_cleared s) v
    (s_started s) (s_temps s) (s_open s) (s_claim s) (s_owner s)
    (s_mine s) (s_disk s) (s_read s) (s_met s) (s_left s) (s_done s).
Definition set_started (s : seen_state) : seen_state :=
  Seen (s_lock s) (s_live s) (s_hand s) (s_record s) (s_unconfirmed s) (s_birth s) (s_pidfile s) (s_cleared s) (s_uninit s)
    true (s_temps s) (s_open s) (s_claim s) (s_owner s)
    (s_mine s) (s_disk s) (s_read s) (s_met s) (s_left s) (s_done s).
Definition add_temp (s : seen_state) (seen : result string) : seen_state :=
  Seen (s_lock s) (s_live s) (s_hand s) (s_record s) (s_unconfirmed s) (s_birth s) (s_pidfile s) (s_cleared s) (s_uninit s)
    (s_started s) (match seen with Ok name => name :: s_temps s | Err _ => s_temps s end) (s_open s) (s_claim s) (s_owner s)
    (s_mine s) (s_disk s) (s_read s) (s_met s) (s_left s) (s_done s).
Definition set_open (s : seen_state) v : seen_state :=
  Seen (s_lock s) (s_live s) (s_hand s) (s_record s) (s_unconfirmed s) (s_birth s) (s_pidfile s) (s_cleared s) (s_uninit s)
    (s_started s) (s_temps s) v (s_claim s) (s_owner s)
    (s_mine s) (s_disk s) (s_read s) (s_met s) (s_left s) (s_done s).
Definition set_claim (s : seen_state) v : seen_state :=
  Seen (s_lock s) (s_live s) (s_hand s) (s_record s) (s_unconfirmed s) (s_birth s) (s_pidfile s) (s_cleared s) (s_uninit s)
    (s_started s) (s_temps s) (s_open s) (Some v) (s_owner s)
    (s_mine s) (s_disk s) (s_read s) (s_met s) (s_left s) (s_done s).
Definition set_owner (s : seen_state) (v : result (bool * bool)) : seen_state :=
  Seen (s_lock s) (s_live s) (s_hand s) (s_record s) (s_unconfirmed s) (s_birth s) (s_pidfile s) (s_cleared s) (s_uninit s)
    (s_started s) (s_temps s) (s_open s) (s_claim s) (match v with Ok o => Some o | Err _ => None end)
    (s_mine s) (s_disk s) (s_read s) (s_met s) (s_left s) (s_done s).

Definition set_disk (s : seen_state) mine disk : seen_state :=
  Seen (s_lock s) (s_live s) (s_hand s) (s_record s) (s_unconfirmed s) (s_birth s) (s_pidfile s) (s_cleared s) (s_uninit s)
    (s_started s) (s_temps s) (s_open s) (s_claim s) (s_owner s) mine disk (s_read s) (s_met s) (s_left s) (s_done s).
Definition carried_out (s : seen_state) (st : list nstatement) : seen_state :=
  Seen (s_lock s) (s_live s) (s_hand s) (s_record s) (s_unconfirmed s) (s_birth s) (s_pidfile s) (s_cleared s) (s_uninit s)
    (s_started s) (s_temps s) (s_open s) (s_claim s) (s_owner s)
    (s_mine s) (s_disk s) (s_read s) (s_met s) (s_left s) (s_done s ++ st).

(** A listing that found no directory found no holder. *)
Definition listed (seen : result (list entry)) : option (list string) :=
  match seen with
  | Ok entries => Some (e_name <$> filter holder_entry entries)
  | Err e => if error_is ErrNotExist e then Some [] else None
  end.

(** Does an inspection of [pid] find the mark gone? *)
Definition finds_gone (pid : Z) (seen : result ProcessIdentity) (m : processMark) : bool :=
  bool_decide (pid = PID m) && negb (alive_seen m seen).
Definition holder_found_gone (pid : Z) (seen : result ProcessIdentity) (h : serverHolder) : bool :=
  finds_gone pid seen (Agent h) || match H_Run h with Some run => finds_gone pid seen run | None => false end.

(** Its last process, its run's where it has one, is alive. *)
Definition holder_found_alive (pid : Z) (seen : result ProcessIdentity) (h : serverHolder) : bool :=
  let last := match H_Run h with Some run => run | None => Agent h end in bool_decide (pid = PID last) && alive_seen last seen.

(** The process a pid file names is no postmaster. *)
Definition no_postmaster (seen : result ProcessIdentity) : bool :=
  match seen with Ok id => negb (isPostmasterExecutable (Executable id)) | Err e => error_is ErrProcessNotFound e end.

Definition inspected (s : seen_state) (pid : Z) (seen : result ProcessIdentity) : seen_state :=
  Seen (s_lock s) (s_live s)
    (match s_hand s with
     | Some (p, Some h, gone) => Some (p, Some h, gone || holder_found_gone pid seen h)
     | hand => hand
     end)
    (s_record s)
    (match s_record s with
     | Some r => if bool_decide (pid = PID (Postmaster r)) then negb (confirmed_seen (Postmaster r) seen) else s_unconfirmed s
     | None => s_unconfirmed s
     end)
    (Some (pid, seen))
    (if bool_decide (s_pidfile s = Some (Some pid)) && no_postmaster seen then Some None else s_pidfile s)
    (s_cleared s) (s_uninit s) (s_started s) (s_temps s) (s_open s) (s_claim s) (s_owner s) (s_mine s) (s_disk s) (s_read s)
    (match s_hand s with Some (_, Some h, _) => s_met s || holder_found_alive pid seen h | _ => s_met s end)
    (s_left s) (s_done s).

Definition is_holder (root : string) (p : place) : bool :=
  match p with Under r [d; _] => bool_decide (r = root) && bool_decide (d = "holders") | _ => false end.
(** What reading a file under the locked root shows. *)
Definition file_read (s : seen_state) (root : string) (p : place) (seen : result string) : seen_state :=
  if decide (p = postmasterRecordPath root) then set_record s (decode_record seen)
  else if decide (p = pidFile (pgdata root)) then set_pidfile s (Some (pid_file_names seen))
  else if is_holder root p then
    set_hand s (Some (p, decode_holder seen, match decode_holder seen with None => true | Some _ => false end))
  else s.

Definition removed (s : seen_state) (root : string) (p : place) (gone : bool) : seen_state :=
  if decide (p = pidFile (pgdata root)) then (if gone then set_cleared s else s)
  else if is_holder root p then
    set_disk (set_live s (filter (λ name, holderPath root name ≠ p) <$> s_live s)) (s_mine s)
      (if gone then filter (.≠ p) (s_disk s) else s_disk s)
  else s.

Definition nstep (s : seen_state) (e : ncall * bool) : seen_state :=
  match e.1, s_lock s with
  | TryLock root, _ | TryLockContext _ root, _ => if e.2 then locked_at root s else s
  | Unlock _, _ => unlocked s
  | Rename _ p, Some root => if e.2 && is_holder root p then set_disk s (p :: s_mine s) (p :: s_disk s) else s
  | InspectProcess pid seen, _ => inspected s pid seen
  | MkdirTemp _ seen, _ | CreateTemp _ _ seen, _ => add_temp s seen
  | ReadFile p seen, Some root => file_read s root p seen
  | ReadDir p seen, Some root => if decide (p = holdersDir root) then set_live s (listed seen) else s
  | Remove (Under _ _ as p), Some root => removed s root p e.2
  | Stat p, Some root => if decide (p = beneath (pgdata root) "PG_VERSION") then set_uninit s (negb e.2) else s
  | Probe pid, _ => if negb e.2 && bool_decide (s_pidfile s = Some (Some pid)) then set_pidfile s (Some None) else s
  | RunProcess _ _ args, _ => if bool_decide (head args = Some "start") then set_started s else s
  | SqlOpen _, _ => set_open s e.2
  | SqlClose, _ => set_open s false
  | QueryClaim _ _ seen, _ => set_claim s seen
  | QueryOwner _ _ seen, _ => set_owner s seen
  | NExec _ st, _ => if e.2 then carried_out s [st] else s
  | _, _ => s
  end.

(** A database this service may take: there is none, or its own owner has it and no
    other service claimed it. *)
Definition takes (service owner : string) (found : result claim) : Prop :=
  match found with
  | Ok (c, o) => o = owner ∧ (c = None ∨ c = Some (databaseClaim service))
  | Err e => error_is ErrNoRows e = true
  end.

(** What is asked of the run's server: for which service, on which root and with which
    connection where that is known; and may a cluster be set up, launched and changed,
    or only left? *)
Record target := {
  t_service : string; t_database : string; t_owner : string; t_password : string;
  t_root : option string; t_dsn : option string; t_setup : bool;
}.
Definition pins {A} (known : option A) (a : A) : Prop := match known with Some b => a = b | None => True end.

(** The statements that make the database this service's, as they are needed. *)
Definition required (t : target) (found : result claim) (present : bool) : list nstatement :=
  (if present then [] else [CreateRole (t_owner t)]) ++ [AlterRole (t_owner t) (t_password t)]
  ++ (if is_ok found then [] else [CreateDatabase (t_database t) (t_owner t)])
  ++ match found with
     | Ok (Some _, _) => []
     | _ => [CommentDatabase (t_database t) (databaseClaim (t_service t))]
     end
  ++ [OwnerTo (t_database t) (t_owner t); RevokePublic (t_database t)].

(** The statements that may be carried out on the way there. *)
Definition fits (t : target) (found : result claim) (present : bool) (st : nstatement) : Prop :=
  match st with
  | CreateRole o => o = t_owner t ∧ present = false
  | AlterRole o password => o = t_owner t ∧ password = t_password t
  | CreateDatabase d o => d = t_database t ∧ o = t_owner t ∧ is_ok found = false
  | CommentDatabase d marker => d = t_database t ∧ marker = databaseClaim (t_service t) ∧ (∀ c o, found = Ok (c, o) → c = None)
  | OwnerTo d o => d = t_database t ∧ o = t_owner t
  | RevokePublic d => d = t_database t
  | RevokeMaintenance _ => False
  end.
Definition may_exec (t : target) (s : seen_state) (st : nstatement) : Prop :=
  match st with
  | RevokeMaintenance _ => s_started s = true
  | _ => ∃ found present, s_claim s = Some found ∧ takes (t_service t) (t_owner t) found
           ∧ s_owner s = Some (present, false) ∧ fits t found present st
  end.

Definition may_remove (s : seen_state) (root : string) (p : place) : Prop :=
  (p = postmasterRecordPath root ∧ s_unconfirmed s = true) ∨
  (p = pidFile (pgdata root) ∧ (s_pidfile s = Some None ∨ s_unconfirmed s = true)) ∨
  p ∈ s_mine s ∨ ∃ h, s_hand s = Some (p, h, true).

Definition nallowed (t : target) (s : seen_state) (c : ncall) : Prop :=
  match c with
  | TryLock _ => s_lock s = None ∧ s_open s = false
  | TryLockContext _ root => s_lock s = None ∧ s_open s = false ∧ pins (t_root t) root
  | Unlock root => s_lock s = Some root ∧ s_open s = false
  | Remove (At name) => name ∈ s_temps s
  | Remove p => ∃ root, s_lock s = Some root ∧ may_remove s root p
  | RemoveAll (At name) => name ∈ s_temps s ∨
      ∃ r, s_record s = Some r ∧ s_unconfirmed s = true ∧ name = SocketDir r ∧ has_prefix (path_base name) "cfpg-" = true
  | RemoveAll p => ∃ root, s_lock s = Some root ∧ p = pgdata root ∧ s_cleared s = true ∧ s_uninit s = true ∧ t_setup t = true
  | SignalProcess pid id _ => is_Some (s_lock s) ∧ s_live s = Some [] ∧ s_birth s = Some (pid, Ok id) ∧
      ∃ r, s_record s = Some r ∧ pid = PID (Postmaster r) ∧ same_birth (Postmaster r) id = true
  | RunProcess _ _ _ => is_Some (s_lock s) ∧ s_cleared s = true ∧ s_started s = false ∧ t_setup t = true
  | Rename name (Under root _) => name ∈ s_temps s ∧ s_lock s = Some root
  | WriteFile (Under root _) _ => s_lock s = Some root
  | NExec _ st => is_Some (s_lock s) ∧ s_open s = true ∧ t_setup t = true ∧ may_exec t s st
  | SqlOpen dsn => is_Some (s_lock s) ∧ (∃ password dir, dsn = adminDSN password dir "postgres") ∧ pins (t_dsn t) dsn
  | Ping _ => s_open s = true
  | QueryClaim _ database _ => is_Some (s_lock s) ∧ s_open s = true ∧ database = t_database t
  | QueryOwner _ owner _ => is_Some (s_lock s) ∧ s_open s = true ∧ owner = t_owner t
  | _ => True
  end.
End protocol.

(** ** Proof support *)

(** What survives under the lock, what survives once the holders were read, and what
    survives before the launch. *)
Record stays (s s' : seen_state) : Prop := {
  y_lock : s_lock s' = s_lock s;
  y_open : s_open s' = s_open s;
  y_temps : s_temps s ⊆ s_temps s';
  y_mine : s_mine s ⊆ s_mine s';
  y_met : s_met s = true → s_met s' = true;
}.
Record holds (s s' : seen_state) : Prop := {
  h_stays : stays s s';
  h_live : s_live s' = s_live s;
}.
Record keeps (s s' : seen_state) : Prop := {
  k_holds : holds s s';
  k_started : s_started s' = s_started s;
  k_cleared : s_cleared s = true → s_cleared s' = true;
}.
#[export] Instance stays_preorder : PreOrder stays.
Proof.
  split; [by intros s; constructor|]. intros s1 s2 s3 [?? H1 G1 M1] [?? H2 G2 M2]. constructor; try congruence; [by etrans|by etrans|auto].
Qed.
#[export] Instance holds_preorder : PreOrder holds.
Proof.
  split; [by intros s; constructor|]. intros s1 s2 s3 [H1 ?] [H2 ?]. constructor; [by etrans|congruence].
Qed.
#[export] Instance keeps_preorder : PreOrder keeps.
Proof.
  split; [by intros s; constructor|].
  intros s1 s2 s3 [H1 ? ?] [H2 ? ?]. constructor; [by etrans|congruence|auto].
Qed.
(** What survives while the holders are read. *)
Record prunes (s s' : seen_state) : Prop := {
  p_stays : stays s s';
  p_started : s_started s' = s_started s;
}.
#[export] Instance prunes_preorder : PreOrder prunes.
Proof.
  split; [by intros s; constructor|]. intros s1 s2 s3 [H1 ?] [H2 ?]. constructor; [by etrans|congruence].
Qed.
Lemma keeps_prunes s s' : keeps s s' → prunes s s'.
Proof. intros [[? _] ? _]. by constructor. Qed.
Create HintDb nix.
#[export] Hint Resolve k_holds h_stays p_stays keeps_prunes : nix.

Section support.
Context {host : NixHost} {u : Unicode} `{!Clock (trace ncall)}.
Context {t : target}.
#[local] Abbreviation prog := (io (trace ncall)).
#[local] Abbreviation moves := (moves nstep (nallowed t)).

(** A chain of steps, each of which keeps [R]. *)
Lemma moves_step {A B} (R : seen_state → seen_state → Prop) `{!Transitive R} s0 s (m : prog A) (k : A → prog B) P Q :
  R s0 s → moves s m (λ r s', R s s' ∧ P r s') →
  (∀ a s', R s0 s' → P (Ok a) s' → moves s' (k a) Q) →
  (∀ e s', R s0 s' → P (Err e) s' → Q (Err e) s') → moves s (m ≫= k) Q.
Proof.
  intros H0 Hm Hk He. eapply moves_bind; [exact Hm| |].
  - intros a s' [H1 H2]. apply Hk; [by etrans|done].
  - intros e s' [H1 H2]. apply He; [by etrans|done].
Qed.

(** The calls that show nothing. *)
Definition quiet (c : ncall) : bool :=
  match c with
  | MkdirAll _ | WriteFile _ _ | RemoveAll _ | Chmod _ | ChmodTemp _ | WriteTemp _ _ | CloseTemp _
  | NewNixEnvironment _ | NixInit _ | NewProcess _ _ | RandRead _ | SignalProcess _ _ _ | Sleep _ | Glob _
  | Ping _ | CloseForwarder | Remove (At _) => true
  | _ => false
  end.
Lemma quiet_step s c b : quiet c = true → nstep s (c, b) = s.
Proof. unfold nstep. cbn [fst]. destruct c, (s_lock s); try done; by destruct p. Qed.

Lemma moves_quiet s c (Q : result unit → seen_state → Prop) :
  quiet c = true → nallowed t s c → (∀ r, Q r s) → moves s (ask c) Q.
Proof. intros Hq Ha HQ. apply moves_call; [done|]. intros tr. by rewrite quiet_step. Qed.

Lemma moves_inspect s pid (Q : result ProcessIdentity → seen_state → Prop) :
  (∀ r, Q r (inspected s pid r)) → moves s (inspectProcess pid) Q.
Proof. intros HQ. apply moves_inquire. intros r. split; [done|]. apply HQ. Qed.

Lemma inspected_keeps s pid seen : keeps s (inspected s pid seen).
Proof.
  do 3 (constructor; try done). cbn [inspected s_met]. intros ->. by repeat case_match.
Qed.
Lemma read_keeps s root p seen : keeps s (file_read s root p seen).
Proof. unfold file_read. repeat case_match; by repeat constructor. Qed.

Lemma moves_read s root p (Q : result string → seen_state → Prop) :
  s_lock s = Some root → (∀ r, Q r (file_read s root p r)) → moves s (readFile p) Q.
Proof.
  intros Hl HQ. apply moves_inquire. intros r. split; [done|]. unfold nstep. cbn [fst]. rewrite Hl. apply HQ.
Qed.

Lemma moves_unlisted {A} s (m : prog A) (Q : result unit → seen_state → Prop) :
  moves s m (λ _ s', Q (Ok tt) s') → moves s (unlisted m) Q.
Proof. apply moves_ignoring. Qed.

Lemma moves_now {A} s (k : trace ncall → prog A) Q : (∀ tr, moves s (k tr) Q) → moves s (io_get ≫= k) Q.
Proof. apply moves_reading. Qed.

Lemma moves_unlisted_then {A B} s (m : prog A) (k : unit → prog B) Q :
  moves s m (λ _ s', s' = s) → moves s (k tt) Q → moves s (unlisted m ≫= k) Q.
Proof.
  intros Hm Hk. eapply moves_bind with (P := λ r s', s' = s ∧ is_ok r = true).
  - apply moves_unlisted. by eapply moves_mono; [exact Hm|].
  - by intros [] s' [-> _].
  - by intros e s' [_ ?].
Qed.

(** [alive] and [confirmed] are read off one inspection. *)
Lemma moves_alive s m (Q : result bool → seen_state → Prop) :
  (∀ r, Q (Ok (alive_seen m r)) (inspected s (PID m) r)) → moves s (alive m) Q.
Proof.
  intros HQ. eapply moves_bind with (P := λ r s', ∃ x, r = Ok x ∧ s' = inspected s (PID m) x).
  - apply moves_try, moves_inspect. eauto.
  - intros a s' (x & [= ->] & ->). by apply moves_ret.
  - by intros e s' (x & ? & _).
Qed.
Lemma moves_confirmed s m (Q : result bool → seen_state → Prop) :
  (∀ r, Q (Ok (confirmed_seen m r)) (inspected s (PID m) r)) → moves s (confirmed m) Q.
Proof.
  intros HQ. eapply moves_bind with (P := λ r s', ∃ x, r = Ok x ∧ s' = inspected s (PID m) x).
  - apply moves_try, moves_inspect. eauto.
  - intros a s' (x & [= ->] & ->). by apply moves_ret.
  - by intros e s' (x & ? & _).
Qed.

Lemma lock_kept s s' root : stays s s' → s_lock s = Some root → s_lock s' = Some root.
Proof. intros [H _ _ _] ?. congruence. Qed.

(** ** Holders *)

Lemma moves_holder_alive s h p gone (Q : result bool → seen_state → Prop) :
  s_hand s = Some (p, Some h, gone) →
  (∀ b s', keeps s s' → (b = false → s_hand s' = Some (p, Some h, true)) → (b = true → s_met s' = true) → Q (Ok b) s') →
  moves s (holder_alive h) Q.
Proof.
  intros Hh HQ.
  eapply moves_bind with (P := λ r s', ∃ x, r = Ok (alive_seen (Agent h) x) ∧ s' = inspected s (PID (Agent h)) x).
  { apply moves_alive. eauto. }
  2: by intros e s' (x & ? & _).
  intros a s' (x & [= ->] & ->).
  assert (Ha : alive_seen (Agent h) x = false → s_hand (inspected s (PID (Agent h)) x) = Some (p, Some h, true)).
  { intros E. cbn [inspected s_hand]. rewrite Hh. unfold holder_found_gone, finds_gone.
    by rewrite bool_decide_eq_true_2, E, orb_true_r by done. }
  destruct (alive_seen (Agent h) x) eqn:Ex; cbn [negb].
  2: { apply moves_ret, HQ; [apply inspected_keeps| |done]. by intros _; apply Ha. }
  destruct (H_Run h) as [run|] eqn:Er.
  2: { apply moves_ret, HQ; [apply inspected_keeps|done|]. intros _. cbn [inspected s_met]. rewrite Hh.
       unfold holder_found_alive. by rewrite Er, Ex, bool_decide_eq_true_2, orb_true_r. }
  apply moves_alive. intros y. apply HQ.
  - etrans; apply inspected_keeps.
  - intros E. cbn [inspected s_hand]. rewrite Hh. cbn [orb]. unfold holder_found_gone, finds_gone. rewrite Er, E.
    rewrite (bool_decide_eq_true_2 (PID run = PID run)) by done. by rewrite !orb_true_r.
  - intros E. cbn [inspected s_met s_hand]. rewrite Hh. unfold holder_found_alive. rewrite Er, E.
    rewrite (bool_decide_eq_true_2 (PID run = PID run)) by done. by rewrite !orb_true_r.
Qed.

(** A record that is unreadable, unparseable or found gone may be removed. *)
Lemma moves_judge s root name (Q : result bool → seen_state → Prop) :
  s_lock s = Some root →
  (∀ b s', keeps s s' → (b = false → may_remove s' root (holderPath root name)) → (b = true → s_met s' = true) → Q (Ok b) s') →
  moves s (record_alive root name) Q.
Proof.
  intros Hl HQ. set (p := holderPath root name) in *.
  eapply moves_bind with (P := λ r s', ∃ x, r = Ok x ∧ s' = file_read s root p x).
  { apply moves_try, (moves_read _ root); eauto. }
  2: by intros e s' (x & ? & _).
  intros a s' (x & [= ->] & ->).
  assert (Ep : s_hand (file_read s root p x)
    = Some (p, decode_holder x, match decode_holder x with None => true | Some _ => false end)).
  { unfold file_read. rewrite !decide_False by done. cbn [p holderPath is_holder]. by rewrite !bool_decide_eq_true_2. }
  destruct (decode_holder x) as [h|].
  - eapply moves_holder_alive; [exact Ep|]. intros b s' Hk Hb Hm. apply HQ; [by etrans; [apply read_keeps|]| |done].
    intros ->. right; right; right. eauto.
  - apply moves_ret, HQ; [apply read_keeps| |done]. intros _. right; right; right. eauto.
Qed.

(** Taking one holder's record away. *)
Lemma moves_remove_holder s root name live (Q : result unit → seen_state → Prop) :
  s_lock s = Some root → may_remove s root (holderPath root name) → s_live s = Some live →
  (∀ s' rest, prunes s s' → s_live s' = Some rest → (∀ x, x ∈ rest ↔ x ∈ live ∧ x ≠ name) → Q (Ok tt) s') →
  moves s (unlisted (remove (holderPath root name))) Q.
Proof.
  intros Hl Hm Hlive HQ. apply moves_unlisted, moves_observe; [by exists root|].
  intros tr. unfold nstep. cbn [fst snd holderPath]. rewrite Hl. unfold removed.
  rewrite decide_False by done. cbn [holderPath is_holder]. rewrite !bool_decide_eq_true_2 by done. cbn [andb].
  eapply HQ; [done|cbn [set_live s_live]; by rewrite Hlive|].
  intros x. rewrite list_elem_of_filter. split.
  - intros [H1 H2]. split; [done|]. intros ->. by apply H1.
  - intros [H1 H2]. split; [|done]. intros [= ->]. done.
Qed.

Lemma moves_prune_each root names s live :
  s_lock s = Some root → s_live s = Some live →
  moves s (prune_each root names) (λ r s', prunes s s' ∧ ∃ n rest, r = Ok n ∧ s_live s' = Some rest ∧
    (∀ x, x ∈ rest → x ∈ live) ∧ (n = 0%nat → ∀ x, x ∈ rest → x ∉ names) ∧ (n ≠ 0%nat → s_met s' = true)).
Proof.
  revert s live. induction names as [|name names IH]; intros s live Hl Hlive; cbn [prune_each].
  { apply moves_ret. split; [done|]. exists 0%nat, live. split_and!; try done. by intros _ x _ ?%not_elem_of_nil. }
  eapply moves_bind with (P := λ r s1, ∃ b, r = Ok b ∧ keeps s s1
    ∧ (b = false → may_remove s1 root (holderPath root name)) ∧ (b = true → s_met s1 = true)).
  { apply moves_judge; [done|]. intros b s' ???. by exists b. }
  2: by intros e s1 (b & ? & _).
  intros b s1 (? & [= <-] & Hk & Hb & Hm).
  assert (Hl1 : s_lock s1 = Some root) by eauto using lock_kept with nix.
  assert (Hlive1 : s_live s1 = Some live) by (rewrite (h_live _ _ (k_holds _ _ Hk)); done).
  eapply moves_bind with (P := λ r s2, r = Ok tt ∧ prunes s1 s2 ∧ ∃ rest, s_live s2 = Some rest ∧
    (∀ x, x ∈ rest → x ∈ live) ∧ (b = false → name ∉ rest)).
  { destruct b.
    { apply moves_ret. split_and!; [done..|]. exists live. by split_and!. }
    eapply moves_remove_holder; [done|by apply Hb|done|]. intros s2 rest Hs2 Hr Hx.
    split_and!; [done|done|]. exists rest. split_and!; [done|by intros ? [? _]%Hx|]. by intros _ [_ ?]%Hx. }
  2: by intros e s2 (? & _).
  intros [] s2 (_ & Hs2 & rest & Hr & Hsub & Hn).
  assert (Hl2 : s_lock s2 = Some root) by eauto using lock_kept with nix.
  assert (Hs : prunes s s2) by (etrans; eauto with nix).
  eapply moves_bind; [by apply (IH s2 rest)| |].
  - intros n s3 (Hs3 & ? & rest' & [= <-] & Hr' & Hsub' & Hn' & Hm'). apply moves_ret. split; [by etrans|].
    exists ((if b then 1 else 0) + n)%nat, rest'. split_and!; [done|done|auto| |].
    2: { intros E. destruct b; [|by apply Hm']. apply (y_met _ _ (p_stays _ _ Hs3)), (y_met _ _ (p_stays _ _ Hs2)). auto. }
    intros E x Hx. apply not_elem_of_cons. destruct b; [lia|]. split; [|by apply Hn'].
    intros ->. by apply Hn; [|apply Hsub'].
  - by intros e s3 (_ & ? & ? & ? & _).
Qed.

(** [pruneHolders] finds no live holder only when every listed one was removed, and
    one only when an inspection did. *)
Lemma moves_pruneHolders s root :
  s_lock s = Some root →
  moves s (pruneHolders root) (λ r s', prunes s s' ∧ (r = Ok 0%nat → s_live s' = Some []) ∧ ∀ n, r = Ok (S n) → s_met s' = true).
Proof.
  intros Hl. eapply moves_bind with (P := λ r s1, ∃ x, r = Ok x ∧ s1 = set_live s (listed x)).
  { apply moves_try, moves_inquire. intros r. split; [done|]. eexists. split; [done|].
    unfold nstep. cbn [fst]. rewrite Hl. by rewrite decide_True. }
  2: by intros e s1 (x & ? & _).
  intros a s1 (x & [= ->] & ->). destruct x as [entries|e].
  - eapply moves_mono; [by apply moves_prune_each|]. cbn beta.
    intros r s2 ([[?? Ht ? Hm0] ?] & n & rest & -> & Hr & Hsub & Hn & Hm). split; [by repeat constructor|].
    split; [|by intros n' [= ->]; apply Hm]. intros [= ->]. rewrite Hr. f_equal. destruct rest as [|x rest]; [done|].
    exfalso. by apply (Hn eq_refl x); [left|apply Hsub; left].
  - cbn [listed]. destruct (error_is ErrNotExist e).
    + apply moves_ret. by split; [repeat constructor|].
    + apply moves_fail. by split; [repeat constructor|].
Qed.

(** ** Files *)

(** A quiet call whose failure is followed by quiet calls. *)
Lemma moves_quiet_call s c : quiet c = true → nallowed t s c → moves s (ask c) (λ _ s', s' = s).
Proof. intros ? ?. by apply moves_quiet. Qed.

Lemma moves_remove_temp s name (Q : result unit → seen_state → Prop) :
  name ∈ s_temps s → Q (Ok tt) s → moves s (unlisted (remove (At name))) Q.
Proof. intros Ht HQ. apply moves_unlisted, moves_observe; [done|]. intros tr. by rewrite quiet_step. Qed.

Lemma moves_then {A} s (m : prog unit) (k : unit → prog A) Q :
  moves s m (λ _ s', s' = s) → moves s (k tt) Q → (∀ e, Q (Err e) s) → moves s (m ≫= k) Q.
Proof. intros Hm Hk He. eapply moves_bind; [exact Hm| |]; [intros [] s' ->|intros e s' ->]; auto. Qed.

Lemma moves_wrapped {A} s f args (m : prog A) (P : seen_state → Prop) :
  moves s m (λ _, P) → moves s (io_wrap f args m) (λ _, P).
Proof. intros Hm. by apply moves_wrap. Qed.

Lemma set_disk_keeps s p disk : keeps s (set_disk s (p :: s_mine s) disk).
Proof. by repeat constructor. Qed.
Lemma moves_writeOwnerOnly s root names content :
  s_lock s = Some root →
  moves s (writeOwnerOnly (Under root names) content)
    (λ r s', keeps s s' ∧ (r = Ok tt → is_holder root (Under root names) = true →
       Under root names ∈ s_mine s' ∧ Under root names ∈ s_disk s')).
Proof.
  intros Hl. unfold writeOwnerOnly.
  eapply moves_bind with (P := λ r s1, keeps s s1 ∧ ∀ name, r = Ok name → name ∈ s_temps s1).
  { apply moves_inquire. intros r. split; [done|]. unfold nstep. cbn [fst]. split.
    - constructor; [constructor; [constructor|]|..]; try done. cbn. destruct r; [by intros ? ?; right|done].
    - intros name ->. by left. }
  2: by intros e s1 [? _]; split.
  intros name s1 [Hk Ht]. specialize (Ht name eq_refl).
  assert (Hl1 : s_lock s1 = Some root) by eauto using lock_kept with nix.
  assert (Hclose : ∀ c, quiet c = true → nallowed t s1 c →
    moves s1 (r ← io_try (ask c); match r with Ok _ => mret tt | Err e => _ ← unlisted (ask (CloseTemp name)); io_fail e end)
      (λ _ s', s' = s1)).
  { intros c Hq Ha. eapply moves_bind with (P := λ _ s', s' = s1); [by apply moves_try, moves_quiet_call| |by intros e s' ->].
    intros [[]|e] s' ->; [by apply moves_ret|]. apply moves_then; [by apply moves_unlisted, moves_quiet_call|by apply moves_fail|done]. }
  apply moves_finally. set (p := Under root names).
  eapply moves_mono with (P := λ r s', s_temps s' = s_temps s1 ∧ keeps s1 s' ∧
    (r = Ok tt → is_holder root p = true → p ∈ s_mine s' ∧ p ∈ s_disk s')).
  - do 2 (apply moves_then; [by apply Hclose| |done]). apply moves_then; [by apply moves_quiet_call| |done].
    apply moves_call; [done|]. intros tr. unfold nstep. cbn [fst snd]. rewrite Hl1.
    destruct (is_ok _) eqn:E, (is_holder root p) eqn:Ep; cbn [andb].
    all: split; [done|]. 1: split; [apply set_disk_keeps|by intros _ _; split; left].
    all: split; [done|]. all: try done. by intros Er; rewrite Er in E.
  - intros r s2 (Ht2 & Hk2 & Hm). apply moves_remove_temp; [by rewrite Ht2|]. split; [by etrans|done].
Qed.

(** ** The recorded postmaster *)

Lemma moves_readPostmasterRecord s root (Q : result (option postmasterRecord) → seen_state → Prop) :
  s_lock s = Some root →
  (∀ record s', keeps s s' → s_record s' = record → s_read s' = true → Q (Ok record) s') →
  moves s (readPostmasterRecord root) Q.
Proof.
  intros Hl HQ. eapply moves_bind with (P := λ r s1, ∃ x, r = Ok x ∧ s1 = set_record s (decode_record x)).
  { apply moves_try, (moves_read _ root); [done|]. intros r. eexists. split; [done|]. unfold file_read.
    by rewrite decide_True. }
  2: by intros e s1 (x & ? & _).
  intros a s1 (x & [= ->] & ->). by apply moves_ret, HQ; [repeat constructor| |].
Qed.

Lemma moves_forget s root (Q : result unit → seen_state → Prop) :
  s_lock s = Some root → s_unconfirmed s = true → Q (Ok tt) s → moves s (forgetPostmasterRecord root true) Q.
Proof.
  intros Hl Hg HQ. apply moves_unlisted, moves_observe; [exists root; split; [done|by left]|].
  intros tr. unfold nstep. cbn [fst snd postmasterRecordPath]. rewrite Hl. unfold removed. by rewrite decide_False.
Qed.
Lemma moves_remove_pid s root (Q : result unit → seen_state → Prop) :
  s_lock s = Some root → s_pidfile s = Some None ∨ s_unconfirmed s = true →
  (∀ r, Q r (if is_gone r then set_cleared s else s)) → moves s (remove (pidFile (pgdata root))) Q.
Proof.
  intros Hl Hg HQ. apply moves_observe; [exists root; split; [done|by right; left]|].
  intros tr. unfold nstep. cbn [fst snd pidFile pgdata beneath app]. rewrite Hl. unfold removed.
  rewrite decide_True by done. apply HQ.
Qed.
Lemma set_cleared_keeps s : keeps s (set_cleared s).
Proof. by repeat constructor. Qed.

(** The record in hand stays while its postmaster is looked for. *)
Definition tracks (record : postmasterRecord) (s s' : seen_state) : Prop :=
  keeps s s' ∧ s_read s' = s_read s ∧ (s_record s = Some record → s_record s' = Some record).
#[export] Instance tracks_preorder record : PreOrder (tracks record).
Proof.
  split; [by split|]. intros s1 s2 s3 (? & ? & ?) (? & ? & ?). split_and!; [by etrans|congruence|auto].
Qed.

Lemma moves_confirm s record (Q : result bool → seen_state → Prop) :
  s_record s = Some record →
  (∀ here s', tracks record s s' → s_unconfirmed s' = negb here → Q (Ok here) s') →
  moves s (confirmed (Postmaster record)) Q.
Proof.
  intros Hr HQ. apply moves_confirmed. intros r. apply HQ; [by split; [apply inspected_keeps|]|].
  cbn. by rewrite Hr, bool_decide_eq_true_2.
Qed.

Lemma moves_wait_loop fuel record deadline s :
  s_record s = Some record →
  moves s (wait_loop fuel (Postmaster record) deadline)
    (λ r s', tracks record s s' ∧ (r = Ok (Some true) → s_unconfirmed s' = true)).
Proof.
  revert s. induction fuel as [|fuel IH]; intros s Hr; [by apply moves_ret|].
  cbn [wait_loop]. apply moves_now. intros now.
  apply moves_bind with (P := λ r s1, ∃ here, r = Ok here ∧ tracks record s s1 ∧ s_unconfirmed s1 = negb here).
  { apply moves_confirm; eauto. }
  2: by intros e s1 (? & ? & _).
  intros here s1 (? & [= <-] & Ht & Hg). destruct (clock now <? deadline), here; cbn [negb].
  2-4: apply moves_ret; by split.
  apply moves_unlisted_then; [by apply moves_quiet_call|].
  eapply moves_mono; [apply IH; by apply Ht|]. cbn beta. intros r s2 [Ht2 ?]. split; [by etrans|done].
Qed.
Lemma moves_waitGone s record budget :
  s_record s = Some record →
  moves s (waitGone (Postmaster record) budget) (λ r s', tracks record s s' ∧ (r = Ok true → s_unconfirmed s' = true)).
Proof.
  intros Hr. apply moves_now. intros now. eapply moves_bind; [by apply moves_wait_loop| |by intros e s' [? _]].
  intros [gone|] s1 [Ht Hg]; [apply moves_ret|apply moves_fail]; (split; [done|]); [|done].
  intros [= ->]. by apply Hg.
Qed.

(** A signal goes out on the inspection just made. *)
Lemma moves_signal s record sig :
  is_Some (s_lock s) → s_live s = Some [] → s_record s = Some record →
  moves s (signalPostmaster (Postmaster record) sig) (λ _ s', tracks record s s').
Proof.
  intros Hl Hlive Hr.
  eapply moves_bind with (P := λ r s1, s1 = inspected s (PID (Postmaster record)) r).
  { by apply moves_inspect. }
  2: { intros e s1 ->. by split; [apply inspected_keeps|]. }
  intros id s1 ->. set (s1 := inspected s (PID (Postmaster record)) (Ok id)).
  assert (Ht : tracks record s s1) by (by split; [apply inspected_keeps|]).
  eapply moves_bind with (P := λ r s2, s2 = s1 ∧ (r = Ok tt → same_birth (Postmaster record) id = true)).
  { apply moves_lift. split; [done|]. destruct (same_birth _ id); [done|]. by unfold guard_err. }
  2: by intros e s2 [-> _].
  intros [] s2 [-> Hb]. apply moves_quiet; [done| |done]. split_and!; try done. exists record. by split_and!; [|..|apply Hb].
Qed.
End support.
