(* ===== verification/NixRecords.v ===== *)
(** The records an agent leaves on the host: of everything done with a run's server,
    only registering an attachment adds a holder's record, and it adds that one. *)
From S2P Require Import Prelude GoStrings Traces Timeouts RuntimeRoles Url Json Config NixHost NixServer NixProtocol.

Section records.
Context {host : NixHost} {u : Unicode} `{!Clock (trace ncall)}.
#[local] Abbreviation prog := (io (trace ncall)).
#[local] Abbreviation runs := (moves nstep (λ _ _, True)).

(** Whatever the host answers, no record is added to those on it. *)
Definition shrinks {A} (m : prog A) : Prop := ∀ s, runs s m (λ _ s', s_disk s' ⊆ s_disk s).

Lemma shrinks_bind {A B} (m : prog A) (k : A → prog B) :
  shrinks m → (∀ a, shrinks (k a)) → shrinks (m ≫= k).
Proof.
  intros Hm Hk s. eapply moves_bind; [apply Hm| |done]. intros a s1 H1. eapply moves_mono; [apply Hk|].
  intros r s2 H2. cbn beta in *. by etrans.
Qed.
Lemma shrinks_ret {A} (a : A) : shrinks (mret a).
Proof. intros s. by apply moves_ret. Qed.
Lemma shrinks_fail {A} e : shrinks (io_fail (A := A) e).
Proof. intros s. by apply moves_fail. Qed.
Lemma shrinks_lift {A} (r : result A) : shrinks (io_lift r).
Proof. intros s. by apply moves_lift. Qed.
Lemma shrinks_get : shrinks io_get.
Proof. intros s. by apply moves_get. Qed.
Lemma shrinks_try {A} (m : prog A) : shrinks m → shrinks (io_try m).
Proof. intros Hm s. apply moves_try, Hm. Qed.
Lemma shrinks_wrap {A} f args (m : prog A) : shrinks m → shrinks (io_wrap f args m).
Proof. intros Hm s. apply moves_wrap, Hm. Qed.
Lemma shrinks_finally {A} (m : prog A) d : shrinks m → shrinks d → shrinks (io_finally m d).
Proof.
  intros Hm Hd s. apply moves_finally. eapply moves_mono; [apply Hm|]. intros r s1 H1.
  eapply moves_mono; [apply Hd|]. intros r2 s2 H2. cbn beta in *. by etrans.
Qed.
Lemma shrinks_each {A} (f : A → prog unit) l : (∀ x, shrinks (f x)) → shrinks (io_each f l).
Proof.
  intros Hf s. apply moves_each with (I := λ s', s_disk s' ⊆ s_disk s); [done| |done].
  intros x s1 _ H1. eapply moves_mono; [apply Hf|]. intros [[]|e] s2 H2; cbn beta in *; by etrans.
Qed.

(** A call that does not put a holder's record in place. *)
Definition places (c : ncall) : bool := match c with Rename _ (Under _ [_]) => false | Rename _ _ => true | _ => false end.
Lemma removed_disk s root p gone : s_disk (removed s root p gone) ⊆ s_disk s.
Proof.
  unfold removed. repeat case_match; try done. cbn [set_disk s_disk]. by intros x [? ?]%list_elem_of_filter.
Qed.
Lemma file_read_disk s root p seen : s_disk (file_read s root p seen) = s_disk s.
Proof. unfold file_read. by repeat case_match. Qed.
Lemma places_holder root name p : places (Rename name p) = false → is_holder root p = false.
Proof. by destruct p as [r [|? [|? ?]]|]. Qed.
Lemma places_not s c b : places c = false → s_disk (nstep s (c, b)) ⊆ s_disk s.
Proof.
  intros Hp. unfold nstep. cbn [fst snd]. destruct c; try done.
  all: repeat first [done | apply removed_disk | rewrite file_read_disk; done | rewrite (places_holder _ _ _ Hp), andb_false_r; done | case_match; subst].
Qed.
Lemma shrinks_ask c : places c = false → shrinks (ask c).
Proof. intros Hc s. apply moves_call; [done|]. intros tr. by apply places_not. Qed.
Lemma shrinks_remove p : shrinks (remove p).
Proof. intros s. apply moves_observe; [done|]. intros tr. by apply places_not. Qed.
Lemma shrinks_observe {A} (good : result A → bool) answer c : places c = false → shrinks (observe good answer c).
Proof. intros Hc s. apply moves_observe; [done|]. intros tr. by apply places_not. Qed.
Lemma shrinks_inquire {A} (answer : trace ncall → result A) seen : (∀ r, places (seen r) = false) → shrinks (inquire answer seen).
Proof. intros Hc s. apply moves_inquire. intros r. split; [done|]. by apply places_not. Qed.

Create HintDb shrinks.
#[local] Hint Resolve shrinks_ret shrinks_fail shrinks_lift shrinks_get shrinks_remove : shrinks.
Ltac shrink := repeat first
  [ progress intros | solve [auto with shrinks nocore]
  | apply shrinks_bind | apply shrinks_try | apply shrinks_wrap | apply shrinks_finally | apply shrinks_each
  | apply shrinks_ask; reflexivity | apply shrinks_observe; reflexivity | apply shrinks_inquire; reflexivity
  | case_match ].

(** ** Processes, files, holders *)

Lemma shrinks_inspect pid : shrinks (inspectProcess pid).
Proof. unfold inspectProcess. shrink. Qed.
Lemma shrinks_readFile p : shrinks (readFile p).
Proof. unfold readFile. shrink. Qed.
Lemma shrinks_unlisted {A} (m : prog A) : shrinks m → shrinks (unlisted m).
Proof. intros Hm. unfold unlisted. shrink. Qed.
#[local] Hint Resolve shrinks_inspect shrinks_readFile : shrinks.
Ltac shrink_more := repeat first [progress shrink | apply shrinks_unlisted].

Lemma shrinks_alive m : shrinks (alive m).
Proof. unfold alive. shrink. Qed.
Lemma shrinks_confirmed m : shrinks (confirmed m).
Proof. unfold confirmed. shrink. Qed.
Lemma shrinks_markProcess pid : shrinks (markProcess pid).
Proof. unfold markProcess. shrink. Qed.
#[local] Hint Resolve shrinks_alive shrinks_confirmed shrinks_markProcess : shrinks.
Lemma shrinks_holder_alive h : shrinks (holder_alive h).
Proof. unfold holder_alive. shrink. Qed.
#[local] Hint Resolve shrinks_holder_alive : shrinks.
Lemma shrinks_prune_each root names : shrinks (prune_each root names).
Proof. induction names; cbn [prune_each]; unfold record_alive; shrink_more. Qed.
#[local] Hint Resolve shrinks_prune_each : shrinks.
Lemma shrinks_pruneHolders root : shrinks (pruneHolders root).
Proof. unfold pruneHolders. shrink. Qed.

(** Only a holder's record put in place adds one. *)
Lemma runs_writeOwnerOnly s p content :
  runs s (writeOwnerOnly p content)
    (λ r s', match r with Ok _ => s_disk s' ⊆ p :: s_disk s | Err _ => s_disk s' ⊆ s_disk s end).
Proof.
  unfold writeOwnerOnly. set (dir_base := match p with Under _ _ => _ | At _ => _ end). destruct dir_base as [dir base].
  eapply moves_bind; [by eapply shrinks_inquire| |done]. intros name s1 H1. cbn beta in H1.
  apply moves_finally. eapply moves_mono with (P := λ r s',
    match r with Ok _ => s_disk s' ⊆ p :: s_disk s | Err _ => s_disk s' ⊆ s_disk s end).
  2: { intros r s2 H2. eapply moves_mono; [apply (shrinks_unlisted (remove (At name))); shrink|].
       cbn beta. intros r' s3 H3. destruct r; by etrans. }
  assert (Hclose : ∀ c, places c = false → shrinks (r ← io_try (ask c);
    match r with Ok _ => mret tt | Err e => _ ← unlisted (ask (CloseTemp name)); io_fail e end)) by (intros c Hc; shrink_more; apply shrinks_ask; exact Hc).
  assert (Hrest : ∀ (m : prog unit) (k : prog unit) s1, s_disk s1 ⊆ s_disk s → shrinks m →
    (∀ s2, s_disk s2 ⊆ s_disk s → runs s2 k (λ r s',
       match r with Ok _ => s_disk s' ⊆ p :: s_disk s | Err _ => s_disk s' ⊆ s_disk s end)) →
    runs s1 (_ ← m; k) (λ r s', match r with Ok _ => s_disk s' ⊆ p :: s_disk s | Err _ => s_disk s' ⊆ s_disk s end)).
  { intros m k s0 H0 Hm Hk. eapply moves_bind; [apply Hm| |by intros e s2 H2; cbn beta in H2; etrans].
    intros a s2 H2. apply Hk. cbn beta in H2. by etrans. }
  do 2 (apply Hrest; [done|by apply Hclose|]; clear s1 H1; intros s1 H1).
  apply Hrest; [done|by apply shrinks_ask|]. clear s1 H1. intros s1 H1.
  apply moves_call; [done|]. intros tr. unfold nstep. cbn [fst snd]. destruct (does tr _); cbn [is_ok andb].
  - destruct (s_lock s1); [destruct (is_holder _ p)|]; cbn [set_disk s_disk].
    1: intros x [->|?]%elem_of_cons; [by left|right; by apply H1]. all: intros x ?; right; by apply H1.
  - by destruct (s_lock s1).
Qed.
Lemma shrinks_writeOwnerOnly root name content : shrinks (writeOwnerOnly (Under root [name]) content).
Proof.
  unfold writeOwnerOnly. shrink_more; by apply shrinks_ask.
Qed.
#[local] Hint Resolve shrinks_pruneHolders shrinks_writeOwnerOnly : shrinks.

(** ** Stopping and starting *)

Lemma shrinks_signal m sig : shrinks (signalPostmaster m sig).
Proof. unfold signalPostmaster, io_guard. shrink. Qed.
Lemma shrinks_wait_loop fuel m deadline : shrinks (wait_loop fuel m deadline).
Proof. induction fuel; cbn [wait_loop]; shrink_more. Qed.
Lemma shrinks_waitGone m budget : shrinks (waitGone m budget).
Proof. unfold waitGone. shrink. apply shrinks_wait_loop. Qed.
Lemma shrinks_readPostmasterRecord root : shrinks (readPostmasterRecord root).
Proof. unfold readPostmasterRecord. shrink. Qed.
Lemma shrinks_forget root recorded : shrinks (forgetPostmasterRecord root recorded).
Proof. unfold forgetPostmasterRecord. shrink_more. Qed.
#[local] Hint Resolve shrinks_signal shrinks_waitGone shrinks_readPostmasterRecord shrinks_forget : shrinks.
Lemma shrinks_stopServer root dataDir : shrinks (stopServer root dataDir).
Proof. unfold stopServer, stop_recorded, forget_server, io_guard. shrink_more. Qed.

Lemma shrinks_pidFileOwner p : shrinks (postmasterPidFileOwner p).
Proof. unfold postmasterPidFileOwner, processAlive. shrink. Qed.
#[local] Hint Resolve shrinks_stopServer shrinks_pidFileOwner : shrinks.
Lemma shrinks_attachedPostmaster root dataDir : shrinks (attachedPostmaster root dataDir).
Proof. unfold attachedPostmaster, clearDisownedPostmasterPid, io_guard. shrink. Qed.
Lemma shrinks_readAdminPassword root : shrinks (readAdminPassword root).
Proof. unfold readAdminPassword, io_guard. shrink. Qed.
Lemma shrinks_opened {A} dsn (m : prog A) : shrinks m → shrinks (opened dsn m).
Proof. intros Hm. unfold opened. shrink. Qed.
Lemma shrinks_removing {A} dir (m : prog A) : shrinks m → shrinks (removing dir m).
Proof. intros Hm. unfold removing. shrink_more. Qed.
#[local] Hint Resolve shrinks_attachedPostmaster shrinks_readAdminPassword : shrinks.
Lemma shrinks_start n ctx logLevel : shrinks (start n ctx logLevel).
Proof.
  unfold start, prepare_nix, initdbIfNeeded, run_process, launch, restrictMaintenanceDatabases, writePostmasterRecord, exec_saying, postmasterRecordPath, adminPasswordPath.
  repeat first [progress shrink_more | apply shrinks_opened | apply shrinks_removing].
Qed.
Lemma shrinks_ping n ctx : shrinks (ping n ctx).
Proof. unfold ping. apply shrinks_opened. shrink. Qed.
#[local] Hint Resolve shrinks_start shrinks_ping : shrinks.
Lemma shrinks_locking {A} ctx root (m : prog A) : shrinks m → shrinks (locking ctx root m).
Proof. intros Hm. unfold locking, lockRunServer, io_guard. shrink. Qed.

Lemma shrinks_collect ctx servers self : shrinks (collectAbandonedServers ctx servers self).
Proof. unfold collectAbandonedServers, collect_entry, collect_one, ctx_done. shrink_more. Qed.
Lemma shrinks_release n ctx : shrinks (release n ctx).
Proof. unfold release, release_locked. repeat first [progress shrink_more | apply shrinks_locking]. Qed.
Lemma shrinks_provision n ctx service database owner password :
  shrinks (provisionDatabase n ctx service database owner password).
Proof.
  unfold provisionDatabase. apply shrinks_locking, shrinks_opened. unfold provision_open, exec_saying, io_guard. shrink_more.
Qed.

(** ** Acquiring *)

(** At most the record of what is handed out is added, and nothing where that fails. *)
Definition brings (m : prog nixPostgres) : Prop := ∀ s, runs s m (λ r s', match r with
  | Ok n => ∃ p, holder n = Some p ∧ s_disk s' ⊆ p :: s_disk s
  | Err _ => s_disk s' ⊆ s_disk s
  end).
Lemma brings_bind {A} (m : prog A) k : shrinks m → (∀ a, brings (k a)) → brings (m ≫= k).
Proof.
  intros Hm Hk s. eapply moves_bind; [apply Hm| |by intros e s1 H1]. intros a s1 H1. cbn beta in H1.
  eapply moves_mono; [apply Hk|]. cbn beta. intros [n|e] s2; [|by intros; etrans].
  intros (p & Hp & H2). exists p. split; [done|]. etrans; [exact H2|].
  intros x [->|?]%elem_of_cons; [by left|right; by apply H1].
Qed.
Lemma brings_finally m d : brings m → shrinks d → brings (io_finally m d).
Proof.
  intros Hm Hd s. apply moves_finally. eapply moves_mono; [apply Hm|]. intros r s1 H1.
  eapply moves_mono; [apply Hd|]. cbn beta in *. intros r2 s2 H2. destruct r as [n|e]; [|by etrans].
  destruct H1 as (p & Hp & H1). exists p. split; [done|]. by etrans.
Qed.
Lemma brings_register n service : brings (register n service).
Proof.
  unfold register. do 3 (apply brings_bind; [shrink|intros ?]). intros s.
  eapply moves_bind; [apply runs_writeOwnerOnly| |done]. intros written s1 H1. cbn beta in H1. apply moves_ret. by eexists.
Qed.
Lemma brings_attach n ctx service record : brings (attach n ctx service record).
Proof.
  unfold attach. apply brings_bind; [shrink|]. intros password. apply brings_bind; [shrink|]. intros _ s.
  eapply moves_bind; [apply brings_register| |done]. intros n' s1 (p & Hp & H1). apply moves_ret. by exists p.
Qed.
Lemma brings_stopping_if started root dataDir m : brings m → brings (stopping_if started root dataDir m).
Proof.
  intros Hm s. unfold stopping_if. eapply moves_trying; [apply Hm|]. cbn beta.
  intros [n|e] s1 H1; [by apply moves_ret|].
  assert (Hstop : shrinks (if started then unlisted (stopServer root dataDir) else mret tt)) by shrink_more.
  eapply moves_bind; [apply Hstop| |]; cbn beta.
  - intros stopped s2 H2. apply moves_fail. by etrans.
  - intros e' s2 H2. by etrans.
Qed.
Lemma brings_acquire ctx key service logLevel : brings (acquireRunServer ctx key service logLevel).
Proof.
  unfold acquireRunServer. do 2 (apply brings_bind; [shrink|intros ?]).
  apply brings_bind; [apply shrinks_collect|]. intros _. unfold locking, lockRunServer, io_guard.
  apply brings_bind; [shrink|]. intros _. apply brings_finally; [|shrink]. unfold acquire_locked.
  do 2 (apply brings_bind; [shrink|intros ?]). case_match; [apply brings_attach|].
  apply brings_stopping_if, brings_bind; [shrink|]. intros [n record]. apply brings_attach.
Qed.
End records.
