(* ===== verification/NixSafety.v ===== *)
(** A run's postgres server keeps its protocol ([nixpg.go]): every signal, removal,
    launch and statement of acquiring, releasing and provisioning is allowed by what
    was seen under the lock, and the wait for a stopped server ends. *)
From S2P Require Import Prelude GoStrings Traces Timeouts RuntimeRoles Url Json Config NixHost NixServer NixProtocol NixRecords.

Section safety.
Context {host : NixHost} {u : Unicode} `{!Clock (trace ncall)}.
Context {t : target}.
#[local] Abbreviation prog := (io (trace ncall)).
#[local] Abbreviation moves := (moves nstep (nallowed t)).

(** ** Stopping *)

Lemma moves_forget_server s root record :
  s_lock s = Some root → s_record s = Some record → s_unconfirmed s = true →
  moves s (forget_server record root (pgdata root)) (λ _ s', keeps s s' ∧ over s' = over s).
Proof.
  intros Hl Hr Hg. unfold forget_server. apply moves_then; [| |done].
  { destruct (has_prefix _ _) eqn:E; [|by apply moves_ret].
    apply moves_unlisted, moves_quiet_call; [done|]. right. eauto. }
  apply moves_then; [by apply (moves_forget _ root)| |done].
  eapply moves_bind with (P := λ r s', (keeps s s' ∧ over s' = over s) ∧ is_ok r = true).
  - apply moves_unlisted, (moves_remove_pid _ root); [done|by right|]. intros r. split; [|done].
    destruct (is_gone r); [by split; [apply set_cleared_keeps|]|done].
  - intros [] s' [Hk _]. by apply moves_ret.
  - by intros e s' [_ ?].
Qed.

Lemma over_unconfirmed s : s_read s = true → s_unconfirmed s = true → over s = true.
Proof. intros H1 H2. unfold over. by rewrite H1, H2, orb_true_r. Qed.
Lemma over_tracked record s s' :
  tracks record s s' → s_read s = true → s_unconfirmed s' = true → over s' = true.
Proof. intros (_ & E & _) H1 H2. apply over_unconfirmed; congruence. Qed.

Lemma moves_stop_recorded s root record :
  s_lock s = Some root → s_live s = Some [] → s_record s = Some record → s_read s = true →
  moves s (stop_recorded record root (pgdata root)) (λ r s', keeps s s' ∧ (is_ok r = true → over s' = true)).
Proof.
  intros Hl Hlive Hr Hread.
  assert (Hl' : ∀ s', tracks record s s' → s_lock s' = Some root) by (intros s' [? _]; eauto using lock_kept with nix).
  assert (Hlive' : ∀ s', tracks record s s' → s_live s' = Some []) by
    (intros s' [Hk _]; rewrite (h_live _ _ (k_holds _ _ Hk)); done).
  assert (Hr' : ∀ s', tracks record s s' → s_record s' = Some record) by (intros s' (_ & _ & ?); auto).
  eapply moves_bind with (P := λ r s1, tracks record s s1 ∧ is_ok r = true).
  { apply moves_try. eapply moves_mono; [by apply moves_signal; eauto|done]. }
  2: by intros e s1 [_ ?].
  intros r s1 [H1 _]. destruct r as [[]|err].
  - apply (moves_step (tracks record) s _ _ _ (λ r s2, r = Ok true → s_unconfirmed s2 = true)); [done|by apply moves_waitGone, Hr'| |].
    2: by intros e s2 [? _] _; split.
    intros gone s2 H2 Hg.
    apply (moves_step (tracks record) s _ _ _ (λ r s2, r = Ok tt → s_unconfirmed s2 = true)); [done| | |].
    + destruct gone; [apply moves_ret; by split; auto|].
      eapply moves_bind with (P := λ r s3, tracks record s2 s3 ∧ is_ok r = true).
      { apply moves_unlisted. eapply moves_mono; [apply moves_signal; eauto|]. done. }
      2: by intros e s3 [_ ?].
      intros [] s3 [H3 _]. eapply moves_bind; [apply moves_waitGone, Hr'; by etrans| |].
      * intros gone s4 [H4 Hg4]. apply moves_lift. split; [by etrans|]. destruct gone; [auto|done].
      * intros e s4 [H4 _]. split; [by etrans|done].
    + intros [] s3 H3 Hg3. eapply moves_mono; [apply moves_forget_server; auto|]. cbn beta.
      intros r s4 [? Ho]. split; [etrans; [by apply H3|done]|]. intros _. rewrite Ho. eapply over_tracked; eauto.
    + by intros e s3 [? _] _; split.
  - apply (moves_step (tracks record) s _ _ _ (λ r s2, ∃ here, r = Ok here ∧ s_unconfirmed s2 = negb here)); [done| | |].
    + apply moves_confirm; eauto.
    + intros here s2 H2 (? & [= <-] & Hg). destruct here; cbn [negb].
      * apply moves_fail. by split; [apply H2|].
      * apply moves_then; [apply (moves_forget _ root); auto| |].
        -- apply moves_ret. split; [apply H2|]. intros _. eapply over_tracked; eauto.
        -- intros e. by split; [apply H2|].
    + by intros e s2 _ (? & ? & _).
Qed.

Lemma moves_stopServer s root :
  s_lock s = Some root → s_live s = Some [] → moves s (stopServer root (pgdata root)) (λ r s', keeps s s' ∧ (is_ok r = true → over s' = true)).
Proof.
  intros Hl Hlive. eapply moves_bind with (P := λ r s1, ∃ record, r = Ok record ∧ keeps s s1 ∧ s_record s1 = record ∧ s_read s1 = true).
  { apply moves_readPostmasterRecord; eauto 6. }
  2: by intros e s1 (? & ? & _).
  intros record s1 (? & [= <-] & H1 & Hr & Hread).
  assert (Hl1 : s_lock s1 = Some root) by eauto using lock_kept with nix.
  destruct record as [record|].
  2: { apply moves_ret. split; [done|]. intros _. unfold over. by rewrite Hread, bool_decide_eq_true_2. }
  eapply moves_bind with (P := λ r s2, ∃ here, r = Ok here ∧ tracks record s1 s2 ∧ s_unconfirmed s2 = negb here).
  { apply moves_confirm; eauto. }
  2: by intros e s2 (? & ? & _).
  intros here s2 (? & [= <-] & Ht & Hg). pose proof Ht as (H2 & Hread2 & Hr2). assert (Hk : keeps s s2) by (by etrans).
  assert (Hl2 : s_lock s2 = Some root) by eauto using lock_kept with nix.
  destruct here; cbn [negb].
  - eapply moves_mono; [apply moves_stop_recorded; auto|].
    + rewrite (h_live _ _ (k_holds _ _ Hk)). done.
    + congruence.
    + intros r s3 [? ?]. split; [by etrans|done].
  - apply moves_then; [by apply (moves_forget _ root)| |done]. apply moves_ret. split; [done|].
    intros _. by eapply over_tracked.
Qed.

(** ** The pid file *)

Lemma set_pidfile_keeps s v : keeps s (set_pidfile s v).
Proof. by repeat constructor. Qed.

Lemma moves_processAlive s pid :
  s_pidfile s = Some (Some pid) →
  moves s (processAlive pid) (λ r s', keeps s s' ∧ ∃ live : bool, r = Ok live ∧
    s_pidfile s' = Some (if live then Some pid else None)).
Proof.
  intros Hp. eapply moves_bind with (P := λ r s1, ∃ x, r = Ok x ∧ s1 = nstep s (Probe pid, is_ok x)).
  { apply moves_try, moves_call; [done|]. eauto. }
  2: by intros e s1 (? & ? & _).
  intros a s1 (x & [= ->] & ->). apply moves_ret. unfold nstep. cbn [fst snd].
  rewrite (bool_decide_eq_true_2 (s_pidfile s = _)) by done. destruct x; cbn [is_ok negb andb].
  - split; [done|]. by exists true.
  - split; [apply set_pidfile_keeps|]. by exists false.
Qed.

Lemma moves_pidFileOwner s root :
  s_lock s = Some root →
  moves s (postmasterPidFileOwner (pidFile (pgdata root)))
    (λ r s', keeps s s' ∧ ∃ owner, r = Ok owner ∧ s_pidfile s' = Some owner).
Proof.
  intros Hl. eapply moves_bind with (P := λ r s1, ∃ x, r = Ok x ∧ s1 = set_pidfile s (Some (pid_file_names x))).
  { apply moves_try, (moves_read _ root); [done|]. intros r. eexists. split; [done|]. unfold file_read.
    by rewrite decide_False, decide_True. }
  2: by intros e s1 (x & ? & _).
  intros a s1 (x & [= ->] & ->). destruct (pid_file_names x) as [pid|].
  2: { apply moves_ret. split; [apply set_pidfile_keeps|]. by exists None. }
  eapply moves_bind; [by apply moves_processAlive| |by intros e s2 (_ & ? & ? & _)].
  intros live s2 (Hk & ? & [= <-] & Hp). apply moves_ret. split; [by etrans; [apply set_pidfile_keeps|]|].
  by destruct live; eexists.
Qed.

(** Once the pid file is refuted it is taken away. *)
Lemma moves_clear s root (Q : result unit → seen_state → Prop) :
  s_lock s = Some root → s_pidfile s = Some None →
  (∀ r s', keeps s s' → (is_gone r = true → s_cleared s' = true) → Q r s') →
  moves s (remove (pidFile (pgdata root))) Q.
Proof.
  intros Hl Hp HQ. apply (moves_remove_pid _ root); [done|by left|]. intros r. apply HQ; destruct (is_gone r); try done.
Qed.

Lemma moves_clearDisowned s root record :
  s_lock s = Some root →
  moves s (clearDisownedPostmasterPid (pgdata root) record)
    (λ r s', keeps s s' ∧ (r = Ok tt → s_cleared s' = true)).
Proof.
  intros Hl. apply (moves_step keeps s _ _ _ (λ r s1, ∃ owner, r = Ok owner ∧ s_pidfile s1 = Some owner));
    [done|by apply moves_pidFileOwner| |by intros e s1 _ (? & ? & _)].
  intros owner s1 Hk (? & [= <-] & Hp).
  assert (Hl1 : s_lock s1 = Some root) by eauto using lock_kept with nix.
  destruct owner as [pid|].
  - apply (moves_step keeps s _ _ _ (λ r s2, ∃ seen, r = Ok seen ∧ s2 = inspected s1 pid seen)); [done| | |].
    { apply moves_try, moves_inspect. intros r. split; [apply inspected_keeps|eauto]. }
    2: by intros e s2 _ (? & ? & _).
    intros a s2 Hk2 (seen & [= ->] & ->).
    assert (Hp2 : no_postmaster seen = true → s_pidfile (inspected s1 pid seen) = Some None).
    { intros E. cbn [inspected s_pidfile]. rewrite Hp, E. by rewrite bool_decide_eq_true_2. }
    destruct seen as [identity|e].
    + eapply moves_bind with (P := λ r s3, s3 = inspected s1 pid (Ok identity) ∧
        (r = Ok tt → isPostmasterExecutable (Executable identity) = false)).
      { apply moves_lift. split; [done|]. by destruct (isPostmasterExecutable _). }
      2: by intros e s3 [-> _].
      intros [] s3 [-> Hx]. apply moves_clear; [done|apply Hp2; cbn [no_postmaster]; by rewrite Hx|].
      intros r s4 Hk4 Hc. split; [by etrans|]. intros ->. by apply Hc.
    + destruct (error_is ErrProcessNotFound e) eqn:E; [|by apply moves_fail].
      apply moves_clear; [done|by apply Hp2|]. intros r s4 Hk4 Hc. split; [by etrans|]. intros ->. by apply Hc.
  - apply (moves_step keeps s _ _ _ (λ r s2, ∃ x, r = Ok x ∧ (is_gone x = true → s_cleared s2 = true))); [done| | |].
    { apply moves_try, moves_clear; [done..|]. eauto. }
    2: by intros e s2 _ (? & ? & _).
    intros a s2 Hk2 (x & [= ->] & Hc). destruct x as [[]|e]; cbn [is_gone] in Hc; [by apply moves_ret; auto|].
    destruct (error_is ErrNotExist e); [by apply moves_ret; auto|by apply moves_fail].
Qed.

Lemma moves_attached s root :
  s_lock s = Some root →
  moves s (attachedPostmaster root (pgdata root))
    (λ r s', keeps s s' ∧ (r = Ok None → s_cleared s' = true)).
Proof.
  intros Hl. eapply moves_bind with (P := λ r s1, keeps s s1 ∧ ∃ record, r = Ok record).
  { apply moves_readPostmasterRecord; eauto. }
  2: by intros e s1 [_ [? ?]].
  intros record s1 [H1 _].
  assert (Hclear : ∀ s2, keeps s s2 → moves s2
    (_ ← clearDisownedPostmasterPid (pgdata root) record; mret (None : option postmasterRecord))
    (λ r s', keeps s s' ∧ (r = Ok None → s_cleared s' = true))).
  { intros s2 H2. apply (moves_step keeps s _ _ _ (λ r s3, r = Ok tt → s_cleared s3 = true));
      [done|by apply moves_clearDisowned; eauto using lock_kept with nix| |by intros e s3 ? _].
    intros [] s3 H3 Hc. apply moves_ret. auto. }
  apply (moves_step keeps s _ _ _ (λ r s2, ∃ b : bool, r = Ok b)); [done| | |by intros e s2 _ [? ?]].
  { destruct record; [apply moves_alive; intros r; split; [apply inspected_keeps|eauto]|apply moves_ret; split; [done|eauto]]. }
  intros live s2 H2 _. destruct record as [record|]; [|by apply Hclear].
  destruct (live && _); [by apply moves_ret|by apply Hclear].
Qed.

(** ** The cluster and the launch *)

Lemma moves_readAdminPassword s root :
  s_lock s = Some root → moves s (readAdminPassword root) (λ _ s', keeps s s').
Proof.
  intros Hl. eapply moves_bind with (P := λ _ s1, keeps s s1).
  - apply moves_wrap, (moves_read _ root); [done|]. intros r. apply read_keeps.
  - intros data s1 Hk. apply moves_bind with (P := λ _ s2, s2 = s1); [by apply moves_lift| |by intros e s2 ->].
    intros [] s2 ->. by apply moves_ret.
  - done.
Qed.

Lemma run_process_keeps s ctx bin args message tail :
  is_Some (s_lock s) → s_cleared s = true → s_started s = false → t_setup t = true → head args ≠ Some "start" →
  moves s (run_process ctx bin args message tail) (λ _ s', s' = s).
Proof.
  intros Hl Hc Hs Ht Ha. apply moves_then; [by apply moves_quiet_call| |done].
  apply moves_wrap, moves_call; [done|]. intros tr. unfold nstep. cbn [fst].
  by rewrite bool_decide_eq_false_2.
Qed.

Lemma moves_random s (Q : result string → seen_state → Prop) : (∀ r, Q r s) → moves s (inquire random RandRead) Q.
Proof. intros HQ. apply moves_inquire. intros r. split; [done|]. apply HQ. Qed.

(** Under the lock, on a cleared cluster, before the launch. *)
Definition ready (root : string) (s : seen_state) : Prop :=
  s_lock s = Some root ∧ s_cleared s = true ∧ s_started s = false ∧ t_setup t = true.
Lemma ready_kept root s s' : keeps s s' → ready root s → ready root s'.
Proof. intros [H1 H2 H3] (? & ? & ? & ?). split_and!; [by eauto using lock_kept with nix|auto|congruence|done]. Qed.

Lemma moves_initdb s n ctx binDir :
  dataDir n = pgdata (root n) → ready (root n) s →
  moves s (initdbIfNeeded n ctx binDir) (λ _ s', keeps s s').
Proof.
  intros Hd Hready. pose proof Hready as (Hl & Hc & Hs & Ht). unfold initdbIfNeeded. rewrite Hd.
  eapply moves_bind with (P := λ r s1, ∃ x, r = Ok x ∧ s1 = set_uninit s (negb (is_ok x))).
  { apply moves_try, moves_call; [done|]. intros tr. eexists. split; [done|]. unfold nstep. cbn [fst snd].
    by rewrite Hl, decide_True. }
  2: by intros e s1 (? & ? & _).
  intros a s1 (x & [= ->] & ->). assert (Hk : keeps s (set_uninit s (negb (is_ok x)))) by (by repeat constructor).
  destruct (is_ok x); [by apply moves_ret|]. set (s1 := set_uninit s (negb false)) in *.
  apply moves_then; [apply moves_wrap, moves_quiet_call; [done|by exists (root n)]| |done].
  apply moves_then; [by apply moves_wrap, moves_quiet_call| |done].
  eapply moves_bind with (P := λ _ s2, s2 = s1); [by apply moves_wrap, moves_random| |by intros e s2 ->].
  intros secret s2 ->.
  apply (moves_step keeps s _ _ _ (λ _ _, True)); [done| | |done].
  { apply moves_wrap. eapply moves_mono; [by apply moves_writeOwnerOnly|by intros r s2 [? _]]. }
  intros [] s2 Hk2 _. apply (ready_kept _ _ _ Hk2) in Hready as (Hl2 & Hc2 & Hs2 & _).
  eapply moves_mono; [apply run_process_keeps; try done; eauto|]. by intros r s3 ->.
Qed.

Lemma moves_opened {A} s n (m : prog A) (Q : result A → seen_state → Prop) :
  s_open s = false → is_Some (s_lock s) → pins (t_dsn t) (n_adminDSN n "postgres") →
  (∀ s1, s1 = set_open s true → moves s1 m (λ r s2, s_open s2 = true ∧ Q r (set_open s2 false))) →
  (∀ e, Q (Err e) s) → moves s (opened (n_adminDSN n "postgres") m) Q.
Proof.
  intros Ho Hl Hd Hm He.
  eapply moves_bind with (P := λ r s1, s1 = if is_ok r then set_open s true else s).
  - apply moves_call; [split_and!; [done|by exists (adminPassword n), (socketDir n)|done]|].
    intros tr. unfold nstep. cbn [fst snd]. destruct (does tr (SqlOpen _)); [done|].
    cbn [is_ok]. by rewrite <-Ho; destruct s.
  - intros [] s1 ->. apply moves_finally. eapply moves_mono; [by apply Hm|].
    intros r s2 [Ho2 HQ]. apply moves_call; [done|]. by intros tr.
  - intros e s1 ->. apply He.
Qed.

Lemma keeps_closed s s' : s_open s = false → keeps (set_open s true) s' → keeps s (set_open s' false).
Proof. intros Ho [[[??Ht ? Hm] ?] ? ?]. by repeat constructor. Qed.

(** A statement, and several of them in turn. *)
Lemma carried_out_nil s : carried_out s [] = s.
Proof. destruct s. unfold carried_out. cbn. by rewrite app_nil_r. Qed.
Lemma carried_out_app s l1 l2 : carried_out (carried_out s l1) l2 = carried_out s (l1 ++ l2).
Proof. unfold carried_out. cbn. by rewrite app_assoc. Qed.
Lemma carried_out_keeps s l : keeps s (carried_out s l).
Proof. by repeat constructor. Qed.

(** How far a list of statements got. *)
Definition ran (s : seen_state) (l : list nstatement) (r : result unit) (s' : seen_state) : Prop :=
  ∃ l', s' = carried_out s l' ∧ (r = Ok tt → l' = l).
Lemma moves_statement s ctx message args st :
  nallowed t s (NExec ctx st) → moves s (exec_saying ctx message args st) (ran s [st]).
Proof.
  intros Ha. apply moves_wrap, moves_call; [done|]. intros tr. unfold nstep. cbn [fst snd].
  destruct (does tr _) as [[]|e]; [by exists [st]|]. exists []. by rewrite carried_out_nil.
Qed.
Lemma moves_no_statement s : moves s (mret tt) (ran s []).
Proof. apply moves_ret. exists []. by rewrite carried_out_nil. Qed.
Lemma moves_then_statements s (m : prog unit) (k : unit → prog unit) l1 l2 :
  moves s m (ran s l1) → (∀ s1, s1 = carried_out s l1 → moves s1 (k tt) (ran s1 l2)) →
  moves s (m ≫= k) (ran s (l1 ++ l2)).
Proof.
  intros Hm Hk. eapply moves_bind; [exact Hm| |].
  - intros [] s1 (l' & -> & E). rewrite E by done. eapply moves_mono; [by apply Hk|].
    intros r s2 (l2' & -> & E2). exists (l1 ++ l2'). rewrite carried_out_app. split; [done|]. intros Hr. by rewrite E2.
  - intros e s1 (l' & -> & _). by exists l'.
Qed.
Lemma moves_statements s ctx message args l :
  (∀ st l', st ∈ l → nallowed t (carried_out s l') (NExec ctx st)) →
  moves s (io_each (exec_saying ctx message args) l) (ran s l).
Proof.
  revert s. induction l as [|st l IH]; intros s Hl; cbn [io_each].
  { apply moves_ret. exists []. by rewrite carried_out_nil. }
  apply (moves_then_statements _ _ _ [st]).
  - apply moves_statement. rewrite <-(carried_out_nil s). apply Hl. by left.
  - intros s1 ->. apply IH. intros st' l' Hst. rewrite carried_out_app. apply Hl. by right.
Qed.

(** The server an attachment is about. *)
Definition same_server (n n' : nixPostgres) : Prop := root n' = root n ∧ dataDir n' = dataDir n.

Section launching.
Hypothesis no_dsn : t_dsn t = None.
Lemma any_dsn dsn : pins (t_dsn t) dsn.
Proof. by rewrite no_dsn. Qed.

Lemma moves_restrict s n ctx dir :
  s_lock s = Some (root n) → s_open s = false → s_started s = true → t_setup t = true →
  moves s (restrictMaintenanceDatabases n ctx dir) (λ r s', keeps s s' ∧ ∀ n', r = Ok n' → same_server n n').
Proof.
  intros Hl Ho Hs Hset. apply (moves_step keeps s _ _ _ (λ _ _, True)); [done| | |by intros e s' ? _].
  { eapply moves_mono; [by apply moves_readAdminPassword|done]. }
  intros password s1 H1 _. apply (moves_step keeps s _ _ _ (λ _ _, True)); [done| | |by intros e s' ? _].
  - assert (Ho1 : s_open s1 = false) by (rewrite (y_open _ _ (h_stays _ _ (k_holds _ _ H1))); done).
    assert (Hl1 : s_lock s1 = Some (root n)) by eauto using lock_kept with nix.
    eapply (moves_opened _ (with_password (with_socket n dir) password)); [done|by exists (root n)|apply any_dsn| |done].
    intros s2 ->. eapply moves_mono.
    + apply moves_statements. intros st l' Hst. split_and!; [by exists (root n)|done|done|].
      assert (Hs1 : s_started s1 = true) by (rewrite (k_started _ _ H1); done).
      apply elem_of_cons in Hst as [->|[->|[]%not_elem_of_nil]%elem_of_cons]; done.
    + intros r s3 (l' & -> & _). split; [done|]. split; [by apply keeps_closed, carried_out_keeps|done].
  - intros [] s2 H2 _. apply moves_ret. split; [done|]. by intros n' [= <-].
Qed.

(** A temporary name may be taken away again. *)
Lemma moves_removing {A} s name (m : prog A) (Q : result A → seen_state → Prop) :
  moves s m (λ r s', match r with Ok _ => Q r s' | Err _ => name ∈ s_temps s' ∧ Q r s' end) →
  moves s (removing (At name) m) Q.
Proof.
  intros Hm. eapply moves_bind with (P := λ r s1, ∃ x, r = Ok x ∧
    match x with Ok _ => Q x s1 | Err _ => name ∈ s_temps s1 ∧ Q x s1 end).
  { apply moves_try. eapply moves_mono; [exact Hm|]. eauto. }
  2: by intros e s1 (? & ? & _).
  intros r s1 (x & [= ->] & Hx). destruct x as [a|e]; [by apply moves_ret|]. destruct Hx as [Ht HQ].
  apply moves_unlisted_then; [apply moves_quiet_call; [done|by left]|by apply moves_fail].
Qed.

(** The nix environment and the build of postgres: nothing is shown. *)
Lemma moves_prepare s n ctx :
  s_lock s = Some (root n) → moves s (prepare_nix n ctx) (λ _ s', s' = s).
Proof.
  intros Hl. unfold prepare_nix.
  do 5 (apply moves_then; [by apply moves_wrap, moves_quiet_call| |done]).
  eapply moves_bind with (P := λ _ s', s' = s).
  - apply moves_try, moves_inquire. done.
  - intros r s' ->. apply moves_now. intros now. by apply moves_lift.
  - by intros e s' ->.
Qed.

Lemma moves_launch s n ctx binDir dir options :
  dataDir n = pgdata (root n) → ready (root n) s → dir ∈ s_temps s →
  moves s (launch n ctx binDir dir options) (λ r s', holds s s' ∧ (r = Ok tt → s_started s' = true)).
Proof.
  intros Hd (Hl & Hc & Hs & Hset) Ht. unfold launch.
  apply moves_bind with (P := λ _ s1, s1 = s).
  { apply moves_removing, moves_quiet; [done..|]. by intros [|]. }
  2: by intros e s1 ->.
  intros [] s1 ->.
  eapply moves_bind with (P := λ r s1, ∃ x, r = Ok x ∧ s1 = set_started s).
  { apply moves_try, moves_call; [split_and!; eauto|]. eauto. }
  2: by intros e s1 (? & ? & _).
  intros r s1 (x & [= ->] & ->). assert (Hk : holds s (set_started s)) by (by repeat constructor).
  destruct x as [[]|err]; [by apply moves_ret|].
  apply moves_unlisted_then; [by apply moves_quiet_call; [|left]|].
  eapply moves_bind with (P := λ _ s2, holds s s2); [|by intros log s2 ?; apply moves_fail|done].
  apply moves_try, (moves_read _ (root n)); [done|]. intros r. etrans; [exact Hk|apply k_holds, read_keeps].
Qed.

Lemma moves_temp_dir s pattern (Q : result string → seen_state → Prop) :
  (∀ r, Q r (add_temp s r)) → moves s (inquire (λ tr, temp_name tr pattern) (MkdirTemp pattern)) Q.
Proof. intros HQ. apply moves_inquire. intros r. split; [done|]. apply HQ. Qed.

Lemma add_temp_keeps s r : keeps s (add_temp s r).
Proof. constructor; [constructor; [constructor|]|..]; try done. destruct r; [by intros ? ?; right|done]. Qed.

Lemma open_kept s s' : stays s s' → s_open s = false → s_open s' = false.
Proof. intros [_ H _ _] ?. congruence. Qed.

(** The postmaster pg_ctl reported started, as it is recorded. *)
Lemma moves_record_server s n ctx dir :
  dataDir n = pgdata (root n) → s_lock s = Some (root n) → s_open s = false → s_started s = true → t_setup t = true →
  moves s
    (owner ← postmasterPidFileOwner (pidFile (dataDir n));
     pid ← match owner with
           | Some pid => mret pid
           | None => io_fail (ENew "postgres reported started but %s names no live postmaster; see %s"
                        [place_string (pidFile (dataDir n)); place_string (logPath (root n))])
           end;
     postmaster ← io_wrap "inspect the run's postmaster (pid %d): %w" [] (markProcess pid);
     let record := {| Postmaster := postmaster; SocketDir := dir |} in
     _ ← io_wrap "record the run's postmaster: %w" [] (writePostmasterRecord (root n) record);
     n ← restrictMaintenanceDatabases n ctx dir;
     mret (n, record))
    (λ r s', keeps s s' ∧ ∀ p, r = Ok p → same_server n p.1).
Proof.
  intros Hd Hl Ho Hs Hset. rewrite Hd.
  apply (moves_step keeps s _ _ _ (λ _ _, True)); [done| | |by intros e s1 ? _].
  { eapply moves_mono; [by apply moves_pidFileOwner|]. cbn beta. by intros r s1 [? _]. }
  intros owner s1 H1 _. apply (moves_step keeps s _ _ _ (λ _ _, True)); [done| | |by intros e s2 ? _].
  { destruct owner; [by apply moves_ret|by apply moves_fail]. }
  intros pid s2 H2 _. apply (moves_step keeps s _ _ _ (λ _ _, True)); [done| | |by intros e s3 ? _].
  { apply moves_wrap. apply moves_bind with (P := λ _ s3, keeps s2 s3).
    - apply moves_inspect. intros r. apply inspected_keeps.
    - intros id s3 H3. by apply moves_ret.
    - done. }
  intros postmaster s3 H3 _. apply (moves_step keeps s _ _ _ (λ _ _, True)); [done| | |by intros e s4 ? _].
  { apply moves_wrap. apply moves_bind with (P := λ _ s4, s4 = s3); [by apply moves_lift| |by intros e s4 ->].
    intros data s4 ->. eapply moves_mono; [by apply moves_writeOwnerOnly; eauto using lock_kept with nix|by intros r s5 [? _]]. }
  intros [] s4 H4 _.
  apply (moves_step keeps s _ _ _ (λ r _, ∀ n', r = Ok n' → same_server n n')); [done| | |by intros e s5 ? _].
  { apply moves_restrict; [by eauto using lock_kept with nix|by eauto using open_kept with nix| |done].
    rewrite (k_started _ _ H4). done. }
  intros n' s5 H5 Hn. apply moves_ret. split; [done|]. intros p [= <-]. by apply Hn.
Qed.

Lemma moves_start s n ctx logLevel :
  dataDir n = pgdata (root n) → ready (root n) s → s_open s = false →
  moves s (start n ctx logLevel) (λ r s', holds s s' ∧ ∀ p, r = Ok p → same_server n p.1).
Proof.
  intros Hd Hready Ho. unfold start.
  eapply moves_bind with (P := λ _ s1, s1 = s); [apply moves_prepare; by destruct Hready| |by intros e s1 ->].
  intros binDir s1 ->.
  apply (moves_step keeps s _ _ _ (λ _ _, True)); [done| | |by intros e s1 [? _ _] _].
  { eapply moves_mono; [by apply moves_initdb|done]. }
  intros [] s1 H1 _. apply (moves_step keeps s _ _ _ (λ r s2, ∀ dir, r = Ok dir → dir ∈ s_temps s2)); [done| | |by intros e s2 [? _ _] _].
  { apply moves_wrap, moves_temp_dir. intros r. split; [apply add_temp_keeps|]. destruct r; [|done].
    intros dir [= <-]. by left. }
  intros dir s2 H2 Ht. specialize (Ht dir eq_refl).
  apply moves_bind with (P := λ _ s3, s3 = s2); [|intros [] s3 ->|intros e s3 ->; split; [apply H2|done]].
  { apply moves_removing, moves_wrap, moves_quiet; [done..|]. by intros [[]|]. }
  apply moves_bind with (P := λ _ s3, s3 = s2); [|intros options s3 ->|intros e s3 ->; split; [apply H2|done]].
  { apply moves_removing, moves_lift. by destruct (serverOptions dir logLevel). }
  apply moves_bind with (P := λ r s3, holds s s3 ∧ (r = Ok tt → s_started s3 = true)).
  { eapply moves_mono; [apply moves_launch; [done|by eapply ready_kept|done]|]. cbn beta.
    intros r s3 [? ?]. split; [|done]. etrans; [apply H2|done]. }
  2: by intros e s3 [? _].
  intros [] s3 [H3 Hs]. eapply moves_mono; [apply moves_record_server; [done| | |by apply Hs|by apply Hready]|].
  - destruct Hready. eauto using lock_kept with nix.
  - eauto using open_kept with nix.
  - cbn beta. intros r s4 [H4 ?]. split; [|done]. etrans; [exact H3|apply H4].
Qed.

(** ** Attaching, acquiring and releasing *)

Lemma moves_ping s n ctx : s_open s = false → is_Some (s_lock s) → moves s (ping n ctx) (λ _ s', keeps s s').
Proof.
  intros Ho Hl. apply moves_opened; [done|done|apply any_dsn| |done]. intros s1 ->. apply moves_now. intros now.
  apply moves_quiet; [done..|]. intros r. split; [done|]. by apply keeps_closed.
Qed.

Lemma moves_register s n service :
  s_lock s = Some (root n) →
  moves s (register n service) (λ r s', keeps s s' ∧ ∀ n', r = Ok n' → same_server n n' ∧
    ∃ name, let p := holderPath (root n) name in holder n' = Some p ∧ p ∈ s_mine s' ∧ p ∈ s_disk s').
Proof.
  intros Hl. unfold register.
  apply (moves_step keeps s _ _ _ (λ _ _, True)); [done| | |by intros e s1 ? _].
  { apply moves_wrap. apply moves_bind with (P := λ _ s1, keeps s s1); [|by intros id s1 ?; apply moves_ret|done].
    apply moves_inspect. intros r. apply inspected_keeps. }
  intros agent s1 H1 _. apply (moves_step keeps s _ _ _ (λ _ _, True)); [done| | |by intros e s2 ? _].
  { destruct (1 <? getppid); [|by apply moves_ret].
    apply moves_bind with (P := λ _ s2, keeps s1 s2); [|by intros x s2 ?; apply moves_ret|done].
    apply moves_try. apply moves_bind with (P := λ _ s2, keeps s1 s2); [|by intros id s2 ?; apply moves_ret|done].
    apply moves_inspect. intros r. apply inspected_keeps. }
  intros run s2 H2 _. apply moves_bind with (P := λ _ s3, s3 = s2); [by apply moves_lift| |by intros e s3 ->].
  intros data s3 ->. set (p := holderPath (root n) (holder_name service)).
  apply (moves_step keeps s _ _ _ (λ r s4, r = Ok tt → p ∈ s_mine s4 ∧ p ∈ s_disk s4)); [done| | |by intros e s4 ? _].
  { eapply moves_mono; [by apply moves_writeOwnerOnly; eauto using lock_kept with nix|]. cbn beta.
    intros r s4 [H4 Hm]. split; [done|]. intros ->. apply Hm; [done|]. cbn [is_holder]. by rewrite !bool_decide_eq_true_2. }
  intros [] s4 H4 Hm. apply moves_ret. split; [done|]. intros n' [= <-]. split; [done|]. eexists. split; [done|]. by apply Hm.
Qed.

(** What [acquireRunServer] hands out, and what is released. *)
Definition attached (mine : list place) (n : nixPostgres) : Prop :=
  root n ≠ "" ∧ dataDir n = pgdata (root n) ∧ ∀ p, holder n = Some p → p ∈ mine ∧ ∃ name, p = holderPath (root n) name.
(** The record of an attachment is on the host. *)
Definition recorded (disk : list place) (n : nixPostgres) : Prop := ∃ p, holder n = Some p ∧ p ∈ disk.
Definition hands_out (root0 : string) (r : result nixPostgres) (mine disk : list place) : Prop :=
  ∀ n, r = Ok n → attached mine n ∧ root n = root0 ∧ recorded disk n.

Lemma moves_attach s n ctx service record :
  root n ≠ "" → dataDir n = pgdata (root n) → s_lock s = Some (root n) → s_open s = false →
  moves s (attach n ctx service record) (λ r s', keeps s s' ∧ hands_out (root n) r (s_mine s') (s_disk s')).
Proof.
  intros Hroot Hd Hl Ho. apply (moves_step keeps s _ _ _ (λ _ _, True)); [done| | |by intros e s1 ? _].
  { eapply moves_mono; [by apply moves_readAdminPassword|done]. }
  intros password s1 H1 _. apply (moves_step keeps s _ _ _ (λ _ _, True)); [done| | |by intros e s2 ? _].
  { apply moves_wrap. eapply moves_mono; [apply moves_ping; eauto using open_kept, lock_kept with nix|done]. }
  intros [] s2 H2 _. eapply moves_bind; [apply moves_register; eauto using lock_kept with nix| |].
  - intros n' s3 [H3 Hn]. destruct (Hn n' eq_refl) as ([Hr Hd'] & name & Hh & Hm & Hdisk). cbn in Hr, Hd', Hm, Hh.
    apply moves_ret. split; [by etrans|]. intros n'' [= <-]. split; [|split; [done|by eexists]].
    split; cbn; [by rewrite Hr|split; [by rewrite Hr, Hd'|]]. intros p. rewrite Hh. intros [= <-].
    split; [done|]. exists name. by rewrite Hr.
  - intros e s3 [H3 _]. split; [by etrans|done].
Qed.

Lemma moves_stopping_if {A} s (started : bool) root0 (m : prog A) (P : result A → list place → list place → Prop) :
  s_lock s = Some root0 → (started = true → s_live s = Some []) →
  moves s m (λ r s', holds s s' ∧ P r (s_mine s') (s_disk s')) →
  moves s (stopping_if started root0 (pgdata root0) m)
    (λ r s', stays s s' ∧ ((∃ e, r = Err e) ∨ P r (s_mine s') (s_disk s'))).
Proof.
  intros Hl Hlive Hm. apply moves_bind with (P := λ r s1, ∃ x, r = Ok x ∧ holds s s1 ∧ P x (s_mine s1) (s_disk s1)).
  { apply moves_try. eapply moves_mono; [exact Hm|]. eauto. }
  2: by intros e s1 (? & ? & _).
  intros x s1 (? & [= <-] & H1 & HP). destruct x as [a|e]; [apply moves_ret; eauto with nix|].
  apply moves_bind with (P := λ _ s2, stays s s2); [|by intros _ s2 ?; apply moves_fail; eauto|by eauto].
  destruct started; [|by apply moves_ret; eauto with nix].
  apply moves_unlisted. eapply moves_mono; [apply moves_stopServer|].
  - eauto using lock_kept with nix.
  - rewrite (h_live _ _ H1). by apply Hlive.
  - intros r s2 [H2 _]. etrans; eauto with nix.
Qed.

Lemma moves_acquire_locked s root0 ctx service logLevel :
  root0 ≠ "" → s_lock s = Some root0 → s_open s = false → s_started s = false → t_setup t = true →
  moves s (acquire_locked root0 ctx service logLevel) (λ r s', stays s s' ∧ hands_out root0 r (s_mine s') (s_disk s')).
Proof.
  intros Hroot Hl Ho Hs Hset. unfold acquire_locked. set (n := Build_nixPostgres _ _ _ _ _ _ _).
  apply moves_bind with (P := λ r s1, prunes s s1 ∧ (r = Ok 0%nat → s_live s1 = Some [])).
  { eapply moves_mono; [by apply moves_pruneHolders|]. by intros r s1 (? & ? & _). }
  2: { intros e s1 [? _]. split; [by eauto with nix|done]. }
  intros live s1 [H1 Hlive].
  assert (Hl1 : s_lock s1 = Some root0) by eauto using lock_kept with nix.
  apply moves_bind with (P := λ r s2, keeps s1 s2 ∧ (r = Ok None → s_cleared s2 = true)).
  { by apply moves_attached. }
  2: { intros e s2 [? _]. split; [|done]. etrans; eauto with nix. }
  intros record s2 [H2 Hc].
  assert (Hl2 : s_lock s2 = Some root0) by eauto using lock_kept with nix.
  assert (Hs2 : stays s s2) by (etrans; eauto with nix).
  assert (Ho2 : s_open s2 = false) by eauto using open_kept.
  destruct record as [record|].
  { eapply moves_mono; [by apply moves_attach|]. intros r s3 [H3 Hh]. split; [|done]. etrans; eauto with nix. }
  eapply moves_mono; [apply moves_stopping_if with (P := hands_out root0); [done| |]|].
  - intros ->%bool_decide_eq_true. rewrite (h_live _ _ (k_holds _ _ H2)). by apply Hlive.
  - apply moves_bind with (P := λ r s3, holds s2 s3 ∧ ∀ p, r = Ok p → same_server n p.1).
    { apply moves_start; [done| |done]. split_and!; [done|by apply Hc| |done]. rewrite (k_started _ _ H2), (p_started _ _ H1). done. }
    2: by intros e s3 [? _].
    intros [n' record] s3 [H3 Hn]. destruct (Hn _ eq_refl) as [Hr Hd]. cbn in Hr, Hd.
    eapply moves_mono; [apply moves_attach|]; [by rewrite Hr|by rewrite Hr, Hd| | |].
    + rewrite Hr. eauto using lock_kept with nix.
    + eauto using open_kept with nix.
    + intros r s4 [H4 Hh]. split; [etrans; [exact H3|apply H4]|]. by rewrite Hr in Hh.
  - cbn beta. intros r s3 [H3 Hh]. split; [by etrans|]. destruct Hh as [[e ->]|Hh]; done.
Qed.

(** ** The lock *)

(** Nothing is held. *)
Definition gave_up (s : seen_state) : Prop := s_lock s = None ∧ s_open s = false.
(** Nothing is held in the end, and what this agent wrote is not forgotten. *)
Record settles (s s' : seen_state) : Prop := { settles_up : gave_up s'; settles_mine : s_mine s ⊆ s_mine s' }.
Lemma settles_trans s1 s2 s3 : settles s1 s2 → settles s2 s3 → settles s1 s3.
Proof. intros [_ H1] [? H2]. constructor; [done|by etrans]. Qed.
Lemma settles_refl s : gave_up s → settles s s.
Proof. by constructor. Qed.
Lemma attached_kept mine mine' n : mine ⊆ mine' → attached mine n → attached mine' n.
Proof. intros Hm (Hr & Hd & Hh). split_and!; [done..|]. intros p Hp. destruct (Hh p Hp) as [? ?]. auto. Qed.

Lemma moves_locking {A} s ctx root0 (m : prog A) (P : result A → seen_state → Prop) :
  gave_up s → pins (t_root t) root0 → (∀ e, P (Err e) s) →
  moves (locked_at root0 s) m (λ r s', stays (locked_at root0 s) s' ∧ P r (unlocked s')) →
  moves s (locking ctx root0 m) (λ r s', settles s s' ∧ P r s').
Proof.
  intros [Hn Ho] Hroot He Hm.
  apply moves_bind with (P := λ r s1, match r with Ok _ => s1 = locked_at root0 s | Err _ => s1 = s end).
  - apply moves_bind with (P := λ r s1, s1 = if is_locked r then locked_at root0 s else s).
    + apply moves_wrap, moves_observe; [by split_and!|]. intros tr. by destruct (locks tr _) as [[]|].
    + intros locked s1 ->. apply moves_lift. by destruct locked.
    + by intros e s1 ->.
  - intros [] s1 ->. apply moves_finally. eapply moves_mono; [exact Hm|]. cbn beta. intros r s2 [[Hl2 Ho2 _ ? _] HP].
    apply moves_call; [done|]. by intros tr.
  - intros e s1 ->. by split.
Qed.

Lemma moves_collect_one s root0 :
  gave_up s → moves s (collect_one root0) (λ r s', settles s s').
Proof.
  intros [Hn Ho]. unfold collect_one.
  apply moves_bind with (P := λ r s1, ∃ x, r = Ok x ∧ s1 = if is_locked x then locked_at root0 s else s).
  { apply moves_try, moves_observe; [done|]. intros tr. eexists. split; [done|]. by destruct (locks tr _) as [[]|]. }
  2: by intros e s1 (? & ? & _).
  intros r s1 (? & [= <-] & ->). destruct (is_locked r); cbn [negb]; [|by apply moves_ret].
  set (s1 := locked_at root0 s).
  apply moves_bind with (P := λ r s2, ∃ x, r = Ok x ∧ stays s1 s2 ∧ (x = Ok 0%nat → s_live s2 = Some [])).
  { apply moves_try. eapply moves_mono; [by apply moves_pruneHolders|]. cbn beta. intros x s2 ([? _] & ? & _). eauto. }
  2: by intros e s2 (? & ? & _).
  intros live s2 (? & [= <-] & H2 & Hlive).
  apply moves_bind with (P := λ r s3, stays s1 s3 ∧ is_ok r = true).
  { destruct live as [[|k]|e]; [|by apply moves_ret..].
    apply moves_unlisted. eapply moves_mono; [apply moves_stopServer; [by eapply lock_kept|by apply Hlive]|].
    cbn beta. intros x s3 [H3 _]. split; [|done]. etrans; eauto with nix. }
  2: by intros e s3 [_ ?].
  intros [] s3 [[Hl3 Ho3 _ ? _] _]. apply moves_unlisted, moves_call; [done|]. by intros tr.
Qed.

Lemma moves_collect s ctx servers self :
  gave_up s → moves s (collectAbandonedServers ctx servers self) (λ _ s', settles s s').
Proof.
  intros Hg. apply moves_bind with (P := λ r s1, is_ok r = true ∧ s1 = s).
  { apply moves_try, moves_inquire. intros r. split; [done|]. unfold nstep. cbn [fst]. by destruct Hg as [-> _]. }
  2: by intros e s1 [? _].
  intros r s1 [_ ->]. destruct r as [entries|e]; [|by apply moves_ret].
  apply moves_each with (I := settles s); [by apply settles_refl| |done]. intros e s1 _ H1. unfold collect_entry.
  destruct (_ || _); [by apply moves_ret|].
  apply moves_bind with (P := λ r s2, is_ok r = true ∧ s2 = s1); [by apply moves_now; intros; apply moves_ret| |by intros ? ? [? _]].
  intros finished s2 [_ ->]. destruct finished; [by apply moves_ret|].
  eapply moves_mono; [apply moves_collect_one, H1|]. intros [[]|] s2 ?; by eapply settles_trans.
Qed.

Lemma hash16_nonempty key : hash16 key ≠ "".
Proof.
  intros H. apply (f_equal bytes) in H. unfold hash16, serviceHash, Sha256.sha256_hex in H. rewrite bytes_of_bytes in H.
  assert (E : len (Sha256.hex (Sha256.sha256 key)) = 64) by (by rewrite Sha256.len_hex, Sha256.len_sha256).
  rewrite len_bytes in E. by destruct (bytes (Sha256.hex _)).
Qed.
Lemma run_root_nonempty servers key : path_join [servers; hash16 key] ≠ "".
Proof. eapply path_join_nonempty; [by right; left|apply hash16_nonempty]. Qed.

(** The root of the run's server is the one the target names, where it names one. *)
Definition at_root (key : string) : Prop := ∀ servers, servers_dir = Ok servers → pins (t_root t) (path_join [servers; hash16 key]).

Lemma moves_acquire s ctx key service logLevel :
  gave_up s → t_setup t = true → at_root key →
  moves s (acquireRunServer ctx key service logLevel)
    (λ r s', settles s s' ∧ ∀ n, r = Ok n → attached (s_mine s') n ∧ pins (t_root t) (root n) ∧ recorded (s_disk s') n).
Proof.
  intros Hg Hset Hroot. apply moves_lifted; [|by intros e _; split; [apply settles_refl|]].
  intros servers Hservers. apply moves_then; [by apply moves_wrap, moves_quiet_call| |by intros e; split; [apply settles_refl|]].
  apply moves_bind with (P := λ _ s1, settles s s1); [by apply moves_collect| |done].
  intros [] s1 [H1 M1]. set (root0 := path_join [servers; hash16 key]).
  eapply moves_mono; [apply moves_locking with (P := λ r s', hands_out root0 r (s_mine s') (s_disk s')); [done|by apply Hroot|done|]|].
  - apply moves_acquire_locked; try done. apply run_root_nonempty.
  - cbn beta. intros r s2 [[H2 M2] Hh]. split; [constructor; [done|by etrans]|]. intros n ->.
    destruct (Hh n eq_refl) as (? & -> & ?). split_and!; [done|by apply Hroot|done].
Qed.
End launching.

(** *** Releasing *)

(** What a release without an error leaves: the attachment's record is gone, and the
    server is over unless another holder was met alive. *)
Definition let_go (n : nixPostgres) (s : seen_state) : Prop :=
  (∀ p, holder n = Some p → p ∉ s_disk s) ∧ ∃ met ended, s_left s = Some (met, ended) ∧ (met = false → ended = true).
Definition released (n : nixPostgres) (r : result outcome) (s : seen_state) : Prop :=
  ∃ stopped err n', r = Ok ((stopped, err), n') ∧ attached (s_mine s) n' ∧
    (err = None → holder n' = None ∧ let_go n s).

Lemma errors_join_none l : errors_join l = None → Forall (λ e, e = None) l.
Proof.
  induction l as [|[e|] l IH]; intros H; [done|done|]. constructor; [done|by apply IH].
Qed.

Lemma moves_shrinking {A} s (m : prog A) (P : result A → seen_state → Prop) :
  moves s m P → shrinks m → moves s m (λ r s', P r s' ∧ s_disk s' ⊆ s_disk s).
Proof. intros H1 H2. eapply moves_and; [exact H1|apply H2]. Qed.

(** The own record is taken away first. *)
Lemma moves_remove_own s n :
  attached (s_mine s) n → s_lock s = Some (root n) → s_live s = None →
  moves s (match holder n with Some p => io_try (remove p) | None => mret (Ok tt) end)
    (λ r s', ∃ x, r = Ok x ∧ keeps s s' ∧ s_live s' = None ∧
       (is_gone x = true → ∀ p, holder n = Some p → p ∉ s_disk s')).
Proof.
  intros (_ & Hd & Hh) Hl Hlive. destruct (holder n) as [p|] eqn:E.
  2: { apply moves_ret. exists (Ok tt). by split_and!. }
  destruct (Hh p eq_refl) as [Hm [name ->]]. apply moves_try, moves_observe.
  - exists (root n). split; [done|]. by right; right; left.
  - intros tr. eexists. split; [done|]. unfold nstep. cbn [fst snd holderPath]. rewrite Hl. unfold removed.
    rewrite decide_False by done. cbn [holderPath is_holder]. rewrite !bool_decide_eq_true_2 by done. cbn [andb].
    rewrite Hlive. split; [|split; [done|]].
    + by do 3 (constructor; try done).
    + intros Hx p [= <-]. rewrite Hx. cbn [set_disk s_disk]. rewrite list_elem_of_filter. by intros [? _].
Qed.

Lemma moves_release_locked s n forwardErr :
  attached (s_mine s) n → s_lock s = Some (root n) → s_live s = None →
  moves s (release_locked n forwardErr) (λ r s', stays s s' ∧ released n r (unlocked s')).
Proof.
  intros Ha Hl Hlive. pose proof Ha as (Hroot & Hd & Hh). unfold release_locked.
  assert (Hfail : ∀ n' e s', stays s s' → (n' = n ∧ e ≠ None ∨ n' = with_holder n None) →
    (errors_join [forwardErr; e] = None → let_go n (unlocked s')) →
    moves s' (mret ((false, errors_join [forwardErr; e]), n')) (λ r s', stays s s' ∧ released n r (unlocked s'))).
  { intros n' e s' Hs Hn' Hgo. apply moves_ret. split; [done|]. exists false, (errors_join [forwardErr; e]), n'.
    split; [done|]. split.
    - destruct Hn' as [[-> _] | ->]; [|by split_and!]. eapply attached_kept; [apply (y_mine _ _ Hs)|done].
    - intros E. split; [|by apply Hgo]. destruct Hn' as [[_ He] | ->]; [|done].
      apply errors_join_none in E. rewrite !Forall_cons in E. by destruct E as (_ & ? & _). }
  eapply moves_bind; [by apply moves_remove_own| |by intros e s1 (? & ? & _)].
  intros removed s1 (? & [= <-] & H1 & Hlive1 & Hgone).
  assert (Hs1 : stays s s1) by eauto with nix.
  destruct (is_gone removed) eqn:Eg; cbn [negb].
  2: { apply Hfail; [done| |].
       - left. split; [done|]. by destruct removed.
       - intros E. apply errors_join_none in E. rewrite !Forall_cons in E. destruct E as (_ & E & _). by destruct removed. }
  specialize (Hgone eq_refl).
  apply moves_bind with (P := λ r s2, ∃ x, r = Ok x ∧ (prunes s1 s2 ∧ (x = Ok 0%nat → s_live s2 = Some [])
    ∧ ∀ k, x = Ok (S k) → s_met s2 = true) ∧ s_disk s2 ⊆ s_disk s1); [| |by intros e s2 (? & ? & _)].
  { apply moves_try. eapply moves_mono; [apply moves_shrinking; [by eapply moves_pruneHolders, lock_kept|apply shrinks_pruneHolders]|].
    eauto. }
  intros live s2 (? & [= <-] & (H2 & Hz & Hmet) & Hdisk2).
  assert (Hs2 : stays s s2) by (etrans; eauto with nix).
  assert (Hgone2 : ∀ p, holder n = Some p → p ∉ s_disk s2) by (intros p Hp ?%Hdisk2; by eapply Hgone).
  destruct live as [[|k]|e].
  - apply moves_bind with (P := λ r s3, ∃ x, r = Ok x ∧ (keeps s2 s3 ∧ (is_ok x = true → over s3 = true)) ∧ s_disk s3 ⊆ s_disk s2);
      [| |by intros e s3 (? & ? & _)].
    + apply moves_try. cbn [with_holder root dataDir]. rewrite Hd. eapply moves_mono; [apply moves_shrinking|].
      * apply moves_stopServer; [by eapply lock_kept|by apply Hz].
      * apply shrinks_stopServer.
      * eauto.
    + intros y s3 (? & [= <-] & [H3 Hover] & Hdisk3). apply moves_ret.
      assert (Hs3 : stays s s3) by (etrans; eauto with nix). split; [done|].
      eexists _, _, _. split; [done|]. split; [by split_and!|]. intros E. split; [done|].
      apply errors_join_none in E. rewrite !Forall_cons in E. destruct E as (_ & E & _). destruct y; [|done]. split.
      * intros p Hp Hin%Hdisk3. by eapply Hgone2.
      * exists (s_met s3), (over s3). split; [done|]. intros _. by apply Hover.
  - apply Hfail; [done|by right|]. intros _. split; [done|]. exists (s_met s2), (over s2). split; [done|].
    by rewrite (Hmet k eq_refl).
  - apply Hfail; [done|by right|]. intros E. apply errors_join_none in E. rewrite !Forall_cons in E.
    by destruct E as (_ & ? & _).
Qed.

(** What is released may be released again. *)
Lemma moves_release s n ctx :
  attached (s_mine s) n → gave_up s → pins (t_root t) (root n) →
  moves s (release n ctx) (λ r s', settles s s' ∧ released n r s').
Proof.
  intros Ha Hg Hroot. unfold release.
  apply moves_bind with (P := λ r s1, is_ok r = true ∧ s1 = s); [| |by intros e s1 [? _]].
  { destruct (forwarder _); [|by apply moves_ret].
    apply moves_bind with (P := λ r s1, is_ok r = true ∧ s1 = s); [by apply moves_try, moves_quiet| |by intros e s1 [? _]].
    intros r s1 [_ ->]. by apply moves_ret. }
  intros forwardErr s1 [_ ->]. set (n' := without_forwarder (with_watch n None)).
  assert (Ha' : attached (s_mine s) n') by exact Ha.
  rewrite bool_decide_eq_false_2 by apply Ha.
  apply moves_bind with (P := λ r s1, ∃ x, r = Ok x ∧ settles s s1 ∧ ∀ o, x = Ok o → released n x s1); [| |by intros e s1 (? & ? & _)].
  { apply moves_try. eapply moves_mono;
      [apply moves_locking with (P := λ r s', ∀ o, r = Ok o → released n r s'); [done|done|done|]|].
    - eapply moves_mono; [by apply moves_release_locked|]. intros r s1 [? ?]. by split.
    - intros r s1 [? ?]. eauto. }
  intros r s1 (? & [= <-] & H1 & Ho). destruct r as [o|e]; apply moves_ret; (split; [done|]).
  - by eapply Ho.
  - eexists _, _, _. split; [done|]. split; [eapply attached_kept; [apply H1|done]|].
    intros E. apply errors_join_none in E. rewrite !Forall_cons in E. by destruct E as (_ & ? & _).
Qed.

(** ** One service's database *)

Lemma takes_claim service database owner found create claimed :
  check_claim service database owner found = Ok (create, claimed) →
  takes service owner found ∧ create = negb (is_ok found) ∧
  claimed = match found with Ok (Some _, _) => true | _ => false end.
Proof.
  unfold check_claim, takes. destruct found as [[c o]|e].
  - rewrite bind_ok. intros ([] & Ho & H). apply guard_ok, negb_false_iff, bool_decide_eq_true in Ho as ->.
    destruct c as [c|]; [|by injection H as <- <-; auto].
    apply bind_ok in H as ([] & Hc & [= <- <-]). apply guard_ok, negb_false_iff, bool_decide_eq_true in Hc as ->. auto.
  - destruct (error_is ErrNoRows e); [|done]. by intros [= <- <-].
Qed.

(** What a provisioning that succeeds found and carried out. *)
Definition provisioned (s : seen_state) (r : result unit) (s' : seen_state) : Prop :=
  r = Ok tt → ∃ found present, s_claim s' = Some found ∧ takes (t_service t) (t_owner t) found ∧
    s_owner s' = Some (present, false) ∧ s_done s' = s_done s ++ required t found present.

(** What asking and carrying out leaves alone. *)
Record asks (s s' : seen_state) : Prop := {
  k_lock : s_lock s' = s_lock s;
  k_open : s_open s' = s_open s;
  k_temps : s_temps s' = s_temps s;
  k_mine : s_mine s' = s_mine s;
  k_met : s_met s' = s_met s;
}.

Lemma moves_claimed_statements s ctx found present :
  is_Some (s_lock s) → s_open s = true → t_setup t = true → takes (t_service t) (t_owner t) found →
  s_claim s = Some found → s_owner s = Some (present, false) →
  moves s
    (_ ← (if present then mret tt else exec_saying ctx "create the migration owner: %w" [] (CreateRole (t_owner t)));
     _ ← exec_saying ctx "configure the migration owner: %w" [] (AlterRole (t_owner t) (t_password t));
     _ ← (if negb (is_ok found) then exec_saying ctx "create database %q: %w" [t_database t] (CreateDatabase (t_database t) (t_owner t))
          else mret tt);
     _ ← (if match found with Ok (Some _, _) => true | _ => false end then mret tt
          else exec_saying ctx "record database %q's service: %w" [t_database t] (CommentDatabase (t_database t) (databaseClaim (t_service t))));
     io_each (exec_saying ctx "restrict database %q to its service: %w" [t_database t])
       [OwnerTo (t_database t) (t_owner t); RevokePublic (t_database t)])
    (ran s (required t found present)).
Proof.
  intros Hl Ho Hset Ht Hc Hw.
  assert (Hexec : ∀ l st, fits t found present st → nallowed t (carried_out s l) (NExec ctx st)).
  { intros l st H. split_and!; [done|done|done|]. destruct st; [done|..]; exists found, present; by split_and!. }
  unfold required. apply moves_then_statements.
  { destruct present; [apply moves_no_statement|]. apply moves_statement. rewrite <-(carried_out_nil s). by apply Hexec. }
  intros s1 ->. apply moves_then_statements; [by apply moves_statement, Hexec|].
  intros s2 ->. rewrite carried_out_app. apply moves_then_statements.
  { destruct found; [apply moves_no_statement|by apply moves_statement, Hexec]. }
  intros s3 ->. rewrite carried_out_app. apply moves_then_statements.
  { destruct found as [[[c|] o]|e]; [apply moves_no_statement|..]; apply moves_statement, Hexec; by split_and!; [..|by intros ? ? [= <- _]]. }
  intros s4 ->. rewrite carried_out_app. apply moves_statements. intros st l' Hst. rewrite carried_out_app. apply Hexec.
  by apply elem_of_cons in Hst as [->|[->|[]%not_elem_of_nil]%elem_of_cons].
Qed.

Lemma moves_provision_open s ctx :
  is_Some (s_lock s) → s_open s = true → t_setup t = true →
  moves s (provision_open ctx (t_service t) (t_database t) (t_owner t) (t_password t))
    (λ r s', asks s s' ∧ provisioned s r s').
Proof.
  intros Hl Ho Hset.
  apply moves_bind with (P := λ r s1, ∃ found, r = Ok found ∧ s1 = set_claim s found).
  { apply moves_try, moves_inquire. intros r. split; [done|]. exists r. by split. }
  2: by intros e s1 (? & ? & _).
  intros found s1 (? & [= <-] & ->).
  eapply moves_bind with (P := λ r s1, s1 = set_claim s found ∧
    ∀ p, r = Ok p → check_claim (t_service t) (t_database t) (t_owner t) found = Ok p).
  { apply moves_lift. split; [done|]. by intros p ->. }
  2: { intros e s1 [-> _]. by split. }
  intros [create claimed] s1 [-> Hc]. specialize (Hc _ eq_refl). apply takes_claim in Hc as (Ht & -> & ->).
  apply moves_bind with (P := λ r s1, ∃ x, s1 = set_owner (set_claim s found) x ∧ (∀ p, r = Ok p → x = Ok p)).
  { apply moves_wrap, moves_inquire. intros r. split; [done|]. exists r. split; [done|]. by destruct r. }
  2: { intros e s1 (x & -> & _). by split. }
  intros [present granted] s1 (x & -> & Hx). rewrite (Hx _ eq_refl). clear x Hx.
  set (s1 := set_owner (set_claim s found) (Ok (present, granted))).
  apply moves_bind with (P := λ r s2, s2 = s1 ∧ (r = Ok tt → granted = false)).
  { apply moves_lift. split; [done|]. by destruct granted. }
  2: by intros e s2 [-> _].
  intros [] s2 [-> Hg]. specialize (Hg eq_refl). subst granted.
  eapply moves_mono; [by apply (moves_claimed_statements s1)|].
  intros r s2 (l & -> & Hr). split; [by constructor|]. intros ->. exists found, present. split_and!; try done.
  cbn [carried_out s_done]. by rewrite Hr.
Qed.

Lemma moves_provision s n ctx :
  gave_up s → t_setup t = true → pins (t_root t) (root n) → pins (t_dsn t) (n_adminDSN n "postgres") →
  moves s (provisionDatabase n ctx (t_service t) (t_database t) (t_owner t) (t_password t))
    (λ r s', settles s s' ∧ provisioned s r s').
Proof.
  intros Hg Hset Hr Hd. apply moves_locking with (P := provisioned s); [done..|].
  apply moves_opened; [done|by exists (root n)|done| |done]. intros s1 ->.
  eapply moves_mono; [by apply moves_provision_open|].
  intros r s1 ([Hl Ho Ht Hm Hmet] & Hp). split; [done|]. split; [|exact Hp].
  constructor; try done. all: cbn in *; congruence.
Qed.
End safety.

(** ** The wait for a stopped server

    Time does not go back, and a sleep takes its time. *)
Section waiting.
Context {host : NixHost} `{!Clock (trace ncall)}.

Record sleeps : Prop := {
  clock_mono : ∀ tr new, clock tr ≤ clock (tr ++ new);
  sleep_takes : ∀ tr b, clock tr + wait_interval ≤ clock (tr ++ [(Sleep wait_interval, b)]);
}.

(** The trace ends with an inspection of the mark that found it here, or gone. *)
Definition last_seen (m : processMark) (here : bool) (tr : trace ncall) : Prop :=
  ∃ pre seen, tr = pre ++ [(InspectProcess (PID m) seen, is_ok seen)] ∧ confirmed_seen m seen = here.

Lemma confirmed_runs m tr :
  let seen := inspects tr (PID m) in
  confirmed m tr = (Ok (confirmed_seen m seen), tr ++ [(InspectProcess (PID m) seen, is_ok seen)]).
Proof. done. Qed.

Lemma last_seen_now m tr seen : last_seen m (confirmed_seen m seen) (tr ++ [(InspectProcess (PID m) seen, is_ok seen)]).
Proof. by exists tr, seen. Qed.

Lemma wait_loop_S fuel m deadline :
  wait_loop (S fuel) m deadline =
  (now ← io_get;
   here ← confirmed m;
   if clock now <? deadline then
     if negb here then mret (Some true) else _ ← unlisted (ask (Sleep wait_interval)); wait_loop fuel m deadline
   else mret (Some (negb here))).
Proof. done. Qed.

Lemma wait_loop_decides m k deadline tr :
  sleeps → deadline ≤ clock tr + Z.of_nat k * wait_interval →
  ∃ gone tr', wait_loop (S k) m deadline tr = (Ok (Some gone), tr') ∧ last_seen m (negb gone) tr' ∧
    (gone = false → deadline ≤ clock tr').
Proof.
  intros Hs. revert tr. induction k as [|k IH]; intros tr Hf.
  all: rewrite wait_loop_S; unfold mbind, io_bind, io_get; rewrite confirmed_runs.
  all: set (seen := inspects tr (PID m)); set (tr1 := tr ++ _); pose proof (last_seen_now m tr seen : last_seen _ _ tr1) as Hl.
  all: assert (Hc : clock tr ≤ clock tr1) by apply (clock_mono Hs).
  - rewrite Z.mul_0_l, Z.add_0_r in Hf. rewrite (proj2 (Z.ltb_ge _ _)) by lia. exists (negb (confirmed_seen m seen)), tr1.
    rewrite negb_involutive. split_and!; [done|done|]. intros _. by etrans.
  - rewrite Nat2Z.inj_succ, Z.mul_succ_l in Hf. destruct (Z.ltb_spec (clock tr) deadline).
    2: { exists (negb (confirmed_seen m seen)), tr1. rewrite negb_involutive. split_and!; [done|done|]. intros _. by etrans. }
    destruct (confirmed_seen m seen); cbn [negb].
    2: { exists true, tr1. by split_and!. }
    unfold unlisted, io_try, ask, call, mbind, io_bind.
    set (r := does tr1 (Sleep wait_interval)). pose proof (sleep_takes Hs tr1 (is_ok r)) as Ht.
    destruct (IH (tr1 ++ [(Sleep wait_interval, is_ok r)])) as (gone & tr' & E & H'); [unfold trace in *; lia|].
    exists gone, tr'. by split.
Qed.

(** Waiting for a recorded postmaster to end returns, whatever the host answers, as
    long as a sleep takes its time: with [true] exactly when its last inspection no
    longer confirms the recorded birth, and with [false] only once the budget was
    spent on a postmaster that was confirmed to the end. *)
Theorem waitGone_decides m budget tr :
  sleeps → 0 ≤ budget →
  ∃ gone tr', waitGone m budget tr = (Ok gone, tr') ∧ last_seen m (negb gone) tr' ∧
    (gone = false → clock tr + budget ≤ clock tr').
Proof.
  intros Hs Hb. unfold waitGone, turns. replace (_ + 2)%nat with (S (S (Z.to_nat (budget / wait_interval)))) by lia.
  destruct (wait_loop_decides m (S (Z.to_nat (budget / wait_interval))) (clock tr + budget) tr Hs) as (gone & tr' & E & H).
  - assert (0 ≤ budget / wait_interval) by (by apply Z.div_pos).
    pose proof (Z.mod_pos_bound budget wait_interval ltac:(done)). pose proof (Z.div_mod budget wait_interval ltac:(done)).
    nia.
  - exists gone, tr'. split; [|exact H]. unfold mbind, io_bind, io_get in *. by rewrite E.
Qed.
End waiting.

(** ** The protocol *)

(** C8: An agent that acquires its run's server keeps the protocol on every path, also
    where it goes through the servers abandoned on the machine.  It signals only a birth
    a run recorded and that it has just re-established, under that root's lock and once
    no holder listed there is left; it removes a holder's record only when that could not
    be decoded or an inspection found a process of it gone or of another birth, and the
    postmaster's record only when its last inspection did not confirm it, a failed
    inspection included; it removes a pid file only under that same condition, or when
    the process it may name is gone or no postmaster; it launches a server once, only on
    a cluster whose pid file it so removed or found absent, and erases a data directory
    only where asking for PG_VERSION failed.  It gives up every lock and session;
    what it hands out is attached to this key's server and recorded on the host, and an
    acquisition that fails leaves no record there. *)
Theorem acquire_protocol {host : NixHost} {u : Unicode} `{!Clock (trace ncall)} mine disk ctx key service logLevel servers :
  servers_dir = Ok servers →
  let root0 := path_join [servers; hash16 key] in
  let t := {| t_service := service; t_database := ""; t_owner := ""; t_password := ""; t_root := Some root0;
              t_dsn := None; t_setup := true |} in
  moves nstep (nallowed t) (apart mine disk) (acquireRunServer ctx key service logLevel) (λ r s, gave_up s ∧
    match r with
    | Ok n => attached (s_mine s) n ∧ root n = root0 ∧
              ∃ p, holder n = Some p ∧ p ∈ s_disk s ∧ s_disk s ⊆ p :: disk
    | Err _ => s_disk s ⊆ disk
    end).
Proof.
  intros Hs root0 t.
  eapply moves_mono; [eapply moves_and; [apply (moves_acquire (t := t) eq_refl); [done|done|]|apply brings_acquire]|].
  - intros servers'. rewrite Hs. by intros [= <-].
  - cbn beta. intros [n|e] s [[[? _] Hn] Hb]; (split; [done|]); [|done]. destruct (Hn n eq_refl) as (? & ? & p & Hp & ?).
    split_and!; [done|done|]. destruct Hb as (p' & Hp' & ?). rewrite Hp in Hp'. injection Hp' as <-. by exists p.
Qed.


(** C9: Provisioning changes the server only under the run's lock, over one session with
    its maintenance database, and only for a database that is absent or is owned by the
    service's own owner and not claimed by another service, and for an owner role that
    was granted to nobody, as asked of that database and that role; each statement is
    about that database and that owner.  When it succeeds it has carried out exactly the
    statements that were needed: the role if there was none, its attributes, the database
    if there was none, the service's claim unless it was there, and the restriction of
    the database to its owner. *)
Theorem provision_protocol {host : NixHost} n ctx service database owner password :
  let t := {| t_service := service; t_database := database; t_owner := owner; t_password := password;
              t_root := Some (root n); t_dsn := Some (n_adminDSN n "postgres"); t_setup := true |} in
  moves nstep (nallowed t) (apart [] []) (provisionDatabase n ctx service database owner password)
    (λ r s, gave_up s ∧ (r = Ok tt → ∃ found present, s_claim s = Some found ∧ takes service owner found ∧
       s_owner s = Some (present, false) ∧ s_done s = required t found present)).
Proof. intros t. eapply moves_mono; [by apply (moves_provision (t := t))|]. by intros r s [[? _] ?]. Qed.

(** ** A server its last holder stops *)

Definition run_root : string := "/r/0011223344556677".
Definition server_record : postmasterRecord :=
  {| Postmaster := {| PID := 41; StartID := 7; BootID := "boot" |}; SocketDir := "/tmp/cfpg-00112233-1" |}.
Definition signalled (e : ncall * bool) : bool := match e.1 with SignalProcess _ _ _ => true | _ => false end.
Definition stopping_host : NixHost := {|
  servers_dir := Ok "/r"; flake_nix := ""; flake_lock := ""; getpid := 40; getppid := 1;
  Unmarshal_record s := if bool_decide (s = "record") then Some server_record else None;
  Marshal_record _ := Ok "record"; Unmarshal_holder _ := None; Marshal_holder _ := Ok "holder";
  does _ _ := Ok tt; locks _ _ := Ok true;
  reads _ p := if decide (p = postmasterRecordPath run_root) then Ok "record" else Err (ENew ErrNotExist []);
  lists _ _ := Ok []; temp_name _ _ := Ok "tmp"; random _ := Ok "";
  inspects tr _ := if existsb signalled tr then Err (ENew ErrProcessNotFound [])
                   else Ok {| Id_StartID := 7; Id_BootID := "boot"; Executable := "postgres" |};
  stats _ _ := true; globs _ := Ok []; query_claim _ _ := Err (ENew ErrNoRows []);
  query_owner _ _ := Ok (false, false);
|}.
Definition slept (e : ncall * bool) : Z := match e.1 with Sleep d => Z.max 0 d | _ => 0 end.
Definition sleep_clock : Clock (trace ncall) :=
  {| clock := foldr (λ e t, slept e + t) 0; cancelled := λ _ _, false |}.
Definition attachment : nixPostgres :=
  {| root := run_root; dataDir := pgdata run_root; socketDir := SocketDir server_record; adminPassword := "p";
     holder := Some (holderPath run_root "a.json"); forwarder := true; watching := Some (Postmaster server_record) |}.
Definition nobody : target := {| t_service := ""; t_database := ""; t_owner := ""; t_password := ""; t_root := Some run_root;
     t_dsn := None; t_setup := false |}.

Lemma slept_app tr new : foldr (λ e t, slept e + t) 0 (tr ++ new)
  = foldr (λ e t, slept e + t) 0 tr + foldr (λ e t, slept e + t) 0 new.
Proof. induction tr as [|e tr IH]; [done|]. rewrite <-app_comm_cons. cbn [foldr]. rewrite IH. lia. Qed.
Lemma slept_nonneg tr : 0 ≤ foldr (λ e t, slept e + t) 0 tr.
Proof.
  induction tr as [|e tr IH]; [done|]. cbn [foldr]. assert (0 ≤ slept e) by (unfold slept; destruct e.1; lia). lia.
Qed.
Lemma sleep_clock_sleeps : sleeps (Clock0 := sleep_clock).
Proof.
  split; cbn [clock sleep_clock].
  - intros tr new. rewrite slept_app. pose proof (slept_nonneg new). lia.
  - intros tr b. rewrite slept_app. cbn [foldr]. unfold slept, wait_interval. cbn [fst]. lia.
Qed.

(** An acquired server is recorded. *)
Lemma acquire_protocol_witness :
  let t := {| t_service := "mod/store"; t_database := ""; t_owner := ""; t_password := "";
              t_root := Some (path_join ["/r"; hash16 "key"]); t_dsn := None; t_setup := true |} in
  moves (nstep (host := stopping_host)) (nallowed t) (apart [] [])
    (acquireRunServer (host := stopping_host) (u := ascii_unicode) (Clock0 := sleep_clock) Background "key" "mod/store" "")
    (λ r s, gave_up s ∧
      match r with
      | Ok n => attached (s_mine s) n ∧ root n = path_join ["/r"; hash16 "key"] ∧
                ∃ p, holder n = Some p ∧ p ∈ s_disk s ∧ s_disk s ⊆ [p]
      | Err _ => s_disk s ⊆ []
      end).
Proof.
  apply (acquire_protocol (host := stopping_host) (u := ascii_unicode) (Clock0 := sleep_clock) [] [] Background "key" "mod/store" "" "/r").
  reflexivity.
Defined.


(** A postmaster that ignores the signal is waited for as long as the budget lasts. *)
Lemma waitGone_decides_witness :
  let run := waitGone (host := stopping_host) (Clock0 := sleep_clock) (Postmaster server_record) Second [] in
  (∃ gone tr', run = (Ok gone, tr') ∧ last_seen (Postmaster server_record) (negb gone) tr' ∧
    (gone = false → clock (Clock := sleep_clock) [] + Second ≤ clock (Clock := sleep_clock) tr')) ∧
  run.1 = Ok false.
Proof.
  split; [|vm_compute; reflexivity].
  apply (waitGone_decides (host := stopping_host) (Clock0 := sleep_clock) (Postmaster server_record) Second []).
  - apply sleep_clock_sleeps.
  - by vm_compute.
Defined.
