(* ===== verification/NixSupervise.v ===== *)
(** The watch on the run's shared postmaster ([watch] and [Supervise] of [nixpg.go]): the
    two goroutines, the channel between them and the context that release cancels, as
    steps that interleave in any order. *)
From stdpp Require Import relations.
From S2P Require Import Prelude GoStrings NixHost.
#[local] Open Scope nat_scope.

(** ** The goroutines *)

Inductive watcher := Ticking | Posted | Ended.
(** [Judging]: the report is received, and whether the shutdown was orderly is still to
    be asked; [Calling]: it was not. *)
Inductive supervisor := Receiving | Judging | Calling | Returned.

Record supervision := {
  su_gone : bool;             (* the postmaster *)
  su_cancelled : bool;        (* [serverCtx] *)
  su_exit : bool;             (* [serverExit] holds the report *)
  su_closed : bool;           (* and is closed *)
  su_watcher : watcher;
  su_supervisor : supervisor;
  su_calls : nat;             (* of [onExit] *)
}.

Definition supervised : supervision := {|
  su_gone := false; su_cancelled := false; su_exit := false; su_closed := false;
  su_watcher := Ticking; su_supervisor := Receiving; su_calls := 0 |}.

Definition with_watcher (x : watcher) (exit closed : bool) (s : supervision) : supervision := {|
  su_gone := su_gone s; su_cancelled := su_cancelled s; su_exit := exit; su_closed := closed;
  su_watcher := x; su_supervisor := su_supervisor s; su_calls := su_calls s |}.
Definition with_supervisor (x : supervisor) (exit : bool) (calls : nat) (s : supervision) : supervision := {|
  su_gone := su_gone s; su_cancelled := su_cancelled s; su_exit := exit; su_closed := su_closed s;
  su_watcher := su_watcher s; su_supervisor := x; su_calls := calls |}.

(** What happens to the server and to the context. *)
Inductive outside : supervision → supervision → Prop :=
  | Terminates s : outside s {| su_gone := true; su_cancelled := su_cancelled s; su_exit := su_exit s;
      su_closed := su_closed s; su_watcher := su_watcher s; su_supervisor := su_supervisor s; su_calls := su_calls s |}
  | Releases s : outside s {| su_gone := su_gone s; su_cancelled := true; su_exit := su_exit s;
      su_closed := su_closed s; su_watcher := su_watcher s; su_supervisor := su_supervisor s; su_calls := su_calls s |}.

Section goroutines.
Context (postmaster : processMark).

(** A tick that sees the postmaster alive, whether it is or its inspection failed. *)
Inductive idle_tick : supervision → supervision → Prop :=
  | Seen_alive s seen : su_watcher s = Ticking → alive_seen postmaster seen = true → idle_tick s s.

(** An inspection says dead of a dead process only. *)
Inductive progress : supervision → supervision → Prop :=
  | Watch_stops s : su_watcher s = Ticking → su_cancelled s = true →
      progress s (with_watcher Ended (su_exit s) (su_closed s) s)
  | Watch_reports s seen : su_watcher s = Ticking → alive_seen postmaster seen = false → su_gone s = true →
      progress s (with_watcher Posted true (su_closed s) s)
  | Watch_closes s : su_watcher s = Posted → progress s (with_watcher Ended (su_exit s) true s)
  | Receives s : su_supervisor s = Receiving → su_exit s = true → progress s (with_supervisor Judging false (su_calls s) s)
  | Receives_closed s : su_supervisor s = Receiving → su_exit s = false → su_closed s = true →
      progress s (with_supervisor Returned false (su_calls s) s)
  | Orderly s : su_supervisor s = Judging → su_cancelled s = true →
      progress s (with_supervisor Returned (su_exit s) (su_calls s) s)
  | Unexpected s : su_supervisor s = Judging → su_cancelled s = false →
      progress s (with_supervisor Calling (su_exit s) (su_calls s) s)
  | Calls s : su_supervisor s = Calling → progress s (with_supervisor Returned (su_exit s) (S (su_calls s)) s).

Definition step (s s' : supervision) : Prop := outside s s' ∨ idle_tick s s' ∨ progress s s'.

(** ** What they keep *)

Record sound (s : supervision) : Prop := {
  sd_watch : su_watcher s = Ticking → su_exit s = false ∧ su_closed s = false ∧ su_supervisor s = Receiving;
  sd_posted : su_watcher s = Posted → su_closed s = false;
  sd_report : su_supervisor s ≠ Receiving → su_gone s = true ∧ su_watcher s ≠ Ticking ∧ su_exit s = false;
  sd_waiting : su_supervisor s = Receiving → su_calls s = 0%nat ∧ (su_exit s = true → su_gone s = true ∧ su_watcher s ≠ Ticking) ∧
               (su_watcher s = Posted → su_exit s = true) ∧ (su_closed s = true → su_exit s = true) ∧
               (su_watcher s = Ended → su_cancelled s = false → su_exit s = true) ∧
               (su_watcher s = Ended → su_exit s = false → su_closed s = false);
  sd_calls : (su_calls s ≤ 1)%nat ∧ (su_supervisor s = Judging ∨ su_supervisor s = Calling → su_calls s = 0%nat);
  sd_silent : su_supervisor s = Returned → su_calls s = 0%nat → su_cancelled s = true;
}.

Lemma sound_start : sound supervised.
Proof. split; cbn; intros; split_and?; try done; try lia; by destruct_or?. Qed.

Lemma sound_step s s' : sound s → step s s' → sound s'.
Proof.
  intros [] Hs. destruct s as [gone cancelled exit closed w p calls]. cbn in *.
  destruct Hs as [H|[H|H]]; inversion H; subst; cbn in *; subst; split; cbn in *; intros; naive_solver lia.
Qed.

Lemma sound_reach s : rtc step supervised s → sound s.
Proof.
  intros H. assert (sound supervised) as H0 by apply sound_start. revert H0.
  induction H as [|x y z Hxy _ IH]; [done|]. intros Hx. apply IH. by eapply sound_step.
Qed.

(** What is still to be done on the report: every step of the goroutines, a tick that
    sees the postmaster alive apart, brings it nearer. *)
Definition watcher_left (w : watcher) : nat := match w with Ticking => 2 | Posted => 1 | Ended => 0 end.
Definition supervisor_left (p : supervisor) : nat :=
  match p with Receiving => 3 | Judging => 2 | Calling => 1 | Returned => 0 end.
Definition left (s : supervision) : nat := watcher_left (su_watcher s) + supervisor_left (su_supervisor s).

Lemma progress_left s s' : progress s s' → left s' < left s.
Proof.
  destruct s as [gone cancelled exit closed w p calls].
  intros H; inversion H; subst; cbn in *; subst; unfold left; cbn; lia.
Qed.

Lemma gone_is_seen : alive_seen postmaster (Err (ENew ErrProcessNotFound [])) = false.
Proof. reflexivity. Qed.

(** The goroutines stop, with the postmaster gone, only when it was reported or the
    release came first. *)
Lemma stuck_reported s : sound s → su_gone s = true → (∀ s', ¬ progress s s') →
  su_cancelled s = true ∨ su_calls s = 1.
Proof.
  intros [] Hg Hstuck. destruct (su_cancelled s) eqn:Hc; [by left|right].
  destruct (su_watcher s) eqn:Hw.
  { destruct (Hstuck _ (Watch_reports s _ Hw gone_is_seen Hg)). }
  { destruct (Hstuck _ (Watch_closes s Hw)). }
  destruct (su_supervisor s) eqn:Hp.
  - destruct (su_exit s) eqn:He; [destruct (Hstuck _ (Receives s Hp He))|].
    destruct sd_waiting0 as (_ & _ & _ & _ & H & _); [done|]. by specialize (H eq_refl eq_refl).
  - destruct (Hstuck _ (Unexpected s Hp Hc)).
  - destruct (Hstuck _ (Calls s Hp)).
  - destruct (decide (su_calls s = 0%nat)) as [H0|]; [|lia].
    discriminate (sd_silent0 eq_refl H0).
Qed.

(** Once cancelled, and unless the supervisor has already decided to call, nothing is called. *)
Lemma cancelled_silent s s' : rtc step s s' → su_cancelled s = true → su_supervisor s ≠ Calling →
  su_calls s' = su_calls s ∧ su_cancelled s' = true ∧ su_supervisor s' ≠ Calling.
Proof.
  intros H Hc Hp. induction H as [|s t s' Hst _ IH]; [done|].
  assert (su_calls t = su_calls s ∧ su_cancelled t = true ∧ su_supervisor t ≠ Calling) as (E & Hc' & Hp').
  { clear IH. destruct s as [gone cancelled exit closed w p calls]. cbn in *.
    destruct Hst as [H|[H|H]]; inversion H; subst; cbn in *; subst; repeat split; congruence. }
  rewrite <- E. by apply IH.
Qed.

(** A watcher that ended without a report leaves the supervisor where it is. *)
Definition deserted (s : supervision) : Prop :=
  su_watcher s = Ended ∧ su_exit s = false ∧ su_closed s = false ∧ su_supervisor s = Receiving.

Lemma deserted_for_ever s s' : rtc step s s' → deserted s → deserted s'.
Proof.
  induction 1 as [|s t s' Hst _ IH]; [done|]. intros (Hw & He & Hc & Hp). apply IH.
  destruct s as [gone cancelled exit closed w p calls]. cbn in *. subst.
  destruct Hst as [H|[H|H]]; inversion H; subst; cbn in *; try discriminate; repeat split.
Qed.

(** C25: [Supervise] reports the shared postmaster's end exactly once, in every
    interleaving of the watcher, the supervisor, the postmaster's end and the release.
    [onExit] is called at most once, and only of a postmaster that is gone.  A release
    that cancels the context before the supervisor has asked for it and found it not
    cancelled keeps the call from ever being made; one that comes between that question
    and the call does not (see [call_may_follow_release]).  And a postmaster that is gone
    is reported unless the release came first, since the goroutines cannot stop before
    (the first part of the last claim) and every step of theirs brings the end nearer
    (the second). *)
Theorem supervision_reports_once s (run : rtc step supervised s) :
  su_calls s ≤ 1 ∧ (su_calls s = 1 → su_gone s = true) ∧
  (su_cancelled s = true → su_supervisor s ≠ Calling → ∀ s', rtc step s s' → su_calls s' = su_calls s) ∧
  (su_gone s = true → (∀ s', ¬ progress s s') → su_cancelled s = true ∨ su_calls s = 1) ∧
  (∀ s', progress s s' → left s' < left s).
Proof.
  pose proof (sound_reach s run) as Hs. split_and!.
  - apply Hs.
  - intros H1. apply (sd_report _ Hs). intros Hp. destruct (sd_waiting _ Hs Hp) as [H0 _]. lia.
  - intros Hc Hp s' H. by destruct (cancelled_silent _ _ H Hc Hp).
  - apply (stuck_reported s Hs).
  - apply progress_left.
Qed.

(** The orderly way out: the release cancels the context and the watcher returns, without
    a report and without closing the channel, so the supervisor's goroutine waits on it
    for ever. *)
Lemma orderly_release_deserts :
  ∃ s, rtc step supervised s ∧ su_cancelled s = true ∧ ∀ s', rtc step s s' → su_supervisor s' = Receiving.
Proof.
  eexists. split_and!.
  - eapply rtc_l; [left; apply Releases|]. eapply rtc_l; [right; right; by apply Watch_stops|]. apply rtc_refl.
  - reflexivity.
  - intros s' H. by destruct (deserted_for_ever _ _ H) as (_ & _ & _ & ?).
Qed.

(** The window between the supervisor's question and its call: a release there comes
    too late for it. *)
Lemma call_may_follow_release :
  ∃ s s', rtc step supervised s ∧ su_cancelled s = true ∧ su_calls s = 0 ∧ step s s' ∧ su_calls s' = 1.
Proof.
  eexists _, _. split_and!.
  - eapply rtc_l; [left; apply Terminates|].
    eapply rtc_l; [right; right; eapply Watch_reports; [reflexivity|exact gone_is_seen|reflexivity]|].
    eapply rtc_l; [right; right; by apply Receives|].
    eapply rtc_l; [right; right; by apply Unexpected|].
    eapply rtc_l; [left; apply Releases|]. apply rtc_refl.
  - reflexivity.
  - reflexivity.
  - right; right. by apply Calls.
  - reflexivity.
Qed.
End goroutines.

(** The postmaster crashes, and its end is reported. *)
Lemma supervision_reports_once_witness :
  ∃ s, rtc (step {| PID := 41; StartID := 7; BootID := "b" |}) supervised s ∧ su_calls s ≤ 1 ∧ su_calls s = 1.
Proof.
  assert (∃ s, rtc (step {| PID := 41; StartID := 7; BootID := "b" |}) supervised s ∧ su_calls s = 1) as (s & H & E).
  { eexists. split.
    - eapply rtc_l; [left; apply Terminates|].
      eapply rtc_l; [right; right; apply Watch_reports with (seen := Err (ENew ErrProcessNotFound [])); reflexivity|].
      eapply rtc_l; [right; right; by apply Watch_closes|].
      eapply rtc_l; [right; right; by apply Receives|].
      eapply rtc_l; [right; right; by apply Unexpected|].
      eapply rtc_l; [right; right; by apply Calls|]. apply rtc_refl.
    - reflexivity. }
  exists s. split; [exact H|]. split; [|exact E]. exact (proj1 (supervision_reports_once _ _ H)).
Defined.
