(* ===== verification/Runtime.v ===== *)
(** The agent's runtime ([runtime.go], [runtime_native.go] and the watch roots of
    [hotreload.go]): loading, initialising on a container or on the run's native
    server, waiting for the database, the one control-plane transition that brings
    its schema up, starting, reacting to a saved migration, stopping and destroying.
    The programs of [nixpg.go] and [migrations.go] run inside, on the part of the
    trace that is theirs. *)
From S2P Require Import Prelude GoStrings Images Traces Timeouts Settings MigrationFiles Schema RuntimeRoles Url Json Config Net Connections NixHost NixServer Migrations BootstrapRun.

(** ** Calls *)

(** What the container is started with. *)
Record container := {
  c_image : option DockerImage;
  c_name : string;
  c_ports : Z * Z;
  c_env : list (string * string);
  c_command : option (list string);
}.

Inductive rtcall :=
  | Native (c : ncall)
  | Migration (c : mcall)
  | CtlAcquire (ctx : Context)          (* the select of [controlPlaneLock.acquire]; its failure is [ctx.Err()] *)
  | CtlRelease
  | LifeLock
  | LifeUnlock
  | DbOpen (dsn : string)
  | DbClose
  | DbPing (ctx : Context)
  | SelectOne (ctx : Context)
  | Answered (ctx : Context)            (* the select of [probeReady]: a success is the probe's answer *)
  | NewTicker
  | Tick (deadline : Context)           (* the select of [WaitForReady]: a success is the ticker *)
  | TailLogs (seen : result string)
  | CreateExtension (ctx : Context) (name : string)
  | ReportPrerequisites (skipped : list skippedPrerequisite)
  | EnsureAccess (ctx : Context) (dsn : string) (c : Credentials)   (* [ensureRuntimeAccessLocked] *)
  | SetupWatcher (ctx : Context) (roots : list (string * bool))
  | StopWatcher
  | CommitStarted
  | Supervise
  | Reap (ctx : Context)
  | ForwardTo (address socket : string)
  | DockerNew (ctx : Context) (image : option DockerImage) (name : string)
  | MountData (ctx : Context) (key directory : string) (seen : result string)
  | ContainerInit (ctx : Context) (c : container)
  | ContainerStop (ctx : Context)
  | ContainerShutdown (ctx : Context).

Definition prj_native (c : rtcall) : option ncall := match c with Native c => Some c | _ => None end.
Definition prj_migration (c : rtcall) : option mcall := match c with Migration c => Some c | _ => None end.

(** The clock of a program that runs inside: the outer one, at the moment its own
    calls have brought the whole trace to. *)
Definition inner_clock {F} `{!Clock (trace rtcall)} (inj : F → rtcall) (prj : rtcall → option F) (tr : trace rtcall) :
    Clock (trace F) :=
  let whole w := tr ++ ((λ e, (inj e.1, e.2)) <$> drop (length (part prj tr)) w) in
  {| clock w := clock (whole w); cancelled ctx w := cancelled ctx (whole w) |}.

(** How the outside answers, knowing the calls before.  A program inside is answered
    knowing its own calls: each is a longer trace, so any answers are some host's. *)
Class RuntimeHost := {
  answers : trace rtcall → rtcall → result unit;
  tails : trace rtcall → result string;               (* [TailLogs] *)
  mounts : trace rtcall → result string;              (* [WithPersistentCacheMount] *)
  native_host : NixHost;
  migrate : trace mcall → mcall → result unit;
  migrate_version : trace mcall → mcall → result (Z * bool);
  dirty_version : error → option Z;                   (* [errors.As] to an [ErrDirty] *)
}.

(** ** The runtime *)

Record Runtime := {
  rt_nix : bool;                        (* [IsNixRuntime] *)
  nativeOwner : string;
  connection : string;
  rt_credentials : option Credentials;
  configurations : list Configuration;
  nixRuntime : option nixPostgres;
  extensionAdmin : string;
  runnerEnvironment : bool;             (* the container this invocation started *)
  rt_released : bool;
  retainedDataPath : string;
}.
Definition NewRuntime : Runtime :=
  {| rt_nix := false; nativeOwner := ""; connection := ""; rt_credentials := None; configurations := []; nixRuntime := None;
     extensionAdmin := ""; runnerEnvironment := false; rt_released := false; retainedDataPath := "" |}.

Definition with_context (nix : bool) (owner : string) (k : Runtime) : Runtime :=
  {| rt_nix := nix; nativeOwner := owner; connection := connection k; rt_credentials := rt_credentials k;
     configurations := configurations k; nixRuntime := nixRuntime k; extensionAdmin := extensionAdmin k;
     runnerEnvironment := runnerEnvironment k; rt_released := rt_released k; retainedDataPath := retainedDataPath k |}.
Definition add_configuration (c : Configuration) (k : Runtime) : Runtime :=
  {| rt_nix := rt_nix k; nativeOwner := nativeOwner k; connection := connection k; rt_credentials := rt_credentials k;
     configurations := configurations k ++ [c]; nixRuntime := nixRuntime k; extensionAdmin := extensionAdmin k;
     runnerEnvironment := runnerEnvironment k; rt_released := rt_released k; retainedDataPath := retainedDataPath k |}.
Definition with_connection (dsn : string) (k : Runtime) : Runtime :=
  {| rt_nix := rt_nix k; nativeOwner := nativeOwner k; connection := dsn; rt_credentials := rt_credentials k;
     configurations := configurations k; nixRuntime := nixRuntime k; extensionAdmin := extensionAdmin k;
     runnerEnvironment := runnerEnvironment k; rt_released := rt_released k; retainedDataPath := retainedDataPath k |}.
Definition with_credentials (c : Credentials) (k : Runtime) : Runtime :=
  {| rt_nix := rt_nix k; nativeOwner := nativeOwner k; connection := connection k; rt_credentials := Some c;
     configurations := configurations k; nixRuntime := nixRuntime k; extensionAdmin := extensionAdmin k;
     runnerEnvironment := runnerEnvironment k; rt_released := rt_released k; retainedDataPath := retainedDataPath k |}.
Definition with_native (n : option nixPostgres) (k : Runtime) : Runtime :=
  {| rt_nix := rt_nix k; nativeOwner := nativeOwner k; connection := connection k; rt_credentials := rt_credentials k;
     configurations := configurations k; nixRuntime := n; extensionAdmin := extensionAdmin k;
     runnerEnvironment := runnerEnvironment k; rt_released := rt_released k; retainedDataPath := retainedDataPath k |}.
Definition with_admin (dsn : string) (k : Runtime) : Runtime :=
  {| rt_nix := rt_nix k; nativeOwner := nativeOwner k; connection := connection k; rt_credentials := rt_credentials k;
     configurations := configurations k; nixRuntime := nixRuntime k; extensionAdmin := dsn;
     runnerEnvironment := runnerEnvironment k; rt_released := rt_released k; retainedDataPath := retainedDataPath k |}.
Definition with_runner (r : bool) (k : Runtime) : Runtime :=
  {| rt_nix := rt_nix k; nativeOwner := nativeOwner k; connection := connection k; rt_credentials := rt_credentials k;
     configurations := configurations k; nixRuntime := nixRuntime k; extensionAdmin := extensionAdmin k;
     runnerEnvironment := r; rt_released := rt_released k; retainedDataPath := retainedDataPath k |}.
Definition with_released (r : bool) (k : Runtime) : Runtime :=
  {| rt_nix := rt_nix k; nativeOwner := nativeOwner k; connection := connection k; rt_credentials := rt_credentials k;
     configurations := configurations k; nixRuntime := nixRuntime k; extensionAdmin := extensionAdmin k;
     runnerEnvironment := runnerEnvironment k; rt_released := r; retainedDataPath := retainedDataPath k |}.
Definition with_retained (path : string) (k : Runtime) : Runtime :=
  {| rt_nix := rt_nix k; nativeOwner := nativeOwner k; connection := connection k; rt_credentials := rt_credentials k;
     configurations := configurations k; nixRuntime := nixRuntime k; extensionAdmin := extensionAdmin k;
     runnerEnvironment := runnerEnvironment k; rt_released := rt_released k; retainedDataPath := path |}.

(** ** Values *)

Definition postgresDataCacheKey : string := "postgres-data".
Definition postgresDataDirectory : string := "/var/lib/postgresql/data".
Definition readinessProbeInterval : Z := 3 * Second.
Definition postgresPort : Z := 5432.

Definition nativeOwnerRole {u : Unicode} (database : string) : string := runtimeRolePrefix database +:+ "_owner".

Definition extensionConnection (k : Runtime) : string :=
  if bool_decide (extensionAdmin k ≠ "") then extensionAdmin k else connection k.

Definition retentionSummary (k : Runtime) (action : string) : string :=
  if bool_decide (retainedDataPath k = "") then action +:+ "; database state retained"
  else action +:+ "; database state retained at " +:+ retainedDataPath k.

(** The bytes of a rune, as [strings.ToLower] writes it. *)
Definition utf8_rune (r : Z) : list ascii :=
  if r <? 128 then [chr r]
  else if r <? 2048 then [chr (192 + r / 64); chr (128 + r mod 64)]
  else if r <? 65536 then [chr (224 + r / 4096); chr (128 + (r / 64) mod 64); chr (128 + r mod 64)]
  else [chr (240 + r / 262144); chr (128 + (r / 4096) mod 64); chr (128 + (r / 64) mod 64); chr (128 + r mod 64)].
Definition level_command {u : Unicode} (logLevel : string) : option (list string) :=
  let lvl := of_bytes (lower_level logLevel ≫= utf8_rune) in
  if bool_decide (lvl = "") then None
  else Some ["postgres"; "-c"; "log_min_messages=" +:+ lvl; "-c"; "log_statement=none"; "-c"; "log_connections=off";
             "-c"; "log_disconnections=off"].

(** ** Watch roots *)

(** The components of a cleaned path. *)
Definition path_parts (p : string) : list string :=
  filter (λ c, c ≠ "" ∧ c ≠ ".") (split_on slash p).
Fixpoint strip_common (base target : list string) : list string * list string :=
  match base, target with
  | b :: base', t :: target' => if decide (b = t) then strip_common base' target' else (base, target)
  | _, _ => (base, target)
  end.
(** [filepath.Rel] *)
Definition path_rel (base target : string) : result string :=
  let base := path_clean base in
  let target := path_clean target in
  if bool_decide (is_abs base = is_abs target) then
    let '(up, down) := strip_common (path_parts base) (path_parts target) in
    if bool_decide (head up = Some "..") then Err (ENew "Rel: can't make target relative to base" [])
    else Ok (if bool_decide (up = [] ∧ down = []) then "." else join "/" (((λ _, "..") <$> up) ++ down))
  else Err (ENew "Rel: can't make target relative to base" []).

(** [requirements.Components]: their paths, and whether only SQL files are selected. *)
Definition fixed_roots : list (string * bool) := [("service.codefly.yaml", false); ("migrations", true)].

(** One source of the loop of [migrationWatchRequirements]: the directories watched
    so far, and the roots declared. *)
Definition watch_source (location : string) (st : gset string * list (string * bool)) (src : migrationSource) :
    result (gset string * list (string * bool)) :=
  let '(watched, roots) := st in
  let dir := path_clean (ms_dir src) in
  if decide (dir ∈ watched) then Ok st
  else relative ← wrap_err "cannot locate migration source %q relative to the service" [label src] (path_rel location dir);
       Ok ({[dir]} ∪ watched, roots ++ [(relative, true)]).
Definition migrationWatchRequirements {fs : FileSystem} (settings : Settings) (location own_dir : string) :
    result (list (string * bool)) :=
  '(sources, _) ← resolveMigrationSources location own_dir (MigrationSources settings);
  r ← fold_result (watch_source location)
        (list_to_set ((λ r, resolveMigrationPath location r.1) <$> fixed_roots), fixed_roots) sources;
  Ok r.2.

(** ** Operations *)

Record InitRequest := {
  rq_native : bool;                                  (* the requested runtime context is nix *)
  rq_get : string → result string;                   (* the configuration *)
  rq_instances : result (option (list NetworkInstance));   (* [FindNetworkMapping] *)
  rq_instance : result (option NetworkInstance);     (* the native one of [FindNetworkInstanceInNetworkMappings] *)
}.

Section runtime.
Context {fs : FileSystem} {u : Unicode} `{!Clock (trace rtcall)} {host : RuntimeHost}.
(** The loaded service: its settings and directories, its names, and what core makes
    of an instance and of an image's name. *)
Context (settings : Settings) (location own_dir Unique UniqueWithWorkspace WorkspacePath NamingScope : string).
Context (RuntimeContextFromInstance : NetworkInstance → string) (instance_port : NetworkInstance → Z).
Context (NewDockerImage : string → option DockerImage) (image : runtimeImage).
#[local] Abbreviation prog := (io (trace rtcall)).
#[local] Abbreviation op := (keeping rtcall Runtime).

Definition request (c : rtcall) : prog unit := call answers c.
Definition forget {A} (m : prog A) : prog unit := _ ← io_try m; mret tt.

(** A program of [nixpg.go], and one of [migrations.go] or [hotreload.go]. *)
#[local] Existing Instance native_host.
Definition native {A} (m : Clock (trace ncall) → io (trace ncall) A) : prog A :=
  embed Native prj_native (λ tr, m (inner_clock Native prj_native tr)).
Definition migrating {A} (m : Clock (trace mcall) → io (trace mcall) A) : prog A :=
  embed Migration prj_migration (λ tr, m (inner_clock Migration prj_migration tr)).

(** [controlPlaneLock.acquire]: an expired caller does not wait for the lock. *)
Definition acquire (ctx : Context) : prog unit :=
  now ← io_get;
  match ctx_Err ctx now with
  | Some e => io_fail e
  | None => request (CtlAcquire ctx)
  end.
Definition controlled {A} (ctx : Context) (m : prog A) : prog A :=
  _ ← acquire ctx; io_finally m (request CtlRelease).

(** ** Waiting for the database *)

(** The goroutine's two calls and the select on their outcome.  An abandoned probe's
    calls are listed before the select that abandons it. *)
Definition probeReady (ctx : Context) : prog unit :=
  probe ← io_try (_ ← request (DbPing ctx); request (SelectOne ctx));
  _ ← request (Answered ctx);
  io_lift probe.

Definition readinessFailure (k : Runtime) (ended : error) (lastProbeErr : option error) : prog unit :=
  let phase := if error_is Canceled ended then "database readiness wait cancelled"
               else "database readiness budget of %s expired" in
  let last := default ended lastProbeErr in
  tail ← (if runnerEnvironment k then r ← io_try (inquire tails TailLogs);
                                      mret (match r with Ok t => t | Err _ => "" end)
          else mret "");
  if bool_decide (tail ≠ "") then io_fail (EWrap "%s (last probe: %v); container logs (tail 30):\n%s" [phase; tail] last)
  else io_fail (EWrap "%s (last probe: %v)" [phase] last).

Definition database_side (err : error) (lastProbeErr : option error) : option error :=
  if error_is Canceled err || error_is DeadlineExceeded err then lastProbeErr else Some err.

Fixpoint wait_ready (fuel : nat) (k : Runtime) (deadline : Context) (lastProbeErr : option error) : prog (option unit) :=
  match fuel with
  | O => mret None
  | S fuel =>
    r ← io_try (probeReady deadline);
    match r with
    | Ok _ => mret (Some tt)
    | Err err =>
      let last := database_side err lastProbeErr in
      ticked ← io_try (request (Tick deadline));
      match ticked with
      | Ok _ => wait_ready fuel k deadline last
      | Err ended => _ ← readinessFailure k ended last; mret (Some tt)
      end
    end
  end.
(** The probes a readiness budget affords. *)
Definition probes : nat := Z.to_nat (readiness (STimeouts settings) / readinessProbeInterval) + 3.

(** [db, err := sql.Open("postgres", dsn)] and [defer db.Close()]. *)
Definition with_pool {A} (message : string) (dsn : string) (m : prog A) : prog A :=
  _ ← io_wrap message [] (request (DbOpen dsn)); io_finally m (request DbClose).

Definition WaitForReady (k : Runtime) (ctx : Context) : prog unit :=
  with_pool "cannot open database" (connection k)
    (now ← io_get;
     let deadline := WithTimeout ctx (readiness (STimeouts settings)) now in
     _ ← forget (request NewTicker);
     r ← wait_ready probes k deadline None;
     match r with Some _ => mret tt | None => io_fail (ENew "fuel" []) end).

(** ** The schema *)

Definition required_error (name : string) (err : error) : error :=
  EWrap "cannot create required extension %q: the configured image must ship its library and the migration owner must be allowed to install it" [name] err.

(** The skips of the extensions tried, and the failure that ended the loop. *)
Fixpoint create_extensions (ctx : Context) (l : list extensionRequest) : prog (list skippedPrerequisite * option error) :=
  match l with
  | [] => mret ([], None)
  | extension :: l =>
    r ← io_try (request (CreateExtension ctx (er_name extension)));
    match r with
    | Ok _ => create_extensions ctx l
    | Err err =>
      if er_required extension then mret ([], Some (required_error (er_name extension) err))
      else '(skipped, failed) ← create_extensions ctx l;
           mret ({| sk_kind := prerequisiteExtension; sk_name := er_name extension; sk_reason := err |} :: skipped, failed)
    end
  end.
Definition ensureExtensions (k : Runtime) (ctx : Context) (p : schemaPrerequisites) :
    prog (list skippedPrerequisite * option error) :=
  r ← io_try (with_pool "cannot open database to create extensions" (extensionConnection k)
                (create_extensions ctx (sp_extensions p)));
  mret (match r with Ok x => x | Err e => ([], Some e) end).

Definition applyMigration (k : Runtime) (ctx : Context) (sources : list migrationSource) : prog unit :=
  migrating (λ c, Migrations.applyMigration settings (connection k) migrate dirty_version ctx sources).

(** [defer s.reportSchemaPrerequisites(prerequisites)]: with the skips made by then. *)
Definition applySchema (k : Runtime) (ctx : Context) (p : schemaPrerequisites) : prog unit :=
  '(skipped, failed) ← ensureExtensions k ctx p;
  r ← (match failed with
       | Some e => mret (Err e)
       | None => if NoMigration settings then mret (Ok tt) else io_try (applyMigration k ctx (sp_sources p))
       end);
  _ ← forget (request (ReportPrerequisites (sp_skipped p ++ skipped)));
  io_lift r.

(** The credentials are those of the last [LoadConfiguration]. *)
Definition ensureRuntimeAccessLocked (k : Runtime) (ctx : Context) : prog unit :=
  match rt_credentials k with
  | Some c => request (EnsureAccess ctx (connection k) c)
  | None => io_fail (ENew "database name is required" [])
  end.
Definition ensureRuntimeAccess (k : Runtime) (ctx : Context) : prog unit :=
  controlled ctx (ensureRuntimeAccessLocked k ctx).

Definition migrateOnInit (k : Runtime) (ctx : Context) : prog unit :=
  prerequisites ← io_lift (resolveSchemaPrerequisites location own_dir settings);
  _ ← WaitForReady k ctx;
  controlled ctx
    (_ ← applySchema k ctx prerequisites;
     ensureRuntimeAccessLocked k ctx).

(** ** Loading *)

(** [LoadService] answers first. *)
Definition Load (loaded : result unit) : result unit := _ ← loaded; validate (STimeouts settings).

(** ** The native half *)

Definition WithoutCancel (ctx : Context) : Context := {| ctx_deadline := None; ctx_workload := ctx_workload ctx |}.

Definition with_forwarder (n : nixPostgres) : nixPostgres :=
  {| root := root n; dataDir := dataDir n; socketDir := socketDir n; adminPassword := adminPassword n;
     holder := holder n; forwarder := true; watching := watching n |}.

Definition releaseNative (ctx : Context) : op string :=
  k ← k_get;
  match nixRuntime k with
  | None => k_fail (ENew "nil pointer" [])
  | Some n =>
    '((stopped, err), n) ← lift_io (native (λ c, release n ctx));
    _ ← k_modify (with_native (Some n));
    match err with
    | Some e => k_fail (EWrap "release the run's native postgres server: %w" [] e)
    | None =>
      _ ← k_modify (λ k, with_released true (with_admin "" (with_native None k)));
      mret (if stopped : bool then "stopped native postgres"
            else "released this service's database; the run's native postgres server keeps serving its other services")
    end
  end.

(** What [initNative] does with the server it has. *)
Definition use_server (ctx : Context) (port : Z) (server : nixPostgres) : op unit :=
  k ← k_get;
  let owner := from_option postgresUser "" (rt_credentials k) in
  let password := from_option postgresPassword "" (rt_credentials k) in
  _ ← lift_io (native (λ c, provisionDatabase server ctx Unique (DatabaseName settings) owner password));
  let address := JoinHostPort "127.0.0.1" (itoa_nat port) in
  _ ← lift_io (request (ForwardTo address (socketPath (socketDir server))));
  _ ← k_modify (with_native (Some (with_forwarder server)));
  let admin := withConnectTimeout (n_adminDSN server (DatabaseName settings)) (connect (STimeouts settings)) in
  _ ← k_modify (with_admin (match admin with Ok dsn => dsn | Err _ => "" end));
  _ ← lift_io (io_lift admin);
  _ ← k_modify (λ k, with_released false (with_retained (place_string (dataDir server)) k));
  k ← k_get;
  lift_io (migrateOnInit k ctx).

Definition initNative (ctx : Context) (port : Z) : op unit :=
  server ← lift_io (native (λ c, acquireRunServer ctx (runServerKey WorkspacePath NamingScope) Unique (LogLevel settings)));
  _ ← k_modify (with_native (Some server));
  r ← k_try (use_server ctx port server);
  match r with
  | Ok _ => mret tt
  | Err e =>
    released ← k_try (releaseNative (WithoutCancel ctx));
    k_fail (EJoin (omap id [Some e; err_of released]))
  end.

(** ** Initialising *)

#[local] Abbreviation configuredImage := (dockerImage NewDockerImage image settings).

Definition reapHostResources (ctx : Context) : prog unit := forget (request (Reap ctx)).

Definition initDocker (ctx : Context) (instance : NetworkInstance) : op unit :=
  _ ← lift_io (request (DockerNew ctx configuredImage UniqueWithWorkspace));
  dataPath ← lift_io (io_wrap "cannot configure persistent postgres data" []
                        (inquire mounts (MountData ctx postgresDataCacheKey postgresDataDirectory)));
  _ ← k_modify (with_retained dataPath);
  k ← k_get;
  let user := from_option postgresUser "" (rt_credentials k) in
  let password := from_option postgresPassword "" (rt_credentials k) in
  _ ← k_modify (with_runner true);
  _ ← lift_io (request (ContainerInit ctx
        {| c_image := configuredImage; c_name := UniqueWithWorkspace;
           c_ports := (instance_port instance mod 65536, postgresPort);
           c_env := [("POSTGRES_USER", user); ("POSTGRES_PASSWORD", password); ("POSTGRES_DB", DatabaseName settings)];
           c_command := level_command (LogLevel settings) |}));
  _ ← k_modify (with_released false);
  k ← k_get;
  lift_io (migrateOnInit k ctx).

Fixpoint add_configurations (get : string → result string) (l : list NetworkInstance) : op unit :=
  match l with
  | [] => mret tt
  | inst :: l =>
    k ← k_get;
    c ← lift_io (io_lift (CreateConnectionConfiguration Unique RuntimeContextFromInstance get (nativeOwner k) settings inst false));
    _ ← k_modify (add_configuration c);
    add_configurations get l
  end.

(** The owner's connection, bounded, and the credentials behind it. *)
Definition load_connection (get : string → result string) (instance : NetworkInstance) : op unit :=
  k ← k_get;
  owner ← lift_io (io_lift (createOwnerConnectionString get (nativeOwner k) settings (Address instance) false));
  let bounded := withConnectTimeout owner (connect (STimeouts settings)) in
  _ ← k_modify (with_connection (match bounded with Ok dsn => dsn | Err _ => "" end));
  _ ← lift_io (io_lift bounded);
  c ← lift_io (io_lift (LoadConfiguration get (nativeOwner k) settings));
  k_modify (with_credentials c).

Definition native_owner (native : bool) : string := if native then nativeOwnerRole (DatabaseName settings) else "".

Definition Init (ctx : Context) (req : InitRequest) : op unit :=
  _ ← k_modify (with_context (rq_native req) (native_owner (rq_native req)));
  net ← lift_io (io_lift (rq_instances req));
  instances ← (match net with Some l => mret l | None => k_fail (ENew "network mapping is nil" []) end);
  found ← lift_io (io_lift (rq_instance req));
  instance ← (match found with Some i => mret i | None => k_fail (ENew "network instance is nil" []) end);
  _ ← add_configurations (rq_get req) instances;
  _ ← load_connection (rq_get req) instance;
  if rq_native req then
    _ ← lift_io (reapHostResources ctx);
    initNative ctx (instance_port instance)
  else initDocker ctx instance.

(** ** Starting *)

Definition stopped_error : error := ENew "postgres was stopped by this invocation: run Init before Start" [].

Definition watch_migrations (ctx : Context) : prog unit :=
  if negb (NoMigration settings) && HotReload settings then
    match migrationWatchRequirements settings location own_dir with
    | Err _ => mret tt
    | Ok watch => forget (request (SetupWatcher ctx watch))
    end
  else mret tt.

Definition Start (k : Runtime) (ctx : Context) : prog unit :=
  _ ← io_guard (rt_released k) stopped_error;
  prerequisites ← io_lift (resolveSchemaPrerequisites location own_dir settings);
  _ ← WaitForReady k ctx;
  controlled ctx
    (_ ← applySchema k ctx prerequisites;
     _ ← watch_migrations ctx;
     _ ← ensureRuntimeAccessLocked k ctx;
     _ ← request CommitStarted;
     match nixRuntime k with Some _ => forget (request Supervise) | None => mret tt end).

(** ** Reacting to a saved file *)

Definition EventHandler (k : Runtime) (changed : string) : prog unit :=
  controlled Background
    ('(applied, _) ← migrating (λ c,
        applyMigrationChange settings (connection k) migrate migrate_version dirty_version location own_dir Background changed);
     if applied : bool then forget (ensureRuntimeAccessLocked k Background) else mret tt).

(** ** Stopping and destroying *)

Definition locking_lifecycle {A} (m : op A) : op A :=
  _ ← lift_io (forget (request LifeLock));
  k_finally m (request LifeUnlock).

Definition stopContainer (ctx : Context) : prog unit :=
  r ← io_try (request (ContainerStop ctx));
  match r with
  | Ok _ => mret tt
  | Err err =>
    now ← io_get;
    match ctx_Err ctx now with
    | Some _ => io_fail err
    | None => request (ContainerStop ctx)
    end
  end.

(** The message of a response that reports SUCCESS. *)
Definition respond (action : string) : op string := k ← k_get; mret (retentionSummary k action).

Definition release_reporting (ctx : Context) : op string :=
  action ← releaseNative ctx;
  _ ← lift_io (reapHostResources ctx);
  respond action.

Definition Stop (ctx : Context) : op string :=
  locking_lifecycle
    (_ ← lift_io (forget (request StopWatcher));
     k ← k_get;
     if KeepRunning settings && bool_decide (nixRuntime k = None) && negb (rt_nix k)
     then respond "kept postgres running for reuse"
     else match nixRuntime k with
     | Some _ => release_reporting ctx
     | None =>
       if runnerEnvironment k then
         _ ← lift_io (stopContainer ctx);
         _ ← k_modify (with_released true);
         respond "stopped postgres container"
       else respond "no postgres owned by this invocation"
     end).

Definition Destroy (ctx : Context) : op string :=
  locking_lifecycle
    (_ ← lift_io (forget (request StopWatcher));
     k ← k_get;
     match nixRuntime k with
     | Some _ => release_reporting ctx
     | None =>
       if rt_nix k then respond "native postgres already stopped" else
       _ ← (if runnerEnvironment k then mret tt
            else lift_io (request (DockerNew ctx configuredImage UniqueWithWorkspace)));
       _ ← lift_io (request (ContainerShutdown ctx));
       _ ← k_modify (λ k, with_released true (with_runner false k));
       respond "removed postgres container"
     end).

(** ** Testing *)

(** The counts, whether the run passed, and the message. *)
Definition Test : (list Z * bool) * string :=
  (([0; 0; 0; 0; 0], true), "this agent ships no tests of its own: zero run, zero failed").
End runtime.
