(* ===== verification/RuntimeSafety.v ===== *)
(** The runtime's protocol: what the agent may do with the database and with what
    runs it, whichever operation asks for it, and that every operation, in whatever
    state the ones before left the runtime, keeps to it and gives everything back. *)
From S2P Require Import Prelude GoStrings Images Traces Timeouts Settings MigrationFiles Schema RuntimeRoles Url Json Config Net Connections NixHost NixServer NixProtocol NixRecords NixSafety Migrations Runtime.

(** ** The state of the protocol *)

Record life := Life {
  l_native : seen_state;
  l_held : held;
  l_plane : bool;                 (* the control plane is held *)
  l_pool : bool;                  (* a pool of the runtime's own is open *)
  l_probe : bool;                 (* the last probe's statement was answered *)
  l_ready : bool;                 (* the wait ended with an answer *)
  l_exts : list string;           (* extensions asked for so far *)
  l_granted : option (list string * list string);   (* lineages and extensions the last grants saw *)
  l_mutex : bool;
  l_watching : bool;
  l_committed : bool;
  l_holds : nat;                  (* times the control plane was taken *)
  l_ended : nat;                  (* times the container was stopped or removed *)
  l_supervised : nat;             (* times the server's supervision was asked for *)
}.
Definition put_native (s : life) v : life :=
  Life v (l_held s) (l_plane s) (l_pool s) (l_probe s) (l_ready s) (l_exts s) (l_granted s) (l_mutex s) (l_watching s) (l_committed s) (l_holds s) (l_ended s) (l_supervised s).
Definition put_held (s : life) v : life :=
  Life (l_native s) v (l_plane s) (l_pool s) (l_probe s) (l_ready s) (l_exts s) (l_granted s) (l_mutex s) (l_watching s) (l_committed s) (l_holds s) (l_ended s) (l_supervised s).
Definition put_plane (s : life) v : life :=
  Life (l_native s) (l_held s) v (l_pool s) (l_probe s) (l_ready s) (l_exts s) (l_granted s) (l_mutex s) (l_watching s) (l_committed s) (l_holds s) (l_ended s) (l_supervised s).
Definition put_pool (s : life) v : life :=
  Life (l_native s) (l_held s) (l_plane s) v (l_probe s) (l_ready s) (l_exts s) (l_granted s) (l_mutex s) (l_watching s) (l_committed s) (l_holds s) (l_ended s) (l_supervised s).
Definition put_wait (s : life) p v : life :=
  Life (l_native s) (l_held s) (l_plane s) (l_pool s) p v (l_exts s) (l_granted s) (l_mutex s) (l_watching s) (l_committed s) (l_holds s) (l_ended s) (l_supervised s).
Definition put_exts (s : life) v : life :=
  Life (l_native s) (l_held s) (l_plane s) (l_pool s) (l_probe s) (l_ready s) v (l_granted s) (l_mutex s) (l_watching s) (l_committed s) (l_holds s) (l_ended s) (l_supervised s).
Definition put_granted (s : life) v : life :=
  Life (l_native s) (l_held s) (l_plane s) (l_pool s) (l_probe s) (l_ready s) (l_exts s) v (l_mutex s) (l_watching s) (l_committed s) (l_holds s) (l_ended s) (l_supervised s).
Definition put_mutex (s : life) v : life :=
  Life (l_native s) (l_held s) (l_plane s) (l_pool s) (l_probe s) (l_ready s) (l_exts s) (l_granted s) v (l_watching s) (l_committed s) (l_holds s) (l_ended s) (l_supervised s).
Definition put_watching (s : life) v : life :=
  Life (l_native s) (l_held s) (l_plane s) (l_pool s) (l_probe s) (l_ready s) (l_exts s) (l_granted s) (l_mutex s) v (l_committed s) (l_holds s) (l_ended s) (l_supervised s).
Definition put_committed (s : life) v : life :=
  Life (l_native s) (l_held s) (l_plane s) (l_pool s) (l_probe s) (l_ready s) (l_exts s) (l_granted s) (l_mutex s) (l_watching s) v (l_holds s) (l_ended s) (l_supervised s).
Definition put_holds (s : life) v : life :=
  Life (l_native s) (l_held s) (l_plane s) (l_pool s) (l_probe s) (l_ready s) (l_exts s) (l_granted s) (l_mutex s) (l_watching s) (l_committed s) v (l_ended s) (l_supervised s).
Definition put_ended (s : life) v : life :=
  Life (l_native s) (l_held s) (l_plane s) (l_pool s) (l_probe s) (l_ready s) (l_exts s) (l_granted s) (l_mutex s) (l_watching s) (l_committed s) (l_holds s) v (l_supervised s).
Definition put_supervised (s : life) v : life :=
  Life (l_native s) (l_held s) (l_plane s) (l_pool s) (l_probe s) (l_ready s) (l_exts s) (l_granted s) (l_mutex s) (l_watching s) (l_committed s) (l_holds s) (l_ended s) v.
(** The control plane taken once more. *)
Definition take_plane (s : life) : life := put_holds (put_committed (put_plane s true) false) (S (l_holds s)).

(** The schema as the lineages run and the extensions asked for. *)
Definition schema_at (s : life) : list string * list string := (ups (l_held s), l_exts s).

(** Bringing up, reacting to a saved file, or tearing down. *)
Inductive stage := Setup | Hot (permitted : Prop) | Teardown.

Section protocol.
Context {host : RuntimeHost}.
#[local] Existing Instance native_host.
Context (settings : Settings).

Definition lstep (s : life) (e : rtcall * bool) : life :=
  match e.1 with
  | Native c => put_native s (nstep (l_native s) (c, e.2))
  | Migration c => put_held s (mstep settings (l_held s) (c, e.2))
  | CtlAcquire _ => if e.2 then take_plane s else s
  | CtlRelease => put_plane s false
  | DbOpen _ => if e.2 then put_pool s true else s
  | DbClose => put_pool s false
  | NewTicker => put_wait s false false
  | DbPing _ => put_wait s false (l_ready s)
  | SelectOne _ => put_wait s e.2 (l_ready s)
  | Answered _ => put_wait s (l_probe s) (l_probe s && e.2)
  | CreateExtension _ name => put_exts s (l_exts s ++ [name])
  | EnsureAccess _ _ _ => if e.2 then put_granted s (Some (schema_at s)) else s
  | LifeLock => put_mutex s true
  | LifeUnlock => put_mutex s false
  | SetupWatcher _ _ => put_watching s true
  | StopWatcher => put_watching s false
  | CommitStarted => if e.2 then put_committed s true else s
  | ContainerStop _ | ContainerShutdown _ => if e.2 then put_ended s (S (l_ended s)) else s
  | Supervise => put_supervised s (S (l_supervised s))
  | _ => s
  end.

(** Nothing of one lineage is open. *)
Definition unheld (s : life) : Prop := ∃ n, l_held s = free n.

(** While the server or the container is torn down, the lifecycle is locked and no
    watcher is armed. *)
Definition tearing (st : stage) (s : life) : Prop :=
  match st with Setup => True | Hot _ => False | Teardown => l_mutex s = true ∧ l_watching s = false end.

Definition lallowed (t : target) (st : stage) (s : life) (c : rtcall) : Prop :=
  match c with
  | Native c => l_plane s = false ∧ l_pool s = false ∧ tearing st s ∧ nallowed t (l_native s) c
  | Migration c => l_plane s = true ∧ l_pool s = false ∧
      match st with
      | Setup => l_ready s = true ∧ mallowed True (l_held s) c
      | Hot permitted => mallowed permitted (l_held s) c
      | Teardown => False
      end
  | CtlAcquire _ => l_plane s = false ∧ l_pool s = false ∧ unheld s
  | CtlRelease => l_plane s = true ∧ l_pool s = false ∧ unheld s
  | DbOpen _ => l_pool s = false ∧ unheld s
  | DbClose | DbPing _ | SelectOne _ => l_pool s = true
  | CreateExtension _ _ => l_plane s = true ∧ l_pool s = true ∧ l_ready s = true ∧ st = Setup
  | EnsureAccess _ _ _ => l_plane s = true ∧ l_pool s = false ∧ unheld s ∧ st ≠ Teardown ∧ (st = Setup → l_ready s = true)
  | SetupWatcher _ _ => l_plane s = true ∧ st = Setup
  | CommitStarted => l_plane s = true ∧ l_ready s = true ∧ l_granted s = Some (schema_at s)
  | Supervise => l_committed s = true ∧ l_granted s = Some (schema_at s)
  | LifeLock => l_mutex s = false ∧ st = Teardown
  | LifeUnlock => l_mutex s = true ∧ st = Teardown
  | ContainerStop _ | ContainerShutdown _ => st = Teardown ∧ tearing st s
  | ForwardTo _ _ | ContainerInit _ _ | MountData _ _ _ _ => st = Setup
  | _ => True
  end.
End protocol.

(** Between operations: the runtime holds nothing but the attachment it may release. *)
Record idle (k : Runtime) (s : life) : Prop := {
  i_native : gave_up (l_native s);
  i_attached : ∀ n, nixRuntime k = Some n → attached (s_mine (l_native s)) n;
  i_held : unheld s;
  i_plane : l_plane s = false;
  i_pool : l_pool s = false;
  i_mutex : l_mutex s = false;
}.

(** ** Waiting, the schema, the grants *)

Section safety.
Context {fs : FileSystem} {u : Unicode} `{!Clock (trace rtcall)} {host : RuntimeHost}.
Context (settings : Settings) (location own_dir Unique UniqueWithWorkspace WorkspacePath NamingScope : string).
Context (RuntimeContextFromInstance : NetworkInstance → string) (instance_port : NetworkInstance → Z).
Context (NewDockerImage : string → option DockerImage) (image : runtimeImage).
Context {t : target} {st : stage}.
#[local] Existing Instance native_host.
#[local] Abbreviation prog := (io (trace rtcall)).
#[local] Abbreviation lstep := (lstep settings).
#[local] Abbreviation lallowed := (lallowed t st).
#[local] Abbreviation moves := (moves lstep lallowed).
#[local] Abbreviation kmoves := (kmoves lstep lallowed).

Lemma moves_request s c (Q : result unit → life → Prop) :
  lallowed s c → (∀ r, Q r (lstep s (c, is_ok r))) → moves s (request c) Q.
Proof. intros Ha HQ. by apply moves_call. Qed.
Lemma moves_request_ok s c (Q : result unit → life → Prop) :
  lallowed s c → Q (Ok tt) (lstep s (c, true)) → (∀ e, Q (Err e) (lstep s (c, false))) → moves s (request c) Q.
Proof. intros Ha HQ He. apply moves_request; [done|]. by intros [[]|e]. Qed.

Lemma moves_probeReady s ctx :
  l_pool s = true →
  moves s (probeReady ctx) (λ r s', ∃ p v, s' = put_wait s p v ∧ (r = Ok tt → v = true)).
Proof.
  intros Hp. eapply moves_trying with (P := λ r s', ∃ p, s' = put_wait s p (l_ready s) ∧ (is_ok r = true → p = true)).
  - eapply moves_bind with (P := λ _ s', s' = put_wait s false (l_ready s)).
    + by apply moves_request.
    + intros [] s' ->. apply moves_request; [done|]. intros r. by exists (is_ok r).
    + intros e s' ->. by exists false.
  - intros probe s' (p & -> & Hok). eapply moves_bind with (P := λ r s', ∃ v, s' = put_wait s p v ∧ (is_ok r = true → v = p)).
    + apply moves_request; [done|]. intros r. eexists. split; [done|]. intros ->. by destruct p.
    + intros [] s' (v & -> & Hv). apply moves_lift. exists p, v. split; [done|]. intros ->. rewrite (Hv eq_refl). by apply Hok.
    + intros e s' (v & -> & _). by exists p, v.
Qed.

Lemma put_wait_again s p v p' v' : put_wait (put_wait s p v) p' v' = put_wait s p' v'.
Proof. done. Qed.

Lemma moves_wait_ready fuel s k deadline last :
  l_pool s = true →
  moves s (wait_ready fuel k deadline last) (λ r s', ∃ p v, s' = put_wait s p v ∧ (r = Ok (Some tt) → v = true)).
Proof.
  revert s last. induction fuel as [|fuel IH]; intros s last Hp; cbn [wait_ready].
  - apply moves_ret. exists (l_probe s), (l_ready s). by destruct s.
  - eapply moves_trying; [by apply moves_probeReady|]. intros r s' (p & v & -> & Hv).
    destruct r as [[]|err]; [apply moves_ret; exists p, v; auto|]. clear Hv.
    eapply moves_trying with (P := λ _ s', s' = put_wait s p v); [by apply moves_request|].
    intros ticked s' ->. destruct ticked as [[]|ended].
    + eapply moves_mono; [by apply IH|]. intros r s' (p' & v' & -> & Hv). rewrite put_wait_again. eauto.
    + eapply moves_bind with (P := λ r s', s' = put_wait s p v ∧ is_ok r = false).
      * eapply moves_bind with (P := λ _ s', s' = put_wait s p v).
        { destruct (runnerEnvironment k); [|by apply moves_ret].
          eapply moves_trying with (P := λ _ s', s' = put_wait s p v); [by apply moves_inquire|].
          intros r s' ->. by apply moves_ret. }
        { intros tail s' ->. cbv zeta. by destruct (bool_decide _); apply moves_fail. }
        { by intros e s' ->. }
      * by intros [] s' [_ ?].
      * intros e s' [-> _]. by exists p, v.
Qed.

(** A pool is closed whatever is done with it. *)
Lemma moves_with_pool {A} s message dsn (m : prog A) (Q : result A → life → Prop) :
  l_pool s = false → unheld s →
  moves (put_pool s true) m (λ r s', l_pool s' = true ∧ Q r (put_pool s' false)) →
  (∀ e, Q (Err e) s) → moves s (with_pool message dsn m) Q.
Proof.
  intros Hp Hu Hm He. eapply moves_bind with (P := λ r s', s' = if is_ok r then put_pool s true else s).
  - apply moves_wrap, moves_request; [done|]. by intros [|].
  - intros [] s' ->. apply moves_finally. eapply moves_mono; [exact Hm|]. intros r s' [Hp' HQ].
    apply moves_request; [done|]. by intros ?.
  - intros e s' ->. apply He.
Qed.

Lemma closed_wait s p v p' v' :
  l_pool s = false → put_pool (put_wait (put_wait (put_pool s true) p v) p' v') false = put_wait s p' v'.
Proof. destruct s. cbn. by intros ->. Qed.

Lemma moves_WaitForReady s k ctx :
  l_pool s = false → unheld s →
  moves s (WaitForReady settings k ctx) (λ r s', ∃ p v, s' = put_wait s p v ∧ (r = Ok tt → v = true)).
Proof.
  intros Hp Hu. apply moves_with_pool; [done..| |].
  - apply moves_reading. intros now. eapply moves_bind with (P := λ _ s', s' = put_wait (put_pool s true) false false).
    + apply moves_ignoring, moves_request; [done|]. by intros ?.
    + intros [] s' ->. eapply moves_bind; [by apply moves_wait_ready| |].
      * intros o s' (p & v & -> & Hv). destruct o as [[]|]; [apply moves_ret|apply moves_fail]; (split; [done|]);
          exists p, v; rewrite closed_wait by done; (split; [done|]); [by intros _; apply Hv|done].
      * intros e s' (p & v & -> & _). split; [done|]. exists p, v. by rewrite closed_wait.
    + intros e s' ->. split; [done|]. exists false, false. by rewrite <-(closed_wait s false false false false).
  - intros e. exists (l_probe s), (l_ready s). by destruct s.
Qed.

Lemma put_exts_app s e e' : put_exts (put_exts s e) e' = put_exts s e'.
Proof. done. Qed.

Lemma moves_create_extensions s ctx l :
  l_plane s = true → l_pool s = true → l_ready s = true → st = Setup →
  moves s (create_extensions ctx l) (λ r s', ∃ skipped failed tried, r = Ok (skipped, failed) ∧
    s' = put_exts s (l_exts s ++ tried) ∧ (failed = None → tried = er_name <$> l)).
Proof.
  intros H1 H2 H3 H4. revert s H1 H2 H3. induction l as [|x l IH]; intros s H1 H2 H3; cbn [create_extensions].
  - apply moves_ret. exists [], None, []. rewrite app_nil_r. by destruct s.
  - eapply moves_trying with (P := λ _ s', s' = put_exts s (l_exts s ++ [er_name x])); [by apply moves_request|].
    assert (Hrec : ∀ (failed : option error) tried s',
      s' = put_exts (put_exts s (l_exts s ++ [er_name x])) ((l_exts s ++ [er_name x]) ++ tried) →
      (failed = None → tried = er_name <$> l) →
      ∃ tried', s' = put_exts s (l_exts s ++ tried') ∧ (failed = None → tried' = er_name <$> x :: l)).
    { intros failed tried s' -> Ht. exists (er_name x :: tried). rewrite put_exts_app, <-app_assoc. split; [done|].
      intros Hf. by rewrite (Ht Hf). }
    intros r s' ->. destruct r as [[]|err].
    + eapply moves_mono; [by apply IH|]. intros r s' (skipped & failed & tried & -> & Hs & Ht).
      destruct (Hrec failed tried s' Hs Ht) as (tried' & ? & ?). by exists skipped, failed, tried'.
    + destruct (er_required x).
      * apply moves_ret. by exists [], (Some (required_error (er_name x) err)), [er_name x].
      * eapply moves_bind; [by apply IH| |by intros e s' (? & ? & ? & ? & _)].
        intros p s' (skipped & failed & tried & [= ->] & Hs & Ht).
        destruct (Hrec failed tried s' Hs Ht) as (tried' & ? & ?). apply moves_ret. by eexists _, failed, tried'.
Qed.

Lemma moves_ensureExtensions s k ctx p :
  l_plane s = true → l_pool s = false → l_ready s = true → unheld s → st = Setup →
  moves s (ensureExtensions k ctx p) (λ r s', ∃ skipped failed tried, r = Ok (skipped, failed) ∧
    s' = put_exts s (l_exts s ++ tried) ∧ (failed = None → tried = er_name <$> sp_extensions p)).
Proof.
  intros H1 H2 H3 H4 H5.
  eapply moves_trying with (P := λ r s', ∃ tried, s' = put_exts s (l_exts s ++ tried) ∧
    ∀ skipped failed, r = Ok (skipped, failed) → failed = None → tried = er_name <$> sp_extensions p).
  - apply moves_with_pool; [done..| |].
    + eapply moves_mono; [by apply moves_create_extensions|]. intros r s' (skipped & failed & tried & -> & -> & Ht).
      split; [done|]. exists tried. split; [by destruct s; cbn in *; subst|]. by intros ? ? [= <- <-].
    + intros e. exists []. rewrite app_nil_r. by destruct s.
  - intros r s' (tried & -> & Ht). apply moves_ret. destruct r as [[skipped failed]|e].
    + exists skipped, failed, tried. eauto.
    + by exists [], (Some e), tried.
Qed.

(** [applyMigration] inside: the other parts of the state stay. *)
Lemma moves_applyMigration s k ctx sources :
  l_plane s = true → l_pool s = false → l_ready s = true → unheld s → st = Setup →
  moves s (applyMigration settings k ctx sources) (λ r s', ∃ n, s' = put_held s (free (ups (l_held s) ++ n)) ∧
    (r = Ok tt → n = label <$> sources)).
Proof.
  intros H1 H2 H3 [n H4] H5.
  eapply (moves_embed Migration prj_migration lstep lallowed (mstep settings) (mallowed True) l_held put_held);
    [done|by intros []|done|done| |..].
  all: try (instantiate (1 := λ s, l_plane s = true ∧ l_pool s = false ∧ l_ready s = true)).
  - by intros s0 v.
  - intros s0 c (? & ? & ?) ?. split_and!; [done..|]. by rewrite H5.
  - done.
  - intros tr. rewrite H4. apply applyMigration_moves.
  - cbn beta. intros r v (j & Hj & -> & Hr). exists (take j (label <$> sources)). rewrite H4. split; [done|].
    intros ->. rewrite Hr by done. apply take_ge. by rewrite length_fmap.
Qed.

Definition declared_lineages (p : schemaPrerequisites) : list string :=
  if NoMigration settings then [] else label <$> sp_sources p.

Lemma moves_applySchema s k ctx p :
  l_plane s = true → l_pool s = false → l_ready s = true → unheld s → st = Setup →
  moves s (applySchema settings k ctx p) (λ r s', ∃ ran tried,
    s' = put_held (put_exts s (l_exts s ++ tried)) (free (ups (l_held s) ++ ran)) ∧
    (r = Ok tt → ran = declared_lineages p ∧ tried = er_name <$> sp_extensions p)).
Proof.
  intros H1 H2 H3 H4 H5. eapply moves_bind; [by apply moves_ensureExtensions| |by intros e s' (? & ? & ? & ? & _)].
  intros x s' (skipped & failed & tried & [= ->] & -> & Ht).
  eapply moves_bind with (P := λ r s', ∃ x ran, r = Ok x ∧ s' = put_held (put_exts s (l_exts s ++ tried)) (free (ups (l_held s) ++ ran)) ∧
    (x = Ok tt → failed = None ∧ ran = declared_lineages p)).
  - destruct H4 as [n H4].
    assert (Hsame : put_exts s (l_exts s ++ tried) = put_held (put_exts s (l_exts s ++ tried)) (free (ups (l_held s) ++ []))).
    { rewrite app_nil_r, H4. cbn [free ups]. rewrite <-H4. by destruct s. }
    destruct failed as [e|]; [apply moves_ret; exists (Err e), []; by split_and!|].
    unfold declared_lineages. destruct (NoMigration settings); [apply moves_ret; exists (Ok tt), []; by split_and!|].
    apply moves_try. eapply moves_mono; [apply moves_applyMigration; try done; by exists n|].
    intros r s' (ran & -> & Hr). exists r, ran. split_and!; [done|done|auto].
  - intros r s' (x & ran & [= <-] & -> & Hr).
    eapply moves_bind with (P := λ _ s', s' = put_held (put_exts s (l_exts s ++ tried)) (free (ups (l_held s) ++ ran))).
    + apply moves_ignoring, moves_request; [done|]. by intros ?.
    + intros [] s' ->. apply moves_lift. exists ran, tried. split; [done|]. intros ->. destruct (Hr eq_refl) as [? ?]. auto.
    + intros e s' ->. by exists ran, tried.
  - by intros e s' (? & ? & ? & _).
Qed.

Lemma moves_access s k ctx :
  l_plane s = true → l_pool s = false → unheld s → st ≠ Teardown → (st = Setup → l_ready s = true) →
  moves s (ensureRuntimeAccessLocked k ctx)
    (λ r s', s' = if is_ok r then put_granted s (Some (schema_at s)) else s).
Proof.
  intros H1 H2 H3 H4 H5. unfold ensureRuntimeAccessLocked. destruct (rt_credentials k); [|by apply moves_fail].
  apply moves_request; [by split_and!|]. by intros [|].
Qed.

(** Whatever is done under the control plane, it is given up. *)
Lemma moves_controlled {A} s ctx (m : prog A) (Q : result A → life → Prop) :
  l_plane s = false → l_pool s = false → unheld s →
  moves (take_plane s) m
    (λ r s', l_plane s' = true ∧ l_pool s' = false ∧ unheld s' ∧ Q r (put_plane s' false)) →
  (∀ e, Q (Err e) s) → moves s (controlled ctx m) Q.
Proof.
  intros H1 H2 H3 Hm He. eapply moves_bind with (P := λ r s', s' = if is_ok r then take_plane s else s).
  - apply moves_reading. intros now. destruct (ctx_Err ctx now); [by apply moves_fail|].
    apply moves_request; [done|]. by intros [|].
  - intros [] s' ->. apply moves_finally. eapply moves_mono; [exact Hm|]. intros r s' (? & ? & ? & HQ).
    apply moves_request; [done|]. by intros ?.
  - intros e s' ->. apply He.
Qed.

(** What a transition, within one hold of the control plane, leaves alone, and the
    schema it brings about. *)
Record at_rest (s s' : life) : Prop := {
  ar_native : l_native s' = l_native s;
  ar_mutex : l_mutex s' = l_mutex s;
  ar_plane : l_plane s' = false;
  ar_pool : l_pool s' = false;
  ar_held : unheld s';
  ar_holds : (l_holds s' ≤ S (l_holds s))%nat;
}.
Definition brought (p : schemaPrerequisites) (s s' : life) : Prop :=
  l_holds s' = S (l_holds s) ∧ l_ready s' = true ∧ l_granted s' = Some (schema_at s') ∧
  schema_at s' = (ups (l_held s) ++ declared_lineages p, l_exts s ++ (er_name <$> sp_extensions p)).
#[local] Abbreviation resolved := (resolveSchemaPrerequisites location own_dir settings).

#[local] Hint Extern 0 (_ ≤ S _)%nat => (cbn; lia) : core.
Lemma at_rest_refl s : l_plane s = false → l_pool s = false → unheld s → at_rest s s.
Proof. by constructor. Qed.

Lemma moves_migrateOnInit s k ctx :
  l_plane s = false → l_pool s = false → unheld s → st = Setup →
  moves s (migrateOnInit settings location own_dir k ctx)
    (λ r s', at_rest s s' ∧ (r = Ok tt → ∃ p, resolved = Ok p ∧ brought p s s')).
Proof.
  intros H1 H2 H3 H5. unfold migrateOnInit. apply moves_lifted; [|by intros e _; split; [apply at_rest_refl|]].
  intros p Hp. eapply moves_bind; [by apply moves_WaitForReady| |intros e s' (? & ? & -> & _); by split; [constructor|]].
  intros [] s' (b & v & -> & Hv). specialize (Hv eq_refl). subst v.
  apply moves_controlled; [done..| |by intros e; split; [constructor|]].
  eapply moves_bind; [by apply moves_applySchema| |].
  - intros [] s' (ran & tried & -> & Hr). destruct (Hr eq_refl) as [-> ->].
    eapply moves_mono; [apply moves_access; [done|done|by eexists|by rewrite H5|done]|]. intros r s' Hs'. cbn beta in Hs'.
    assert (Hrest : at_rest s (put_plane s' false)).
    { subst s'. destruct (is_ok r); constructor; try done; by eexists. }
    subst s'.
    destruct r as [[]|e]; (do 2 (split; [done|])); (split; [by eexists|]); (split; [exact Hrest|]); [|done].
    intros _. exists p. by split_and!.
  - intros e s' (ran & tried & -> & _). do 2 (split; [done|]). split; [by eexists|]. split; [constructor; try done; by eexists|done].
Qed.

(** ** Starting and reacting *)

Lemma moves_watch_migrations s ctx :
  l_plane s = true → st = Setup →
  moves s (watch_migrations settings location own_dir ctx) (λ r s', r = Ok tt ∧ (s' = s ∨ s' = put_watching s true)).
Proof.
  intros H1 H2. unfold watch_migrations. destruct (_ && _); [|apply moves_ret; auto].
  destruct (migrationWatchRequirements _ _ _); [|apply moves_ret; auto].
  apply moves_ignoring, moves_request; [done|]. auto.
Qed.

Lemma moves_Start s k ctx :
  l_plane s = false → l_pool s = false → unheld s → st = Setup →
  moves s (Start settings location own_dir k ctx)
    (λ r s', at_rest s s' ∧ (r = Ok tt → rt_released k = false ∧
       (∃ p, resolved = Ok p ∧ brought p s s') ∧ l_committed s' = true ∧
       l_supervised s' = (if nixRuntime k then S (l_supervised s) else l_supervised s))).
Proof.
  intros H1 H2 H3 H5. unfold Start, io_guard. apply moves_lifted; [|by intros e _; split; [apply at_rest_refl|]].
  intros [] Hrel%guard_ok. apply moves_lifted; [|by intros e _; split; [apply at_rest_refl|]].
  intros p Hp. eapply moves_bind; [by apply moves_WaitForReady| |intros e s' (? & ? & -> & _); by split; [constructor|]].
  intros [] s' (b & v & -> & Hv). specialize (Hv eq_refl). subst v.
  apply moves_controlled; [done..| |by intros e; split; [constructor|]].
  eapply moves_bind; [by apply moves_applySchema| |].
  2: { intros e s' (ran & tried & -> & _). do 2 (split; [done|]). split; [by eexists|]. split; [constructor; try done; by eexists|done]. }
  intros [] s' (ran & tried & -> & Hr). destruct (Hr eq_refl) as [-> ->]. set (s1 := put_held _ _).
  assert (Hstays : ∀ w g c, let s' := put_committed (put_granted (put_watching s1 w) g) c in
    l_plane s' = true ∧ l_pool s' = false ∧ unheld s' ∧ at_rest s (put_plane s' false)).
  { intros w g c. do 2 (split; [done|]). split; [by eexists|]. constructor; try done. by eexists. }
  assert (Hwatch : moves s1 (watch_migrations settings location own_dir ctx) (λ r s', r = Ok tt ∧ ∃ w, s' = put_watching s1 w)).
  { eapply moves_mono; [by apply moves_watch_migrations|]. intros r s' [-> [-> | ->]]; (split; [done|]); [by exists (l_watching s1)|by exists true]. }
  eapply moves_bind; [exact Hwatch| |by intros e s' [? _]].
  intros [] s' [_ [w ->]]. set (s2 := put_watching s1 w).
  eapply moves_bind; [apply moves_access; [done|done|by eexists|by rewrite H5|done]| |].
  2: { intros e s' ->. destruct (Hstays w (l_granted s1) (l_committed s1)) as (? & ? & ? & ?). by split_and!. }
  intros [] s' ->. cbn [is_ok]. set (s3 := put_granted s2 _).
  eapply moves_bind with (P := λ r s', s' = put_committed s3 (is_ok r)).
  - apply moves_request_ok; [done|done|by intros e].
  - intros [] s' ->. cbn [is_ok].
    assert (Hend : ∀ n s', n = (if nixRuntime k then S (l_supervised s) else l_supervised s) →
      s' = put_supervised (put_committed s3 true) n →
      l_plane s' = true ∧ l_pool s' = false ∧ unheld s' ∧ at_rest s (put_plane s' false) ∧
      (Ok tt = Ok tt → rt_released k = false ∧ (∃ p, resolved = Ok p ∧ brought p s (put_plane s' false)) ∧
         l_committed (put_plane s' false) = true ∧ l_supervised (put_plane s' false) = n)).
    { intros n s' Hn ->. destruct (Hstays w (Some (schema_at s2)) true) as (? & ? & ? & [?????]). do 3 (split; [done|]).
      split; [by constructor|]. intros _. split_and!; [done| |done|done]. exists p. split; [done|]. by split_and!. }
    destruct (nixRuntime k); [|by apply moves_ret, Hend].
    apply moves_ignoring, moves_request; [done|]. intros ?. by apply Hend.
  - intros e s' ->. destruct (Hstays w (Some (schema_at s2)) false) as (? & ? & ? & ?). by split_and!.
Qed.

Lemma moves_EventHandler s k changed :
  l_plane s = false → l_pool s = false → unheld s →
  st = Hot (forward_change settings migrate_version location own_dir changed) →
  moves s (EventHandler settings location own_dir k changed) (λ r s', at_rest s s').
Proof.
  intros H1 H2 [n H3] H5. apply moves_controlled; [done|done|by exists n| |by intros e; apply at_rest_refl; [..|exists n]].
  eapply moves_bind with (P := λ r s', ∃ m, s' = put_held (take_plane s) (free m)).
  - eapply (moves_embed Migration prj_migration lstep lallowed (mstep settings)
      (mallowed (forward_change settings migrate_version location own_dir changed)) l_held put_held);
      [done|by intros []|done|done| |..].
    all: try (instantiate (1 := λ s, l_plane s = true ∧ l_pool s = false)).
    + by intros s0 v.
    + intros s0 c (? & ?) ?. split_and!; [done..|]. by rewrite H5.
    + done.
    + intros tr. cbn [take_plane put_holds put_committed put_plane l_held]. rewrite H3. apply applyMigrationChange_moves.
    + cbn beta. intros r v (applied & err & ran & _ & -> & _). by eexists.
  - intros [applied err] s' [m ->]. set (s1 := put_held _ _). assert (Hu : unheld s1) by (by exists m).
    assert (Hrest : ∀ g, at_rest s (put_plane (put_granted s1 g) false)) by (intros g; constructor; try done; by exists m).
    destruct applied; [|apply moves_ret; do 3 (split; [done|]); apply (Hrest (l_granted s1))].
    apply moves_ignoring. eapply moves_mono; [apply moves_access; [done|done|done|by rewrite H5|by rewrite H5]|].
    cbn beta. intros r s' ->. destruct (is_ok r); (do 3 (split; [done|])); [apply Hrest|apply (Hrest (l_granted s1))].
  - intros e s' [m ->]. split_and!; [done|done|by exists m|]. constructor; try done. by exists m.
Qed.

(** ** The native half *)

#[local] Abbreviation nmoves := (Traces.moves nstep (nallowed t)).

Lemma moves_native {A} s (m : Clock (trace ncall) → io (trace ncall) A) P (Q : result A → life → Prop) :
  l_plane s = false → l_pool s = false → tearing st s →
  (∀ c, nmoves (l_native s) (m c) P) → (∀ r v, P r v → Q r (put_native s v)) → moves s (native m) Q.
Proof.
  intros H1 H2 H3 Hm HQ.
  eapply (moves_embed Native prj_native lstep lallowed nstep (nallowed t) l_native put_native);
    [done|by intros []|done|done| |..].
  all: try (instantiate (1 := λ s, l_plane s = false ∧ l_pool s = false ∧ tearing st s)).
  - by intros s0 v.
  - by intros s0 c (? & ? & ?) ?.
  - done.
  - intros tr. apply Hm.
  - exact HQ.
Qed.

Definition release_failure (e : error) : Prop := ∃ e0, e = EWrap "release the run's native postgres server: %w" [] e0.

Lemma moves_native_shrinking {A} s (m : Clock (trace ncall) → io (trace ncall) A) P (Q : result A → life → Prop) :
  l_plane s = false → l_pool s = false → tearing st s → (∀ c, shrinks (m c)) →
  (∀ c, nmoves (l_native s) (m c) P) →
  (∀ r v, P r v → s_disk v ⊆ s_disk (l_native s) → Q r (put_native s v)) → moves s (native m) Q.
Proof.
  intros H1 H2 H3 Hs Hm HQ.
  eapply moves_native with (P := λ r v, P r v ∧ s_disk v ⊆ s_disk (l_native s)); [done..| |].
  - intros c. by apply moves_shrinking.
  - intros r v [? ?]. by apply HQ.
Qed.

Lemma kmoves_releaseNative s k ctx n :
  nixRuntime k = Some n → attached (s_mine (l_native s)) n → gave_up (l_native s) → pins (t_root t) (root n) →
  l_plane s = false → l_pool s = false → tearing st s →
  kmoves s k (releaseNative ctx) (λ r k' s', ∃ v, s' = put_native s v ∧ settles (l_native s) v ∧
    s_disk v ⊆ s_disk (l_native s) ∧
    (∀ n', nixRuntime k' = Some n' → attached (s_mine v) n') ∧
    retainedDataPath k' = retainedDataPath k ∧
    match r with
    | Ok _ => nixRuntime k' = None ∧ rt_released k' = true ∧ let_go n v
    | Err e => release_failure e
    end).
Proof.
  intros Hn Ha Hg Hroot H1 H2 H3. apply kmoves_getting. rewrite Hn.
  eapply kmoves_lifting with (P := λ r s', ∃ v, s' = put_native s v ∧ settles (l_native s) v ∧
    s_disk v ⊆ s_disk (l_native s) ∧ NixSafety.released n r v).
  - eapply moves_native_shrinking; [done..| | |].
    + intros c. apply shrinks_release.
    + intros c. by apply moves_release.
    + cbn beta. intros r v [? ?] ?. by exists v.
  - intros [[stopped err] n'] s1 (v & -> & Hs & Hd & ? & ? & ? & [= <- <- <-] & Ha' & Hgo).
    apply kmoves_modifying. destruct err as [e|].
    + apply kmoves_fail. exists v. split_and!; [done..| | |by exists e]; [by intros ? [= <-]|done].
    + apply kmoves_modifying, kmoves_ret. exists v. destruct (Hgo eq_refl). by split_and!.
  - by intros e s1 (v & _ & _ & _ & ? & ? & ? & ? & _).
Qed.

(** The host's state moved on, and the rest is as between operations. *)
Definition settled (s : life) (k' : Runtime) (s' : life) : Prop :=
  ∃ v, settles (l_native s) v ∧ at_rest (put_native s v) s' ∧ ∀ n, nixRuntime k' = Some n → attached (s_mine v) n.

(** The root of the run's server, and what this service asks it for. *)
Definition run_root_of : option string :=
  match servers_dir with
  | Ok servers => Some (path_join [servers; hash16 (runServerKey WorkspacePath NamingScope)])
  | Err _ => None
  end.
Definition asks_for (k : Runtime) : Prop :=
  t = {| t_service := Unique; t_database := DatabaseName settings;
         t_owner := from_option postgresUser "" (rt_credentials k);
         t_password := from_option postgresPassword "" (rt_credentials k); t_root := run_root_of; t_dsn := None; t_setup := true |}.

Lemma kmoves_use_server s k ctx port server :
  nixRuntime k = Some server → attached (s_mine (l_native s)) server → pins (t_root t) (root server) → gave_up (l_native s) →
  l_plane s = false → l_pool s = false → unheld s → st = Setup → asks_for k →
  kmoves s k (use_server settings location own_dir Unique ctx port server) (λ r k' s', settled s k' s' ∧
    ((nixRuntime k' = Some server ∨ nixRuntime k' = Some (with_forwarder server)) ∧ s_disk (l_native s') ⊆ s_disk (l_native s)) ∧ (r = Ok tt → ∃ p, resolved = Ok p ∧ brought p s s')).
Proof.
  intros Hn Ha Hroot Hg H1 H2 H3 H5 Hask. apply kmoves_getting.
  assert (Hany : ∀ k' s' v, settles (l_native s) v → s_disk v ⊆ s_disk (l_native s) → at_rest (put_native s v) s' →
    (nixRuntime k' = Some server ∨ nixRuntime k' = Some (with_forwarder server)) →
    settled s k' s' ∧ (nixRuntime k' = Some server ∨ nixRuntime k' = Some (with_forwarder server)) ∧
    s_disk (l_native s') ⊆ s_disk (l_native s)).
  { intros k' s' v Hs Hd Hr Hk. split; [exists v; split_and!; [done..|]|split; [done|by rewrite (ar_native _ _ Hr)]].
    intros n Hn'. assert (Hv : attached (s_mine v) server) by (eapply attached_kept; [apply Hs|done]).
    by destruct Hk as [E|E]; rewrite E in Hn'; injection Hn' as <-. }
  eapply kmoves_lifting with (P := λ r s', ∃ v, s' = put_native s v ∧ settles (l_native s) v ∧ s_disk v ⊆ s_disk (l_native s)).
  { eapply moves_native_shrinking; [done|done|by rewrite H5| | |].
    - intros c. apply shrinks_provision.
    - intros c. pose proof (moves_provision (t := t) (l_native s) server ctx Hg) as Hp. rewrite Hask in Hp, Hroot |- *.
      by apply Hp.
    - cbn beta. intros r v [? _] ?. by exists v. }
  2: { intros e s' (v & -> & Hs & Hd). apply and_assoc. split; [|done]. by apply (Hany k _ v); [..|by constructor|left]. }
  intros [] s' (v & -> & Hs & Hd). eapply kmoves_lifting with (P := λ _ s', s' = put_native s v).
  { apply moves_request; [done|]. by intros ?. }
  2: { intros e s' ->. apply and_assoc. split; [|done]. by apply (Hany k _ v); [..|by constructor|left]. }
  intros [] s' ->. do 2 apply kmoves_modifying. apply kmoves_lifted.
  2: { intros e He. apply and_assoc. split; [|done]. by apply (Hany _ _ v); [..|by constructor|right]. }
  intros admin Hadmin. apply kmoves_modifying, kmoves_getting, kmoves_lift.
  eapply moves_mono; [by apply moves_migrateOnInit|]. intros r s' [Hr Hok]. apply and_assoc. split.
  - by apply (Hany _ _ v); [..|done|right].
  - intros ->. by apply Hok.
Qed.

(** What a failure leaves: this call's server is let go, as far as releasing it went. *)
Definition backed_out (k : Runtime) (s : life) (e : error) (k' : Runtime) (s' : life) : Prop :=
  (nixRuntime k' = nixRuntime k ∨ nixRuntime k' = None) ∧ s_disk (l_native s') ⊆ s_disk (l_native s) ∨
  ∃ e1 e2, e = EJoin [e1; e2] ∧ release_failure e2.

Lemma kmoves_initNative s k ctx port :
  gave_up (l_native s) → (∀ n, nixRuntime k = Some n → attached (s_mine (l_native s)) n) →
  l_plane s = false → l_pool s = false → unheld s → st = Setup → asks_for k →
  kmoves s k (initNative settings location own_dir Unique WorkspacePath NamingScope ctx port) (λ r k' s', settled s k' s' ∧
    match r with
    | Ok _ => is_Some (nixRuntime k') ∧ ∃ p, resolved = Ok p ∧ brought p s s'
    | Err e => backed_out k s e k' s'
    end).
Proof.
  intros Hg Hk H1 H2 H3 H5 Hask.
  eapply kmoves_lifting with (P := λ r s', ∃ v, s' = put_native s v ∧ settles (l_native s) v ∧
    match r with
    | Ok n => attached (s_mine v) n ∧ pins (t_root t) (root n) ∧ ∃ p, holder n = Some p ∧ s_disk v ⊆ p :: s_disk (l_native s)
    | Err _ => s_disk v ⊆ s_disk (l_native s)
    end).
  { eapply moves_native; [done|done|by rewrite H5| |].
    - intros c. eapply moves_and; [apply moves_acquire; [by rewrite Hask|done|by rewrite Hask|]|apply brings_acquire].
      intros servers Hs. rewrite Hask. cbn [t_root]. unfold run_root_of. by rewrite Hs.
    - cbn beta. intros r v [[Hs Hn] Hb]. exists v. split_and!; [done..|]. destruct r as [n|e]; [|done].
      destruct (Hn n eq_refl) as (? & ? & _). by split_and!. }
  2: { intros e s' (v & -> & Hs & Hd). split; [|by left; split; [left|]]. exists v. split_and!; [done|by constructor|].
       intros n Hn. eapply attached_kept; [apply Hs|by apply Hk]. }
  intros server s' (v & -> & Hs & Hn & Hroot & p & Hp & Hd). apply kmoves_modifying.
  eapply kmoves_bind with (P := λ r k' s', ∃ x, r = Ok x ∧ settled (put_native s v) k' s' ∧
    ((nixRuntime k' = Some server ∨ nixRuntime k' = Some (with_forwarder server)) ∧ s_disk (l_native s') ⊆ s_disk v) ∧
    (x = Ok tt → ∃ p, resolved = Ok p ∧ brought p (put_native s v) s')).
  { apply kmoves_try. eapply kmoves_mono; [by apply kmoves_use_server; try done; apply Hs|]. eauto. }
  2: by intros e k' s' (? & ? & _).
  intros x k' s' (? & [= <-] & (v2 & Hs2 & Hr2 & Ha2) & [Hn2 Hd2] & Hok).
  assert (Hset : settles (l_native s) v2) by (by eapply settles_trans).
  destruct x as [[]|e].
  { apply kmoves_ret. split; [exists v2; by split_and!|]. split; [by destruct Hn2 as [-> | ->]|]. by apply Hok. }
  assert (Hn2' : ∃ n2, nixRuntime k' = Some n2 ∧ root n2 = root server ∧ holder n2 = holder server) by (destruct Hn2; by eexists).
  clear Hn2. destruct Hn2' as (n2 & Hn2 & Hroot2 & Hh2).
  destruct Hr2 as [Ev Em Ep Epo Eh]. cbn [put_native l_native] in Ev. rewrite Ev in Hd2.
  eapply kmoves_bind with (P := λ r k' s'', ∃ x v3, r = Ok x ∧ s'' = put_native s' v3 ∧ settles v2 v3 ∧ s_disk v3 ⊆ s_disk v2 ∧
    (∀ n', nixRuntime k' = Some n' → attached (s_mine v3) n') ∧
    match x with Ok _ => nixRuntime k' = None ∧ let_go n2 v3 | Err e => release_failure e end).
  { apply kmoves_try. eapply kmoves_mono;
      [apply (kmoves_releaseNative s' k' _ n2); [done|rewrite Ev; by apply Ha2|rewrite Ev; by apply Hs2|by rewrite Hroot2|done|done|by rewrite H5]|].
    cbn beta. intros r k3 s3 (v3 & -> & Hs3 & Hd3 & Ha3 & _ & Hr3). rewrite Ev in Hs3, Hd3. exists r, v3. split_and!; [done..|].
    destruct r; [by destruct Hr3 as (? & _ & ?)|done]. }
  2: by intros e1 k3 s3 (? & ? & ? & _).
  intros x k3 s3 (? & v3 & [= <-] & -> & Hs3 & Hd3 & Ha3 & Hx). apply kmoves_fail. split.
  - exists v3. split_and!; [by eapply settles_trans|by constructor|done].
  - destruct x as [a|e2]; [|by right; exists e, e2]. destruct Hx as [Hx [Hgo _]]. left. split; [by right|].
    intros q Hq. rewrite Hh2 in Hgo. pose proof Hq as Hin. apply Hd3, Hd2, Hd, elem_of_cons in Hq as [->|]; [|done].
    by destruct (Hgo p Hp Hin).
Qed.

(** ** Initialising *)

(** The fields that say what is attached stay. *)
Definition same_attachment (k k' : Runtime) : Prop := nixRuntime k' = nixRuntime k ∧ nativeOwner k' = nativeOwner k.

Lemma kmoves_add_configurations s k get l :
  kmoves s k (add_configurations settings Unique RuntimeContextFromInstance get l)
    (λ r k' s', s' = s ∧ same_attachment k k').
Proof.
  revert k. induction l as [|inst l IH]; intros k; cbn [add_configurations]; [by apply kmoves_ret|].
  apply kmoves_getting, kmoves_lifted; [|done]. intros c _. apply kmoves_modifying. eapply kmoves_mono; [apply IH|done].
Qed.

Lemma kmoves_load_connection s k get instance :
  kmoves s k (load_connection settings get instance) (λ r k' s', s' = s ∧ same_attachment k k' ∧
    (r = Ok tt → ∃ c, LoadConfiguration get (nativeOwner k) settings = Ok c ∧ rt_credentials k' = Some c)).
Proof.
  apply kmoves_getting, kmoves_lifted; [|done]. intros owner _. apply kmoves_modifying, kmoves_lifted; [|done].
  intros dsn _. apply kmoves_lifted; [|done]. intros c Hc. apply kmoves_modify. split_and!; [done..|].
  intros _. by exists c.
Qed.

Lemma settled_here s k : gave_up (l_native s) → l_plane s = false → l_pool s = false → unheld s →
  (∀ n, nixRuntime k = Some n → attached (s_mine (l_native s)) n) → settled s k s.
Proof.
  intros Hg H1 H2 H3 Ha. exists (l_native s). split_and!; [by apply settles_refl| |done]. by constructor.
Qed.

Lemma kmoves_initDocker s k ctx instance :
  gave_up (l_native s) → (∀ n, nixRuntime k = Some n → attached (s_mine (l_native s)) n) →
  l_plane s = false → l_pool s = false → unheld s → st = Setup →
  kmoves s k (initDocker settings location own_dir UniqueWithWorkspace instance_port NewDockerImage image ctx instance)
    (λ r k' s', settled s k' s' ∧ (nixRuntime k' = nixRuntime k ∧ l_native s' = l_native s) ∧
       (r = Ok tt → ∃ p, resolved = Ok p ∧ brought p s s')).
Proof.
  intros Hg Ha H1 H2 H3 H5.
  assert (Hany : ∀ k' s', at_rest s s' → nixRuntime k' = nixRuntime k →
    settled s k' s' ∧ nixRuntime k' = nixRuntime k ∧ l_native s' = l_native s).
  { intros k' s' Hr Hk. split; [|by split; [|apply Hr]]. exists (l_native s). split_and!; [by apply settles_refl| |by rewrite Hk].
    destruct Hr. by constructor. }
  assert (Hs : at_rest s s) by (by apply at_rest_refl).
  eapply kmoves_lifting with (P := λ _ s', s' = s); [by apply moves_request; [|intros ?]| |].
  2: { intros e s' ->. apply and_assoc. by split; [apply Hany|]. }
  intros [] s' ->. eapply kmoves_lifting with (P := λ _ s', s' = s).
  { apply moves_wrap, moves_inquire. done. }
  2: { intros e s' ->. apply and_assoc. by split; [apply Hany|]. }
  intros dataPath s' ->. apply kmoves_modifying, kmoves_getting, kmoves_modifying.
  eapply kmoves_lifting with (P := λ _ s', s' = s); [by apply moves_request; [|intros ?]| |].
  2: { intros e s' ->. apply and_assoc. by split; [apply Hany|]. }
  intros [] s' ->. apply kmoves_modifying, kmoves_getting, kmoves_lift.
  eapply moves_mono; [by apply moves_migrateOnInit|]. intros r s' [Hr Hok]. apply and_assoc. by split; [apply Hany|].
Qed.

(** What [Init] may ask of the run's server. *)
Definition Init_target (req : InitRequest) : target :=
  let '(owner, password) :=
    match LoadConfiguration (rq_get req) (native_owner settings (rq_native req)) settings with
    | Ok c => (postgresUser c, postgresPassword c)
    | Err _ => ("", "")
    end in
  {| t_service := Unique; t_database := DatabaseName settings; t_owner := owner; t_password := password;
     t_root := run_root_of; t_dsn := None; t_setup := true |}.

Lemma kmoves_Init s k ctx req :
  idle k s → st = Setup → t = Init_target req →
  kmoves s k (Init settings location own_dir Unique UniqueWithWorkspace WorkspacePath NamingScope RuntimeContextFromInstance
                instance_port NewDockerImage image ctx req) (λ r k' s', settled s k' s' ∧
    match r with
    | Ok _ => (∃ p, resolved = Ok p ∧ brought p s s') ∧ (rq_native req = true → is_Some (nixRuntime k'))
    | Err e => backed_out k s e k' s'
    end).
Proof.
  intros [Hg Ha H3 H1 H2 _] H5 Ht. unfold Init.
  assert (Hhere : ∀ k' (e : error), nixRuntime k' = nixRuntime k → settled s k' s ∧ backed_out k s e k' s).
  { intros k' e Hk. split; [|by left; split; [left|]]. apply settled_here; try done. by rewrite Hk. }
  apply kmoves_modifying. apply kmoves_lifted; [|by intros e _; apply Hhere].
  intros net _. eapply kmoves_bind with (P := λ r k' s', k' = with_context (rq_native req) (native_owner settings (rq_native req)) k ∧ s' = s).
  { destruct net; [by apply kmoves_ret|by apply kmoves_fail]. }
  2: by intros e k' s' [-> ->]; apply Hhere.
  intros instances k' s' [-> ->]. apply kmoves_lifted; [|by intros e _; apply Hhere].
  intros found _. eapply kmoves_bind with (P := λ r k' s', k' = with_context (rq_native req) (native_owner settings (rq_native req)) k ∧ s' = s).
  { destruct found; [by apply kmoves_ret|by apply kmoves_fail]. }
  2: by intros e k' s' [-> ->]; apply Hhere.
  intros instance k' s' [-> ->]. eapply kmoves_bind; [apply kmoves_add_configurations| |].
  2: by intros e k' s' (-> & Hk & _); apply Hhere.
  intros [] k1 s' (-> & Hk1 & Ho1). eapply kmoves_bind; [apply kmoves_load_connection| |].
  2: by intros e k' s' (-> & [Hk _] & _); apply Hhere; etrans; [exact Hk|].
  intros [] k2 s' (-> & [Hk2 Ho2] & Hc). destruct (Hc eq_refl) as (c & Hload & Hcred). cbn [with_context nativeOwner nixRuntime] in *.
  rewrite Ho1 in Hload. assert (Hk : nixRuntime k2 = nixRuntime k) by congruence.
  destruct (rq_native req) eqn:En.
  - eapply kmoves_lifting with (P := λ r s', s' = s ∧ is_ok r = true); [by apply moves_ignoring, moves_request; [|intros ?]| |by intros e s' [_ ?]].
    intros [] s' [-> _]. eapply kmoves_mono; [apply kmoves_initNative; try done; [by rewrite Hk|]|].
    + unfold asks_for. rewrite Ht, Hcred. cbn [from_option]. unfold Init_target. by rewrite En, Hload.
    + cbn beta. intros r k' s' [Hs Hr]. split; [done|]. destruct r as [[]|e]; [by destruct Hr|].
      unfold backed_out in *. by rewrite <-Hk.
  - eapply kmoves_mono; [apply kmoves_initDocker; try done; by rewrite Hk|]. cbn beta.
    intros r k' s' (Hs & [Hn Hd] & Hok). split; [done|]. destruct r as [[]|e]; [split; [by apply Hok|done]|].
    left. split; [left; congruence|by rewrite Hd].
Qed.

(** ** Stopping and destroying *)

Lemma kmoves_locking_lifecycle {A} s k (m : keeping rtcall Runtime A) (Q : result A → Runtime → life → Prop) :
  l_mutex s = false → st = Teardown →
  kmoves (put_mutex s true) k m (λ r k' s', l_mutex s' = true ∧ Q r k' (put_mutex s' false)) →
  kmoves s k (locking_lifecycle m) Q.
Proof.
  intros H1 H2 Hm. eapply kmoves_lifting with (P := λ r s', s' = put_mutex s true ∧ is_ok r = true).
  - by apply moves_ignoring, moves_request; [|intros ?].
  - intros [] s' [-> _]. apply kmoves_finally. eapply kmoves_mono; [exact Hm|]. intros r k' s' [Hm' HQ].
    apply moves_request; [done|]. by intros ?.
  - by intros e s' [_ ?].
Qed.

(** Which teardowns have a container of this service to end: nothing of the run's
    server is attached and, for [Stop], one was set up and is not to be kept. *)
Definition stops_container (k : Runtime) : bool :=
  negb (bool_decide (is_Some (nixRuntime k))) && runnerEnvironment k && negb (KeepRunning settings && negb (rt_nix k)).
Definition removes_container (k : Runtime) : bool :=
  negb (bool_decide (is_Some (nixRuntime k))) && negb (rt_nix k).

(** The host's state and the container's moved on, and nothing else changed; what was
    attached and not released may still be.  A success has released the attachment, or
    ended the container exactly where there is one to end, and records that. *)
Definition tears (ends : bool) (s : life) (k : Runtime) (r : result string) (k' : Runtime) (s' : life) : Prop :=
  (∃ v n, settles (l_native s) v ∧ s' = put_ended (put_native s v) n ∧ s_disk v ⊆ s_disk (l_native s) ∧
     ∀ n, nixRuntime k' = Some n → attached (s_mine v) n) ∧
  retainedDataPath k' = retainedDataPath k ∧
  ∀ message, r = Ok message → nixRuntime k' = None ∧ (∀ n, nixRuntime k = Some n → let_go n (l_native s')) ∧
    l_ended s' = (if ends then S (l_ended s) else l_ended s) ∧
    rt_released k' = rt_released k || ends || bool_decide (is_Some (nixRuntime k)) ∧
    ∃ action, message = retentionSummary k action.
(** The same, of the whole operation: the watcher is disarmed too. *)
Definition torn_down (ends : bool) (s : life) (k : Runtime) (r : result string) (k' : Runtime) (s' : life) : Prop :=
  tears ends (put_watching s false) k r k' s'.

Lemma kmoves_release_reporting s k ctx n :
  nixRuntime k = Some n → attached (s_mine (l_native s)) n → gave_up (l_native s) → t_root t = None →
  l_plane s = false → l_pool s = false → tearing st s →
  kmoves s k (release_reporting ctx) (tears false s k).
Proof.
  intros Hn Ha Hg Hroot H1 H2 H3. eapply kmoves_bind; [eapply kmoves_releaseNative; try done; by rewrite Hroot| |].
  - intros action k' s' (v & -> & Hs & Hd & Ha' & Hp & Hk & Hr & Hgo).
    eapply kmoves_lifting with (P := λ r s', s' = put_native s v ∧ is_ok r = true); [by apply moves_ignoring, moves_request; [|intros ?]| |by intros e s' [_ ?]].
    intros [] s' [-> _]. apply kmoves_getting, kmoves_ret. split_and!; [by exists v, (l_ended s)|done|].
    intros message [= <-]. split_and!; [done| |done| |].
    + intros n0. rewrite Hn. by intros [= <-].
    + rewrite Hr, Hn. by rewrite orb_true_r.
    + exists action. unfold retentionSummary. by rewrite Hp.
  - intros e k' s' (v & -> & Hs & Hd & Ha' & Hp & _). split_and!; [by exists v, (l_ended s)|done|done].
Qed.

Lemma put_mutex_back s v n : l_mutex s = false →
  put_mutex (put_ended (put_native (put_watching (put_mutex s true) false) v) n) false =
  put_ended (put_native (put_watching s false) v) n.
Proof. destruct s. cbn. by intros ->. Qed.
Lemma put_native_same s : put_native s (l_native s) = s.
Proof. by destruct s. Qed.

(** Ended once, or in an unknown state. *)
Definition ended (s : life) (r : result unit) (s' : life) : Prop :=
  s' = put_ended s (if is_ok r then S (l_ended s) else l_ended s).
Lemma moves_ending s c :
  (∃ ctx, c = ContainerStop ctx ∨ c = ContainerShutdown ctx) → l_mutex s = true → l_watching s = false → st = Teardown →
  moves s (request c) (ended s).
Proof.
  intros (ctx & Hc) H1 H2 H3. apply moves_request; [|intros r].
  - destruct Hc as [-> | ->]; (split; [done|]); by rewrite H3.
  - destruct s. by destruct Hc as [-> | ->], r.
Qed.
Lemma moves_stopContainer s ctx :
  l_mutex s = true → l_watching s = false → st = Teardown → moves s (stopContainer ctx) (ended s).
Proof.
  intros H1 H2 H3. eapply moves_trying; [by apply moves_ending; [exists ctx; left|..]|].
  intros r s' ->. destruct r; [by apply moves_ret|]. apply moves_reading. intros now.
  replace (put_ended _ _) with s by by destruct s.
  destruct (ctx_Err ctx now); [apply moves_fail; by destruct s|by apply moves_ending; [exists ctx; left|..]].
Qed.

Section teardown.
Context (s : life) (k : Runtime).
Hypothesis Hidle : idle k s.
Hypothesis Hst : st = Teardown.
Hypothesis Hroot : t_root t = None.
Let s1 : life := put_watching (put_mutex s true) false.

(** The watcher goes first, under the lifecycle's lock. *)
Lemma kmoves_teardown ends (m : Runtime → keeping rtcall Runtime string) :
  kmoves s1 k (m k) (tears ends s1 k) →
  kmoves s k (locking_lifecycle (_ ← lift_io (forget (request StopWatcher)); k ← k_get; m k)) (torn_down ends s k).
Proof.
  intros Hm. destruct Hidle as [_ _ _ _ _ Hmu]. apply kmoves_locking_lifecycle; [done..|].
  eapply kmoves_lifting with (P := λ r s', s' = s1 ∧ is_ok r = true); [by apply moves_ignoring, moves_request; [|intros ?]| |by intros e s' [_ ?]].
  intros [] s' [-> _]. apply kmoves_getting. eapply kmoves_mono; [exact Hm|].
  intros r k' s' ((v & n & Hs & -> & Hd & Ha) & Hp & Hr). split; [done|]. split_and!; [|done|done].
  exists v, n. unfold s1. by rewrite put_mutex_back.
Qed.

Lemma kmoves_release_here ctx n :
  nixRuntime k = Some n →
  kmoves s1 k (release_reporting ctx) (tears false s1 k).
Proof. intros Hn. destruct Hidle. apply (kmoves_release_reporting s1 k ctx n); try done; [by apply i_attached0|by rewrite Hst]. Qed.

(** Where nothing of the native server is attached, and the container is ended or not. *)
Lemma detached ends k' (message action : string) :
  nixRuntime k = None → nixRuntime k' = None → retainedDataPath k' = retainedDataPath k →
  rt_released k' = rt_released k || ends → message = retentionSummary k action →
  tears ends s1 k (Ok message) k' (put_ended s1 (if ends then S (l_ended s) else l_ended s)).
Proof.
  intros Hn Hn' Hp Hr ->. split_and!; [|done|].
  - eexists (l_native s), _. split_and!; [apply settles_refl, Hidle|done|done|]. by rewrite Hn'.
  - intros m [= <-]. split_and!; [done|by rewrite Hn|by destruct ends| |by exists action].
    by rewrite Hr, Hn, orb_false_r.
Qed.
Lemma detached_err ends n k' (e : error) :
  nixRuntime k = None → nixRuntime k' = None → retainedDataPath k' = retainedDataPath k →
  tears ends s1 k (Err e) k' (put_ended s1 n).
Proof.
  intros Hn Hn' Hp. split_and!; [|done|done].
  exists (l_native s), n. split_and!; [apply settles_refl, Hidle|done|done|]. by rewrite Hn'.
Qed.

Lemma kmoves_Stop ctx : kmoves s k (Stop settings ctx) (torn_down (stops_container k) s k).
Proof.
  apply kmoves_teardown. unfold stops_container. destruct (nixRuntime k) as [n|] eqn:Hn.
  - rewrite (bool_decide_eq_false_2 (Some n = None)), andb_false_r by done. cbn [andb].
    by eapply kmoves_release_here.
  - rewrite bool_decide_eq_true_2, andb_true_r by done. rewrite bool_decide_eq_false_2 by by intros [? ?].
    cbn [negb andb]. destruct (KeepRunning settings && negb (rt_nix k)); rewrite ?andb_false_r, ?andb_true_r.
    { apply kmoves_getting, kmoves_ret. by apply (detached false k _ "kept postgres running for reuse"); [..|rewrite orb_false_r|]. }
    destruct (runnerEnvironment k) eqn:Hrun.
    2: { apply kmoves_getting, kmoves_ret. by apply (detached false k _ "no postgres owned by this invocation"); [..|rewrite orb_false_r|]. }
    eapply kmoves_lifting; [by apply moves_stopContainer| |intros e s' ->; by apply detached_err].
    intros [] s' ->. apply kmoves_modifying, kmoves_getting, kmoves_ret.
    by apply (detached true _ _ "stopped postgres container"); [..|rewrite orb_true_r|].
Qed.

Lemma kmoves_Destroy ctx :
  kmoves s k (Destroy settings UniqueWithWorkspace NewDockerImage image ctx) (torn_down (removes_container k) s k).
Proof.
  apply kmoves_teardown. unfold removes_container. destruct (nixRuntime k) as [n|] eqn:Hn; [by eapply kmoves_release_here|].
  rewrite bool_decide_eq_false_2 by by intros [? ?]. cbn [negb andb]. destruct (rt_nix k); cbn [negb].
  { apply kmoves_getting, kmoves_ret. by apply (detached false k _ "native postgres already stopped"); [..|rewrite orb_false_r|]. }
  eapply kmoves_bind with (P := λ r k' s', k' = k ∧ s' = s1).
  { destruct (runnerEnvironment k); [by apply kmoves_ret|]. by apply kmoves_lift, moves_request; [|intros ?]. }
  - intros [] k' s' [-> ->]. eapply kmoves_lifting; [by apply moves_ending; [by exists ctx; right|..]| |].
    + intros [] s' ->. apply kmoves_modifying, kmoves_getting, kmoves_ret.
      by apply (detached true _ _ "removed postgres container"); [..|rewrite orb_true_r|].
    + intros e s' ->. by apply detached_err.
  - intros e k' s' [-> ->]. by apply (detached_err _ (l_ended s1)).
Qed.
End teardown.
End safety.

(** ** Every operation, in any order *)

Section lifecycle.
Context {fs : FileSystem} {u : Unicode} `{!Clock (trace rtcall)} {host : RuntimeHost}.
Context (settings : Settings) (location own_dir Unique UniqueWithWorkspace WorkspacePath NamingScope : string).
Context (RuntimeContextFromInstance : NetworkInstance → string) (instance_port : NetworkInstance → Z).
Context (NewDockerImage : string → option DockerImage) (image : runtimeImage).
#[local] Abbreviation lstep := (lstep settings).

(** The requests an agent serves, one after another. *)
Inductive rpc :=
  | Initialise (ctx : Context) (req : InitRequest)
  | Begin (ctx : Context)
  | Changed (path : string)
  | Halt (ctx : Context)
  | Tear (ctx : Context).

Definition perform (o : rpc) : keeping rtcall Runtime unit :=
  match o with
  | Initialise ctx req => Init settings location own_dir Unique UniqueWithWorkspace WorkspacePath NamingScope
                            RuntimeContextFromInstance instance_port NewDockerImage image ctx req
  | Begin ctx => k ← k_get; lift_io (Start settings location own_dir k ctx)
  | Changed path => k ← k_get; lift_io (EventHandler settings location own_dir k path)
  | Halt ctx => _ ← Stop settings ctx; mret tt
  | Tear ctx => _ ← Destroy settings UniqueWithWorkspace NewDockerImage image ctx; mret tt
  end.
(** A request that fails is answered so, and the next one is served. *)
Fixpoint perform_all (ops : list rpc) : keeping rtcall Runtime unit :=
  match ops with
  | [] => mret tt
  | o :: ops => _ ← k_try (perform o); perform_all ops
  end.

Definition stage_of (o : rpc) : stage :=
  match o with
  | Initialise _ _ | Begin _ => Setup
  | Changed path => Hot (forward_change settings migrate_version location own_dir path)
  | Halt _ | Tear _ => Teardown
  end.
(** Only [Init] may set a cluster up. *)
Definition left_alone : target := {| t_service := ""; t_database := ""; t_owner := ""; t_password := ""; t_root := None; t_dsn := None;
  t_setup := false |}.
Definition target_of (o : rpc) : target :=
  match o with Initialise _ req => Init_target settings Unique WorkspacePath NamingScope req | _ => left_alone end.
Definition allowed_by (o : rpc) : life → rtcall → Prop := lallowed (target_of o) (stage_of o).
Definition one_allows (ops : list rpc) (s : life) (c : rtcall) : Prop := ∃ o, o ∈ ops ∧ allowed_by o s c.

Lemma idle_at_rest k s s' : idle k s → at_rest s s' → idle k s'.
Proof.
  intros [Hg Ha _ _ _ Hm] [Hn Hm' Hp Hpo Hh]. constructor; [by rewrite Hn| |done|done|done|by rewrite Hm'].
  intros n. rewrite Hn. apply Ha.
Qed.
Lemma idle_settled k s k' s' : idle k s → settled s k' s' → idle k' s'.
Proof.
  intros [_ _ _ _ _ Hm] (v & [Hg _] & [Hn Hm' Hp Hpo Hh] & Ha). cbn [put_native l_native l_mutex] in *.
  constructor; [by rewrite Hn|intros n; rewrite Hn; apply Ha|done|done|done|by rewrite Hm'].
Qed.
Lemma idle_torn_down k s ends r k' s' : idle k s → torn_down ends s k r k' s' → idle k' s'.
Proof. intros [_ _ Hh Hp Hpo Hm] [(v & n & [Hg _] & -> & _ & Ha) _]. by constructor. Qed.

Lemma kmoves_perform o k s :
  idle k s → kmoves lstep (allowed_by o) s k (perform o) (λ _ k' s', idle k' s').
Proof.
  intros Hi. pose proof Hi as [Hg Ha Hh Hp Hpo Hm]. destruct o as [ctx req|ctx|path|ctx|ctx]; cbn [perform].
  - eapply kmoves_mono; [by apply kmoves_Init|]. intros r k' s' [Hs _]. by eapply idle_settled.
  - apply kmoves_getting, kmoves_lift. eapply moves_mono; [by apply moves_Start|]. intros r s' [Hr _]. by eapply idle_at_rest.
  - apply kmoves_getting, kmoves_lift. eapply moves_mono; [by apply moves_EventHandler|]. intros r s' Hr. by eapply idle_at_rest.
  - eapply kmoves_bind; [by apply kmoves_Stop| |].
    + intros a k' s' Ht. apply kmoves_ret. by eapply idle_torn_down.
    + intros e k' s' Ht. by eapply idle_torn_down.
  - eapply kmoves_bind; [by apply kmoves_Destroy| |].
    + intros a k' s' Ht. apply kmoves_ret. by eapply idle_torn_down.
    + intros e k' s' Ht. by eapply idle_torn_down.
Qed.

Lemma kmoves_perform_all all ops k s :
  ops ⊆ all → idle k s → kmoves lstep (one_allows all) s k (perform_all ops) (λ _ k' s', idle k' s').
Proof.
  revert k s. induction ops as [|o ops IH]; intros k s Hall Hi; cbn [perform_all]; [by apply kmoves_ret|].
  eapply kmoves_bind with (P := λ r k' s', is_ok r = true ∧ idle k' s').
  - apply kmoves_try. eapply kmoves_mono; [eapply moves_weaken; [|by apply kmoves_perform]|done].
    intros s0 c Hc. exists o. split; [apply Hall; by left|done].
  - intros r k' s' [_ Hi']. apply IH; [|done]. intros x Hx. apply Hall. by right.
  - by intros e k' s' [? _].
Qed.

Definition fresh : life := Life (apart [] []) (free []) false false false false [] None false false false 0%nat 0%nat 0%nat.

Lemma fresh_idle : idle NewRuntime fresh.
Proof. constructor; try done. by exists []. Qed.
End lifecycle.

(** ** The properties *)

Section properties.
Context {fs : FileSystem} {u : Unicode} `{!Clock (trace rtcall)} {host : RuntimeHost}.
Context (settings : Settings) (location own_dir Unique UniqueWithWorkspace WorkspacePath NamingScope : string).
Context (RuntimeContextFromInstance : NetworkInstance → string) (instance_port : NetworkInstance → Z).
Context (NewDockerImage : string → option DockerImage) (image : runtimeImage).

(** C6: Starting keeps the control-plane protocol and leaves the runtime as it found it:
    the wait comes first, then the extensions, the lineages and the grants; these and
    the watcher are under the control plane, which is taken at most once and so not given
    up between them; the control plane and every pool are given up whatever fails.  It
    succeeds only where this invocation has not been stopped, and then the control plane
    was taken exactly once, the schema has moved by exactly the resolved extensions and
    lineages, the grants were reconciled after the last of them, and the start was
    committed, after which, and once, the run's server is supervised where it is used. *)
Theorem Start_protocol t k s ctx :
  idle k s →
  moves (lstep settings) (lallowed t Setup) s (Start settings location own_dir k ctx) (λ r s', idle k s' ∧ (l_holds s' ≤ S (l_holds s))%nat ∧
    (r = Ok tt → rt_released k = false ∧
       (∃ p, resolveSchemaPrerequisites location own_dir settings = Ok p ∧ brought settings p s s') ∧
       l_committed s' = true ∧
       l_supervised s' = (if nixRuntime k then S (l_supervised s) else l_supervised s))).
Proof.
  intros Hi. pose proof Hi as [_ _ ? ? ? _]. eapply moves_mono; [by apply moves_Start|]. intros r s' [Hr Hok].
  split; [by eapply idle_at_rest|]. by split; [apply Hr|].
Qed.

(** C10: Initialising keeps the protocol, on a container and on the run's server alike:
    nothing of the schema or the grants is touched before the wait ended with an
    answer, the server asked is this workspace's and only for this service's own database
    and owner, and a success has brought the schema and then the grants up under one hold
    of the control plane.  A refused service holds no server of this call: what was
    attached before stays, or nothing is attached, and no holder's record is on the host
    that was not there before; unless releasing failed, and then the error says so. *)
Theorem Init_protocol k s ctx req :
  idle k s →
  kmoves (lstep settings) (lallowed (Init_target settings Unique WorkspacePath NamingScope req) Setup) s k
    (Init settings location own_dir Unique UniqueWithWorkspace WorkspacePath NamingScope RuntimeContextFromInstance
       instance_port NewDockerImage image ctx req) (λ r k' s', idle k' s' ∧
    match r with
    | Ok _ => (∃ p, resolveSchemaPrerequisites location own_dir settings = Ok p ∧ brought settings p s s') ∧
              (rq_native req = true → is_Some (nixRuntime k'))
    | Err e => backed_out k s e k' s'
    end).
Proof.
  intros Hi. eapply kmoves_mono; [by apply kmoves_Init|]. intros r k' s' [Hs Hr]. split; [by eapply idle_settled|done].
Qed.


(** C5: Whatever requests a runtime serves, one after another and from the first on, in
    whatever order and whichever of them fail: each call it makes is one that some of
    these requests allow where it is made, and after them nothing is held: no lock, no
    pool, no session, no half-open lineage, and an attachment only to a server that may
    be released.  So a saved migration runs forward, under the control plane, only what
    hot reload permits, and no lock is ever taken twice. *)
Theorem lifecycle_invariant ops :
  kmoves (lstep settings)
    (one_allows settings location own_dir Unique WorkspacePath NamingScope ops) fresh NewRuntime
    (perform_all settings location own_dir Unique UniqueWithWorkspace WorkspacePath NamingScope RuntimeContextFromInstance
       instance_port NewDockerImage image ops) (λ _ k s, idle k s).
Proof. apply kmoves_perform_all; [done|apply fresh_idle]. Qed.
End properties.

(** ** A host on which everything answers *)

Definition up_native : NixHost := {|
  servers_dir := Ok "/r"; flake_nix := ""; flake_lock := ""; getpid := 40; getppid := 1;
  Unmarshal_record s := if bool_decide (s = "record") then Some server_record else None;
  Marshal_record _ := Ok "record"; Unmarshal_holder _ := None; Marshal_holder _ := Ok "holder";
  does _ _ := Ok tt; locks _ _ := Ok true;
  reads _ p := match p with
               | Under _ ["postmaster.json"] => Ok "record"
               | Under _ ["admin.password"] => Ok "pw"
               | _ => Err (ENew ErrNotExist [])
               end;
  lists _ _ := Ok []; temp_name _ _ := Ok "tmp"; random _ := Ok "";
  inspects tr _ := if existsb signalled tr then Err (ENew ErrProcessNotFound [])
                   else Ok {| Id_StartID := 7; Id_BootID := "boot"; Executable := "postgres" |};
  stats _ _ := true; globs _ := Ok []; query_claim _ _ := Err (ENew ErrNoRows []);
  query_owner _ _ := Ok (false, false);
|}.
Definition up_host : RuntimeHost := {|
  answers _ _ := Ok tt; tails _ := Ok ""; mounts _ := Ok "/data"; native_host := up_native;
  migrate _ _ := Ok tt; migrate_version _ _ := Ok (1, false); dirty_version _ := None;
|}.
Definition still : Clock (trace rtcall) := {| clock _ := 0; cancelled _ _ := false |}.
Definition some_image : runtimeImage := {| ri_Platforms := []; ri_image := {| img_name := "postgres"; img_tag := "17"; img_digest := "" |} |}.
Definition up_settings : Settings := default_settings "app".
Definition up_instance : NetworkInstance := {| Address := "localhost:5432"; Access := "native" |}.
Definition native_request : InitRequest :=
  {| rq_native := true; rq_get := configured_get; rq_instances := Ok (Some [up_instance]); rq_instance := Ok (Some up_instance) |}.
Definition up_perform (o : rpc) : keeping rtcall Runtime unit :=
  perform (fs := no_files) (u := ascii_unicode) (Clock0 := still) (host := up_host) up_settings "/svc" "/svc/migrations" "mod/store"
    "ws-mod-store" "/ws" "" Access (λ _, 5432) (λ name, Some {| img_name := name; img_tag := ""; img_digest := "" |}) some_image o.
(** The service once initialised. *)
Definition up_runtime : Runtime :=
  match (up_perform (Initialise Background native_request) NewRuntime []).1 with Ok (_, k) => k | Err _ => NewRuntime end.

(** The attachment [up_runtime] holds, and the protocol's state that goes with it. *)
Definition up_server : nixPostgres :=
  {| root := "/r/298338997453f4d4"; dataDir := Under "/r/298338997453f4d4" ["pgdata"]; socketDir := "/tmp/cfpg-00112233-1";
     adminPassword := "pw"; holder := Some (Under "/r/298338997453f4d4" ["holders"; "f8a01aa0e8779e4a.json"]);
     forwarder := true; watching := Some {| PID := 41; StartID := 7; BootID := "boot" |} |}.
Definition up_life : life :=
  Life (apart [Under "/r/298338997453f4d4" ["holders"; "f8a01aa0e8779e4a.json"]]
          [Under "/r/298338997453f4d4" ["holders"; "f8a01aa0e8779e4a.json"]]) (free []) false false false false
    [] None false true false 1%nat 0%nat 0%nat.
Lemma up_idle : idle up_runtime up_life.
Proof.
  constructor; [by split| |by exists []|reflexivity..].
  assert (E : nixRuntime up_runtime = Some up_server) by (vm_compute; reflexivity).
  intros n Hn. rewrite E in Hn. injection Hn as <-. split; [done|split; [done|]].
  intros p [= <-]. split; [by left|by exists "f8a01aa0e8779e4a.json"].
Qed.

(** A service initialised on the run's server, started, and stopped. *)
Lemma Init_protocol_witness :
  kmoves (lstep (host := up_host) up_settings) (lallowed (Init_target (u := ascii_unicode) (host := up_host) up_settings "mod/store" "/ws" "" native_request) Setup)
    fresh NewRuntime (up_perform (Initialise Background native_request)) (λ r k' s', idle k' s' ∧
      match r with
      | Ok _ => (∃ p, resolveSchemaPrerequisites (fs := no_files) "/svc" "/svc/migrations" up_settings = Ok p ∧ brought up_settings p fresh s') ∧
              (rq_native native_request = true → is_Some (nixRuntime k'))
      | Err e => backed_out NewRuntime fresh e k' s'
      end) ∧
  nixRuntime up_runtime = Some up_server.
Proof.
  split; [|vm_compute; reflexivity].
  apply (Init_protocol (fs := no_files) (u := ascii_unicode) (Clock0 := still) (host := up_host)). apply fresh_idle.
Defined.

Lemma Start_protocol_witness :
  moves (lstep (host := up_host) up_settings) (lallowed left_alone Setup) up_life
    (Start (fs := no_files) (Clock0 := still) (host := up_host) up_settings "/svc" "/svc/migrations" up_runtime Background)
    (λ r s', idle up_runtime s' ∧ (l_holds s' ≤ 2)%nat ∧ (r = Ok tt → rt_released up_runtime = false ∧
       (∃ p, resolveSchemaPrerequisites (fs := no_files) "/svc" "/svc/migrations" up_settings = Ok p ∧
         brought up_settings p up_life s') ∧ l_committed s' = true ∧
       l_supervised s' = (if nixRuntime up_runtime then 1 else 0)%nat)) ∧
  (Start (fs := no_files) (Clock0 := still) (host := up_host) up_settings "/svc" "/svc/migrations" up_runtime Background []).1 = Ok tt.
Proof.
  split; [|vm_compute; reflexivity].
  apply (Start_protocol (fs := no_files) (Clock0 := still) (host := up_host)). apply up_idle.
Defined.

