(* ===== verification/RuntimeWait.v ===== *)
(** Waiting for the database ([WaitForReady] of [runtime.go]): the wait reaches a
    database that comes up in time. *)
From S2P Require Import Prelude GoStrings Images Traces Timeouts Settings Url Json Config Net Connections NixHost NixServer NixSafety Migrations Runtime.


Section waiting.
Context `{!Clock (trace rtcall)} {host : RuntimeHost}.
Context (settings : Settings).

Definition ticked (e : rtcall * bool) : Z := match e with (Tick _, true) => 1 | _ => 0 end.
Definition ticks (tr : trace rtcall) : Z := foldr (λ e n, ticked e + n) 0 tr.
Lemma ticks_app a b : ticks (a ++ b) = ticks a + ticks b.
Proof. induction a as [|e a IH]; [done|]. cbn [app]. unfold ticks in *. cbn [foldr]. rewrite IH. lia. Qed.

(** A database that answers every probe from the time [T] on, probes that take at most
    [C], and a ticker, started when the wait was, that fires within an interval, once
    per interval, and gives way to the deadline only once that has passed. *)
Record comes_up (deadline : Context) (end_ T C : Z) (tr0 : trace rtcall) : Prop := {
  u_time : ∀ tr new, clock tr ≤ clock (W := trace rtcall) (tr ++ new);
  u_up : ∀ tr c, T ≤ clock tr → c ∈ [DbPing deadline; SelectOne deadline; Answered deadline] → answers tr c = Ok tt;
  u_probe : ∀ tr, clock (probeReady deadline tr).2 ≤ clock tr + C;
  u_tick : ∀ tr, clock (tr ++ [(Tick deadline, is_ok (answers tr (Tick deadline)))]) ≤ clock tr + readinessProbeInterval;
  u_done : ∀ tr e, answers tr (Tick deadline) = Err e → end_ ≤ clock (W := trace rtcall) (tr ++ [(Tick deadline, false)]);
  u_pace : ∀ new, clock tr0 + readinessProbeInterval * ticks new ≤ clock (W := trace rtcall) (tr0 ++ new);
}.

Lemma probe_extends deadline tr : ∃ new, (probeReady deadline tr).2 = tr ++ new ∧ ticks new = 0.
Proof.
  unfold probeReady, io_try, mbind, io_bind, request, call.
  destruct (answers tr (DbPing deadline)) as [[]|e1].
  - destruct (answers _ (SelectOne deadline)) as [[]|e2], (answers _ (Answered deadline)) as [[]|e3]; cbn;
      rewrite <-!app_assoc; eexists; split; try reflexivity; done.
  - destruct (answers _ (Answered deadline)) as [[]|e3]; cbn; rewrite <-!app_assoc; eexists; split; try reflexivity; done.
Qed.

Lemma probe_up deadline end_ T C tr0 tr :
  comes_up deadline end_ T C tr0 → T ≤ clock tr → (probeReady deadline tr).1 = Ok tt.
Proof.
  intros [Ht Hu _ _ _ _] HT. unfold probeReady, io_try, mbind, io_bind, request, call.
  rewrite (Hu tr (DbPing deadline)) by (done || by left). cbn [is_ok].
  set (tr1 := tr ++ _). assert (H1 : T ≤ clock tr1) by (etrans; [exact HT|apply Ht]).
  rewrite (Hu tr1 (SelectOne deadline)) by (done || by right; left). cbn [is_ok].
  set (tr2 := tr1 ++ _). assert (H2 : T ≤ clock tr2) by (etrans; [exact H1|apply Ht]).
  by rewrite (Hu tr2 (Answered deadline)) by (done || by right; right; left).
Qed.

Lemma wait_ready_S fuel k deadline last tr :
  (wait_ready (S fuel) k deadline last tr).1 =
  match probeReady deadline tr with
  | (Ok _, _) => Ok (Some tt)
  | (Err e, tr1) =>
    match answers tr1 (Tick deadline) with
    | Ok _ => (wait_ready fuel k deadline (database_side e last) (tr1 ++ [(Tick deadline, true)])).1
    | Err ended => ((_ ← readinessFailure k ended (database_side e last); mret (Some tt)) (tr1 ++ [(Tick deadline, false)])).1
    end
  end.
Proof.
  cbn [wait_ready]. unfold mbind, io_bind, io_try. destruct (probeReady deadline tr) as [[[]|e] tr1]; [done|].
  unfold request, call. by destruct (answers tr1 (Tick deadline)) as [[]|].
Qed.

Lemma wait_ready_reaches deadline end_ T C tr0 k fuel last new :
  comes_up deadline end_ T C tr0 → T + C + readinessProbeInterval ≤ end_ →
  end_ ≤ clock tr0 + readiness (STimeouts settings) →
  readiness (STimeouts settings) < readinessProbeInterval * (ticks new + Z.of_nat fuel) →
  (fuel = 0%nat → clock (W := trace rtcall) (tr0 ++ new) < end_) →
  (wait_ready fuel k deadline last (tr0 ++ new)).1 = Ok (Some tt).
Proof.
  intros Hup Hend Hlate. revert last new. induction fuel as [|fuel IH]; intros last new Hf Hz.
  - exfalso. specialize (Hz eq_refl). pose proof (u_pace _ _ _ _ _ Hup new). nia.
  - rewrite wait_ready_S. destruct (probe_extends deadline (tr0 ++ new)) as (n1 & E1 & Hn1).
    pose proof (u_probe _ _ _ _ _ Hup (tr0 ++ new)) as Hc.
    destruct (Z.le_gt_cases T (clock (W := trace rtcall) (tr0 ++ new))) as [HT|HT].
    + pose proof (probe_up _ _ _ _ _ _ Hup HT) as Hok. destruct (probeReady deadline (tr0 ++ new)) as [r tr1].
      cbn [fst] in Hok. by rewrite Hok.
    + destruct (probeReady deadline (tr0 ++ new)) as [[[]|e] tr1]; [done|]. cbn [fst snd] in *. subst tr1.
      pose proof (u_tick _ _ _ _ _ Hup ((tr0 ++ new) ++ n1)) as Ht. pose proof (u_done _ _ _ _ _ Hup ((tr0 ++ new) ++ n1)) as Hd.
      destruct (answers _ (Tick deadline)) as [[]|ended]; cbn [is_ok] in Ht.
      * assert (E : ticks (new ++ n1 ++ [(Tick deadline, true)]) + Z.of_nat fuel = ticks new + Z.of_nat (S fuel)).
        { rewrite !ticks_app, Hn1. change (ticks [(Tick deadline, true)]) with 1. lia. }
        assert (Ea : ((tr0 ++ new) ++ n1) ++ [(Tick deadline, true)] = tr0 ++ (new ++ n1 ++ [(Tick deadline, true)])).
        { by rewrite !(app_assoc (A := rtcall * bool)). }
        rewrite Ea in Ht |- *. apply IH; [by rewrite E|]. intros _. eapply Z.le_lt_trans; [exact Ht|].
        eapply Z.le_lt_trans; [apply Z.add_le_mono_r, Hc|]. unfold trace in *. lia.
      * specialize (Hd ended eq_refl). exfalso. cbn [is_ok] in Ht. apply (Z.lt_irrefl end_).
        eapply Z.le_lt_trans; [exact Hd|]. eapply Z.le_lt_trans; [exact Ht|].
        eapply Z.le_lt_trans; [apply Z.add_le_mono_r, Hc|]. unfold trace in *. lia.
Qed.

(** C30: The wait for the database ends with it: whenever the database answers probes
    from some time on, and that time leaves one more probe and one more interval
    before the budget or the caller's deadline runs out, [WaitForReady] succeeds,
    however long the database refused before and however its refusals looked. *)
Theorem WaitForReady_reaches k ctx tr T C :
  let tr0 := tr ++ [(DbOpen (connection k), true)] in
  let deadline := WithTimeout ctx (readiness (STimeouts settings)) tr0 in
  answers tr (DbOpen (connection k)) = Ok tt →
  comes_up deadline (default 0 (ctx_deadline deadline)) T C tr0 →
  T + C + readinessProbeInterval ≤ default 0 (ctx_deadline deadline) →
  (WaitForReady settings k ctx tr).1 = Ok tt.
Proof.
  intros tr0 deadline Ho Hup Hend.
  unfold WaitForReady, with_pool, mbind, io_bind, io_wrap, request, call. rewrite Ho. cbn [wrap_err is_ok]. fold tr0.
  unfold io_finally, io_defer, io_get, forget, mbind, io_bind, io_try, request, call. fold deadline.
  set (tr1 := tr0 ++ [(NewTicker, _)]).
  assert (Hw : (wait_ready (probes settings) k deadline None tr1).1 = Ok (Some tt)).
  { apply (wait_ready_reaches deadline (default 0 (ctx_deadline deadline)) T C tr0 k (probes settings) None [(NewTicker, _)] Hup Hend).
    - unfold deadline, WithTimeout. cbn [ctx_deadline default from_option id]. destruct (ctx_deadline ctx); [apply Z.le_min_l|done].
    - assert (0 < readinessProbeInterval) by (by vm_compute).
      eapply Z.lt_le_trans; [by apply Z.mul_succ_div_gt|]. apply Z.mul_le_mono_nonneg_l; [lia|].
      unfold ticks, probes. cbn [foldr ticked]. lia.
    - unfold probes. lia. }
  unfold mret, io_ret. cbv beta iota zeta. change (WithTimeout ctx (readiness (STimeouts settings)) tr0) with deadline.
  destruct (wait_ready (probes settings) k deadline None tr1) as [r tr2]. cbn [fst] in Hw. by subst r.
Qed.
End waiting.

(** A server that answers from the seventh second on, probed each third second. *)
Definition beats (tr : trace rtcall) : Z := readinessProbeInterval * ticks tr.
Definition beat_clock : Clock (trace rtcall) := {| clock := beats; cancelled _ _ := false |}.
Definition late_host : RuntimeHost := {|
  answers tr c := match c with
                  | DbPing _ => guard_err (beats tr <? 7 * Second) (ENew "connection refused" [])
                  | Tick deadline => match ctx_deadline deadline with
                                     | Some d => guard_err (d <=? beats tr) (ENew DeadlineExceeded [])
                                     | None => Ok tt
                                     end
                  | _ => Ok tt
                  end;
  tails _ := Ok ""; mounts _ := Ok "/data"; native_host := stopping_host;
  migrate _ _ := Ok tt; migrate_version _ _ := Ok (1, false); dirty_version _ := None;
|}.
Lemma beats_app a b : beats (a ++ b) = beats a + beats b.
Proof. unfold beats. rewrite ticks_app. lia. Qed.
Lemma beats_nonneg tr : 0 ≤ beats tr.
Proof.
  unfold beats. apply Z.mul_nonneg_nonneg; [by vm_compute|]. induction tr as [|[c b] tr IH]; [done|].
  change (ticks ((c, b) :: tr)) with (ticked (c, b) + ticks tr). assert (0 ≤ ticked (c, b)) by (destruct c, b; cbn; lia). lia.
Qed.

Lemma late_comes_up d tr0 :
  comes_up (Clock0 := beat_clock) (host := late_host) {| ctx_deadline := Some d; ctx_workload := None |} d (7 * Second) 0 tr0.
Proof.
  constructor; cbn [clock beat_clock].
  - intros tr new. rewrite beats_app. pose proof (beats_nonneg new). lia.
  - intros tr c HT Hc. assert (Hp : beats tr <? 7 * Second = false) by (by apply Z.ltb_ge).
    by apply elem_of_cons in Hc as [->|[->|[->|[]%not_elem_of_nil]%elem_of_cons]%elem_of_cons]; cbn; rewrite ?Hp.
  - intros tr. destruct (probe_extends (host := late_host) {| ctx_deadline := Some d; ctx_workload := None |} tr) as (new & -> & Hn).
    rewrite beats_app. unfold beats at 2. rewrite Hn, Z.mul_0_r. done.
  - intros tr. rewrite beats_app. apply Z.add_le_mono_l. by destruct (is_ok _).
  - intros tr e. cbn [answers late_host ctx_deadline]. rewrite beats_app. unfold guard_err.
    destruct (Z.leb_spec d (beats tr)); [|done]. intros _.
    rewrite <-(Z.add_0_r d). apply Z.add_le_mono; [done|apply beats_nonneg].
  - intros new. rewrite beats_app. unfold beats. lia.
Qed.

Lemma WaitForReady_reaches_witness :
  (WaitForReady (Clock0 := beat_clock) (host := late_host) (default_settings "app") NewRuntime Background []).1 = Ok tt
  ∧ ticks (WaitForReady (Clock0 := beat_clock) (host := late_host) (default_settings "app") NewRuntime Background []).2 = 3.
Proof.
  split; [|vm_compute; reflexivity].
  apply (WaitForReady_reaches (Clock0 := beat_clock) (host := late_host) (default_settings "app") NewRuntime Background [] (7 * Second) 0).
  - reflexivity.
  - apply late_comes_up.
  - by vm_compute.
Defined.
