(* ===== verification/HostIPC.v ===== *)
(** Collecting the System V resources an interrupted postmaster leaves on macOS
    ([hostipc_darwin.go] and [hostipc.go]): reading the host's tables, planning which
    segments and semaphore sets are orphans, removing them in batches, and judging
    what happened by reading the tables again. *)
From Stdlib Require Import Sorted.
From stdpp Require Import sorting.
From S2P Require Import Prelude GoStrings Traces Json Config NixHost.

(** ** Reading the tables *)

(** [strings.Fields] *)
Fixpoint fields_fuel (fuel : nat) (l : list ascii) : list string :=
  match fuel with
  | O => []
  | S fuel =>
    match trim_left_bytes l with
    | [] => []
    | l => let f := to_space l in of_bytes f :: fields_fuel fuel (drop (length f) l)
    end
  end.
Definition Fields (s : string) : list string := fields_fuel (length (bytes s)) (bytes s).

(** The lines [bufio.Scanner] gives, and the longest it can hold. *)
Definition drop_cr (l : string) : string := trim_suffix l (of_bytes [chr 13]).
Definition scan_lines (s : string) : list string :=
  let lines := split_on (chr 10) s in
  if bool_decide (last lines = Some "") then take (length lines - 1) lines else lines.
Definition maxTokenSize : Z := 64 * 1024.

(** [strconv.ParseUint(s, 0, 64)] *)
Definition lower_ascii (c : ascii) : Z := if is_upper (code c) then code c + 32 else code c.
Definition base_of (l : list ascii) : Z * list ascii :=
  match l with
  | z :: c :: (_ :: _) as l' =>
    if decide (z = "0"%char) then
      if lower_ascii c =? 98 then (2, drop 2 l) else if lower_ascii c =? 111 then (8, drop 2 l)
      else if lower_ascii c =? 120 then (16, drop 2 l) else (8, drop 1 l)
    else (10, l)
  | z :: _ => if decide (z = "0"%char) then (8, drop 1 l) else (10, l)
  | [] => (10, l)
  end.
Definition digit_of (c : ascii) : option Z :=
  if is_digit (code c) then Some (code c - 48)
  else if is_lower (lower_ascii c) then Some (lower_ascii c - 87) else None.
(** The digits' value; underscores are passed over. *)
Fixpoint digits_in (base acc : Z) (l : list ascii) : option Z :=
  match l with
  | [] => Some acc
  | c :: l =>
    if decide (c = "_"%char) then digits_in base acc l
    else d ← digit_of c;
         if (d <? base) && (acc * base + d <? 2 ^ 64) then digits_in base (acc * base + d) l else None
  end.
(** Underscores only separate digits, or follow the base's prefix. *)
Fixpoint underscores_ok (hex : bool) (seen : Z) (l : list ascii) : bool :=
  match l with
  | [] => negb (seen =? 95)
  | c :: l =>
    if is_digit (code c) || hex && in_range 97 102 (lower_ascii c) then underscores_ok hex 48 l
    else if decide (c = "_"%char) then (seen =? 48) && underscores_ok hex 95 l
    else negb (seen =? 95) && underscores_ok hex 33 l
  end.
Definition underscoreOK (l : list ascii) : bool :=
  match l with
  | z :: c :: l' =>
    if bool_decide (z = "0"%char) && existsb (Z.eqb (lower_ascii c)) [98; 111; 120]
    then underscores_ok (lower_ascii c =? 120) 48 l' else underscores_ok false 94 l
  | _ => underscores_ok false 94 l
  end.
Definition ParseUint0 (s : string) : option Z :=
  if bool_decide (s = "") then None else
  let '(base, digits) := base_of (bytes s) in
  v ← digits_in base 0 digits;
  if bool_decide ("_"%char ∈ bytes s) && negb (underscoreOK (bytes s)) then None else Some v.

Record postgresSharedMemoryRow := {
  sh_id : Z; sh_key : Z; sh_owner : string; sh_attachments : Z; sh_size : Z; sh_creatorPID : Z;
}.
Record postgresSemaphoreRow := {
  se_id : Z; se_key : Z; se_mode : string; se_owner : string; se_semaphores : Z; se_createdAt : string;
}.
#[export] Instance semaphore_eq_dec : EqDecision postgresSemaphoreRow.
Proof. solve_decision. Defined.

Definition field (fields : list string) (i : nat) : string := default "" (fields !! i).
Definition skip_row (kind : string) (fields : list string) : bool :=
  (length fields <? 11)%nat || negb (bool_decide (field fields 0 = kind)).

(** One iteration of the scanning loops: a row, a line to pass over, or a line that
    does not parse. *)
Definition shared_row (line : string) : result (option postgresSharedMemoryRow) :=
  let fields := Fields line in
  if skip_row "m" fields then Ok None else
  match Atoi (field fields 1), ParseUint0 (field fields 2), Atoi (field fields 8), Atoi (field fields 9), Atoi (field fields 10) with
  | Some id, Some key, Some attachments, Some size, Some creator =>
    Ok (Some {| sh_id := id; sh_key := key; sh_owner := field fields 4; sh_attachments := attachments; sh_size := size;
                sh_creatorPID := creator |})
  | _, _, _, _, _ => Err (ENew "parse System V shared-memory row %q" [line])
  end.
Definition semaphore_row (line : string) : result (option postgresSemaphoreRow) :=
  let fields := Fields line in
  if skip_row "s" fields then Ok None else
  match Atoi (field fields 1), ParseUint0 (field fields 2), Atoi (field fields 8) with
  | Some id, Some key, Some semaphores =>
    Ok (Some {| se_id := id; se_key := key; se_mode := field fields 3; se_owner := field fields 4; se_semaphores := semaphores;
                se_createdAt := field fields 10 |})
  | _, _, _ => Err (ENew "parse System V semaphore row %q" [line])
  end.
Definition scan_row {A} (message : string) (row : string → result (option A)) (rows : list A) (line : string) : result (list A) :=
  _ ← guard_err (maxTokenSize <=? len line) (EWrap message [] (ENew "bufio.Scanner: token too long" []));
  r ← row (drop_cr line);
  Ok (match r with Some x => rows ++ [x] | None => rows end).
Definition parsePostgresSharedMemoryRows (output : string) : result (list postgresSharedMemoryRow) :=
  fold_result (scan_row "scan System V shared-memory table: %w" shared_row) [] (scan_lines output).
Definition parsePostgresSemaphoreRows (output : string) : result (list postgresSemaphoreRow) :=
  fold_result (scan_row "scan System V semaphore table: %w" semaphore_row) [] (scan_lines output).

(** ** The plan *)

Definition postgresDarwinControlSegmentBytes : Z := 56.
Definition postgresDarwinSemaphoresPerSet : Z := 20.
Definition postgresDarwinSemaphoreKeySpan : Z := 1024.
Definition postgresIPCRemovalBatchSize : nat := 256.

(** [sort.Slice] and [sort.Ints] by a key; equal keys keep their order here. *)
Section sorting.
Context {A : Type} (key : A → Z).
Fixpoint insert_row (x : A) (l : list A) : list A :=
  match l with
  | [] => [x]
  | y :: l => if key x <? key y then x :: y :: l else y :: insert_row x l
  end.
Definition sort_by (l : list A) : list A := foldl (λ sorted x, insert_row x sorted) [] l.
End sorting.

(** Split into the longest segments whose next row [ext]ends the first and the last. *)
Fixpoint segments {A} (ext : A → A → A → bool) (run : list A) (l : list A) : list (list A) :=
  match l with
  | [] => match run with [] => [] | _ => [run] end
  | x :: l =>
    match run with
    | [] => segments ext [x] l
    | first :: _ => if ext first (default first (last run)) x then segments ext (run ++ [x]) l else run :: segments ext [x] l
    end
  end.

(** [key + 1] and [key - base] on unsigned 64-bit keys. *)
Definition next_key (a b : postgresSemaphoreRow) : bool := se_key b =? (se_key a + 1) mod 2 ^ 64.
Definition in_span (a b : postgresSemaphoreRow) : bool :=
  (se_key b - se_key a) mod 2 ^ 64 <=? postgresDarwinSemaphoreKeySpan.

Section plan.
Context (username : string) (alive : Z → bool).

Definition control_segment (r : postgresSharedMemoryRow) : bool :=
  bool_decide (sh_owner r = username) && (sh_size r =? postgresDarwinControlSegmentBytes) && (1 <? sh_creatorPID r).
Definition active_segment (r : postgresSharedMemoryRow) : bool := (0 <? sh_attachments r) || alive (sh_creatorPID r).
Definition active_rows (l : list postgresSharedMemoryRow) : list postgresSharedMemoryRow :=
  List.filter (λ r, control_segment r && active_segment r) l.
Definition orphaned_rows (l : list postgresSharedMemoryRow) : list postgresSharedMemoryRow :=
  List.filter (λ r, control_segment r && negb (active_segment r)) l.

Definition candidate (r : postgresSemaphoreRow) : bool :=
  (0 <? se_key r) && bool_decide (se_owner r = username) && bool_decide (se_mode r = "--ra-------")
  && (se_semaphores r =? postgresDarwinSemaphoresPerSet).

Definition belongsToActivePostgres (activeBases : list Z) (r : postgresSemaphoreRow) : bool :=
  existsb (λ base, (base <? se_key r) && ((se_key r - base) mod 2 ^ 64 <=? postgresDarwinSemaphoreKeySpan)) activeBases.
Definition protected (activeBases : list Z) (rows : list postgresSemaphoreRow) : bool :=
  existsb (belongsToActivePostgres activeBases) rows.

Definition same_creation (run : list postgresSemaphoreRow) : bool :=
  match run with
  | [] => false
  | first :: rest => negb (bool_decide (se_createdAt first = "")) && forallb (λ r, bool_decide (se_createdAt r = se_createdAt first)) rest
  end.
Definition orphaned_base (orphanedBases : list Z) (run : list postgresSemaphoreRow) : bool :=
  match run with [] => false | first :: _ => bool_decide ((se_key first - 1) mod 2 ^ 64 ∈ orphanedBases) end.
Definition select_run (activeBases orphanedBases : list Z) (run : list postgresSemaphoreRow) : bool :=
  negb (protected activeBases run) && (orphaned_base orphanedBases run || (2 <=? length run)%nat && same_creation run).
Definition select_cluster (activeBases : list Z) (cluster : list postgresSemaphoreRow) : bool :=
  negb (protected activeBases cluster) && (2 <=? length cluster)%nat.

(** The runs of consecutive keys that are removed. *)
Definition selected_runs (activeBases orphanedBases : list Z) (candidates : list postgresSemaphoreRow) : list (list postgresSemaphoreRow) :=
  List.filter (select_run activeBases orphanedBases) (segments (λ _, next_key) [] candidates).
(** The clusters of what is left, by their creation time. *)
Definition selected_clusters (activeBases : list Z) (left : list postgresSemaphoreRow) : list (list postgresSemaphoreRow) :=
  remove_dups (se_createdAt <$> left) ≫= λ created,
    List.filter (select_cluster activeBases)
      (segments (λ first _, in_span first) [] (sort_by se_key (List.filter (λ r, bool_decide (se_createdAt r = created)) left))).

Definition postgresIPCRemovalPlan (sharedOutput semaphoreOutput : string) : result (list Z * list Z) :=
  sharedRows ← parsePostgresSharedMemoryRows sharedOutput;
  semaphoreRows ← parsePostgresSemaphoreRows semaphoreOutput;
  let activeBases := sh_key <$> active_rows sharedRows in
  let orphaned := orphaned_rows sharedRows in
  let candidates := sort_by se_key (List.filter candidate semaphoreRows) in
  let runs := concat (selected_runs activeBases (sh_key <$> orphaned) candidates) in
  let left := List.filter (λ r, negb (bool_decide (se_id r ∈ se_id <$> runs))) candidates in
  let clusters := concat (selected_clusters activeBases left) in
  Ok (sort_by id (sh_id <$> orphaned), sort_by id (se_id <$> (runs ++ clusters))).
End plan.

(** ** Removing, and judging by what is left *)

Record hostResourceRecovery := { SharedSegments : Z; SemaphoreSets : Z }.
Definition recovery_empty (r : hostResourceRecovery) : bool := (SharedSegments r =? 0) && (SemaphoreSets r =? 0).
Definition summary (r : hostResourceRecovery) : string :=
  if recovery_empty r then "no orphaned host resources"
  else "removed " +:+ itoa_nat (SharedSegments r) +:+ " orphaned shared-memory segment(s) and "
         +:+ itoa_nat (SemaphoreSets r) +:+ " semaphore set(s)".

Record survivors := { sv_shared : list Z; sv_semaphores : list Z }.
Definition present (ids planned : list Z) : list Z := List.filter (λ id, bool_decide (id ∈ ids)) planned.
Definition survivingIDs (sharedOutput semaphoreOutput : string) (sharedIDs semaphoreIDs : list Z) : result survivors :=
  sharedRows ← parsePostgresSharedMemoryRows sharedOutput;
  semaphoreRows ← parsePostgresSemaphoreRows semaphoreOutput;
  Ok {| sv_shared := present (sh_id <$> sharedRows) sharedIDs; sv_semaphores := present (se_id <$> semaphoreRows) semaphoreIDs |}.

Definition survived : error :=
  ENew "orphaned PostgreSQL IPC resources survived removal: shared memory %v, semaphores %v" [].
(** What was recovered, with the failure when something survived. *)
Definition recoveryVerdict (sharedIDs semaphoreIDs : list Z) (remaining : survivors) (reported : option error) :
    hostResourceRecovery * option error :=
  let recovery := {| SharedSegments := Z.of_nat (length sharedIDs) - Z.of_nat (length (sv_shared remaining));
                     SemaphoreSets := Z.of_nat (length semaphoreIDs) - Z.of_nat (length (sv_semaphores remaining)) |} in
  if bool_decide (sv_shared remaining = []) && bool_decide (sv_semaphores remaining = []) then (recovery, None)
  else (recovery, errors_join [Some survived; reported]).

Inductive ipccall :=
  | CurrentUser (seen : result string)
  | Ipcs (flag : string) (seen : result string)
  | Ipcrm (batch : list string).

Definition operations (sharedIDs semaphoreIDs : list Z) : list string :=
  (sharedIDs ≫= λ id, ["-m"; itoa id]) ++ (semaphoreIDs ≫= λ id, ["-s"; itoa id]).

Section reap.
Context `{!Clock (trace ipccall)}.
(** How the host answers, knowing the calls before: the user, the two tables, what a
    removal says, and which processes live. *)
Context (whoami : trace ipccall → result string) (table : trace ipccall → string → result string).
Context (ipcrm : trace ipccall → ipccall → result unit) (live : trace ipccall → Z → bool).
#[local] Abbreviation prog := (io (trace ipccall)).

Fixpoint remove_batches (fuel : nat) (reported : option error) (ops : list string) : prog (option (option error)) :=
  match ops with
  | [] => mret (Some reported)
  | _ =>
    match fuel with
    | O => mret None
    | S fuel =>
      let count := (postgresIPCRemovalBatchSize * 2)%nat in
      r ← io_try (call ipcrm (Ipcrm (take count ops)));
      remove_batches fuel (match r with Ok _ => reported | Err e => errors_join [reported; Some (EWrap "ipcrm: %w: %s" [] e)] end)
        (drop count ops)
    end
  end.
(** Every batch takes at least one operation. *)
Definition runIPCRemove (sharedIDs semaphoreIDs : list Z) : prog (option error) :=
  let ops := operations sharedIDs semaphoreIDs in
  r ← remove_batches (length ops) None ops;
  match r with Some reported => mret reported | None => io_fail (ENew "fuel" []) end.

Definition readIPCTables : prog (string * string) :=
  sharedOutput ← io_wrap "list System V shared memory: %w" [] (inquire (λ tr, table tr "-ma") (Ipcs "-ma"));
  semaphoreOutput ← io_wrap "list System V semaphores: %w" [] (inquire (λ tr, table tr "-sa") (Ipcs "-sa"));
  mret (sharedOutput, semaphoreOutput).

Definition no_recovery : hostResourceRecovery := {| SharedSegments := 0; SemaphoreSets := 0 |}.
Definition removePostgresIPC (sharedIDs semaphoreIDs : list Z) : prog (hostResourceRecovery * option error) :=
  removalOutput ← runIPCRemove sharedIDs semaphoreIDs;
  tables ← io_try readIPCTables;
  match tables with
  | Err e => mret (no_recovery, errors_join [Some (EWrap "verify removal of orphaned PostgreSQL IPC resources: %w" [] e); removalOutput])
  | Ok (sharedOutput, semaphoreOutput) =>
    match survivingIDs sharedOutput semaphoreOutput sharedIDs semaphoreIDs with
    | Err e => mret (no_recovery, errors_join [Some e; removalOutput])
    | Ok remaining => mret (recoveryVerdict sharedIDs semaphoreIDs remaining removalOutput)
    end
  end.

Definition reapHostIPC (ctx : Context) : prog (hostResourceRecovery * option error) :=
  now ← io_get;
  _ ← io_lift (match ctx_Err ctx now with Some e => Err e | None => Ok tt end);
  username ← io_wrap "resolve user for PostgreSQL IPC cleanup: %w" [] (inquire whoami CurrentUser);
  '(sharedOutput, semaphoreOutput) ← readIPCTables;
  now ← io_get;
  '(sharedIDs, semaphoreIDs) ← io_lift (postgresIPCRemovalPlan username (live now) sharedOutput semaphoreOutput);
  if bool_decide (sharedIDs = []) && bool_decide (semaphoreIDs = []) then mret (no_recovery, None)
  else removePostgresIPC sharedIDs semaphoreIDs.

Definition runRecoverHostResources (ctx : Context) : prog string :=
  '(recovered, failed) ← reapHostIPC ctx;
  match failed with Some e => io_fail e | None => mret (summary recovered) end.
End reap.

(** ** Sorting and splitting *)

Section lists.
Context {A : Type}.

Lemma insert_row_perm (key : A → Z) x l : insert_row key x l ≡ₚ x :: l.
Proof. induction l as [|y l IH]; cbn [insert_row]; [done|]. destruct (_ <? _); [done|]. rewrite IH. apply Permutation_swap. Qed.
Lemma sort_by_perm (key : A → Z) l : sort_by key l ≡ₚ l.
Proof.
  unfold sort_by. change l with ([] ++ l) at 2. generalize (@nil A) as sorted.
  induction l as [|x l IH]; intros sorted; cbn [foldl]; [by rewrite app_nil_r|].
  rewrite IH, insert_row_perm. by rewrite <-Permutation_middle.
Qed.

Definition ordered (key : A → Z) (l : list A) : Prop := StronglySorted (λ a b, key a ≤ key b) l.
Lemma insert_row_ordered (key : A → Z) x l : ordered key l → ordered key (insert_row key x l).
Proof.
  induction 1 as [|y l Hl IH Hy]; cbn [insert_row]; [by repeat constructor|].
  destruct (Z.ltb_spec (key x) (key y)); constructor.
  - by constructor.
  - constructor; [lia|]. eapply Forall_impl; [exact Hy|]. cbn. lia.
  - done.
  - rewrite insert_row_perm. constructor; [done|done].
Qed.
Lemma sort_by_ordered (key : A → Z) l : ordered key (sort_by key l).
Proof.
  unfold sort_by. assert (H : ordered key []) by constructor. revert H. generalize (@nil A) as sorted.
  induction l as [|x l IH]; intros sorted H; cbn [foldl]; [done|]. by apply IH, insert_row_ordered.
Qed.
Lemma ordered_in (key : A → Z) first rest x : ordered key (first :: rest) → x ∈ rest → key first ≤ key x.
Proof. intros H Hx. inversion_clear H as [|? ? _ Hf]. rewrite Forall_forall in Hf. by apply Hf. Qed.

(** The segments are the list, in order, and each is linked. *)
Context (ext : A → A → A → bool).
Inductive linked : list A → Prop :=
  | linked_one x : linked [x]
  | linked_snoc first rest x : linked (first :: rest) → ext first (default first (last (first :: rest))) x = true →
      linked (first :: rest ++ [x]).

Lemma segments_spec run l :
  (run = [] ∨ linked run) → concat (segments ext run l) = run ++ l ∧ Forall linked (segments ext run l).
Proof.
  revert run. induction l as [|x l IH]; intros run Hrun; cbn [segments].
  - destruct run as [|first rest]; [done|]. cbn [concat]. rewrite !app_nil_r. split; [done|].
    constructor; [by destruct Hrun|constructor].
  - destruct run as [|first rest].
    { destruct (IH [x]) as [H1 H2]; [right; constructor|]. done. }
    destruct (ext first _ x) eqn:E.
    + destruct (IH ((first :: rest) ++ [x])) as [H1 H2].
      { right. destruct Hrun as [|Hrun]; [done|]. by constructor. }
      split; [|done]. by rewrite H1, <-app_assoc.
    + destruct (IH [x]) as [H1 H2]; [right; constructor|]. split; [|constructor; [by destruct Hrun|done]].
      cbn [concat]. by rewrite H1.
Qed.
Lemma segments_in seg l x : seg ∈ segments ext [] l → x ∈ seg → x ∈ l.
Proof.
  intros Hs Hx. destruct (segments_spec [] l (or_introl eq_refl)) as [E _]. cbn [app] in E. rewrite <-E.
  apply list_elem_of_In, in_concat. exists seg. by rewrite <-!list_elem_of_In.
Qed.
Lemma segment_ordered (key : A → Z) seg l : seg ∈ segments ext [] l → ordered key l → ordered key seg.
Proof.
  intros Hs Ho. destruct (segments_spec [] l (or_introl eq_refl)) as [E _]. cbn [app] in E. rewrite <-E in Ho.
  apply list_elem_of_split in Hs as (a & b & Es). rewrite Es, concat_app in Ho. cbn [concat] in Ho.
  by apply StronglySorted_app_1_r, StronglySorted_app_1_l in Ho.
Qed.
Lemma segment_linked seg l : seg ∈ segments ext [] l → linked seg.
Proof.
  intros Hs. destruct (segments_spec [] l (or_introl eq_refl)) as [_ H]. rewrite Forall_forall in H. by apply H.
Qed.
End lists.

Lemma filter_submseteq {A} (f : A → bool) l : List.filter f l ⊆+ l.
Proof. induction l as [|x l IH]; [done|]. cbn. destruct (f x); [by apply submseteq_skip|by apply submseteq_cons]. Qed.

(** ** What is removed *)

(** Keys are read as unsigned 64-bit integers. *)
Definition key_range (k : Z) : Prop := 0 ≤ k < 2 ^ 64.

Lemma digits_in_range base acc l v : key_range acc → 0 ≤ base → digits_in base acc l = Some v → key_range v.
Proof.
  revert acc. induction l as [|c l IH]; intros acc Ha Hb; cbn [digits_in]; [by intros [= <-]|].
  case_decide; [by apply IH|]. unfold digit_of. cbn [mbind option_bind].
  assert (Hd : ∀ d : Z, 0 ≤ d → (if (d <? base) && (acc * base + d <? 2 ^ 64) then digits_in base (acc * base + d) l else None) = Some v → key_range v).
  { intros d Hd. destruct (_ && _) eqn:E; [|done]. apply andb_true_iff in E as [_ E%Z.ltb_lt]. apply IH; [|done].
    unfold key_range in *. nia. }
  destruct (is_digit (code c)) eqn:Ed; cbn [mbind option_bind].
  { apply Hd. unfold is_digit, in_range in Ed. lia. }
  destruct (is_lower (lower_ascii c)) eqn:El; cbn [mbind option_bind]; [|done].
  apply Hd. unfold is_lower, in_range in El. lia.
Qed.

Lemma ParseUint0_range s v : ParseUint0 s = Some v → key_range v.
Proof.
  unfold ParseUint0. case_bool_decide; [done|]. destruct (base_of (bytes s)) as [base digits] eqn:E.
  destruct (digits_in base 0 digits) as [x|] eqn:Ed; cbn [mbind option_bind]; [|done].
  destruct (_ && _); [done|]. intros [= <-]. eapply digits_in_range; [|..|exact Ed]; [by unfold key_range|].
  unfold base_of in E. repeat case_match; try done; injection E as <- <-; lia.
Qed.

Lemma scan_rows_all {A} (P : A → Prop) message (row : string → result (option A)) lines rows rows' :
  (∀ line x, row line = Ok (Some x) → P x) → Forall P rows →
  fold_result (scan_row message row) rows lines = Ok rows' → Forall P rows'.
Proof.
  intros Hrow. revert rows. induction lines as [|line lines IH]; intros rows Hr; cbn [fold_result]; [by intros [= <-]|].
  intros (rows1 & H1 & H2)%bind_ok. eapply IH; [|exact H2]. apply bind_ok in H1 as ([] & _ & H1).
  apply bind_ok in H1 as ([x|] & Hx & [= <-]); [|done]. apply Forall_app. split; [done|]. constructor; [by eapply Hrow|done].
Qed.

Lemma semaphore_keys output rows : parsePostgresSemaphoreRows output = Ok rows → Forall (λ r, key_range (se_key r)) rows.
Proof.
  apply scan_rows_all; [|constructor]. intros line x. unfold semaphore_row. cbv zeta. destruct (skip_row _ _); [done|].
  destruct (Atoi _); [|done]. destruct (ParseUint0 _) eqn:E; [|done]. destruct (Atoi _); [|done]. intros [= <-].
  by eapply ParseUint0_range.
Qed.

Section safety.
Context (username : string) (alive : Z → bool).
Context (shared : list postgresSharedMemoryRow) (semaphores : list postgresSemaphoreRow).
Hypothesis keys : Forall (λ r, key_range (se_key r)) semaphores.

(** This user's PostgreSQL control segment, with its creator dead and nobody attached. *)
Definition dead_segment (r : postgresSharedMemoryRow) : Prop :=
  r ∈ shared ∧ sh_owner r = username ∧ sh_size r = 56 ∧ 1 < sh_creatorPID r ∧ sh_attachments r ≤ 0 ∧ alive (sh_creatorPID r) = false.
(** One that a live process holds or made. *)
Definition live_segment (r : postgresSharedMemoryRow) : Prop :=
  r ∈ shared ∧ sh_owner r = username ∧ sh_size r = 56 ∧ 1 < sh_creatorPID r ∧ (0 < sh_attachments r ∨ alive (sh_creatorPID r) = true).

(** A semaphore set of PostgreSQL's shape: this user's, private to it, twenty strong. *)
Definition shaped (r : postgresSemaphoreRow) : Prop :=
  r ∈ semaphores ∧ 0 < se_key r ∧ se_owner r = username ∧ se_mode r = "--ra-------" ∧ se_semaphores r = 20.
(** No live control segment lies at most a span below its key. *)
Definition unowned (r : postgresSemaphoreRow) : Prop :=
  ∀ live, live_segment live → ¬ (sh_key live < se_key r ∧ se_key r - sh_key live ≤ 1024).

(** All the keys from just after a dead control segment's up to this one's are shaped sets. *)
Definition follows_dead (r : postgresSemaphoreRow) : Prop :=
  ∃ dead, dead_segment dead ∧ sh_key dead < se_key r ∧
    ∀ k, sh_key dead < k ≤ se_key r → ∃ r', shaped r' ∧ se_key r' = k.
(** Another shaped set was made at the same time, within a span of it. *)
Definition has_twin (r : postgresSemaphoreRow) : Prop :=
  ∃ twin, [r; twin] ⊆+ semaphores ∧ shaped twin ∧ unowned twin ∧ se_createdAt twin = se_createdAt r ∧
    Z.abs (se_key twin - se_key r) ≤ 1024.
Definition removable (r : postgresSemaphoreRow) : Prop := shaped r ∧ unowned r ∧ (follows_dead r ∨ has_twin r).

Let activeBases : list Z := sh_key <$> active_rows username alive shared.
Let orphanedBases : list Z := sh_key <$> orphaned_rows username alive shared.
Let candidates : list postgresSemaphoreRow := sort_by se_key (List.filter (candidate username) semaphores).

Lemma candidate_shaped r : r ∈ candidates ↔ shaped r.
Proof.
  unfold candidates. rewrite sort_by_perm, list_elem_of_In, filter_In, <-list_elem_of_In. unfold candidate, shaped.
  rewrite !andb_true_iff, !bool_decide_eq_true, Z.ltb_lt, Z.eqb_eq. unfold postgresDarwinSemaphoresPerSet. tauto.
Qed.
Lemma candidate_key r : r ∈ candidates → 0 < se_key r < 2 ^ 64.
Proof.
  intros (Hr & ? & _)%candidate_shaped. rewrite Forall_forall in keys. specialize (keys r Hr). unfold key_range in *. lia.
Qed.
Lemma candidates_sub : candidates ⊆+ semaphores.
Proof. unfold candidates. rewrite sort_by_perm. apply filter_submseteq. Qed.

Lemma control_spec r : control_segment username r = true ↔ sh_owner r = username ∧ sh_size r = 56 ∧ 1 < sh_creatorPID r.
Proof.
  unfold control_segment, postgresDarwinControlSegmentBytes. rewrite !andb_true_iff, bool_decide_eq_true, Z.eqb_eq, Z.ltb_lt. tauto.
Qed.
Lemma orphaned_spec r : r ∈ orphaned_rows username alive shared ↔ dead_segment r.
Proof.
  unfold orphaned_rows. rewrite list_elem_of_In, filter_In, <-list_elem_of_In, andb_true_iff, control_spec, negb_true_iff.
  unfold active_segment, dead_segment. rewrite orb_false_iff, Z.ltb_ge. tauto.
Qed.
Lemma active_spec r : r ∈ active_rows username alive shared ↔ live_segment r.
Proof.
  unfold active_rows. rewrite list_elem_of_In, filter_In, <-list_elem_of_In, andb_true_iff, control_spec.
  unfold active_segment, live_segment. rewrite orb_true_iff, Z.ltb_lt. tauto.
Qed.

Lemma unprotected rows r : protected activeBases rows = false → r ∈ rows → r ∈ candidates → unowned r.
Proof.
  intros Hp Hr Hc live Hlive [H1 H2]. apply not_true_iff_false in Hp. apply Hp, existsb_exists.
  exists r. split; [by apply list_elem_of_In|]. apply existsb_exists. exists (sh_key live). split.
  - apply list_elem_of_In, list_elem_of_fmap. exists live. split; [done|]. by apply active_spec.
  - apply andb_true_iff. split; [by apply Z.ltb_lt|]. apply Z.leb_le. unfold postgresDarwinSemaphoreKeySpan.
    rewrite Z.mod_small; [done|]. lia.
Qed.

(** Two rows of one segment of a list are two of that list. *)
Lemma segment_pair (ext : postgresSemaphoreRow → postgresSemaphoreRow → postgresSemaphoreRow → bool) seg l r :
  seg ∈ segments ext [] l → r ∈ seg → (2 ≤ length seg)%nat → ∃ twin, twin ∈ seg ∧ [r; twin] ⊆+ l.
Proof.
  intros Hs Hr Hl. destruct (segments_spec ext [] l (or_introl eq_refl)) as [E _]. cbn [app] in E.
  assert (Hsub : seg ⊆+ l).
  { rewrite <-E. apply list_elem_of_split in Hs as (a & b & ->). rewrite concat_app. cbn [concat].
    etrans; [|apply submseteq_inserts_l; done]. by apply submseteq_inserts_r. }
  apply list_elem_of_split in Hr as (a & b & ->).
  destruct b as [|twin b], a as [|twin' a]; cbn in Hl; [lia|..].
  - exists twin'. split; [by left|]. etrans; [|exact Hsub]. rewrite (Permutation_app_comm _ [r]). cbn [app].
    do 2 apply submseteq_skip. apply submseteq_nil_l.
  - exists twin. split; [by right; left|]. etrans; [|exact Hsub]. cbn [app]. do 2 apply submseteq_skip. apply submseteq_nil_l.
  - exists twin. split; [apply elem_of_app; right; by right; left|]. etrans; [|exact Hsub].
    rewrite (Permutation_app_comm (twin' :: a)). cbn [app]. do 2 apply submseteq_skip. apply submseteq_nil_l.
Qed.

(** The keys of a run follow each other. *)
Lemma run_keys seg :
  linked (λ _, next_key) seg → (∀ r, r ∈ seg → r ∈ candidates) →
  ∃ first, head seg = Some first ∧
    (∃ top, last seg = Some top ∧ se_key top = se_key first + Z.of_nat (length seg) - 1) ∧
    ∀ r, r ∈ seg → se_key first ≤ se_key r ≤ se_key first + Z.of_nat (length seg) - 1 ∧
      ∀ k, se_key first ≤ k ≤ se_key r → ∃ r', r' ∈ seg ∧ se_key r' = k.
Proof.
  induction 1 as [x|first rest x _ IH Hn]; intros Hc.
  - exists x. split; [done|]. split; [exists x; split; [done|cbn; lia]|].
    intros r ->%list_elem_of_singleton. cbn [length]. split; [lia|]. intros k Hk. exists x. split; [by left|lia].
  - destruct IH as (f & [= <-] & (top & Ht & Hk) & Hall).
    { intros r Hr. apply Hc. rewrite app_comm_cons. apply elem_of_app. by left. }
    rewrite Ht in Hn. cbn [default from_option id] in Hn. unfold next_key in Hn. apply Z.eqb_eq in Hn.
    assert (Hx : 0 < se_key x < 2 ^ 64).
    { apply candidate_key, Hc. rewrite app_comm_cons. apply elem_of_app. right. by left. }
    assert (Htop : 0 < se_key top < 2 ^ 64).
    { apply candidate_key, Hc. apply last_Some_elem_of in Ht. rewrite app_comm_cons. apply elem_of_app. by left. }
    assert (Ex : se_key x = se_key top + 1).
    { destruct (decide (se_key top + 1 = 2 ^ 64)) as [E|E]; [rewrite E, Z.mod_same in Hn by done; lia|].
      rewrite Z.mod_small in Hn; lia. }
    exists first. split; [done|]. rewrite app_comm_cons, length_app. cbn [length] in *. split.
    { exists x. rewrite last_snoc. split; [done|]. lia. }
    intros r [Hr|Hr%list_elem_of_singleton]%elem_of_app.
    + destruct (Hall r Hr) as [H1 H2]. split; [lia|]. intros k Hkr. destruct (H2 k Hkr) as (r' & ? & ?).
      exists r'. split; [apply elem_of_app; by left|done].
    + subst r. split; [lia|]. intros k Hkr. destruct (decide (k = se_key x)) as [->|Hne].
      * exists x. split; [apply elem_of_app; right; by left|done].
      * destruct (Hall top) as [_ H2]; [by apply last_Some_elem_of|]. destruct (H2 k) as (r' & ? & ?); [lia|].
        exists r'. split; [apply elem_of_app; by left|done].
Qed.

Lemma pair_sub {A} (x y : A) l : x ≠ y → x ∈ l → y ∈ l → [x; y] ⊆+ l.
Proof.
  intros Hn Hx Hy. apply NoDup_submseteq.
  - apply NoDup_cons. split; [by intros ->%list_elem_of_singleton|apply NoDup_singleton].
  - by intros z [-> | ->%list_elem_of_singleton]%elem_of_cons.
Qed.

Lemma runs_removable seg r :
  seg ∈ selected_runs activeBases orphanedBases candidates → r ∈ seg → removable r.
Proof.
  intros Hs Hr. unfold selected_runs in Hs. rewrite list_elem_of_In, filter_In, <-list_elem_of_In in Hs.
  destruct Hs as [Hs [Hp%negb_true_iff Hsel]%andb_true_iff].
  assert (Hc : ∀ x, x ∈ seg → x ∈ candidates) by (intros x Hx; by eapply segments_in).
  assert (Hun : ∀ x, x ∈ seg → unowned x) by (intros x Hx; eapply unprotected; [exact Hp|done|by apply Hc]).
  destruct (run_keys seg) as (first & Hf & (top & Ht & Hk) & Hall); [by eapply segment_linked|done|].
  destruct (Hall r Hr) as [Hrk Hbelow]. split_and!; [by apply candidate_shaped, Hc|by apply Hun|].
  apply orb_true_iff in Hsel as [Ho|[Hl%Nat.leb_le Hcr]%andb_true_iff].
  - left. destruct seg as [|f rest]; [done|]. injection Hf as ->. cbn [orphaned_base] in Ho.
    apply bool_decide_eq_true in Ho. unfold orphanedBases in Ho. apply list_elem_of_fmap in Ho as (dead & Ek & Hd%orphaned_spec).
    assert (Hfk : 0 < se_key first < 2 ^ 64) by (apply candidate_key, Hc; by left).
    rewrite Z.mod_small in Ek by lia. exists dead. split; [done|]. split; [lia|]. intros k Hkr.
    destruct (Hbelow k) as (r' & Hr' & <-); [lia|]. exists r'. split; [by apply candidate_shaped, Hc|done].
  - right. assert (Hsame : ∀ x, x ∈ seg → se_createdAt x = se_createdAt first).
    { destruct seg as [|f rest]; [done|]. injection Hf as ->. apply andb_true_iff in Hcr as [_ Hcr].
      rewrite forallb_forall in Hcr. intros x [->|Hx]%elem_of_cons; [done|].
      specialize (Hcr x). rewrite <-list_elem_of_In in Hcr. by specialize (Hcr Hx); apply bool_decide_eq_true in Hcr. }
    assert (Htwin : ∃ twin, twin ∈ seg ∧ Z.abs (se_key twin - se_key r) = 1).
    { destruct (decide (se_key r = se_key first)) as [E|E].
      - destruct (Hall top) as [_ H2]; [by apply last_Some_elem_of|].
        destruct (H2 (se_key r + 1)) as (x & Hx & Ex); [lia|]. exists x. split; [done|]. lia.
      - destruct (Hbelow (se_key r - 1)) as (x & Hx & Ex); [lia|]. exists x. split; [done|]. lia. }
    destruct Htwin as (twin & Htw & Hdiff). exists twin. split_and!.
    + etrans; [|apply candidates_sub]. apply pair_sub; [|by apply Hc..]. intros ->. lia.
    + by apply candidate_shaped, Hc.
    + by apply Hun.
    + by rewrite (Hsame twin), (Hsame r).
    + lia.
Qed.

Lemma cluster_span seg first :
  linked (λ first _, in_span first) seg → head seg = Some first →
  ∀ x, x ∈ seg → x = first ∨ in_span first x = true.
Proof.
  induction 1 as [x|f rest x _ IH Hx]; cbn [head]; intros [= ->] y Hy.
  - apply list_elem_of_singleton in Hy as ->. by left.
  - rewrite app_comm_cons in Hy. apply elem_of_app in Hy as [Hy | ->%list_elem_of_singleton]; [by apply IH|by right].
Qed.

Lemma clusters_removable left seg r :
  left ⊆+ candidates → seg ∈ selected_clusters activeBases left → r ∈ seg → removable r.
Proof.
  intros Hleft Hs Hr. apply list_elem_of_bind in Hs as (created & Hs & _).
  rewrite list_elem_of_In, filter_In, <-list_elem_of_In in Hs. destruct Hs as [Hs [Hp%negb_true_iff Hl%Nat.leb_le]%andb_true_iff].
  set (made := List.filter (λ r, bool_decide (se_createdAt r = created)) left) in *.
  assert (Hsub : sort_by se_key made ⊆+ candidates) by (rewrite sort_by_perm; etrans; [apply filter_submseteq|done]).
  assert (Hin : ∀ x, x ∈ seg → x ∈ candidates) by (intros x Hx; eapply elem_of_submseteq; [by eapply segments_in|done]).
  assert (Hcr : ∀ x, x ∈ seg → se_createdAt x = created).
  { intros x Hx. eapply segments_in in Hx; [|exact Hs]. rewrite sort_by_perm in Hx. unfold made in Hx.
    rewrite list_elem_of_In, filter_In in Hx. destruct Hx as [_ Hx]. by apply bool_decide_eq_true in Hx. }
  assert (Hun : ∀ x, x ∈ seg → unowned x) by (intros x Hx; eapply unprotected; [exact Hp|done|by apply Hin]).
  destruct (segment_pair _ _ _ _ Hs Hr Hl) as (twin & Htw & Hpair).
  split_and!; [by apply candidate_shaped, Hin|by apply Hun|right]. exists twin. split_and!.
  - etrans; [exact Hpair|]. etrans; [exact Hsub|apply candidates_sub].
  - by apply candidate_shaped, Hin.
  - by apply Hun.
  - by rewrite (Hcr twin), (Hcr r).
  - destruct seg as [|first rest]; [by apply not_elem_of_nil in Hr|]. pose proof (segment_linked _ _ _ Hs) as Hlink.
    assert (Hspan : ∀ x, x ∈ first :: rest → se_key first ≤ se_key x ≤ se_key first + 1024).
    { intros x Hx. assert (Hle : se_key first ≤ se_key x).
      { apply elem_of_cons in Hx as [->|Hx]; [done|]. eapply (ordered_in se_key); [|exact Hx].
        apply (segment_ordered (λ first _, in_span first) se_key _ _ Hs). apply sort_by_ordered. }
      destruct (cluster_span _ _ Hlink eq_refl x Hx) as [-> | Hsp]; [lia|].
      unfold in_span, postgresDarwinSemaphoreKeySpan in Hsp. apply Z.leb_le in Hsp.
      assert (0 < se_key first < 2 ^ 64) by (apply candidate_key, Hin; by left).
      assert (0 < se_key x < 2 ^ 64) by (by apply candidate_key, Hin).
      rewrite Z.mod_small in Hsp; lia. }
    pose proof (Hspan r Hr). pose proof (Hspan twin Htw). lia.
Qed.
End safety.

Lemma elem_of_concat {A} (x : A) ls : x ∈ concat ls → ∃ l, l ∈ ls ∧ x ∈ l.
Proof. rewrite list_elem_of_In, in_concat. intros (l & H1 & H2). exists l. by rewrite !list_elem_of_In. Qed.

(** C21: What is planned for removal is orphaned: the shared segments are exactly this
    user's 56-byte control segments whose creator is dead and which nobody has
    attached; a semaphore set is this user's, of PostgreSQL's shape, owned by no live
    control segment within a span below its key, and either follows such a dead segment
    without a gap or has another such set of the same creation time within a span of
    it.  So a lone set without a dead control segment is never touched. *)
Theorem removal_plan_safe username alive sharedOutput semaphoreOutput sharedIDs semaphoreIDs :
  postgresIPCRemovalPlan username alive sharedOutput semaphoreOutput = Ok (sharedIDs, semaphoreIDs) →
  ∃ shared semaphores, parsePostgresSharedMemoryRows sharedOutput = Ok shared ∧
    parsePostgresSemaphoreRows semaphoreOutput = Ok semaphores ∧
    (∀ id, id ∈ sharedIDs ↔ ∃ r, dead_segment username alive shared r ∧ sh_id r = id) ∧
    (∀ id, id ∈ semaphoreIDs → ∃ r, removable username alive shared semaphores r ∧ se_id r = id).
Proof.
  intros (shared & Hsh & H)%bind_ok. apply bind_ok in H as (semaphores & Hse & [= <- <-]).
  exists shared, semaphores. pose proof (semaphore_keys _ _ Hse) as Hkeys. split_and!; [done..| |].
  - intros id. rewrite sort_by_perm, list_elem_of_fmap. setoid_rewrite orphaned_spec. naive_solver.
  - intros id. rewrite sort_by_perm. intros (r & -> & Hr)%list_elem_of_fmap. exists r. split; [|done].
    apply elem_of_app in Hr as [Hr|Hr]; apply elem_of_concat in Hr as (seg & Hseg & Hr).
    + by eapply runs_removable.
    + eapply clusters_removable; [done| |exact Hseg|done]. apply filter_submseteq.
Qed.

(** ** The batches and the verdict *)

Section verdict.
Context `{!Clock (trace ipccall)}.
Context (whoami : trace ipccall → result string) (table : trace ipccall → string → result string).
Context (ipcrm : trace ipccall → ipccall → result unit) (live : trace ipccall → Z → bool).

Definition batch_ok (b : list string * bool) : Prop := (0 < length b.1 ≤ 2 * postgresIPCRemovalBatchSize)%nat ∧ Nat.even (length b.1) = true.
Definition issued (b : list string * bool) : ipccall * bool := (Ipcrm b.1, b.2).

Lemma remove_batches_all fuel reported ops tr :
  (length ops ≤ fuel)%nat → Nat.even (length ops) = true →
  ∃ reported' batches, remove_batches ipcrm fuel reported ops tr = (Ok (Some reported'), tr ++ (issued <$> batches)) ∧
    concat (fst <$> batches) = ops ∧ Forall batch_ok batches.
Proof.
  revert reported ops tr. induction fuel as [|fuel IH]; intros reported ops tr Hf He.
  - destruct ops; [|cbn in Hf; lia]. exists reported, []. by rewrite app_nil_r.
  - destruct ops as [|op ops]; [exists reported, []; by rewrite app_nil_r|].
    cbn [remove_batches]. set (all := op :: ops) in *. set (n := (postgresIPCRemovalBatchSize * 2)%nat).
    unfold mbind, io_bind, io_try, call.
    assert (Hn : (0 < n)%nat ∧ Nat.even n = true ∧ n = (2 * postgresIPCRemovalBatchSize)%nat)
      by (split_and!; [apply Nat.ltb_lt|..]; vm_compute; reflexivity).
    clearbody n. destruct Hn as (Hpos & Hne & En).
    assert (Hall : length all = S (length ops)) by done. clearbody all.
    assert (Hlen : (length (drop n all) ≤ fuel)%nat) by (rewrite length_drop; lia).
    assert (Heven : Nat.even (length (drop n all)) = true).
    { rewrite length_drop. destruct (le_lt_dec n (length all)) as [H|H]; [|by replace (length all - n)%nat with 0%nat by lia].
      rewrite Nat.even_sub by done. by rewrite He, Hne. }
    edestruct (IH (match ipcrm tr (Ipcrm (take n all)) with Ok _ => reported | Err e => errors_join [reported; Some (EWrap "ipcrm: %w: %s" [] e)] end)
      (drop n all) (tr ++ [(Ipcrm (take n all), is_ok (ipcrm tr (Ipcrm (take n all))))])) as (reported' & batches & E & Hc & Hb); [done..|].
    exists reported', ((take n all, is_ok (ipcrm tr (Ipcrm (take n all)))) :: batches). split_and!.
    + etrans; [exact E|]. by rewrite <-app_assoc.
    + rewrite fmap_cons. cbn [concat fst]. rewrite Hc. apply take_drop.
    + constructor; [|done]. unfold batch_ok. cbn [fst]. rewrite length_take. split.
      * rewrite <-En. lia.
      * destruct (le_lt_dec n (length all)); [by rewrite Nat.min_l by done|by rewrite Nat.min_r by lia].
Qed.

Lemma operations_even sharedIDs semaphoreIDs : Nat.even (length (operations sharedIDs semaphoreIDs)) = true.
Proof.
  assert (H : ∀ flag l, Nat.even (length (l ≫= λ id : Z, [flag; itoa id])) = true).
  { intros flag l. by induction l as [|x l IH]. }
  unfold operations. rewrite length_app, Nat.even_add, !H. done.
Qed.

Lemma present_length ids planned : (length (present ids planned) ≤ length planned)%nat.
Proof. apply submseteq_length, filter_submseteq. Qed.
Lemma present_none ids planned : present ids planned = [] → ∀ id, id ∈ planned → id ∉ ids.
Proof.
  intros H id Hp Hi. assert (Hin : id ∈ present ids planned).
  { unfold present. rewrite list_elem_of_In, filter_In, <-list_elem_of_In, bool_decide_eq_true. done. }
  rewrite H in Hin. by apply not_elem_of_nil in Hin.
Qed.

(** Read after the removals, the tables hold none of the planned identifiers. *)
Definition all_gone (sharedIDs semaphoreIDs : list Z) (tables : trace ipccall) : Prop :=
  ∃ sharedOutput semaphoreOutput shared semaphores,
    tables = [(Ipcs "-ma" (Ok sharedOutput), true); (Ipcs "-sa" (Ok semaphoreOutput), true)] ∧
    parsePostgresSharedMemoryRows sharedOutput = Ok shared ∧ parsePostgresSemaphoreRows semaphoreOutput = Ok semaphores ∧
    (∀ id, id ∈ sharedIDs → id ∉ sh_id <$> shared) ∧ (∀ id, id ∈ semaphoreIDs → id ∉ se_id <$> semaphores).

(** Removal always returns a verdict.  Every planned identifier is handed to ipcrm
    once, in order, its flag beside it, in batches that are never empty and never over
    the limit; what ipcrm says decides nothing: success is reported only when the
    tables read afterwards hold none of the planned identifiers, and then all of them
    count as recovered; the counts never leave the range of what was planned. *)
Theorem removal_verdict sharedIDs semaphoreIDs tr :
  ∃ recovery failed batches tables,
    removePostgresIPC table ipcrm sharedIDs semaphoreIDs tr = (Ok (recovery, failed), tr ++ (issued <$> batches) ++ tables) ∧
    concat (fst <$> batches) = operations sharedIDs semaphoreIDs ∧ Forall batch_ok batches ∧
    0 ≤ SharedSegments recovery ≤ Z.of_nat (length sharedIDs) ∧ 0 ≤ SemaphoreSets recovery ≤ Z.of_nat (length semaphoreIDs) ∧
    (failed = None → all_gone sharedIDs semaphoreIDs tables ∧
       SharedSegments recovery = Z.of_nat (length sharedIDs) ∧ SemaphoreSets recovery = Z.of_nat (length semaphoreIDs)).
Proof.
  destruct (remove_batches_all (length (operations sharedIDs semaphoreIDs)) None (operations sharedIDs semaphoreIDs) tr)
    as (reported & batches & E & Hc & Hb); [done|apply operations_even|].
  unfold removePostgresIPC, runIPCRemove, readIPCTables, mbind, io_bind, io_try, io_wrap, inquire. rewrite E.
  unfold mret, io_ret. cbv beta iota zeta.
  set (tr1 := tr ++ (issued <$> batches)).
  assert (Hno : ∀ e tables, ∃ recovery failed batches0 tables0,
    (Ok (no_recovery, errors_join [Some e; reported]), tr1 ++ tables) = (Ok (recovery, failed), tr ++ (issued <$> batches0) ++ tables0) ∧
    concat (fst <$> batches0) = operations sharedIDs semaphoreIDs ∧ Forall batch_ok batches0 ∧
    0 ≤ SharedSegments recovery ≤ Z.of_nat (length sharedIDs) ∧ 0 ≤ SemaphoreSets recovery ≤ Z.of_nat (length semaphoreIDs) ∧
    (failed = None → all_gone sharedIDs semaphoreIDs tables0 ∧
       SharedSegments recovery = Z.of_nat (length sharedIDs) ∧ SemaphoreSets recovery = Z.of_nat (length semaphoreIDs))).
  { intros e tables. exists no_recovery, (errors_join [Some e; reported]), batches, tables.
    split; [unfold tr1; by rewrite <-app_assoc|]. split_and!; try done; cbn [no_recovery SharedSegments SemaphoreSets]; lia. }
  destruct (table tr1 "-ma") as [sharedOutput|e1]; cbn [wrap_err is_ok]; [|apply Hno].
  set (tr2 := tr1 ++ _). destruct (table tr2 "-sa") as [semaphoreOutput|e2]; cbn [wrap_err is_ok].
  2: { unfold tr2. rewrite <-app_assoc. apply Hno. }
  unfold tr2. rewrite <-app_assoc. cbn [app].
  destruct (survivingIDs sharedOutput semaphoreOutput sharedIDs semaphoreIDs) as [remaining|e3] eqn:Es; [|apply Hno].
  apply bind_ok in Es as (shared & Hsh & Es). apply bind_ok in Es as (semaphores & Hse & [= <-]).
  unfold recoveryVerdict. cbn [sv_shared sv_semaphores].
  pose proof (present_length (sh_id <$> shared) sharedIDs) as L1. pose proof (present_length (se_id <$> semaphores) semaphoreIDs) as L2.
  destruct (bool_decide _) eqn:B1; [destruct (bool_decide (present (se_id <$> semaphores) semaphoreIDs = [])) eqn:B2|]; cbn [andb];
    eexists _, _, batches, _; (split; [unfold tr1; by rewrite <-app_assoc|]); cbn [SharedSegments SemaphoreSets];
    (do 2 (split; [done|])); (split; [lia|]); (split; [lia|]); [|done..].
  apply bool_decide_eq_true in B1, B2. intros _. split; [|rewrite B1, B2; cbn [length]; lia].
  exists sharedOutput, semaphoreOutput, shared, semaphores. split_and!; [done..| |]; by apply present_none.
Qed.
End verdict.

(** ** A host with a live cluster, a dead one, and somebody else's lone set *)

Definition nl : string := of_bytes [chr 10].
Definition example_shared : string :=
  "T     ID     KEY        MODE       OWNER    GROUP  CREATOR   CGROUP NATTCH  SEGSZ  CPID  LPID" +:+ nl +:+
  "m  65536 0x0052e2c1 --rw-------     ann    staff      ann    staff      0     56    41    41" +:+ nl +:+
  "m  65537 0x00700000 --rw-------     ann    staff      ann    staff      6     56    77    77" +:+ nl.
Definition example_semaphores : string :=
  "s  131072 0x0052e2c2 --ra-------     ann    staff      ann    staff    20 10:00:00 09:00:00" +:+ nl +:+
  "s  131073 0x0052e2c3 --ra-------     ann    staff      ann    staff    20 10:00:00 09:00:00" +:+ nl +:+
  "s  131074 0x00700001 --ra-------     ann    staff      ann    staff    20 10:00:00 09:30:00" +:+ nl +:+
  "s  131075 0x00900000 --ra-------     ann    staff      ann    staff    20 10:00:00 08:00:00" +:+ nl.
Definition pid_77 (pid : Z) : bool := pid =? 77.

Lemma removal_plan_safe_witness :
  postgresIPCRemovalPlan "ann" pid_77 example_shared example_semaphores = Ok ([65536], [131072; 131073]) ∧
  ∃ shared semaphores, parsePostgresSharedMemoryRows example_shared = Ok shared ∧
    parsePostgresSemaphoreRows example_semaphores = Ok semaphores ∧
    (∀ id, id ∈ [65536] ↔ ∃ r, dead_segment "ann" pid_77 shared r ∧ sh_id r = id) ∧
    (∀ id, id ∈ [131072; 131073] → ∃ r, removable "ann" pid_77 shared semaphores r ∧ se_id r = id).
Proof.
  split; [vm_compute; reflexivity|].
  apply (removal_plan_safe "ann" pid_77 example_shared example_semaphores [65536] [131072; 131073]).
  vm_compute. reflexivity.
Defined.
