(* ===== verification/Deployment.v ===== *)
(** Rendering a deployment ([Deploy] of [builder.go] and what it calls): the
    external instance an environment is bound to, the Secret references a portable
    render carries, what goes into the deployment of each profile, and the name of
    the bootstrap Job. *)
From S2P Require Import Prelude GoStrings Images Timeouts Sha256 Settings RuntimeRoles SchemaPlan Url Net Connections.

(** ** External instances *)

Definition port (binding : ExternalInstance) : Z :=
  if EI_Port binding =? 0 then 5432 else EI_Port binding.

Section external.
Context {u : Unicode} (s : Settings).

(** The characters no host name has: blanks, line ends, and the separators of a URL. *)
Definition host_separators : string := of_bytes ([chr 32; chr 9; chr 13; chr 10] ++ bytes "/?#").

Definition refused_host (host : string) : bool :=
  bool_decide (host ≠ trim_space host) || contains_any host host_separators || contains host "://" ||
  (contains host ":" && negb (is_ip host)).

Definition externalInstance (environment : string) : result (option ExternalInstance) :=
  if bool_decide (ExternalInstances s = ∅) then Ok None
  else
    _ ← guard_err (blank environment)
          (ENew "external-instances requires a named deployment environment" []);
    match ExternalInstances s !! environment with
    | None => Err (ENew "external-instances has no binding for deployment environment %q" [environment])
    | Some binding =>
      let host := EI_Host binding in
      _ ← guard_err (bool_decide (host = "")) (ENew "external-instance host is required" []);
      _ ← guard_err (refused_host host)
            (ENew "external-instance host %q must be a hostname or IP address without a scheme, port, or path" [host]);
      _ ← guard_err (bool_decide (EI_DatabaseName binding ≠ DatabaseName s))
            (ENew "external-instance database-name %q does not match declared database-name %q"
               [EI_DatabaseName binding; DatabaseName s]);
      let '(readOnlyRole, readWriteRole) := runtimeRoleNames (DatabaseName s) in
      declaredRoles ← normalizedRuntimeReadWriteRoles (RuntimeReadWriteRoles s) [readOnlyRole; readWriteRole];
      boundRoles ← wrap_err "external-instance: %w" []
                     (normalizedRuntimeReadWriteRoles (EI_RuntimeReadWriteRoles binding) [readOnlyRole; readWriteRole]);
      _ ← guard_err (bool_decide (boundRoles ≠ declaredRoles))
            (ENew "external-instance runtime-read-write-roles %v do not match declared runtime-read-write-roles %v"
               [join " " boundRoles; join " " declaredRoles]);
      Ok (Some binding)
    end.

(** The order in which the map is walked only decides which error is reported. *)
Definition Sync : result unit :=
  each (λ '(environment, _), _ ← externalInstance environment; Ok tt) (map_to_list (ExternalInstances s)).

Definition externalBindingID (environment : string) (binding : ExternalInstance) : string :=
  sha256_hex (join nul [environment; EI_Host binding; itoa_nat (port binding); EI_DatabaseName binding;
                        join nul (EI_RuntimeReadWriteRoles binding)]).

Definition external_address (binding : ExternalInstance) : string :=
  JoinHostPort (EI_Host binding) (itoa_nat (port binding)).
End external.

(** ** Secret references *)

Record KubernetesSecretKeyReference := {
  kr_Name : string;
  kr_Key : string;
  kr_Optional : bool;
}.

Record promotableWorkloadSecretReferences := {
  StatefulSet : gmap string KubernetesSecretKeyReference;
  BootstrapJob : gmap string KubernetesSecretKeyReference;
}.

Definition migrationConnectionEnvironmentKey : string := "CODEFLY_POSTGRES_MIGRATION_CONNECTION".
Definition externalReadOnlyConnectionKey : string := "CODEFLY_POSTGRES_READ_ONLY_CONNECTION".
Definition externalReadWriteConnectionKey : string := "CODEFLY_POSTGRES_READ_WRITE_CONNECTION".

(** A nil reference, and one without name or key, is no reference. *)
Definition usable (reference : option KubernetesSecretKeyReference) : option KubernetesSecretKeyReference :=
  match reference with
  | Some r => if bool_decide (kr_Name r = "") || bool_decide (kr_Key r = "") then None else Some r
  | None => None
  end.

Section references.
Context (s : Settings).
(** The service's secret configuration key of an environment variable
    ([resources.ServiceSecretConfigurationKeyFromUnique]). *)
Context (secretKey : string → string).
Context (configured : gmap string KubernetesSecretKeyReference).

Definition optional_error (key : string) : error :=
  ENew "%s Kubernetes Secret reference must not be optional" [key].

(** One iteration of the loops that require a reference: the Secret all of them
    share is the first one's. *)
Definition require_reference (missing several : string) (st : string * gmap string KubernetesSecretKeyReference)
    (item : string * string) : result (string * gmap string KubernetesSecretKeyReference) :=
  let '(environmentVariable, configurationKey) := item in
  let key := secretKey configurationKey in
  match usable (configured !! key) with
  | None => Err (ENew missing [key])
  | Some reference =>
    _ ← guard_err (kr_Optional reference) (optional_error key);
    _ ← guard_err (bool_decide (st.1 ≠ "") && bool_decide (st.1 ≠ kr_Name reference)) (ENew several []);
    Ok (kr_Name reference, <[environmentVariable := reference]> st.2)
  end.

Definition loginPasswordSecretReference (secretName : string) (login : runtimeLogin) :
    result KubernetesSecretKeyReference :=
  let key := secretKey (rl_passwordKey login) in
  match usable (configured !! key) with
  | None => Ok {| kr_Name := secretName; kr_Key := key; kr_Optional := false |}
  | Some reference =>
    _ ← guard_err (kr_Optional reference) (optional_error key);
    _ ← guard_err (bool_decide (kr_Name reference ≠ secretName))
          (ENew "postgres credential references must use one Kubernetes Secret" []);
    Ok reference
  end.

Definition managed_primitives : list string :=
  ["POSTGRES_USER"; "POSTGRES_PASSWORD"; "POSTGRES_READ_ONLY_PASSWORD"; "POSTGRES_READ_WRITE_PASSWORD"].

Definition select_login (secretName : string) (selected : gmap string KubernetesSecretKeyReference)
    (login : runtimeLogin) : result (gmap string KubernetesSecretKeyReference) :=
  reference ← loginPasswordSecretReference secretName login;
  Ok (<[rl_passwordKey login := reference]> selected).

(** A variable that was not selected would be given no reference; none is asked for. *)
Definition selectForWorkload (selected : gmap string KubernetesSecretKeyReference) (variables : list string) :
    gmap string KubernetesSecretKeyReference :=
  foldl (λ references v, match selected !! v with
                         | Some reference => <[v := reference]> references
                         | None => references
                         end) ∅ variables.

Definition external_required : list (string * string) :=
  [("POSTGRES_USER", "POSTGRES_USER"); ("PGUSER", "POSTGRES_USER"); ("PGPASSWORD", "POSTGRES_PASSWORD");
   ("POSTGRES_READ_ONLY_PASSWORD", "POSTGRES_READ_ONLY_PASSWORD");
   ("POSTGRES_READ_WRITE_PASSWORD", "POSTGRES_READ_WRITE_PASSWORD");
   (externalReadOnlyConnectionKey, readOnlyConnectionKey);
   (externalReadWriteConnectionKey, readWriteConnectionKey)].

Definition selectExternalSecretReferences : result promotableWorkloadSecretReferences :=
  st ← fold_result
         (require_reference "external postgres deployment requires a typed Kubernetes Secret reference for %s"
            "external postgres credential references must use one Kubernetes Secret")
         ("", ∅) external_required;
  Ok {| StatefulSet := ∅; BootstrapJob := st.2 |}.

Definition selectPromotableSecretReferences (external : bool) (logins : list runtimeLogin) :
    result promotableWorkloadSecretReferences :=
  _ ← validateAuthMode s;
  if externalIdentity s then Ok {| StatefulSet := ∅; BootstrapJob := ∅ |}
  else if external then selectExternalSecretReferences
  else
    st ← fold_result
           (require_reference "postgres deployment requires a typed Kubernetes Secret reference for %s"
              "postgres credential references must use one Kubernetes Secret")
           ("", ∅) ((λ v, (v, v)) <$> managed_primitives);
    selected ← fold_result (select_login st.1) st.2 logins;
    let owner name primitive (m : gmap string KubernetesSecretKeyReference) :=
      match selected !! primitive with Some r => <[name := r]> m | None => m end in
    let selected := owner "PGPASSWORD" "POSTGRES_PASSWORD" (owner "PGUSER" "POSTGRES_USER" selected) in
    Ok {| StatefulSet := selectForWorkload selected ["POSTGRES_USER"; "POSTGRES_PASSWORD"];
          BootstrapJob := selectForWorkload selected
            (["POSTGRES_USER"; "POSTGRES_READ_ONLY_PASSWORD"; "POSTGRES_READ_WRITE_PASSWORD"]
             ++ (rl_passwordKey <$> logins) ++ ["PGUSER"; "PGPASSWORD"]) |}.
End references.

(** ** The parameters of the deployment's templates *)

Record DeploymentTemplateParameters := {
  WithBootstrap : bool;
  IsExternal : bool;                               (* [ExternalInstance] *)
  ExternalBindingID : string;
  ExternalHost : string;
  ExternalPort : Z;
  ExternalSSLMode : string;
  ReadOnlyRole : string;
  ReadWriteRole : string;
  ManagedImage : string;
  BootstrapJobName : string;
  DT_DatabaseName : string;
  BootstrapJobDeadlineSeconds : Z;
  StatefulSetSecretReferences : gmap string KubernetesSecretKeyReference;
  BootstrapJobSecretReferences : gmap string KubernetesSecretKeyReference;
  ServicePort : Z;
  OwnerFromLibpqEnvironment : bool;
  OwnerHost : string;
  OwnerPort : string;
  OwnerSSLMode : string;
}.

Definition initial_parameters (managedImage database : string) (deadline : Z) : DeploymentTemplateParameters := {|
  WithBootstrap := true; IsExternal := false; ExternalBindingID := ""; ExternalHost := ""; ExternalPort := 0;
  ExternalSSLMode := ""; ReadOnlyRole := ""; ReadWriteRole := ""; ManagedImage := managedImage;
  BootstrapJobName := ""; DT_DatabaseName := database; BootstrapJobDeadlineSeconds := deadline;
  StatefulSetSecretReferences := ∅; BootstrapJobSecretReferences := ∅; ServicePort := 0;
  OwnerFromLibpqEnvironment := false; OwnerHost := ""; OwnerPort := ""; OwnerSSLMode := "" |}.

Definition set_service_port (servicePort : Z) (p : DeploymentTemplateParameters) := {|
  WithBootstrap := WithBootstrap p; IsExternal := IsExternal p; ExternalBindingID := ExternalBindingID p;
  ExternalHost := ExternalHost p; ExternalPort := ExternalPort p; ExternalSSLMode := ExternalSSLMode p;
  ReadOnlyRole := ReadOnlyRole p; ReadWriteRole := ReadWriteRole p; ManagedImage := ManagedImage p;
  BootstrapJobName := BootstrapJobName p; DT_DatabaseName := DT_DatabaseName p;
  BootstrapJobDeadlineSeconds := BootstrapJobDeadlineSeconds p;
  StatefulSetSecretReferences := StatefulSetSecretReferences p;
  BootstrapJobSecretReferences := BootstrapJobSecretReferences p; ServicePort := servicePort;
  OwnerFromLibpqEnvironment := OwnerFromLibpqEnvironment p; OwnerHost := OwnerHost p; OwnerPort := OwnerPort p;
  OwnerSSLMode := OwnerSSLMode p |}.

Definition set_external (id host : string) (externalPort : Z) (sslMode readOnly readWrite : string)
    (p : DeploymentTemplateParameters) := {|
  WithBootstrap := WithBootstrap p; IsExternal := true; ExternalBindingID := id;
  ExternalHost := host; ExternalPort := externalPort; ExternalSSLMode := sslMode;
  ReadOnlyRole := readOnly; ReadWriteRole := readWrite; ManagedImage := ManagedImage p;
  BootstrapJobName := BootstrapJobName p; DT_DatabaseName := DT_DatabaseName p;
  BootstrapJobDeadlineSeconds := BootstrapJobDeadlineSeconds p;
  StatefulSetSecretReferences := StatefulSetSecretReferences p;
  BootstrapJobSecretReferences := BootstrapJobSecretReferences p; ServicePort := ServicePort p;
  OwnerFromLibpqEnvironment := OwnerFromLibpqEnvironment p; OwnerHost := OwnerHost p; OwnerPort := OwnerPort p;
  OwnerSSLMode := OwnerSSLMode p |}.

Definition set_references (references : promotableWorkloadSecretReferences) (p : DeploymentTemplateParameters) := {|
  WithBootstrap := WithBootstrap p; IsExternal := IsExternal p; ExternalBindingID := ExternalBindingID p;
  ExternalHost := ExternalHost p; ExternalPort := ExternalPort p; ExternalSSLMode := ExternalSSLMode p;
  ReadOnlyRole := ReadOnlyRole p; ReadWriteRole := ReadWriteRole p; ManagedImage := ManagedImage p;
  BootstrapJobName := BootstrapJobName p; DT_DatabaseName := DT_DatabaseName p;
  BootstrapJobDeadlineSeconds := BootstrapJobDeadlineSeconds p;
  StatefulSetSecretReferences := StatefulSet references;
  BootstrapJobSecretReferences := BootstrapJob references; ServicePort := ServicePort p;
  OwnerFromLibpqEnvironment := OwnerFromLibpqEnvironment p; OwnerHost := OwnerHost p; OwnerPort := OwnerPort p;
  OwnerSSLMode := OwnerSSLMode p |}.

Definition set_owner (host ownerPort sslMode : string) (p : DeploymentTemplateParameters) := {|
  WithBootstrap := WithBootstrap p; IsExternal := IsExternal p; ExternalBindingID := ExternalBindingID p;
  ExternalHost := ExternalHost p; ExternalPort := ExternalPort p; ExternalSSLMode := ExternalSSLMode p;
  ReadOnlyRole := ReadOnlyRole p; ReadWriteRole := ReadWriteRole p; ManagedImage := ManagedImage p;
  BootstrapJobName := BootstrapJobName p; DT_DatabaseName := DT_DatabaseName p;
  BootstrapJobDeadlineSeconds := BootstrapJobDeadlineSeconds p;
  StatefulSetSecretReferences := StatefulSetSecretReferences p;
  BootstrapJobSecretReferences := BootstrapJobSecretReferences p; ServicePort := ServicePort p;
  OwnerFromLibpqEnvironment := true; OwnerHost := host; OwnerPort := ownerPort; OwnerSSLMode := sslMode |}.

Definition set_job_name (name : string) (p : DeploymentTemplateParameters) := {|
  WithBootstrap := WithBootstrap p; IsExternal := IsExternal p; ExternalBindingID := ExternalBindingID p;
  ExternalHost := ExternalHost p; ExternalPort := ExternalPort p; ExternalSSLMode := ExternalSSLMode p;
  ReadOnlyRole := ReadOnlyRole p; ReadWriteRole := ReadWriteRole p; ManagedImage := ManagedImage p;
  BootstrapJobName := name; DT_DatabaseName := DT_DatabaseName p;
  BootstrapJobDeadlineSeconds := BootstrapJobDeadlineSeconds p;
  StatefulSetSecretReferences := StatefulSetSecretReferences p;
  BootstrapJobSecretReferences := BootstrapJobSecretReferences p; ServicePort := ServicePort p;
  OwnerFromLibpqEnvironment := OwnerFromLibpqEnvironment p; OwnerHost := OwnerHost p; OwnerPort := OwnerPort p;
  OwnerSSLMode := OwnerSSLMode p |}.

(** ** The name of the bootstrap Job *)

Fixpoint drop_byte (c : ascii) (l : list ascii) : list ascii :=
  match l with
  | c' :: l' => if decide (c' = c) then drop_byte c l' else l
  | [] => []
  end.
Definition trim_right (s : string) (c : ascii) : string :=
  of_bytes (reverse (drop_byte c (reverse (bytes s)))).

Definition suffixLength : nat := 12.
Definition maxServiceLength : Z := 63 - 1 - Z.of_nat suffixLength.

Definition job_service (service : string) : string :=
  if maxServiceLength <? len service
  then trim_right (of_bytes (take (Z.to_nat maxServiceLength) (bytes service))) "-"%char
  else service.

(** The service's name as core writes it for DNS, and the Job's pod template as the
    embedded template and the YAML library render it from the parameters. *)
Definition immutableBootstrapJobName (dns_name : string)
    (podTemplate : DeploymentTemplateParameters → result string) (parameters : DeploymentTemplateParameters) :
    result string :=
  _ ← guard_err (bool_decide (dns_name = "")) (ENew "bootstrap service name is required" []);
  template ← podTemplate parameters;
  Ok (job_service dns_name +:+ "-" +:+ of_bytes (take suffixLength (bytes (sha256_hex template)))).

(** ** Preparing and rendering *)

Record deployed_instance := {
  di_Hostname : string;
  di_Host : string;
  di_Port : Z;
  di_instance : NetworkInstance;
}.

(** What a request brings: its environment, its configuration, the instance core
    finds for the endpoint in its network mappings, the output profile as core
    parses it (whether it is restricted, or an error), and its Secret references. *)
Record DeploymentRequest := {
  dr_environment : string;
  dr_get : string → result string;
  dr_mapped : result deployed_instance;
  dr_profile : result bool;
  dr_references : gmap string KubernetesSecretKeyReference;
}.

(** What the preparation leaves for the render. *)
Record Deployment := {
  dp_parameters : DeploymentTemplateParameters;
  dp_secrets : list (string * string);
  dp_exported : list Configuration;
  dp_restricted : option Configuration;            (* [restrictedConfiguration] *)
}.

Definition on_parameters (f : DeploymentTemplateParameters → DeploymentTemplateParameters) (d : Deployment) :=
  {| dp_parameters := f (dp_parameters d); dp_secrets := dp_secrets d; dp_exported := dp_exported d;
     dp_restricted := dp_restricted d |}.
Definition AddSecrets (secrets : list (string * string)) (d : Deployment) :=
  {| dp_parameters := dp_parameters d; dp_secrets := dp_secrets d ++ secrets; dp_exported := dp_exported d;
     dp_restricted := dp_restricted d |}.
Definition export (c : Configuration) (d : Deployment) :=
  {| dp_parameters := dp_parameters d; dp_secrets := dp_secrets d; dp_exported := dp_exported d ++ [c];
     dp_restricted := dp_restricted d |}.
Definition keep_restricted (c : Configuration) (d : Deployment) :=
  {| dp_parameters := dp_parameters d; dp_secrets := dp_secrets d; dp_exported := dp_exported d;
     dp_restricted := Some c |}.

Definition restrictedOutput (profile : result bool) : bool :=
  match profile with Ok restricted => restricted | Err _ => true end.

Definition configurationValueByKey (c : Configuration) (key : string) : string :=
  match filter (λ v, cv_key v = key) (config_values c) with v :: _ => cv_value v | [] => "" end.

Record DeploymentResponse := { rs_success : bool; rs_configuration : option Configuration }.

Section deploy.
Context {u : Unicode} (s : Settings).
(** The service's unique name, its DNS name, its image, core's key of a service's
    secret, core's runtime context of an instance, and the public access. *)
Context (Unique dns_name managedImage publicAccess : string) (secretKey : string → string).
Context (RuntimeContextFromInstance : NetworkInstance → string).
Context (podTemplate : DeploymentTemplateParameters → result string).
(** Core's export of a configuration, and its render: it calls the preparation it is
    given and answers. *)
Context (ExportConfiguration : Configuration → result unit).
Context (DeployKustomize : io Deployment unit → io Deployment DeploymentResponse).

Definition deploymentWithSSL (binding : option ExternalInstance) : bool :=
  match binding with None => false | Some _ => negb (WithoutSSL s) end.

Definition deploymentNetworkInstance (rq : DeploymentRequest) : result (deployed_instance * option ExternalInstance) :=
  binding ← externalInstance s (dr_environment rq);
  match binding with
  | None => instance ← dr_mapped rq; Ok (instance, None)
  | Some binding =>
    let address := external_address binding in
    Ok ({| di_Hostname := EI_Host binding; di_Host := address; di_Port := port binding;
           di_instance := {| Address := address; Access := publicAccess |} |}, Some binding)
  end.

(** The parameters of the render that the binding decides. *)
Definition bind_parameters (environment : string) (instance : deployed_instance) (binding : option ExternalInstance) :
    io Deployment unit :=
  match binding with
  | None => io_modify (on_parameters (set_service_port (di_Port instance)))
  | Some binding =>
    _ ← io_guard (externalIdentity s)
          (ENew "external-instance deployment does not support auth-mode %q: managed bootstrap generation requires password authentication"
             [authModeExternalIdentity]);
    let '(readOnlyRole, readWriteRole) := runtimeRoleNames (DatabaseName s) in
    io_modify (on_parameters
      (set_external (externalBindingID environment binding) (EI_Host binding) (port binding)
         (if WithoutSSL s then "disable" else "prefer") readOnlyRole readWriteRole))
  end.

(** A restricted render: references only, and the owner through libpq's environment. *)
Definition prepare_restricted (rq : DeploymentRequest) (logins : list runtimeLogin)
    (instance : NetworkInstance) (binding : option ExternalInstance) : io Deployment Configuration :=
  let withSSL := deploymentWithSSL binding in
  let external := bool_decide (binding ≠ None) in
  references ← io_lift (selectPromotableSecretReferences s secretKey (dr_references rq) external logins);
  _ ← io_modify (on_parameters (set_references references));
  _ ← (if negb external && negb (externalIdentity s) then
         '(host, ownerPort) ← io_lift (wrap_err "postgres in-cluster address %q: %w" [Address instance]
                                         (SplitHostPort (Address instance)));
         io_modify (on_parameters (set_owner host ownerPort (postgresSSLMode (Address instance) withSSL)))
       else mret tt);
  mret (promotableConnectionConfiguration Unique RuntimeContextFromInstance s instance withSSL).

(** A render for one ephemeral environment: the values themselves. *)
Definition prepare_ephemeral (rq : DeploymentRequest) (logins : list runtimeLogin)
    (instance : NetworkInstance) (binding : option ExternalInstance) : io Deployment Configuration :=
  let withSSL := deploymentWithSSL binding in
  configuration ← io_lift (CreateConnectionConfiguration Unique RuntimeContextFromInstance (dr_get rq) "" s
                             instance withSSL);
  ownerConnection ← io_lift (createOwnerConnectionString (dr_get rq) "" s (Address instance) withSSL);
  c ← io_lift (LoadConfiguration (dr_get rq) "" s);
  _ ← io_modify (AddSecrets
        [("POSTGRES_USER", postgresUser c); ("POSTGRES_PASSWORD", postgresPassword c);
         ("POSTGRES_DB", DatabaseName s); ("POSTGRES_READ_ONLY_PASSWORD", readOnlyPassword c);
         ("POSTGRES_READ_WRITE_PASSWORD", readWritePassword c);
         (migrationConnectionEnvironmentKey, ownerConnection)]);
  _ ← io_modify (AddSecrets ((λ l, (rl_passwordKey l, login_password c l)) <$> logins));
  _ ← (match binding with
       | Some _ => io_modify (AddSecrets
           [("PGUSER", postgresUser c); ("PGPASSWORD", postgresPassword c);
            (externalReadOnlyConnectionKey, configurationValueByKey configuration readOnlyConnectionKey);
            (externalReadWriteConnectionKey, configurationValueByKey configuration readWriteConnectionKey)])
       | None => mret tt
       end);
  mret configuration.

Definition prepareDeployment (rq : DeploymentRequest) : io Deployment Configuration :=
  logins ← io_lift (resolveRuntimeLogins s);
  '(instance, binding) ← io_lift (deploymentNetworkInstance rq);
  _ ← bind_parameters (dr_environment rq) instance binding;
  if restrictedOutput (dr_profile rq)
  then prepare_restricted rq logins (di_instance instance) binding
  else prepare_ephemeral rq logins (di_instance instance) binding.

(** The [Prepare] of the deployment that [Deploy] hands to core. *)
Definition Prepare (rq : DeploymentRequest) : io Deployment unit :=
  configuration ← prepareDeployment rq;
  d ← io_get;
  bootstrapJobName ← io_lift (immutableBootstrapJobName dns_name podTemplate (dp_parameters d));
  _ ← io_modify (on_parameters (set_job_name bootstrapJobName));
  if restrictedOutput (dr_profile rq) then io_modify (keep_restricted configuration)
  else
    _ ← io_modify (export configuration);
    io_lift (ExportConfiguration configuration).

Definition Deploy (rq : DeploymentRequest) : io Deployment DeploymentResponse :=
  _ ← io_lift (Timeouts.validate (STimeouts s));
  _ ← io_put {| dp_parameters := initial_parameters managedImage (DatabaseName s)
                                   (BootstrapJobSeconds (STimeouts s));
                dp_secrets := []; dp_exported := []; dp_restricted := None |};
  response ← DeployKustomize (Prepare rq);
  d ← io_get;
  match dp_restricted d with
  | Some configuration =>
    if rs_success response
    then mret {| rs_success := true; rs_configuration := Some configuration |}
    else mret response
  | None => mret response
  end.
End deploy.

(** ** Selecting references *)

Lemma inserted_lookup {A} (f : string → A) (vs : list string) (m : gmap string A) v :
  foldl (λ m v, <[v := f v]> m) m vs !! v = if decide (v ∈ vs) then Some (f v) else m !! v.
Proof.
  revert m. induction vs as [|w vs IH]; intros m; cbn [foldl]; [by rewrite decide_False by set_solver|].
  rewrite IH. destruct (decide (v ∈ vs)) as [Hv|Hv]; [by rewrite decide_True by set_solver|].
  destruct (decide (w = v)) as [->|Hne].
  - by rewrite lookup_insert_eq, decide_True by set_solver.
  - rewrite lookup_insert_ne by done. by rewrite decide_False by set_solver.
Qed.

Lemma selectForWorkload_lookup selected vs v :
  selectForWorkload selected vs !! v = if decide (v ∈ vs) then selected !! v else None.
Proof.
  unfold selectForWorkload.
  cut (∀ m : gmap string KubernetesSecretKeyReference, foldl (λ references v, match selected !! v with
                                   | Some reference => <[v := reference]> references
                                   | None => references
                                   end) m vs !! v =
            if decide (v ∈ vs) then match selected !! v with Some r => Some r | None => m !! v end else m !! v).
  { intros ->. case_decide; [|done]. by destruct (selected !! v). }
  induction vs as [|w vs IH]; intros m; cbn [foldl]; [by rewrite decide_False by set_solver|].
  rewrite IH. destruct (decide (v ∈ vs)) as [Hv|Hv].
  - rewrite (decide_True (P := v ∈ w :: vs)) by set_solver. destruct (selected !! v) eqn:Ev; [done|].
    destruct (selected !! w) eqn:Ew; [|done]. rewrite lookup_insert_ne; [done|]. intros ->. congruence.
  - destruct (decide (w = v)) as [->|Hne].
    + rewrite decide_True by set_solver. destruct (selected !! v); [by rewrite lookup_insert_eq|done].
    + rewrite decide_False by set_solver. destruct (selected !! w); [by rewrite lookup_insert_ne|done].
Qed.
Section selection.
Context (secretKey : string → string) (configured : gmap string KubernetesSecretKeyReference).

Definition referenced (v : string) : option KubernetesSecretKeyReference := usable (configured !! secretKey v).

(** The variable is configured with a reference into [secret] that must resolve. *)
Definition held (secret v : string) : Prop :=
  ∃ r, referenced v = Some r ∧ kr_Optional r = false ∧ kr_Name r = secret.

Lemma usable_named o r : usable o = Some r → kr_Name r ≠ "" ∧ kr_Key r ≠ "".
Proof. unfold usable. destruct o; [|done]. do 2 case_bool_decide; naive_solver. Qed.

Definition selected_items (m : gmap string KubernetesSecretKeyReference) (items : list (string * string)) :
    gmap string KubernetesSecretKeyReference :=
  foldl (λ m item, match referenced item.2 with Some r => <[item.1 := r]> m | None => m end) m items.

Lemma require_reference_ok missing several st item st' :
  require_reference secretKey configured missing several st item = Ok st' ↔
  ∃ r, referenced item.2 = Some r ∧ kr_Optional r = false ∧ (st.1 = "" ∨ st.1 = kr_Name r) ∧
       st' = (kr_Name r, <[item.1 := r]> st.2).
Proof.
  unfold require_reference. destruct item as [v k]. simpl. fold (referenced k).
  destruct (referenced k) as [r|]; [|naive_solver]. destruct (kr_Optional r) eqn:E; simpl.
  { split; [discriminate|]. intros (? & [= <-] & H & _). congruence. }
  rewrite bind_ok. setoid_rewrite guard_ok. split.
  - intros ([] & H & [= <-]). exists r. split_and!; try done.
    apply andb_false_iff in H as [H|H]; apply bool_decide_eq_false in H; apply dec_stable in H; auto.
  - intros (? & [= <-] & _ & H & ->). exists tt. split; [|done]. apply andb_false_iff.
    rewrite !bool_decide_eq_false. destruct H as [ -> | -> ]; [left|right]; by intros ?.
Qed.

Lemma require_rest missing several secret m items st : secret ≠ "" →
  fold_result (require_reference secretKey configured missing several) (secret, m) items = Ok st ↔
  Forall (held secret ∘ snd) items ∧ st = (secret, selected_items m items).
Proof.
  intros Hs. revert m. induction items as [|item items IH]; intros m; simpl.
  { split; [intros [= <-]; by split|]. by intros [_ ->]. }
  rewrite bind_ok, Forall_cons. setoid_rewrite require_reference_ok. simpl. split.
  - intros (? & (r & Hr & Ho & Hn & ->) & H). destruct Hn as [ -> | -> ]; [done|].
    apply IH in H as [? ->]. rewrite Hr. split_and!; [|done..]. by exists r.
  - intros [[(r & Hr & Ho & <-) Hall] ->]. eexists. split; [exists r; by eauto|].
    apply IH. rewrite Hr. done.
Qed.

Lemma require_all missing several items st : items ≠ [] →
  fold_result (require_reference secretKey configured missing several) ("", ∅) items = Ok st ↔
  st.1 ≠ "" ∧ Forall (held st.1 ∘ snd) items ∧ st.2 = selected_items ∅ items.
Proof.
  destruct items as [|item items]; [done|]. intros _. simpl. rewrite bind_ok.
  setoid_rewrite require_reference_ok. rewrite Forall_cons. simpl. destruct st as [secret m]. simpl. split.
  - intros (? & (r & Hr & Ho & _ & ->) & H).
    apply require_rest in H as [? [= -> ->]]; [|apply (usable_named _ _ Hr)].
    rewrite Hr. split_and!; try done; [apply (usable_named _ _ Hr)|by exists r].
  - intros (Hs & [(r & Hr & Ho & <-) Hall] & ->). eexists. split; [exists r; by eauto|].
    apply require_rest; [done|]. rewrite Hr. done.
Qed.

(** What a login's password is referenced as, given the Secret in use. *)
Definition login_reference (secret v : string) : KubernetesSecretKeyReference :=
  default {| kr_Name := secret; kr_Key := secretKey v; kr_Optional := false |} (referenced v).

Definition login_held (secret v : string) : Prop := referenced v = None ∨ held secret v.

Lemma select_login_ok secret m l m' :
  select_login secretKey configured secret m l = Ok m' ↔
  login_held secret (rl_passwordKey l) ∧
  m' = <[rl_passwordKey l := login_reference secret (rl_passwordKey l)]> m.
Proof.
  unfold select_login, loginPasswordSecretReference, login_reference, login_held, held.
  fold (referenced (rl_passwordKey l)).
  destruct (referenced (rl_passwordKey l)) as [r|]; simpl; [|naive_solver].
  split.
  - intros H. res_inv. split; [right|done]. eexists. split_and!; [done..|]. by apply dec_stable.
  - intros [[?|(? & [= <-] & -> & <-)] ->]; [done|]. simpl. by rewrite bool_decide_eq_false_2 by auto.
Qed.

Definition with_logins (secret : string) (m : gmap string KubernetesSecretKeyReference) (keys : list string) :
    gmap string KubernetesSecretKeyReference :=
  foldl (λ m v, <[v := login_reference secret v]> m) m keys.

Lemma select_logins_ok secret m logins m' :
  fold_result (select_login secretKey configured secret) m logins = Ok m' ↔
  Forall (login_held secret ∘ rl_passwordKey) logins ∧
  m' = with_logins secret m (rl_passwordKey <$> logins).
Proof.
  revert m. induction logins as [|l logins IH]; intros m; simpl.
  { split; [intros [= <-]; by split|]. by intros [_ ->]. }
  rewrite bind_ok, Forall_cons. setoid_rewrite select_login_ok. setoid_rewrite IH. split.
  - by intros (? & [? ->] & ? & ->).
  - intros [[? ?] ->]. by eexists.
Qed.

End selection.

(** What the Secret [secret] offers the environment variable [v] of the bootstrap
    Job and of the StatefulSet of a managed database. *)
Definition managed_job_reference (referenced : string → option KubernetesSecretKeyReference)
    (login_reference : string → KubernetesSecretKeyReference) (login_keys : list string) (v : string) :
    option KubernetesSecretKeyReference :=
  if decide (v = "PGUSER") then referenced "POSTGRES_USER"
  else if decide (v = "PGPASSWORD") then referenced "POSTGRES_PASSWORD"
  else if decide (v ∈ ["POSTGRES_USER"; "POSTGRES_READ_ONLY_PASSWORD"; "POSTGRES_READ_WRITE_PASSWORD"])
       then referenced v
  else if decide (v ∈ login_keys) then Some (login_reference v) else None.

Lemma login_keys_apart {u : Unicode} `{!UnicodeLaws u} s logins v :
  resolveRuntimeLogins s = Ok logins →
  v ∈ ["PGUSER"; "PGPASSWORD"; "POSTGRES_USER"; "POSTGRES_PASSWORD"; "POSTGRES_READ_ONLY_PASSWORD";
       "POSTGRES_READ_WRITE_PASSWORD"] → v ∉ rl_passwordKey <$> logins.
Proof.
  intros (_ & _ & Hall & _)%resolveRuntimeLogins_inv Hv (l & -> & Hl)%list_elem_of_fmap.
  rewrite Forall_forall in Hall. specialize (Hall l Hl).
  pose proof (resolved_password_managed (DatabaseName s) l Hall) as Hm.
  destruct Hall as [Hname _ _ _ Hkey _ _]. rewrite Hkey in Hv, Hm.
  assert (Hlen : 18 ≤ len (login_key (rl_name l))).
  { unfold login_key. rewrite !len_app. assert (len "POSTGRES_" = 9) by (by vm_compute).
    assert (len "_PASSWORD" = 9) by (by vm_compute).
    pose proof (len_nonneg (map_bytes upper_byte (login_slug (rl_name l)))). lia. }
  rewrite !elem_of_cons in Hv. destruct Hv as [E|[E|[E|[E|[E|[E|?%not_elem_of_nil]]]]]]; [..|done];
    try (exfalso; rewrite E in Hlen; apply Hlen; vm_compute; reflexivity); apply Hm; rewrite E; set_solver.
Qed.

Lemma selected_items_lookup secretKey configured secret m items v :
  NoDup items.*1 → Forall (held secretKey configured secret ∘ snd) items →
  selected_items secretKey configured m items !! v =
  match (list_to_map items : gmap string string) !! v with
  | Some k => referenced secretKey configured k
  | None => m !! v
  end.
Proof.
  revert m. induction items as [|[w k] items IH]; intros m Hnd Hall; [done|].
  apply Forall_cons in Hall as [(r & Hr & _) Hall]. apply NoDup_cons in Hnd as [Hw Hnd].
  cbn [selected_items foldl fst snd list_to_map foldr]. simpl in Hr. rewrite Hr.
  fold (selected_items secretKey configured (<[w:=r]> m) items). rewrite IH by done.
  destruct (decide (w = v)) as [->|Hne].
  - rewrite (not_elem_of_list_to_map_1 _ _ Hw), !lookup_insert_eq. done.
  - rewrite !lookup_insert_ne by done. done.
Qed.

Lemma references_ext (a b : promotableWorkloadSecretReferences) :
  (∀ v, StatefulSet a !! v = StatefulSet b !! v) → (∀ v, BootstrapJob a !! v = BootstrapJob b !! v) → a = b.
Proof. destruct a, b. simpl. intros H1 H2. f_equal; by apply map_eq. Qed.

Section references_theorem.
Context {u : Unicode} `{!UnicodeLaws u} (s : Settings) (secretKey : string → string).
Context (configured : gmap string KubernetesSecretKeyReference) (logins : list runtimeLogin).
Hypothesis resolved : resolveRuntimeLogins s = Ok logins.
Let keys := rl_passwordKey <$> logins.
Let offered := referenced secretKey configured.

(** The references a managed database's render carries, as the code assembles them. *)
Definition managed_references (secret : string) : promotableWorkloadSecretReferences :=
  let selected := with_logins secretKey configured secret
                    (selected_items secretKey configured ∅ ((λ v, (v, v)) <$> managed_primitives)) keys in
  let owner name primitive (m : gmap string KubernetesSecretKeyReference) :=
    match selected !! primitive with Some r => <[name := r]> m | None => m end in
  let selected := owner "PGPASSWORD" "POSTGRES_PASSWORD" (owner "PGUSER" "POSTGRES_USER" selected) in
  {| StatefulSet := selectForWorkload selected ["POSTGRES_USER"; "POSTGRES_PASSWORD"];
     BootstrapJob := selectForWorkload selected
       (["POSTGRES_USER"; "POSTGRES_READ_ONLY_PASSWORD"; "POSTGRES_READ_WRITE_PASSWORD"]
        ++ keys ++ ["PGUSER"; "PGPASSWORD"]) |}.

Lemma managed_selected secret v :
  Forall (held secretKey configured secret) managed_primitives →
  with_logins secretKey configured secret
    (selected_items secretKey configured ∅ ((λ v, (v, v)) <$> managed_primitives)) keys !! v =
  if decide (v ∈ keys) then Some (login_reference secretKey configured secret v)
  else if decide (v ∈ managed_primitives) then offered v else None.
Proof.
  intros Hall. unfold with_logins. rewrite inserted_lookup. case_decide; [done|].
  rewrite (selected_items_lookup _ _ secret); [| |by apply Forall_fmap; eapply Forall_impl; [exact Hall|]].
  - unfold managed_primitives. cbn [fmap list_fmap list_to_map foldr fst snd].
    repeat (match goal with |- context [<[?k := _]> _ !! v] =>
      destruct (decide (k = v)) as [<-|?]; [rewrite lookup_insert_eq, decide_True by set_solver; done|
                                             rewrite lookup_insert_ne by done] end).
    rewrite lookup_empty, lookup_empty. rewrite decide_False by set_solver. done.
  - rewrite <-list_fmap_compose. refine (bool_decide_unpack (NoDup _) _). vm_compute. exact I.
Qed.

Lemma managed_StatefulSet secret v :
  Forall (held secretKey configured secret) managed_primitives →
  StatefulSet (managed_references secret) !! v =
  if decide (v ∈ ["POSTGRES_USER"; "POSTGRES_PASSWORD"]) then offered v else None.
Proof.
  intros Hall. unfold managed_references. cbn [StatefulSet]. rewrite selectForWorkload_lookup.
  case_decide as Hv; [|done].
  assert (Hne : "PGUSER" ≠ v ∧ "PGPASSWORD" ≠ v) by (set_solver).
  assert (Hm : with_logins secretKey configured secret
    (selected_items secretKey configured ∅ ((λ v, (v, v)) <$> managed_primitives)) keys !! v = offered v).
  { rewrite managed_selected by done. rewrite decide_False, decide_True; [done|unfold managed_primitives; set_solver|].
    apply (login_keys_apart s); [done|set_solver]. }
  by repeat case_match; rewrite ?lookup_insert_ne by tauto.
Qed.

Lemma managed_BootstrapJob secret v :
  Forall (held secretKey configured secret) managed_primitives →
  BootstrapJob (managed_references secret) !! v =
  managed_job_reference offered (login_reference secretKey configured secret) keys v.
Proof.
  intros Hall. unfold managed_references, managed_job_reference. cbn [BootstrapJob].
  rewrite selectForWorkload_lookup.
  assert (Hm := λ v, managed_selected secret v Hall).
  assert (Hp : ∀ v, v ∈ managed_primitives → v ∉ keys ∧ is_Some (offered v)).
  { intros w Hw. split; [apply (login_keys_apart s); [done|unfold managed_primitives in *; set_solver]|].
    rewrite Forall_forall in Hall. destruct (Hall w Hw) as (r & Hr & _). by exists r. }
  assert (Hk := λ v Hv, login_keys_apart s logins v resolved Hv). fold keys in Hk.
  assert (Ho : ∀ w, w ∈ managed_primitives →
    with_logins secretKey configured secret
      (selected_items secretKey configured ∅ ((λ v, (v, v)) <$> managed_primitives)) keys !! w = offered w).
  { intros w Hw. rewrite Hm, decide_False, decide_True; [done..|]. by apply Hp. }
  rewrite !Ho by (unfold managed_primitives; set_solver).
  destruct (Hp "POSTGRES_USER") as [_ [ru Hu]]; [unfold managed_primitives; set_solver|].
  destruct (Hp "POSTGRES_PASSWORD") as [_ [rp Hpw]]; [unfold managed_primitives; set_solver|].
  rewrite Hu, Hpw.
  destruct (decide (v = "PGUSER")) as [->|Hn1].
  { rewrite decide_True by set_solver. rewrite lookup_insert_ne by done. by rewrite lookup_insert_eq. }
  destruct (decide (v = "PGPASSWORD")) as [->|Hn2].
  { rewrite decide_True by set_solver. by rewrite lookup_insert_eq. }
  rewrite !lookup_insert_ne by done.
  destruct (decide (v ∈ ["POSTGRES_USER"; "POSTGRES_READ_ONLY_PASSWORD"; "POSTGRES_READ_WRITE_PASSWORD"])) as [Hv|Hv].
  { rewrite decide_True by set_solver. apply Ho. unfold managed_primitives. set_solver. }
  destruct (decide (v ∈ keys)) as [Hv'|Hv'].
  - rewrite decide_True by set_solver. by rewrite Hm, decide_True.
  - by rewrite decide_False by set_solver.
Qed.

Lemma select_managed refs :
  validateAuthMode s = Ok tt → externalIdentity s = false →
  selectPromotableSecretReferences s secretKey configured false logins = Ok refs ↔
  ∃ secret, secret ≠ "" ∧ Forall (held secretKey configured secret) managed_primitives ∧
    Forall (login_held secretKey configured secret) keys ∧ refs = managed_references secret.
Proof.
  intros Ha He. unfold selectPromotableSecretReferences. rewrite Ha, He. cbn [mbind result_bind].
  split.
  - intros H. apply bind_ok in H as ([secret m] & H1 & H). apply bind_ok in H as (selected & H2 & H).
    injection H as <-. apply require_all in H1 as (Hs & Hall & Em); [|done]. simpl in *. subst m.
    apply select_logins_ok in H2 as [Hl ->]. exists secret. split_and!; [done| | |done].
    + apply Forall_fmap in Hall. eapply Forall_impl; [exact Hall|]. done.
    + by apply Forall_fmap.
  - intros (secret & Hs & Hall & Hl & ->). apply bind_ok.
    exists (secret, selected_items secretKey configured ∅ ((λ v, (v, v)) <$> managed_primitives)). split.
    + apply require_all; [done|]. split_and!; [done| |done].
      apply Forall_fmap. eapply Forall_impl; [exact Hall|]. done.
    + apply bind_ok. eexists. split; [|reflexivity]. apply select_logins_ok. by split; [apply Forall_fmap|].
Qed.
End references_theorem.

Lemma held_reference secretKey configured secret v ref :
  held secretKey configured secret v → referenced secretKey configured v = Some ref →
  kr_Optional ref = false ∧ kr_Name ref = secret.
Proof. intros (r & -> & ? & ?) [= <-]. done. Qed.

Lemma managed_one_secret {u : Unicode} `{!UnicodeLaws u} s secretKey configured logins secret v ref :
  resolveRuntimeLogins s = Ok logins →
  Forall (held secretKey configured secret) managed_primitives →
  Forall (login_held secretKey configured secret) (rl_passwordKey <$> logins) →
  StatefulSet (managed_references secretKey configured logins secret) !! v = Some ref ∨
  BootstrapJob (managed_references secretKey configured logins secret) !! v = Some ref →
  kr_Optional ref = false ∧ kr_Name ref = secret.
Proof.
  intros Hl Hall Hlog.
  assert (Hp : ∀ v ref, v ∈ managed_primitives → referenced secretKey configured v = Some ref →
               kr_Optional ref = false ∧ kr_Name ref = secret).
  { rewrite Forall_forall in Hall. intros w r Hw. by apply held_reference, Hall. }
  rewrite (managed_StatefulSet s secretKey configured logins Hl) by done.
  rewrite (managed_BootstrapJob s secretKey configured logins Hl) by done.
  unfold managed_job_reference. intros [Hr|Hr].
  { case_decide; [|done]. eapply Hp; [|exact Hr]. unfold managed_primitives. set_solver. }
  case_decide; [eapply Hp; [|exact Hr]; unfold managed_primitives; set_solver|].
  case_decide; [eapply Hp; [|exact Hr]; unfold managed_primitives; set_solver|].
  case_decide; [eapply Hp; [|exact Hr]; unfold managed_primitives; set_solver|].
  case_decide as Hv; [|done]. injection Hr as <-. rewrite Forall_forall in Hlog.
  unfold login_reference. destruct (Hlog v Hv) as [->|Hh]; [done|].
  destruct Hh as (r & -> & ? & ?). done.
Qed.

Lemma selected_from_one_secret {u : Unicode} `{!UnicodeLaws u} s secretKey configured external logins refs :
  resolveRuntimeLogins s = Ok logins →
  selectPromotableSecretReferences s secretKey configured external logins = Ok refs →
  ∃ secret, ∀ v ref, StatefulSet refs !! v = Some ref ∨ BootstrapJob refs !! v = Some ref →
    kr_Optional ref = false ∧ kr_Name ref = secret.
Proof.
  intros Hl H. pose proof H as Hsel. unfold selectPromotableSecretReferences in H.
  apply bind_ok in H as ([] & Ha & H). destruct (externalIdentity s) eqn:He.
  { injection H as <-. exists "". intros v ref. cbn. rewrite lookup_empty. naive_solver. }
  destruct external.
  - unfold selectExternalSecretReferences in H. apply bind_ok in H as (st & H1 & H). injection H as <-.
    apply require_all in H1 as (Hs & Hall & Em); [|done]. exists st.1. intros v ref [Hr|Hr]; [done|].
    cbn [BootstrapJob] in Hr. rewrite Em, (selected_items_lookup _ _ st.1) in Hr by
      (done || (refine (bool_decide_unpack (NoDup _) _); vm_compute; exact I)).
    destruct (list_to_map external_required !! v) as [k|] eqn:Ek; [|done].
    apply elem_of_list_to_map_2 in Ek. rewrite Forall_forall in Hall.
    by apply (held_reference _ _ _ _ _ (Hall _ Ek)).
  - apply (select_managed s secretKey configured logins) in Hsel as (secret & Hs & Hall & Hlog & ->); [|done..].
    exists secret. intros v ref. by apply (managed_one_secret s).
Qed.

(** C24: which Secret references a portable render carries.  For a managed database a
    selection exists exactly when one Secret holds, not optionally, the four
    primitives and every login password that is configured at all; the StatefulSet
    then gets the owner's user and password only, and the bootstrap Job exactly its
    own variables, all of them from that Secret and none optional, each with the
    reference configured for it (the owner's under libpq's names too, an
    unconfigured login password derived in the same Secret).
    For an external instance it gets exactly the seven required ones, from one
    Secret, and nothing is derived.  In external-identity mode there is none. *)
Theorem promotable_references {u : Unicode} `{!UnicodeLaws u} s secretKey configured logins :
  validateAuthMode s = Ok tt → resolveRuntimeLogins s = Ok logins →
  let keys := rl_passwordKey <$> logins in
  let offered := referenced secretKey configured in
  let select external := selectPromotableSecretReferences s secretKey configured external logins in
  (externalIdentity s = false →
     ((∃ refs, select false = Ok refs) ↔
        ∃ secret, secret ≠ "" ∧ Forall (held secretKey configured secret) managed_primitives ∧
                  Forall (login_held secretKey configured secret) keys) ∧
     (∀ refs, select false = Ok refs → ∃ secret, secret ≠ "" ∧
        Forall (held secretKey configured secret) managed_primitives ∧
        Forall (login_held secretKey configured secret) keys ∧
        (∀ v ref, StatefulSet refs !! v = Some ref ∨ BootstrapJob refs !! v = Some ref →
           kr_Optional ref = false ∧ kr_Name ref = secret) ∧
        (∀ v, StatefulSet refs !! v =
              if decide (v ∈ ["POSTGRES_USER"; "POSTGRES_PASSWORD"]) then offered v else None) ∧
        (∀ v, BootstrapJob refs !! v =
              managed_job_reference offered (login_reference secretKey configured secret) keys v)) ∧
     (∀ refs, select true = Ok refs ↔
        StatefulSet refs = ∅ ∧
        (∃ secret, secret ≠ "" ∧ Forall (held secretKey configured secret ∘ snd) external_required) ∧
        (∀ v, BootstrapJob refs !! v = (list_to_map external_required : gmap string string) !! v ≫= offered))) ∧
  (externalIdentity s = true → ∀ external, select external = Ok {| StatefulSet := ∅; BootstrapJob := ∅ |}).
Proof.
  intros Ha Hl keys offered select. split.
  2:{ intros He external. unfold select, selectPromotableSecretReferences. by rewrite Ha, He. }
  intros He. split_and!.
  - split.
    + intros [refs Hr]. apply (select_managed s secretKey configured logins) in Hr as (secret & ? & ? & ? & _); eauto.
    + intros (secret & ? & ? & ?). eexists. apply (select_managed s secretKey configured logins); eauto 10.
  - intros refs Hr. apply (select_managed s secretKey configured logins) in Hr as (secret & ? & ? & ? & ->); [|done..].
    exists secret. split_and!; [done..| | |].
    + intros v ref. by apply (managed_one_secret s).
    + intros v. by apply (managed_StatefulSet s secretKey configured logins Hl).
    + intros v. by apply (managed_BootstrapJob s secretKey configured logins Hl).
  - assert (Hext : ∀ secret v, Forall (held secretKey configured secret ∘ snd) external_required →
      selected_items secretKey configured ∅ external_required !! v =
      (list_to_map external_required : gmap string string) !! v ≫= offered).
    { intros secret v Hall. rewrite (selected_items_lookup _ _ secret) by
        (done || (refine (bool_decide_unpack (NoDup _) _); vm_compute; exact I)).
      case_match; [done|by rewrite lookup_empty]. }
    intros refs. unfold select, selectPromotableSecretReferences. rewrite Ha, He. cbn [mbind result_bind].
    unfold selectExternalSecretReferences. rewrite bind_ok. split.
    + intros ([secret m] & (Hs & Hall & Em)%require_all & [= <-]); [|done]. simpl in *. subst m.
      split_and!; [done|by exists secret|]. intros v. by apply (Hext secret).
    + intros (E1 & (secret & Hs & Hall) & E2).
      exists (secret, selected_items secretKey configured ∅ external_required). split.
      * apply require_all; [done|]. by split_and!.
      * f_equal. apply references_ext; intros v; cbn [StatefulSet BootstrapJob]; [by rewrite E1|].
        by rewrite E2; apply (Hext secret).
Qed.

(** ** External instances *)

Definition uint16 (z : Z) : Prop := 0 ≤ z < 65536.

(** What makes a binding the environment's: its host is one word without scheme,
    port or path, and it names the declared database and delegated roles. *)
Definition bindable {u : Unicode} (s : Settings) (environment : string) (b : ExternalInstance) : Prop :=
  blank environment = false ∧ ExternalInstances s !! environment = Some b ∧
  EI_Host b ≠ "" ∧ refused_host (EI_Host b) = false ∧ EI_DatabaseName b = DatabaseName s ∧
  let '(ro, rw) := runtimeRoleNames (DatabaseName s) in
  ∃ roles, normalizedRuntimeReadWriteRoles (RuntimeReadWriteRoles s) [ro; rw] = Ok roles ∧
           normalizedRuntimeReadWriteRoles (EI_RuntimeReadWriteRoles b) [ro; rw] = Ok roles.

Lemma externalInstance_bound {u : Unicode} s environment b :
  externalInstance s environment = Ok (Some b) ↔ bindable s environment b.
Proof.
  unfold externalInstance, bindable. case_bool_decide as He.
  { rewrite He, lookup_empty. split; [done|]. by intros (_ & ? & _). }
  destruct (runtimeRoleNames (DatabaseName s)) as [ro rw]. split.
  - intros H. res_inv. destruct (ExternalInstances s !! environment) as [b'|] eqn:E; [|done]. res_inv.
    repeat match goal with H : ¬ _ ≠ _ |- _ => apply dec_stable in H end. subst.
    split_and!; try done. eexists. split; done.
  - intros (Hb & -> & Hh & Hr & Hd & roles & H1 & H2). rewrite Hb. cbn [guard_err mbind result_bind].
    rewrite (bool_decide_eq_false_2 _ Hh), Hr, (bool_decide_eq_false_2 (_ ≠ DatabaseName s)) by (by intros ?).
    cbn [guard_err mbind result_bind]. rewrite H1, H2. cbn [wrap_err mbind result_bind].
    by rewrite bool_decide_eq_false_2 by (by intros ?).
Qed.

(** The text an external binding is identified by. *)
Definition binding_identity (environment : string) (b : ExternalInstance) : string :=
  join nul [environment; EI_Host b; itoa_nat (port b); EI_DatabaseName b; join nul (EI_RuntimeReadWriteRoles b)].

Definition binding_fields (environment : string) (b : ExternalInstance) : list string :=
  [environment; EI_Host b; itoa_nat (port b); EI_DatabaseName b] ++
  match EI_RuntimeReadWriteRoles b with [] => [""] | roles => roles end.

Definition binding_nul_free (environment : string) (b : ExternalInstance) : Prop :=
  Forall nul_free (environment :: EI_Host b :: EI_DatabaseName b :: EI_RuntimeReadWriteRoles b).

Lemma binding_identity_fields environment b : binding_identity environment b = join nul (binding_fields environment b).
Proof. unfold binding_identity, binding_fields. by destruct (EI_RuntimeReadWriteRoles b). Qed.

Lemma port_range b : uint16 (EI_Port b) → 1 ≤ port b ≤ 65535.
Proof. unfold uint16, port. case_match eqn:E; lia. Qed.

Lemma binding_identity_inj environment b environment' b' :
  uint16 (EI_Port b) → uint16 (EI_Port b') → binding_nul_free environment b → binding_nul_free environment' b' →
  "" ∉ EI_RuntimeReadWriteRoles b → "" ∉ EI_RuntimeReadWriteRoles b' →
  binding_identity environment b = binding_identity environment' b' →
  environment = environment' ∧ EI_Host b = EI_Host b' ∧ port b = port b' ∧
  EI_DatabaseName b = EI_DatabaseName b' ∧ EI_RuntimeReadWriteRoles b = EI_RuntimeReadWriteRoles b'.
Proof.
  intros Hp Hp' Hn Hn' Hr Hr' E. rewrite !binding_identity_fields in E.
  assert (Hfree : ∀ e b, uint16 (EI_Port b) → binding_nul_free e b → Forall (λ s, chr 0 ∉ bytes s) (binding_fields e b)).
  { intros e c Hc Hf. unfold binding_nul_free in Hf. rewrite !Forall_cons in Hf.
    destruct Hf as (He & Hh & Hd & Hroles). unfold binding_fields. cbn [app].
    assert (Hdec : chr 0 ∉ bytes (itoa_nat (port c))).
    { destruct (itoa_nat_spec (port c)) as [Hi _]; [pose proof (port_range c Hc); lia|].
      by apply (all_bytes_not_in _ _ _ Hi). }
    rewrite !Forall_cons. split_and!; try done.
    destruct (EI_RuntimeReadWriteRoles c); [|done]. apply Forall_singleton. apply not_elem_of_nil. }
  assert (Hne : ∀ e c, binding_fields e c ≠ []) by (unfold binding_fields; intros ???; discriminate).
  pose proof (split_on_join (chr 0) _ (Hne _ _) (Hfree _ _ Hp Hn)) as E1.
  pose proof (split_on_join (chr 0) _ (Hne _ _) (Hfree _ _ Hp' Hn')) as E2.
  change (String.String (chr 0) "") with nul in E1, E2. rewrite E, E2 in E1.
  unfold binding_fields in E1. cbn [app] in E1. injection E1 as E1 E3 Hport E4 Hroles. split_and!; try done.
  - apply itoa_nat_inj; [pose proof (port_range b Hp); lia|pose proof (port_range b' Hp'); lia|done].
  - destruct (EI_RuntimeReadWriteRoles b), (EI_RuntimeReadWriteRoles b'); set_solver.
Qed.

Lemma bindable_roles {u : Unicode} s environment b : bindable s environment b → "" ∉ EI_RuntimeReadWriteRoles b.
Proof.
  intros (_ & _ & _ & _ & _ & H) Hin. destruct (runtimeRoleNames (DatabaseName s)) as [ro rw].
  destruct H as (roles & _ & [Hall _]%normalizedRuntimeReadWriteRoles_ok).
  rewrite Forall_fmap, Forall_forall in Hall. destruct (Hall "" Hin) as [[Hne _] _].
  apply Hne. by vm_compute.
Qed.

(** An environment is bound to an external instance exactly when it is named,
    its binding's host is one plain word, and the binding names the database and the
    delegated roles the service declares; without bindings every environment is
    managed.  The address the deployment dials splits back into that host and port,
    a port is always given, and the identity written on the deployment changes with
    the environment, the host, the port, the database and the roles. *)
Theorem external_binding {u : Unicode} s environment b :
  (externalInstance s environment = Ok (Some b) ↔ bindable s environment b) ∧
  (externalInstance s environment = Ok None ↔ ExternalInstances s = ∅) ∧
  (uint16 (EI_Port b) → 1 ≤ port b ≤ 65535 ∧
     (bracket_free (EI_Host b) →
      SplitHostPort (external_address b) = Ok (EI_Host b, itoa_nat (port b)))) ∧
  (∀ s' environment' b', bindable s environment b → bindable s' environment' b' →
     uint16 (EI_Port b) → uint16 (EI_Port b') → binding_nul_free environment b → binding_nul_free environment' b' →
     collision_free [binding_identity environment b; binding_identity environment' b'] →
     externalBindingID environment b = externalBindingID environment' b' →
     environment = environment' ∧ EI_Host b = EI_Host b' ∧ port b = port b' ∧
     EI_DatabaseName b = EI_DatabaseName b' ∧ EI_RuntimeReadWriteRoles b = EI_RuntimeReadWriteRoles b').
Proof.
  split_and!.
  - apply externalInstance_bound.
  - unfold externalInstance. case_bool_decide as He; [done|]. split; [|done].
    intros H. res_inv. destruct (ExternalInstances s !! environment); [|done].
    destruct (runtimeRoleNames (DatabaseName s)). by res_inv.
  - intros Hp. pose proof (port_range b Hp). split; [done|]. intros Hb.
    destruct (itoa_nat_plain (port b)) as [??]; [lia|]. by apply SplitHostPort_Join.
  - intros s' environment' b' H1 H2 Hp Hp' Hn Hn' Hfree E.
    apply binding_identity_inj; [done..|by eapply bindable_roles|by eapply bindable_roles|].
    apply Hfree; [set_solver|set_solver|]. by apply (inj hex).
Qed.

Definition example_binding : ExternalInstance :=
  {| EI_Host := "2001:db8::7"; EI_Port := 0; EI_DatabaseName := "store"; EI_RuntimeReadWriteRoles := [" tenant"; "tenant"] |}.
Definition external_settings : Settings := {|
  DatabaseName := "store"; HotReload := false; ExternalInstances := {["production" := example_binding]};
  AuthMode := ""; WithoutSSL := false; NoMigration := false; KeepRunning := false;
  LogLevel := ""; Image := ""; ImagePlatforms := []; Extensions := [];
  RuntimeSchemas := []; RuntimeReadWriteRoles := ["tenant"]; RuntimeLogins := [];
  MigrationSources := []; STimeouts := Build_Timeouts 0 0 0 0 0 0 |}.

Lemma external_binding_witness :
  uint16 (EI_Port example_binding) ∧ bracket_free (EI_Host example_binding) ∧
  externalInstance (u := ascii_unicode) external_settings "production" = Ok (Some example_binding) ∧
  external_address example_binding = "[2001:db8::7]:5432" ∧
  SplitHostPort (external_address example_binding) = Ok ("2001:db8::7", "5432").
Proof.
  assert (Hp : uint16 (EI_Port example_binding)) by (split; vm_compute; [discriminate|reflexivity]).
  assert (Hb : bracket_free (EI_Host example_binding)).
  { split; refine (bool_decide_unpack (_ ∉ _) _); vm_compute; exact I. }
  split; [exact Hp|]. split; [exact Hb|]. split; [vm_compute; reflexivity|]. split; [vm_compute; reflexivity|].
  exact (proj2 (proj1 (proj2 (proj2 (external_binding (u := ascii_unicode) external_settings "production"
    example_binding))) Hp) Hb).
Defined.

(** ** The Job's name *)

(** Letters, digits and dashes, beginning and ending with none of the last. *)
Definition dns_byte (c : ascii) : bool := is_lower (code c) || is_digit (code c) || bool_decide (c = "-"%char).
Definition dns_label (s : string) : Prop :=
  1 ≤ len s ≤ 63 ∧ all_bytes dns_byte s = true ∧
  head (bytes s) ≠ Some "-"%char ∧ last (bytes s) ≠ Some "-"%char.

Lemma drop_byte_spec c l : ∃ k, l = replicate k c ++ drop_byte c l ∧ head (drop_byte c l) ≠ Some c.
Proof.
  induction l as [|c' l (k & E & Hh)]; [by exists 0%nat|]. simpl. case_decide as Hc; subst.
  - exists (S k). simpl. by rewrite <-E.
  - exists 0%nat. split; [done|]. simpl. congruence.
Qed.

Lemma trim_right_spec c s : ∃ k, bytes s = bytes (trim_right s c) ++ replicate k c.
Proof.
  unfold trim_right. rewrite bytes_of_bytes. destruct (drop_byte_spec c (reverse (bytes s))) as (k & E & _).
  exists k. apply (f_equal reverse) in E. rewrite reverse_involutive, reverse_app in E.
  by rewrite E at 1; rewrite reverse_replicate.
Qed.

Lemma job_service_prefix service : ∃ rest, bytes service = bytes (job_service service) ++ rest.
Proof.
  unfold job_service. case_match; [|exists []; by rewrite app_nil_r].
  destruct (trim_right_spec "-"%char (of_bytes (take (Z.to_nat maxServiceLength) (bytes service)))) as (k & E).
  rewrite bytes_of_bytes in E. exists (replicate k "-"%char ++ drop (Z.to_nat maxServiceLength) (bytes service)).
  by rewrite app_assoc, <-E, take_drop.
Qed.

Lemma job_service_length service : len (job_service service) ≤ 50.
Proof.
  unfold job_service. case_match eqn:E; [|apply Z.ltb_ge in E; change maxServiceLength with 50 in E; lia].
  destruct (trim_right_spec "-"%char (of_bytes (take (Z.to_nat maxServiceLength) (bytes service)))) as (k & Ek).
  rewrite bytes_of_bytes in Ek. apply (f_equal length) in Ek. rewrite length_take, length_app in Ek.
  rewrite len_bytes. change (Z.to_nat maxServiceLength) with 50%nat in *. lia.
Qed.

Lemma job_service_head service c :
  head (bytes service) = Some c → c ≠ "-"%char → head (bytes (job_service service)) = Some c.
Proof.
  intros Hh Hc. unfold job_service. case_match; [|done].
  destruct (trim_right_spec "-"%char (of_bytes (take (Z.to_nat maxServiceLength) (bytes service)))) as (k & E).
  rewrite bytes_of_bytes in E. change (Z.to_nat maxServiceLength) with 50%nat in *.
  destruct (bytes service) as [|c' l] eqn:Es; simplify_eq/=.
  destruct (bytes (trim_right _ _)) as [|c' l'] eqn:Et; [|by simplify_eq/=].
  destruct k; simplify_eq/=.
Qed.

Lemma digest_suffix t :
  let suffix := take suffixLength (bytes (sha256_hex t)) in
  length suffix = 12%nat ∧ Forall (λ c, hex_byte c = true) suffix.
Proof.
  assert (Hlen : len (sha256_hex t) = 64) by (unfold sha256_hex; by rewrite len_hex, len_sha256).
  split.
  - rewrite length_take, len_bytes in *. unfold suffixLength. lia.
  - apply Forall_take. apply Forall_forallb. apply hex_all.
Qed.

Lemma hex_dns c : hex_byte c = true → dns_byte c = true ∧ c ≠ "-"%char.
Proof.
  intros H. split; [|by intros ->]. unfold hex_byte, dns_byte, is_lower, is_digit, in_range in *.
  apply orb_true_iff. left. lia.
Qed.

(** C38: the bootstrap Job's name is the service's DNS name, cut so that it fits,
    with twelve digits of the digest of the pod template the parameters render to.
    It is a DNS label whatever the name's length, and two renders of the service
    share a name exactly when those digits agree: a Job cannot be changed in place,
    and is renamed with the digest of what it runs. *)
Theorem bootstrap_job_name dns_name c podTemplate p name :
  all_bytes dns_byte dns_name = true → head (bytes dns_name) = Some c → c ≠ "-"%char →
  immutableBootstrapJobName dns_name podTemplate p = Ok name →
  dns_label name ∧
  (∃ template, podTemplate p = Ok template ∧
     bytes name = bytes (job_service dns_name) ++ "-"%char :: take 12 (bytes (sha256_hex template)) ∧
     (∃ rest, bytes dns_name = bytes (job_service dns_name) ++ rest) ∧
     (len dns_name ≤ 50 → job_service dns_name = dns_name) ∧
     ∀ podTemplate' p' name' template', podTemplate' p' = Ok template' →
       immutableBootstrapJobName dns_name podTemplate' p' = Ok name' →
       (name = name' ↔ take 12 (bytes (sha256_hex template)) = take 12 (bytes (sha256_hex template')))).
Proof.
  intros Hall Hh Hc Hname. unfold immutableBootstrapJobName in Hname. res_inv.
  match goal with H : podTemplate p = Ok ?t |- _ => rename H into Ht; rename t into template end.
  destruct (digest_suffix template) as [Hlen Hhex].
  assert (Hb : ∀ t, bytes (job_service dns_name +:+ "-" +:+ of_bytes (take suffixLength (bytes (sha256_hex t)))) =
          bytes (job_service dns_name) ++ "-"%char :: take 12 (bytes (sha256_hex t))).
  { intros t. by rewrite !bytes_app, bytes_of_bytes. }
  pose proof (job_service_prefix dns_name) as [rest Hrest].
  pose proof (job_service_head _ _ Hh Hc) as Hhead.
  pose proof (job_service_length dns_name) as Hfit. rewrite len_bytes in Hfit.
  change suffixLength with 12%nat in Hlen, Hhex. split; [split_and!|].
  - rewrite len_bytes, Hb, length_app. cbn [length]. lia.
  - rewrite len_bytes, Hb, length_app. cbn [length]. lia.
  - unfold all_bytes. rewrite Hb, forallb_app. apply andb_true_iff. split.
    + unfold all_bytes in Hall. rewrite Hrest, forallb_app in Hall. by apply andb_true_iff in Hall as [? _].
    + cbn [forallb]. apply andb_true_iff. split; [done|]. apply Forall_forallb.
      eapply Forall_impl; [exact Hhex|]. intros x Hx. by apply hex_dns.
  - rewrite Hb. destruct (bytes (job_service dns_name)); [done|]. simpl in *. congruence.
  - rewrite Hb. destruct (take 12 (bytes (sha256_hex template))) as [|x l] eqn:El using rev_ind; [done|].
    rewrite app_comm_cons, app_assoc, last_snoc. rewrite Forall_app, Forall_singleton in Hhex.
    intros [= ->]. destruct Hhex as [_ Hd]. by destruct (hex_dns _ Hd) as [_ ?].
  - exists template. split_and!; [done|apply Hb|by exists rest| |].
    + intros Hl. unfold job_service. rewrite (proj2 (Z.ltb_ge _ _)); [done|]. done.
    + intros pt p' name' t' Ht' Hn'. unfold immutableBootstrapJobName in Hn'. res_inv. simplify_eq.
      assert (x0 = t') as -> by congruence.
      rewrite <-(inj_iff bytes), !Hb. split; [intros E%app_inv_head; by injection E|]. intros E. by rewrite E.
Qed.

(** ** A restricted render *)

Lemma promoted_values {u : Unicode} `{!UnicodeLaws u} Unique context_of s instance withSSL :
  Forall (λ v, cv_value v = "" ∧ cv_secret v = true ∧ cv_key v ≠ ownerConnectionKey)
    (config_values (promotableConnectionConfiguration Unique context_of s instance withSSL)).
Proof.
  unfold promotableConnectionConfiguration. destruct (runtimeRoleNames (DatabaseName s)) as [ro rw].
  unfold config_values, postgres_configuration. cbn [Infos fmap list_fmap snd concat]. rewrite app_nil_r.
  rewrite Forall_app, Forall_fmap. split; [by repeat constructor|].
  destruct (resolveRuntimeLogins s) as [logins|] eqn:El; [|constructor].
  apply resolveRuntimeLogins_inv in El as (_ & _ & Hall & _). eapply Forall_impl; [exact Hall|].
  intros l Hl. cbn. split_and!; [done..|]. intros E.
  apply (resolved_connection_managed (DatabaseName s) l Hl). rewrite E. by left.
Qed.

(** A program that leaves what a render would hold of secret values alone. *)
Definition outputs (d : Deployment) : list (string * string) * list Configuration := (dp_secrets d, dp_exported d).
Definition discreet {A} (m : io Deployment A) : Prop := ∀ d, outputs (m d).2 = outputs d.

Lemma discreet_lift {A} (r : result A) : discreet (io_lift r).
Proof. done. Qed.
Lemma discreet_modify f : (∀ d, outputs (f d) = outputs d) → discreet (io_modify f).
Proof. intros H d. apply H. Qed.
Lemma discreet_bind {A B} (m : io Deployment A) (k : A → io Deployment B) :
  discreet m → (∀ x, discreet (k x)) → discreet (m ≫= k).
Proof.
  intros Hm Hk d. unfold mbind, io_bind. specialize (Hm d). destruct (m d) as [[x|e] d1]; simpl in *; [|done].
  by rewrite Hk.
Qed.
#[local] Hint Resolve discreet_lift discreet_modify discreet_bind : deployment.

(** What [Deploy] relies on in core's render: it prepares at most once and reports
    success only after a preparation that succeeded; what is prepared is changed by
    the preparation alone. *)
Record KustomizeLaws (render : io Deployment unit → io Deployment DeploymentResponse) : Prop := {
  kz_runs : ∀ prepare d, (render prepare d).2 = d ∨ (render prepare d).2 = (prepare d).2;
  kz_reports : ∀ prepare d rs, (render prepare d).1 = Ok rs → rs_success rs = true →
    (prepare d).1 = Ok tt ∧ (render prepare d).2 = (prepare d).2;
}.

Section restricted.
Context {u : Unicode} `{!UnicodeLaws u} (s : Settings).
Context (Unique dns_name managedImage publicAccess : string) (secretKey : string → string).
Context (context_of : NetworkInstance → string) (podTemplate : DeploymentTemplateParameters → result string).
Context (Export : Configuration → result unit).
Context (rq : DeploymentRequest) (restricted : restrictedOutput (dr_profile rq) = true).
#[local] Abbreviation prepare := (Prepare s Unique dns_name publicAccess secretKey context_of podTemplate Export rq).

Lemma Prepare_discreet : discreet prepare.
Proof using restricted.
  unfold Prepare, prepareDeployment. rewrite restricted.
  assert (Hget : ∀ {B} (k : Deployment → io Deployment B), (∀ d, discreet (k d)) → discreet (io_get ≫= k)).
  { intros B k Hk d. apply Hk. }
  apply discreet_bind; [|intros c; apply Hget; intros d; apply discreet_bind; [apply discreet_lift|]; intros name].
  2:{ apply discreet_bind; [by apply discreet_modify|]. intros _. by apply discreet_modify. }
  apply discreet_bind; [apply discreet_lift|]. intros logins.
  apply discreet_bind; [apply discreet_lift|]. intros [instance binding].
  apply discreet_bind.
  - destruct binding as [b|]; [|by apply discreet_modify].
    apply discreet_bind; [|intros _; destruct (runtimeRoleNames _); by apply discreet_modify].
    intros d. unfold io_guard. by destruct (externalIdentity s).
  - intros _. unfold prepare_restricted. apply discreet_bind; [apply discreet_lift|]. intros refs.
    apply discreet_bind; [by apply discreet_modify|]. intros _.
    apply discreet_bind; [|done]. case_match; [|done].
    apply discreet_bind; [apply discreet_lift|]. intros [h p]. by apply discreet_modify.
Qed.

(** What a restricted preparation that succeeds leaves, given the parameters it began with. *)
Definition prepared_restricted (d d' : Deployment) : Prop :=
  ∃ logins instance binding refs withSSL,
    resolveRuntimeLogins s = Ok logins ∧
    deploymentNetworkInstance s publicAccess rq = Ok (instance, binding) ∧
    selectPromotableSecretReferences s secretKey (dr_references rq) (bool_decide (binding ≠ None)) logins = Ok refs ∧
    dp_restricted d' = Some (promotableConnectionConfiguration Unique context_of s (di_instance instance) withSSL) ∧
    let p := dp_parameters d' in
    StatefulSetSecretReferences p = StatefulSet refs ∧ BootstrapJobSecretReferences p = BootstrapJob refs ∧
    immutableBootstrapJobName dns_name podTemplate
      (set_job_name (BootstrapJobName (dp_parameters d)) p) = Ok (BootstrapJobName p) ∧
    match binding with
    | Some b =>
      bindable s (dr_environment rq) b ∧ externalIdentity s = false ∧ withSSL = negb (WithoutSSL s) ∧
      IsExternal p = true ∧ ExternalBindingID p = externalBindingID (dr_environment rq) b ∧
      ExternalHost p = EI_Host b ∧ ExternalPort p = port b ∧
      OwnerFromLibpqEnvironment p = OwnerFromLibpqEnvironment (dp_parameters d)
    | None =>
      withSSL = false ∧ ServicePort p = di_Port instance ∧ IsExternal p = IsExternal (dp_parameters d) ∧
      (externalIdentity s = false → OwnerFromLibpqEnvironment p = true ∧ OwnerSSLMode p = "disable" ∧
         SplitHostPort (Address (di_instance instance)) = Ok (OwnerHost p, OwnerPort p))
    end.

Lemma Prepare_restricted d d' : prepare d = (Ok tt, d') → prepared_restricted d d'.
Proof using restricted.
  unfold Prepare, prepareDeployment. rewrite restricted. intros H.
  apply io_bind_ok in H as (c & d1 & H1 & H).
  apply io_lift_bind_ok in H1 as (logins & Hl & H1). apply io_lift_bind_ok in H1 as ([instance binding] & Hi & H1).
  apply io_bind_ok in H1 as ([] & d2 & Hb & H1). unfold prepare_restricted in H1.
  apply io_lift_bind_ok in H1 as (refs & Hr & H1). apply io_bind_ok in H1 as ([] & d3 & [= <-] & H1).
  apply io_bind_ok in H1 as ([] & d4 & Ho & [= <- <-]).
  apply io_bind_ok in H as (? & ? & [= <- <-] & H). apply io_lift_bind_ok in H as (name & Hn & H).
  apply io_bind_ok in H as ([] & ? & [= <-] & [= <-]).
  exists logins, instance, binding, refs, (deploymentWithSSL s binding). split_and!; try done.
  unfold deploymentNetworkInstance in Hi. apply bind_ok in Hi as (binding' & Hext & Hi).
  destruct binding' as [b|].
  - injection Hi as <- <-. apply externalInstance_bound in Hext. unfold bind_parameters in Hb.
    apply io_bind_ok in Hb as ([] & d5 & Hg & Hb). unfold io_guard in Hg.
    destruct (externalIdentity s) eqn:He; [done|]. injection Hg as <-.
    destruct (runtimeRoleNames (DatabaseName s)) as [ro rw]. injection Hb as <-.
    cbn in Ho. injection Ho as <-. cbn in *. split_and!; try done.
  - apply bind_ok in Hi as (inst & Hi & [= <- <-]). injection Hb as <-. cbn in Ho.
    destruct (externalIdentity s) eqn:He; cbn in Ho.
    + injection Ho as <-. cbn in *. split_and!; try done.
    + apply io_lift_bind_ok in Ho as ([h p] & Hs & [= <-]). apply wrap_err_ok in Hs. cbn in *.
      by split_and!.
Qed.
End restricted.

(** C7: a restricted deployment carries no secret value, on any path: nothing is
    added to the render's secrets and nothing is exported, whether it succeeds or
    not, an unknown profile included.  There is an answer only where the render gave
    one; it says success exactly when the render did, and the answer of a render that
    failed is handed on unchanged, without the configuration.  When it succeeds its
    answer is the promoted configuration, of which no entry has a value and none is
    the owner's, and the
    manifests carry the selected references, all into one Secret and none optional.
    An external instance is then the one the environment is bound to; a managed
    database is reached by its owner through libpq's environment, at the host and
    port its address splits into and without TLS. *)
Theorem restricted_deployment {u : Unicode} `{!UnicodeLaws u} s Unique dns_name managedImage publicAccess secretKey
    context_of podTemplate Export render rq d r d' :
  KustomizeLaws render → restrictedOutput (dr_profile rq) = true →
  dp_secrets d = [] → dp_exported d = [] →
  Deploy s Unique dns_name managedImage publicAccess secretKey context_of podTemplate Export render rq d = (r, d') →
  let fresh := {| dp_parameters := initial_parameters managedImage (DatabaseName s) (BootstrapJobSeconds (STimeouts s));
                  dp_secrets := []; dp_exported := []; dp_restricted := None |} in
  let prepare := Prepare s Unique dns_name publicAccess secretKey context_of podTemplate Export rq in
  dp_secrets d' = [] ∧ dp_exported d' = [] ∧
  (∀ rs, r = Ok rs → ∃ answer, (render prepare fresh).1 = Ok answer ∧ rs_success answer = rs_success rs ∧
     (rs_success rs = false → rs = answer)) ∧
  ∀ rs, r = Ok rs → rs_success rs = true →
    prepared_restricted s Unique dns_name publicAccess secretKey context_of podTemplate rq fresh d' ∧
    rs_configuration rs = dp_restricted d' ∧
    (∀ c, dp_restricted d' = Some c →
       Forall (λ v, cv_value v = "" ∧ cv_secret v = true ∧ cv_key v ≠ ownerConnectionKey) (config_values c)) ∧
    ∃ secret, ∀ v ref, StatefulSetSecretReferences (dp_parameters d') !! v = Some ref ∨
                       BootstrapJobSecretReferences (dp_parameters d') !! v = Some ref →
      kr_Optional ref = false ∧ kr_Name ref = secret.
Proof.
  intros Hlaws Hrestricted Hs He H fresh prepare. revert H. unfold Deploy.
  destruct (Timeouts.validate (STimeouts s)) as [[]|e] eqn:Ev.
  2:{ intros [= <- <-]. by split_and!. }
  intros H. unfold mbind, io_bind, io_lift, io_put in H. fold prepare in H. fold fresh in H.
  assert (Hd : d' = (render prepare fresh).2 ∧
    ((∃ e, r = Err e) ∨ ∃ rs, (render prepare fresh).1 = Ok rs ∧
       ((∃ c, dp_restricted d' = Some c ∧ rs_success rs = true ∧ r = Ok {| rs_success := true; rs_configuration := Some c |}) ∨
        ((dp_restricted d' = None ∨ rs_success rs = false) ∧ r = Ok rs)))).
  { unfold io_get in H. destruct (render prepare fresh) as [[rs|e] d1]; simpl in *.
    - destruct (dp_restricted d1) as [c|] eqn:Ec; [destruct (rs_success rs) eqn:Es|]; injection H as <- <-;
        (split; [done|]; right; exists rs; split; [done|]); [left; by exists c|right; auto..].
    - injection H as <- <-. eauto. }
  destruct Hd as [-> Hcases].
  pose proof (Prepare_discreet s Unique dns_name publicAccess secretKey context_of podTemplate Export rq
                Hrestricted fresh) as Hdis. fold prepare in Hdis.
  assert (Hout : outputs (render prepare fresh).2 = outputs fresh)
    by (by destruct (kz_runs _ Hlaws prepare fresh) as [-> | ->]).
  injection Hout as Hs' He'. split; [done|]. split; [done|]. split.
  { intros rs Hr. destruct Hcases as [[e ?]|(rs' & H' & [(c & _ & ? & H2)|[_ H2]])]; [congruence|..];
      rewrite H2 in Hr; injection Hr as <-; exists rs'; by split_and!. }
  intros rs Hr Hsuccess.
  assert (Hrep : ∃ rs', (render prepare fresh).1 = Ok rs' ∧ rs_success rs' = true).
  { destruct Hcases as [[e ?]|(rs' & H' & [(c & _ & ? & _)|[_ ?]])]; [congruence|by exists rs'|].
    exists rs'. split; [done|]. congruence. }
  destruct Hrep as (rs' & Hrs' & Hs2). destruct (kz_reports _ Hlaws prepare fresh rs' Hrs' Hs2) as [Hok Hd].
  assert (Hp : prepare fresh = (Ok tt, (render prepare fresh).2)).
  { rewrite Hd, <-Hok. by destruct (prepare fresh). }
  pose proof (Prepare_restricted s Unique dns_name publicAccess secretKey context_of podTemplate Export rq Hrestricted
                _ _ Hp) as Hprep.
  split; [done|]. destruct Hprep as (logins & instance & binding & refs & withSSL & Hl & Hi & Hsel & Hc & E1 & E2 & _).
  split_and!.
  - destruct Hcases as [[e ?]|(rs2 & H' & [(c & Hc' & ? & Hr')|[[?|?] ?]])]; [congruence| |congruence..].
    rewrite Hr' in Hr. injection Hr as <-. by rewrite Hc'.
  - rewrite Hc. intros c [= <-]. apply promoted_values.
  - rewrite E1, E2. by apply (selected_from_one_secret s secretKey (dr_references rq) (bool_decide (binding ≠ None)) logins).
Qed.

(** A render that prepares and succeeds. *)
Definition simple_render (prepare : io Deployment unit) : io Deployment DeploymentResponse :=
  _ ← prepare; mret {| rs_success := true; rs_configuration := None |}.

Lemma simple_render_laws : KustomizeLaws simple_render.
Proof.
  split; unfold simple_render, mbind, io_bind.
  - intros prepare d. destruct (prepare d) as [[[]|e] d1]; by right.
  - intros prepare d rs. destruct (prepare d) as [[[]|e] d1]; simpl; [|done]. by split.
Qed.

Definition example_reference (key : string) : KubernetesSecretKeyReference :=
  {| kr_Name := "store-secrets"; kr_Key := key; kr_Optional := false |}.
Definition example_secretKey (v : string) : string := "MOD_STORE__" +:+ v.
Definition example_request : DeploymentRequest := {|
  dr_environment := "staging"; dr_get := configured_get;
  dr_mapped := Ok {| di_Hostname := "store.mod"; di_Host := "store.mod:18080"; di_Port := 18080;
                     di_instance := {| Address := "store.mod:18080"; Access := "public" |} |};
  dr_profile := Ok true;
  dr_references := list_to_map ((λ v, (example_secretKey v, example_reference v)) <$> managed_primitives) |}.

Definition example_deploy (d : Deployment) : result DeploymentResponse * Deployment :=
  Deploy (u := ascii_unicode) example_settings "mod/store" "store" "postgres:17" "public" example_secretKey Access
    (λ p, Ok (ManagedImage p)) (λ _, Ok tt) simple_render example_request d.

Definition nothing_rendered : Deployment := {|
  dp_parameters := initial_parameters "" "" 0; dp_secrets := []; dp_exported := []; dp_restricted := None |}.

Lemma restricted_deployment_witness :
  ∃ rs d', example_deploy nothing_rendered = (Ok rs, d') ∧ rs_success rs = true ∧
    dp_secrets d' = [] ∧ dp_exported d' = [] ∧
    dom (BootstrapJobSecretReferences (dp_parameters d')) =
      list_to_set ["POSTGRES_USER"; "POSTGRES_READ_ONLY_PASSWORD"; "POSTGRES_READ_WRITE_PASSWORD"; "PGUSER"; "PGPASSWORD";
                   "POSTGRES_WORKER_PASSWORD"; "POSTGRES_AUDIT_LOG_PASSWORD"].
Proof.
  assert (Hok : match example_deploy nothing_rendered with
                | (Ok rs, d') => rs_success rs && bool_decide (dom (BootstrapJobSecretReferences (dp_parameters d')) =
      list_to_set ["POSTGRES_USER"; "POSTGRES_READ_ONLY_PASSWORD"; "POSTGRES_READ_WRITE_PASSWORD"; "PGUSER"; "PGPASSWORD";
                   "POSTGRES_WORKER_PASSWORD"; "POSTGRES_AUDIT_LOG_PASSWORD"])
                | _ => false end = true) by (vm_compute; reflexivity).
  destruct (example_deploy nothing_rendered) as [[rs|e] d'] eqn:E; [|discriminate Hok].
  apply andb_true_iff in Hok as [Hsuccess Hdom]. exists rs, d'.
  destruct (restricted_deployment (u := ascii_unicode) _ _ _ _ _ _ _ _ _ _ _ nothing_rendered _ _ simple_render_laws
    (eq_refl : restrictedOutput (dr_profile example_request) = true) eq_refl eq_refl E) as (Hs & He & _).
  split; [reflexivity|]. split; [exact Hsuccess|]. split; [exact Hs|]. split; [exact He|].
  exact (bool_decide_eq_true_1 _ Hdom).
Defined.

Lemma promotable_references_witness :
  validateAuthMode example_settings = Ok tt ∧ externalIdentity example_settings = false ∧
  ∃ logins, resolveRuntimeLogins (u := ascii_unicode) example_settings = Ok logins ∧
    ∃ secret, secret ≠ "" ∧
      Forall (held example_secretKey (dr_references example_request) secret) managed_primitives ∧
      Forall (login_held example_secretKey (dr_references example_request) secret) (rl_passwordKey <$> logins).
Proof.
  split; [vm_compute; reflexivity|]. split; [vm_compute; reflexivity|].
  assert (Hl : is_ok (resolveRuntimeLogins (u := ascii_unicode) example_settings) = true) by (vm_compute; reflexivity).
  destruct (resolveRuntimeLogins (u := ascii_unicode) example_settings) as [logins|] eqn:E; [|discriminate Hl].
  exists logins. split; [reflexivity|].
  refine (proj1 (proj1 (proj1 (promotable_references (u := ascii_unicode) example_settings example_secretKey
    (dr_references example_request) logins _ E) _)) _); [vm_compute; reflexivity..|].
  assert (Hs : match resolveRuntimeLogins (u := ascii_unicode) example_settings with
               | Ok logins => is_ok (selectPromotableSecretReferences example_settings example_secretKey
                                       (dr_references example_request) false logins)
               | _ => false end = true) by (vm_compute; reflexivity).
  rewrite E in Hs. destruct (selectPromotableSecretReferences example_settings example_secretKey
    (dr_references example_request) false logins) as [refs|]; [by exists refs|discriminate Hs].
Defined.

Lemma bootstrap_job_name_witness :
  ∃ name, immutableBootstrapJobName "store" (λ p, Ok (ManagedImage p)) (initial_parameters "postgres:17" "store" 60)
            = Ok name ∧ dns_label name.
Proof.
  eexists. split; [vm_compute; reflexivity|].
  refine (proj1 (bootstrap_job_name "store" "s"%char (λ p, Ok (ManagedImage p))
    (initial_parameters "postgres:17" "store" 60) _ _ _ _ _)); [vm_compute; reflexivity|reflexivity|discriminate|].
  vm_compute. reflexivity.
Defined.
