(* ===== verification/BuildContext.v ===== *)
(** The context of the bootstrap image ([stageBootstrapContext] of [builder.go], and
    [stageBootstrapMigrate] of [bootstrap_image.go]): the tree staged beside its
    destination, checked against the plan's digests, and swapped in.  The disk is a
    tree of files and directories on which any call may fail, leaving anything in what
    it was allowed to touch. *)
From S2P Require Import Prelude GoStrings Images Timeouts Sha256 Settings MigrationFiles Schema RuntimeRoles SchemaPlan.

(** ** The disk *)

Definition path : Type := list string.

Inductive node := Regular_ (content : string) (mode : Z) | Dir_ (mode : Z).

Definition tree : Type := path → option node.

(** What is under a path, with the paths relative to it. *)
Definition at_path (t : tree) (base : path) : tree := λ p, t (base ++ p).

Fixpoint strip (p q : path) : option path :=
  match p, q with
  | [], q => Some q
  | a :: p, b :: q => if decide (a = b) then strip p q else None
  | _ :: _, [] => None
  end.

Definition under (p q : path) : bool := bool_decide (is_Some (strip p q)).

(** Strictly between [base] and [base ++ rel], that included. *)
Definition between (base rel q : path) : bool :=
  match strip base q with Some r => bool_decide (r ≠ []) && under r rel | None => false end.

Definition put (p : path) (n : node) (t : tree) : tree := λ q, if decide (q = p) then Some n else t q.

(** The directories down to [base ++ rel], made where there is nothing. *)
Definition make_dirs (mode : Z) (base rel : path) (t : tree) : tree := λ q,
  if between base rel q then match t q with Some n => Some n | None => Some (Dir_ mode) end else t q.

Definition is_dir (n : option node) : bool := match n with Some (Dir_ _) => true | _ => false end.
Definition is_file (n : option node) : bool := match n with Some (Regular_ _ _) => true | _ => false end.

(** The paths from [base] down to [base ++ rel], the latter left out. *)
Definition parents (base rel : path) : list path := (λ k, base ++ take k rel) <$> seq 0 (length rel).

Definition remove (p : path) (t : tree) : tree := λ q, if under p q then None else t q.

Definition rename (a b : path) (t : tree) : tree := λ q,
  match strip b q with
  | Some r => t (a ++ r)
  | None => if under a q then None else t q
  end.

(** [os.Chmod] of every node of a tree: 0755 for directories, 0644 for files. *)
Definition fixed_mode (n : node) : node :=
  match n with Regular_ content _ => Regular_ content 420 | Dir_ _ => Dir_ 493 end.
Definition normalized (p : path) (t : tree) : tree := λ q, if under p q then fixed_mode <$> t q else t q.
Definition chmod (p : path) (t : tree) : tree := λ q, if bool_decide (q = p) then fixed_mode <$> t q else t q.

(** What a failing call leaves: anything, where it may write. *)
Definition overlay (touches : path → bool) (junk t : tree) : tree := λ q, if touches q then junk q else t q.
(** What a failing removal leaves: some of what there was. *)
Definition remnant (p : path) (junk t : tree) : tree := λ q,
  if under p q && bool_decide (junk q = None) then None else t q.

(** The disk, and how many calls were made on it. *)
Record disk := { d_tree : tree; d_calls : nat }.

(** What the operating system, the template engine and core answer: whether the
    [n]th call fails, with what it leaves then, the name of a fresh temporary
    directory, the bytes a copy writes, and the mode a new file or directory gets. *)
Class Machine := {
  fault : nat → option (error * tree);
  fresh_name : path → nat → string;
  copied : nat → string;
  file_mode : nat → Z;
  dir_mode : nat → Z;
}.

Section staging.
Context {m : Machine}.

Definition act (touches : path → bool) (f : nat → tree → result tree) : io disk unit := λ d,
  match fault (d_calls d) with
  | None => match f (d_calls d) (d_tree d) with
            | Ok t => (Ok tt, {| d_tree := t; d_calls := S (d_calls d) |})
            | Err e => (Err e, {| d_tree := d_tree d; d_calls := S (d_calls d) |})
            end
  | Some (e, junk) => (Err e, {| d_tree := overlay touches junk (d_tree d); d_calls := S (d_calls d) |})
  end.

(** A call that reads. *)
Definition look {A} (f : nat → tree → result A) : io disk A := λ d,
  match fault (d_calls d) with
  | None => (f (d_calls d) (d_tree d), {| d_tree := d_tree d; d_calls := S (d_calls d) |})
  | Some (e, _) => (Err e, {| d_tree := d_tree d; d_calls := S (d_calls d) |})
  end.

Definition RemoveAll (p : path) : io disk unit := λ d,
  match fault (d_calls d) with
  | None => (Ok tt, {| d_tree := remove p (d_tree d); d_calls := S (d_calls d) |})
  | Some (e, junk) => (Err e, {| d_tree := remnant p junk (d_tree d); d_calls := S (d_calls d) |})
  end.

(** A rename happens or does not. *)
Definition Rename (a b : path) : io disk unit := act (λ _, false)
    (λ _ t, match t b with
            | None => Ok (rename a b t)
            | Some _ => Err (ENew "rename %s %s: file exists" [join "/" a; join "/" b])
            end).

Definition MkdirTemp (parent : path) (prefix : string) : io disk path := λ d,
  let p := parent ++ [prefix +:+ fresh_name parent (d_calls d)] in
  match fault (d_calls d) with
  | None => (Ok p, {| d_tree := put p (Dir_ 448) (d_tree d); d_calls := S (d_calls d) |})
  | Some (e, _) => (Err e, {| d_tree := d_tree d; d_calls := S (d_calls d) |})
  end.

Definition no_directory (p : path) : error := ENew "mkdir %s: not a directory" [join "/" p].

Definition MkdirAll (base rel : path) : io disk unit :=
  act (between base rel)
    (λ n t, if existsb (λ p, is_file (t p)) (parents base rel ++ [base ++ rel]) then Err (no_directory (base ++ rel))
            else Ok (make_dirs (dir_mode n) base rel t)).

(** A file is written in a directory that is there, and not over one. *)
Definition write (base rel : path) (n : node) (t : tree) : result tree :=
  if forallb (λ p, is_dir (t p)) (parents base rel) && negb (is_dir (t (base ++ rel)))
  then Ok (put (base ++ rel) n t) else Err (ENew "open %s: no such file or directory" [join "/" (base ++ rel)]).

Definition WriteFile (base rel : path) (content : string) : io disk unit :=
  act (λ q, bool_decide (q = base ++ rel)) (λ k, write base rel (Regular_ content (file_mode k))).

(** [shared.CopyFile]: nothing is assumed of the bytes it writes. *)
Definition CopyFile (base rel : path) : io disk unit :=
  act (λ q, bool_decide (q = base ++ rel)) (λ k, write base rel (Regular_ (copied k) (file_mode k))).

Definition fileDigest (p : path) : io disk string :=
  look (λ _ t, match t p with
               | Some (Regular_ content _) => Ok (digest_prefix +:+ sha256_hex content)
               | _ => Err (ENew "cannot read %s" [join "/" p])
               end).

(** [Templates]: each of the rendered files is written below the destination, in
    directories that are made. *)
Definition Templates (rendered : list (path * string)) (destination : path) : io disk unit :=
  act (λ q, existsb (λ f : path * string, between destination f.1 q) rendered)
    (λ n t, Ok (foldl (λ t (f : path * string), put (destination ++ f.1) (Regular_ f.2 (file_mode n))
                                (make_dirs (dir_mode n) destination f.1 t)) t rendered)).

(** ** Staging *)

Definition bootstrapDirectory : string := "bootstrap".
Definition stagedChecksumFile : string := "sources.sha256".
Definition bootstrapMarkerFile : string := ".gitignore".
Definition bootstrapMarker : string := "# codefly-generated postgres bootstrap".
Definition runtimeAccessFile : string := "runtime-access.sql".
Definition bootstrapIgnoreFile : string := "dockerignore".

Definition access_path (contextRoot : path) : path := contextRoot ++ [runtimeAccessFile].

(** A stat of the root that fails otherwise than by its absence is reported. *)
Definition assertBootstrapDirectoryIsAgentOwned (root : path) : io disk unit :=
  present ← look (λ _ t, Ok (bool_decide (is_Some (t root))));
  if negb (present : bool) then mret tt
  else
    marker ← io_try (look (λ _ t, match t (root ++ [bootstrapMarkerFile]) with
                                  | Some (Regular_ content _) => Ok content
                                  | _ => Err (ENew "cannot read the marker" [])
                                  end));
    match marker with
    | Ok content => io_guard (negb (has_prefix content bootstrapMarker))
                      (ENew "%s already exists and was not generated by codefly" [join "/" root])
    | Err _ => io_fail (ENew "%s already exists and was not generated by codefly" [join "/" root])
    end.

(** The map of the two files is walked in some order; they are independent. *)
Definition stageBootstrapMigrate (gomod gosum : string) (root : path) : io disk unit :=
  _ ← MkdirAll root ["migrate"];
  _ ← WriteFile root ["migrate"; "go.mod"] gomod;
  WriteFile root ["migrate"; "go.sum"] gosum.

Definition stage_file (root destination : path) (file : schemaFile) : io disk unit :=
  _ ← CopyFile root (destination ++ [sf_name file]);
  digest ← fileDigest (root ++ destination ++ [sf_name file]);
  io_guard (bool_decide (digest ≠ sf_digest file)) (ENew "%s changed while it was being staged" [sf_name file]).

Definition stageLineage (root destination : path) (lineage : schemaLineage) : io disk unit :=
  _ ← MkdirAll root destination;
  io_each (stage_file root destination) (sl_files lineage).

Definition normalizeStagedModes (root : path) : io disk unit := act (under root) (λ _ t, Ok (normalized root t)).

Section context.
(** The rendered files of the generated program and of runtime-access.sql, the
    embedded module files, and the indented JSON of a plan. *)
Context (bootstrap_files runtime_files : list (path * string)) (gomod gosum : string).
Context (encode : Plan → result string).

Definition stage_tree (plan : schemaPlan) (staging : path) : io disk unit :=
  _ ← Templates bootstrap_files staging;
  _ ← stageBootstrapMigrate gomod gosum staging;
  _ ← io_each (λ lineage, io_wrap "stage migration source %q: %w" [label (sl_source lineage)]
                            (stageLineage staging ["sources"; sl_stage lineage] lineage)) (pl_lineages plan);
  encoded ← io_lift (encode (artifact plan));
  _ ← WriteFile staging ["plan.json"] (encoded +:+ of_bytes [chr 10]);
  _ ← WriteFile staging [stagedChecksumFile] (stagedChecksums plan);
  normalizeStagedModes staging.

Definition swap (staging root contextRoot : path) : io disk unit :=
  _ ← RemoveAll root;
  _ ← Rename staging root;
  _ ← Templates runtime_files contextRoot;
  act (λ q, bool_decide (q = access_path contextRoot)) 
    (λ _ t, match t (access_path contextRoot) with
            | Some _ => Ok (chmod (access_path contextRoot) t)
            | None => Err (ENew "chmod: no such file or directory" [])
            end).

Definition stageBootstrapContext (plan : schemaPlan) (contextRoot : path) : io disk unit :=
  let root := contextRoot ++ [bootstrapDirectory] in
  _ ← assertBootstrapDirectoryIsAgentOwned root;
  staging ← MkdirTemp contextRoot ".bootstrap-staging-";
  io_defer (_ ← stage_tree plan staging; swap staging root contextRoot)
    (λ d, (RemoveAll staging d).2).
End context.
End staging.

(** ** Paths *)

Lemma strip_spec p q r : strip p q = Some r ↔ q = p ++ r.
Proof.
  revert q. induction p as [|a p IH]; intros q; simpl; [naive_solver|].
  destruct q as [|b q]; [naive_solver|]. case_decide as Hab; [|naive_solver]. rewrite IH. naive_solver.
Qed.
Lemma strip_app p r : strip p (p ++ r) = Some r.
Proof. by apply strip_spec. Qed.
Lemma under_spec p q : under p q = true ↔ ∃ r, q = p ++ r.
Proof.
  unfold under. rewrite bool_decide_eq_true. split.
  - intros [r Hr%strip_spec]. by exists r.
  - intros [r ->]. rewrite strip_app. by eexists.
Qed.
Lemma under_app p r : under p (p ++ r) = true.
Proof. apply under_spec. by exists r. Qed.
Lemma under_false p q : under p q = false ↔ ∀ r, q ≠ p ++ r.
Proof.
  rewrite <-not_true_iff_false, under_spec. split; [intros H r ->; apply H; by exists r|intros H [r ->]; by eapply H].
Qed.
Lemma between_at base rel p : between base rel (base ++ p) = between [] rel p.
Proof. unfold between. by rewrite strip_app. Qed.
Lemma between_under base rel q : under base q = false → between base rel q = false.
Proof.
  intros H. unfold between. destruct (strip base q) as [r|] eqn:E; [|done].
  apply strip_spec in E as ->. by rewrite under_app in H.
Qed.

Lemma between_self base rel : rel ≠ [] → between base rel (base ++ rel) = true.
Proof.
  intros H. unfold between. rewrite strip_app, bool_decide_eq_true_2 by done. simpl.
  apply under_spec. exists []. by rewrite app_nil_r.
Qed.

(** Two children of one directory. *)
Lemma siblings_apart (base : path) a b q : a ≠ b → under (base ++ [a]) q = true → under (base ++ [b]) q = false.
Proof.
  intros Hne [r ->]%under_spec. apply under_false. intros r' E. rewrite <-!app_assoc in E.
  apply app_inv_head in E. simpl in E. congruence.
Qed.

(** ** A staged tree, relative and with fixed modes *)

Definition holds (base : path) (E t : tree) : Prop := ∀ p, fixed_mode <$> t (base ++ p) = E p.

Lemma holds_dirs base E t mode rel : holds base E t → holds base (make_dirs 493 [] rel E) (make_dirs mode base rel t).
Proof.
  intros H p. unfold make_dirs. rewrite between_at. specialize (H p). case_match; [|done].
  destruct (t (base ++ p)); simpl in *; by rewrite <-H.
Qed.
Lemma holds_put base E t rel n : holds base E t → holds base (put rel (fixed_mode n) E) (put (base ++ rel) n t).
Proof.
  intros H p. unfold put. destruct (decide (p = rel)) as [->|Hp]; [by rewrite !decide_True by done|].
  rewrite (decide_False (P := p = rel)) by done. rewrite decide_False; [apply H|]. by intros ?%app_inv_head.
Qed.

Definition template_tree (files : list (path * string)) (E : tree) : tree :=
  foldl (λ t (f : path * string), put f.1 (Regular_ f.2 420) (make_dirs 493 [] f.1 t)) E files.
Definition lineage_tree (stage : string) (files : list (string * string)) (E : tree) : tree :=
  foldl (λ t nc, put ["sources"; stage; nc.1] (Regular_ nc.2 420) t) (make_dirs 493 [] ["sources"; stage] E) files.
Definition empty_dir : tree := λ p, if decide (p = []) then Some (Dir_ 493) else None.

Section expected.
Context (bootstrap_files : list (path * string)) (gomod gosum encoded checksums : string).

(** The whole bootstrap tree, given the staged lineages with the bytes of their files. *)
Definition expected_tree (lineages : list (string * list (string * string))) : tree :=
  let t := template_tree bootstrap_files empty_dir in
  let t := put ["migrate"; "go.sum"] (Regular_ gosum 420)
             (put ["migrate"; "go.mod"] (Regular_ gomod 420) (make_dirs 493 [] ["migrate"] t)) in
  let t := foldl (λ t l, lineage_tree l.1 l.2 t) t lineages in
  put [stagedChecksumFile] (Regular_ checksums 420)
    (put ["plan.json"] (Regular_ (encoded +:+ of_bytes [chr 10]) 420) t).
End expected.

(** The files of a lineage with the bytes its digests attest. *)
Definition attested_bytes (l : schemaLineage) (staged : string * list (string * string)) : Prop :=
  staged.1 = sl_stage l ∧
  Forall2 (λ f nc, nc.1 = sf_name f ∧ digest_prefix +:+ sha256_hex nc.2 = sf_digest f) (sl_files l) staged.2.

(** ** What a program may touch *)

Section programs.
Context {m : Machine}.

Definition confined {A} (P : path → bool) (p : io disk A) : Prop :=
  ∀ d q, P q = false → d_tree (p d).2 q = d_tree d q.

Lemma confined_mono {A} P Q (p : io disk A) : (∀ q, Q q = false → P q = false) → confined P p → confined Q p.
Proof. intros H Hp d q Hq. apply Hp, H, Hq. Qed.
Lemma confined_lift {A} P (r : result A) : confined P (io_lift r).
Proof. done. Qed.
Lemma confined_guard P b e : confined P (io_guard b e).
Proof. intros d q _. unfold io_guard. by destruct b. Qed.
Lemma confined_look {A} P (f : nat → tree → result A) : confined P (look f).
Proof. intros d q _. unfold look. by destruct (fault (d_calls d)) as [[]|]. Qed.
Lemma confined_bind {A B} P (p : io disk A) (k : A → io disk B) :
  confined P p → (∀ x, confined P (k x)) → confined P (p ≫= k).
Proof.
  intros Hp Hk d q Hq. specialize (Hp d q Hq). unfold mbind, io_bind.
  destruct (p d) as [[x|e] d1]; simpl in *; [|done]. by rewrite Hk.
Qed.
Lemma confined_wrap {A} P f args (p : io disk A) : confined P p → confined P (io_wrap f args p).
Proof. intros Hp d q Hq. specialize (Hp d q Hq). unfold io_wrap. by destruct (p d) as [[]]. Qed.
Lemma confined_each {A} P (f : A → io disk unit) l : (∀ x, confined P (f x)) → confined P (io_each f l).
Proof. intros Hf. induction l as [|x l IH]; [done|]. simpl. by apply confined_bind. Qed.
Lemma confined_act P touches f :
  (∀ q, P q = false → touches q = false) →
  (∀ n t t' q, f n t = Ok t' → P q = false → t' q = t q) → confined P (act touches f).
Proof.
  intros Ht Hf d q Hq. unfold act. destruct (fault (d_calls d)) as [[e junk]|]; simpl.
  - unfold overlay. by rewrite Ht.
  - destruct (f _ _) as [t|] eqn:E; simpl; [|done]. by eapply Hf.
Qed.

Lemma put_outside base rel n t q : under base q = false → put (base ++ rel) n t q = t q.
Proof. intros H. unfold put. rewrite decide_False; [done|]. intros ->. by rewrite under_app in H. Qed.
Lemma make_dirs_outside mode base rel t q : under base q = false → make_dirs mode base rel t q = t q.
Proof. intros H. unfold make_dirs. by rewrite between_under. Qed.

Lemma confined_MkdirAll base rel : confined (under base) (MkdirAll base rel).
Proof.
  apply confined_act; [by intros ? ?; apply between_under|]. intros n t t' q. case_match; [done|].
  intros [= <-]. apply make_dirs_outside.
Qed.
Lemma write_inv base rel n t t' : write base rel n t = Ok t' → t' = put (base ++ rel) n t.
Proof. unfold write. case_match; [by intros [= <-]|done]. Qed.
Lemma point_under base rel q : under base q = false → bool_decide (q = base ++ rel) = false.
Proof. intros H. apply bool_decide_eq_false. intros ->. by rewrite under_app in H. Qed.
Lemma confined_WriteFile base rel content : confined (under base) (WriteFile base rel content).
Proof.
  apply confined_act; [by intros q Hq; apply point_under|]. intros n t t' q ->%write_inv. apply put_outside.
Qed.
Lemma confined_CopyFile base rel : confined (under base) (CopyFile base rel).
Proof.
  apply confined_act; [by intros q Hq; apply point_under|]. intros n t t' q ->%write_inv. apply put_outside.
Qed.
Lemma confined_Templates files base : confined (under base) (Templates files base).
Proof.
  apply confined_act.
  - intros q Hq. apply Forall_existsb_false, Forall_true. intros f. by apply between_under.
  - intros n t t' q [= <-] Hq. revert t. induction files as [|f files IH]; intros t; [done|]. cbn [foldl].
    by rewrite IH, put_outside, make_dirs_outside.
Qed.
Lemma confined_normalize base : confined (under base) (normalizeStagedModes base).
Proof. apply confined_act; [done|]. intros n t t' q [= <-] Hq. unfold normalized. by rewrite Hq. Qed.
#[local] Hint Resolve confined_lift confined_guard confined_look confined_bind confined_wrap confined_each
  confined_MkdirAll confined_WriteFile confined_CopyFile confined_Templates confined_normalize : confined.

Ltac confine :=
  repeat lazymatch goal with
         | |- confined _ (_ ≫= _) => apply confined_bind
         | |- confined _ (io_each _ _) => apply confined_each
         | |- confined _ (io_wrap _ _ _) => apply confined_wrap
         | |- confined _ _ => solve [auto with confined]
         | |- ∀ _, _ => intros ?
         end.

Section staged.
Context (bootstrap_files runtime_files : list (path * string)) (gomod gosum : string).
Context (encode : Plan → result string).

Lemma confined_stage_tree plan staging :
  confined (under staging) (stage_tree bootstrap_files gomod gosum encode plan staging).
Proof.
  unfold stage_tree, stageBootstrapMigrate, stageLineage, stage_file, fileDigest. confine.
Qed.

(** ** What staging leaves *)

Lemma act_ok touches f d d' : act touches f d = (Ok tt, d') → ∃ n t, f n (d_tree d) = Ok t ∧ d_tree d' = t.
Proof.
  unfold act. destruct (fault (d_calls d)) as [[e junk]|]; [done|].
  destruct (f _ _) as [t|] eqn:E; [|done]. intros [= <-]. by exists (d_calls d), t.
Qed.

Lemma MkdirAll_holds base rel E d d' :
  holds base E (d_tree d) → MkdirAll base rel d = (Ok tt, d') →
  holds base (make_dirs 493 [] rel E) (d_tree d').
Proof.
  intros H (n & t & Ht & ->)%act_ok. case_match; [done|]. injection Ht as <-. by apply holds_dirs.
Qed.
Lemma WriteFile_holds base rel content E d d' :
  holds base E (d_tree d) → WriteFile base rel content d = (Ok tt, d') →
  holds base (put rel (Regular_ content 420) E) (d_tree d').
Proof.
  intros H (n & t & ->%write_inv & ->)%act_ok. by apply (holds_put base E _ rel (Regular_ content (file_mode n))).
Qed.
Lemma Templates_holds base files E d d' :
  holds base E (d_tree d) → Templates files base d = (Ok tt, d') → holds base (template_tree files E) (d_tree d').
Proof.
  intros H (n & t & [= <-] & ->)%act_ok. revert E H. generalize (d_tree d) as t. unfold template_tree.
  induction files as [|f files IH]; intros t E H; [done|]. cbn [foldl]. apply IH.
  apply (holds_put base _ _ f.1 (Regular_ f.2 (file_mode n))). by apply holds_dirs.
Qed.

Lemma stage_file_holds base destination file E d d' :
  holds base E (d_tree d) → stage_file base destination file d = (Ok tt, d') →
  ∃ content, digest_prefix +:+ sha256_hex content = sf_digest file ∧
    holds base (put (destination ++ [sf_name file]) (Regular_ content 420) E) (d_tree d').
Proof.
  intros H Hs. unfold stage_file in Hs. apply io_bind_ok in Hs as ([] & d1 & Hc & Hs).
  apply io_bind_ok in Hs as (digest & d2 & Hd & Hs). unfold io_guard in Hs. case_bool_decide as Hdig; [done|].
  injection Hs as <-.
  apply act_ok in Hc as (n & t & Ht%write_inv & Et). exists (copied n).
  assert (Hh : holds base (put (destination ++ [sf_name file]) (Regular_ (copied n) 420) E) (d_tree d1)).
  { rewrite Et, Ht. by apply (holds_put base E _ (destination ++ [sf_name file]) (Regular_ (copied n) (file_mode n))). }
  unfold fileDigest, look in Hd. destruct (fault (d_calls d1)) as [[]|]; [done|].
  assert (Hl : d_tree d1 (base ++ destination ++ [sf_name file]) = Some (Regular_ (copied n) (file_mode n))).
  { rewrite Et, Ht. unfold put. by rewrite decide_True. }
  rewrite Hl in Hd. injection Hd as <- <-. split; [done|]. exact Hh.
Qed.

Lemma stage_files_holds base destination files E d d' :
  holds base E (d_tree d) → io_each (stage_file base destination) files d = (Ok tt, d') →
  ∃ contents, Forall2 (λ f nc, nc.1 = sf_name f ∧ digest_prefix +:+ sha256_hex nc.2 = sf_digest f) files contents ∧
    holds base (foldl (λ t nc, put (destination ++ [nc.1]) (Regular_ nc.2 420) t) E contents) (d_tree d').
Proof.
  revert E d. induction files as [|file files IH]; intros E d H Hs; simpl in Hs.
  { injection Hs as <-. exists []. by split. }
  apply io_bind_ok in Hs as ([] & d1 & H1 & Hs).
  destruct (stage_file_holds _ _ _ _ _ _ H H1) as (content & Hc & Hh).
  destruct (IH _ _ Hh Hs) as (contents & Hall & Hh'). exists ((sf_name file, content) :: contents). by split; [constructor|].
Qed.

Definition stage_one (staging : path) (lineage : schemaLineage) : io disk unit :=
  io_wrap "stage migration source %q: %w" [label (sl_source lineage)]
    (stageLineage staging ["sources"; sl_stage lineage] lineage).

Lemma stage_lineages_holds base lineages E d d' :
  holds base E (d_tree d) → io_each (stage_one base) lineages d = (Ok tt, d') →
  ∃ staged, Forall2 attested_bytes lineages staged ∧
    holds base (foldl (λ t l, lineage_tree l.1 l.2 t) E staged) (d_tree d').
Proof.
  revert E d. induction lineages as [|l lineages IH]; intros E d H Hs; simpl in Hs.
  { injection Hs as <-. exists []. by split. }
  apply io_bind_ok in Hs as ([] & d1 & H1 & Hs). unfold stage_one in H1. apply io_wrap_ok in H1.
  apply io_bind_ok in H1 as ([] & d2 & H2 & H1).
  pose proof (MkdirAll_holds _ _ _ _ _ H H2) as Hd.
  destruct (stage_files_holds _ _ _ _ _ _ Hd H1) as (contents & Hall & Hh).
  destruct (IH _ _ Hh Hs) as (staged & Hall' & Hh'). exists ((sl_stage l, contents) :: staged). by split; [constructor|].
Qed.

Lemma stage_tree_holds plan staging d d' :
  (∀ p, d_tree d (staging ++ p) = if decide (p = []) then Some (Dir_ 448) else None) →
  stage_tree bootstrap_files gomod gosum encode plan staging d = (Ok tt, d') →
  ∃ encoded staged, encode (artifact plan) = Ok encoded ∧ Forall2 attested_bytes (pl_lineages plan) staged ∧
    ∀ p, d_tree d' (staging ++ p) = expected_tree bootstrap_files gomod gosum encoded (stagedChecksums plan) staged p.
Proof.
  intros H Hs. unfold stage_tree in Hs.
  assert (H0 : holds staging empty_dir (d_tree d)).
  { intros p. rewrite H. unfold empty_dir. destruct p; by repeat case_decide. }
  apply io_bind_ok in Hs as ([] & d1 & H1 & Hs). pose proof (Templates_holds _ _ _ _ _ H0 H1) as Hh1.
  apply io_bind_ok in Hs as ([] & d2 & H2 & Hs). unfold stageBootstrapMigrate in H2.
  apply io_bind_ok in H2 as ([] & d3 & H3 & H2). apply io_bind_ok in H2 as ([] & d4 & H4 & H2).
  pose proof (WriteFile_holds _ _ _ _ _ _ (WriteFile_holds _ _ _ _ _ _ (MkdirAll_holds _ _ _ _ _ Hh1 H3) H4) H2) as Hh2.
  apply io_bind_ok in Hs as ([] & d5 & H5 & Hs).
  destruct (stage_lineages_holds _ _ _ _ _ Hh2 H5) as (staged & Hall & Hh5).
  apply io_lift_bind_ok in Hs as (encoded & Henc & Hs).
  apply io_bind_ok in Hs as ([] & d6 & H6 & Hs). apply io_bind_ok in Hs as ([] & d7 & H7 & Hs).
  pose proof (WriteFile_holds _ _ _ _ _ _ (WriteFile_holds _ _ _ _ _ _ Hh5 H6) H7) as Hh7.
  exists encoded, staged. split_and!; [done..|]. intros p.
  apply act_ok in Hs as (n & t & [= <-] & ->). unfold normalized. rewrite under_app. apply Hh7.
Qed.

(** ** Swapping the tree in *)

(** A bootstrap directory is the agent's when there is none, or its marker says so. *)
Definition owned (t : tree) (root : path) : Prop :=
  t root = None ∨ ∃ content mode, t (root ++ [bootstrapMarkerFile]) = Some (Regular_ content mode) ∧
                                  has_prefix content bootstrapMarker = true.

Lemma look_tree {A} (f : nat → tree → result A) d : d_tree (look f d).2 = d_tree d.
Proof. unfold look. by destruct (fault (d_calls d)) as [[]|]. Qed.

Lemma look_ok {A} (f : nat → tree → result A) d x d' :
  look f d = (Ok x, d') → f (d_calls d) (d_tree d) = Ok x ∧ d_tree d' = d_tree d.
Proof. unfold look. destruct (fault (d_calls d)) as [[]|]; [done|]. intros [= -> <-]. done. Qed.

Lemma confined_try {A} P (p : io disk A) : confined P p → confined P (io_try p).
Proof. intros H d q Hq. specialize (H d q Hq). unfold io_try. by destruct (p d). Qed.

Lemma assert_confined root : confined (λ _, false) (assertBootstrapDirectoryIsAgentOwned root).
Proof.
  unfold assertBootstrapDirectoryIsAgentOwned. apply confined_bind; [auto with confined|]. intros present.
  case_match; [done|]. apply confined_bind; [apply confined_try; auto with confined|].
  intros [content|e]; [auto with confined|done].
Qed.

Lemma assert_owned root d d' :
  assertBootstrapDirectoryIsAgentOwned root d = (Ok tt, d') → owned (d_tree d) root.
Proof.
  intros H. apply io_bind_ok in H as (present & d1 & [[= <-] Ht]%look_ok & H).
  case_bool_decide as Hp; simpl in H; [|left; by apply eq_None_not_Some].
  right. apply io_bind_ok in H as (marker & d2 & H1 & H). unfold io_try in H1.
  destruct (look _ d1) as [rm d3] eqn:E. injection H1 as <- <-. destruct rm as [content|]; [|done].
  apply look_ok in E as [E _]. rewrite Ht in E. unfold io_guard in H. destruct (has_prefix content bootstrapMarker) eqn:Em; [|done].
  destruct (d_tree d (root ++ [bootstrapMarkerFile])) as [[c mode|]|] eqn:El; rewrite ?El in E; [|discriminate E..].
  injection E as ->. by exists content, mode.
Qed.

Definition candidate (contextRoot : path) (n : nat) : path :=
  contextRoot ++ [".bootstrap-staging-" +:+ fresh_name contextRoot n].

(** The render of runtime-access.sql writes files of the context root itself, and
    neither of the two directories. *)
Definition beside (f : path * string) : Prop :=
  ∃ name, f.1 = [name] ∧ name ≠ bootstrapDirectory ∧ has_prefix name ".bootstrap-staging-" = false.

(** The files of the context root that staging writes beside the directory. *)
Definition rendered_beside (contextRoot q : path) : bool :=
  bool_decide (q = access_path contextRoot) ||
  existsb (λ f, between contextRoot f.1 q) runtime_files.

Lemma beside_apart contextRoot name q :
  Forall beside runtime_files → name = bootstrapDirectory ∨ has_prefix name ".bootstrap-staging-" = true →
  under (contextRoot ++ [name]) q = true → rendered_beside contextRoot q = false.
Proof.
  intros Hall Hname [r ->]%under_spec. unfold rendered_beside. apply orb_false_iff. split.
  - apply bool_decide_eq_false. unfold access_path. rewrite <-app_assoc. intros E%app_inv_head.
    simpl in E. injection E as -> _. destruct Hname as [?|Hname]; [done|]. by vm_compute in Hname.
  - apply Forall_existsb_false. eapply Forall_impl; [exact Hall|]. intros f (n & -> & Hn & Hpre).
    unfold between. rewrite <-app_assoc, strip_app. apply andb_false_iff. right. simpl.
    unfold under. simpl. case_decide as E; [|done]. subst name. destruct Hname; congruence.
Qed.

Lemma confined_beside contextRoot : Forall beside runtime_files →
  confined (rendered_beside contextRoot)
    (_ ← Templates runtime_files contextRoot;
     act (λ q, bool_decide (q = access_path contextRoot))
       (λ _ t, match t (access_path contextRoot) with
               | Some _ => Ok (chmod (access_path contextRoot) t)
               | None => Err (ENew "chmod: no such file or directory" [])
               end)).
Proof.
  intros Hall. apply confined_bind.
  - apply confined_act; [by intros q [_ ?]%orb_false_iff|].
    intros n t t' q [= <-] [_ Hq]%orb_false_iff. apply Forall_existsb_false in Hq. revert t Hq Hall.
    induction runtime_files as [|f files IH]; intros t Hq Hall; [done|]. apply Forall_cons in Hq as [Hf Hq].
    apply Forall_cons in Hall as [(name & Hname & _) Hall].
    cbn [foldl]. rewrite IH by done. unfold put, make_dirs. cbv beta. rewrite Hf.
    case_decide as E; [|done]. subst q.
    exfalso. rewrite Hname in Hf. pose proof (between_self contextRoot [name] ltac:(discriminate)) as Hb.
    exact (diff_true_false (eq_trans (eq_sym Hb) Hf)).
  - intros _. apply confined_act; [by intros q [? _]%orb_false_iff|].
    intros n t t' q H [Hq _]%orb_false_iff. case_match; [|done]. injection H as <-.
    unfold chmod. by rewrite Hq.
Qed.

Section swapping.
Context (contextRoot staging : path) (beside_ok : Forall beside runtime_files).
Context (name : string) (staging_name : staging = contextRoot ++ [name])
  (temporary : has_prefix name ".bootstrap-staging-" = true).
#[local] Abbreviation root := (contextRoot ++ [bootstrapDirectory]).

Lemma apart : name ≠ bootstrapDirectory.
Proof. clear staging_name. intros E. rewrite E in temporary. by vm_compute in temporary. Qed.

Lemma root_staging p : under staging (root ++ p) = false ∧ under root (staging ++ p) = false.
Proof.
  subst staging. pose proof apart. split; eapply siblings_apart; try apply under_app; done.
Qed.

Lemma root_beside p : rendered_beside contextRoot (root ++ p) = false.
Proof. eapply beside_apart; [done|by left|apply under_app]. Qed.
Lemma staging_beside p : rendered_beside contextRoot (staging ++ p) = false.
Proof. subst staging. eapply beside_apart; [done|by right|apply under_app]. Qed.

(** [swap] leaves under the root what was staged, or some of what there was. *)
Lemma swap_spec d r d' :
  swap runtime_files staging root contextRoot d = (r, d') →
  (∀ q, under root q = false → under staging q = false → rendered_beside contextRoot q = false →
     d_tree d' q = d_tree d q) ∧
  ((∀ p, d_tree d' (root ++ p) = None ∨ d_tree d' (root ++ p) = d_tree d (root ++ p)) ∧ is_ok r = false ∨
   (∀ p, d_tree d' (root ++ p) = d_tree d (staging ++ p))) ∧
  (r = Ok tt → ∃ n, d_tree d' (access_path contextRoot) = Some (fixed_mode n)).
Proof.
  unfold swap. intros H. unfold mbind, io_bind at 1 in H.
  destruct (RemoveAll root d) as [[[]|e] d1] eqn:E1; unfold RemoveAll in E1;
    destruct (fault (d_calls d)) as [[e1 junk]|] eqn:F1; try discriminate E1; [injection E1 as <-|injection E1 as <- <-].
  2:{ injection H as <- <-. cbn [d_tree]. unfold remnant. split_and!; [| |done].
      - intros q Hq _ _. by rewrite Hq.
      - left. split; [|done]. intros p. rewrite under_app. case_match; auto. }
  unfold mbind, io_bind at 1 in H.
  destruct (Rename staging root _) as [[[]|e2] d2] eqn:E2.
  2:{ injection H as <- <-. unfold Rename, act in E2. cbn [d_calls d_tree] in E2.
      assert (Hd2 : ∀ q, d_tree d2 q = remove root (d_tree d) q).
      { destruct (fault (S (d_calls d))) as [[e3 junk]|]; [by injection E2 as _ <-|].
        destruct (remove root (d_tree d) root); [by injection E2 as _ <-|done]. }
      split_and!; [| |done].
      - intros q Hq _ _. rewrite Hd2. unfold remove. by rewrite Hq.
      - left. split; [|done]. intros p. rewrite Hd2. unfold remove. rewrite under_app. auto. }
  apply act_ok in E2 as (n & t & Ht & E2). cbn [d_tree] in Ht. case_match; [done|]. injection Ht as <-.
  assert (Hren : ∀ q, d_tree d2 q = match strip root q with
                                    | Some s => d_tree d (staging ++ s)
                                    | None => if under staging q then None else remove root (d_tree d) q end).
  { intros q. rewrite E2. unfold rename. destruct (strip root q) as [s'|] eqn:Es; [|done].
    unfold remove. by rewrite (proj2 (root_staging s')). }
  assert (Hb := confined_beside contextRoot beside_ok d2). unfold mbind in Hb. rewrite H in Hb. cbn [snd] in Hb.
  split_and!.
  - intros q Hq1 Hq2 Hq3. rewrite (Hb q Hq3), Hren.
    destruct (strip root q) as [s'|] eqn:Es; [apply strip_spec in Es as ->; by rewrite under_app in Hq1|].
    rewrite Hq2. unfold remove. by rewrite Hq1.
  - right. intros p. by rewrite (Hb _ (root_beside p)), Hren, strip_app.
  - intros ->. unfold io_bind in H. destruct (Templates runtime_files contextRoot d2) as [[[]|e4] d3]; [|done].
    apply act_ok in H as (k & t & Ht & ->). destruct (d_tree d3 (access_path contextRoot)) as [nd|] eqn:En; [|done].
    injection Ht as <-. exists nd. unfold chmod. by rewrite bool_decide_eq_true_2, En.
Qed.
End swapping.

(** The whole tree of a plan is under a path: the rendered program, the module files,
    every lineage's files with the bytes their digests attest, the encoded plan and
    its checksums, all with fixed modes, and nothing else. *)
Definition complete (plan : schemaPlan) (t : tree) (root : path) : Prop :=
  ∃ encoded staged, encode (artifact plan) = Ok encoded ∧ Forall2 attested_bytes (pl_lineages plan) staged ∧
    ∀ p, t (root ++ p) = expected_tree bootstrap_files gomod gosum encoded (stagedChecksums plan) staged p.

Lemma fault_case (d : disk) : fault (d_calls d) = None ∨ is_Some (fault (d_calls d)).
Proof. destruct (fault (d_calls d)); [right; by eexists|by left]. Qed.

Lemma RemoveAll_tree p d :
  (∀ q, under p q = false → d_tree (RemoveAll p d).2 q = d_tree d q) ∧
  ((∀ q, under p q = true → d_tree (RemoveAll p d).2 q = None) ∨ is_Some (fault (d_calls d))) ∧
  d_calls (RemoveAll p d).2 = S (d_calls d).
Proof.
  unfold RemoveAll. destruct (fault (d_calls d)) as [[e junk]|]; cbn.
  - split_and!; [|right; by eexists|done]. intros q Hq. unfold remnant. by rewrite Hq.
  - split_and!; [|left|done]; intros q Hq; unfold remove; by rewrite Hq.
Qed.

Section context_theorem.
Context (plan : schemaPlan) (contextRoot : path) (beside_ok : Forall beside runtime_files).
#[local] Abbreviation root := (contextRoot ++ [bootstrapDirectory]).
#[local] Abbreviation stage := (stageBootstrapContext bootstrap_files runtime_files gomod gosum encode plan contextRoot).

Lemma MkdirTemp_tree parent prefix d r d' :
  MkdirTemp parent prefix d = (r, d') →
  (∀ p, r = Ok p → p = parent ++ [prefix +:+ fresh_name parent (d_calls d)] ∧
        d_tree d' = put p (Dir_ 448) (d_tree d)) ∧
  (is_ok r = false → d_tree d' = d_tree d).
Proof.
  unfold MkdirTemp. destruct (fault (d_calls d)) as [[e junk]|]; intros [= <- <-]; cbn.
  - split; [intros p [=]|done].
  - split; [by intros p [= <-]|done].
Qed.

(** The steps of [stageBootstrapContext]: it gives up before its staging directory
    is made, or runs the staging and the swap and removes that directory. *)
Lemma stage_steps d r d' : stage d = (r, d') →
  (is_ok r = false ∧ ∀ q, d_tree d' q = d_tree d q) ∨
  ∃ k d1 d2, owned (d_tree d) root ∧ (∀ q, d_tree d1 q = put (candidate contextRoot k) (Dir_ 448) (d_tree d) q) ∧
    (_ ← stage_tree bootstrap_files gomod gosum encode plan (candidate contextRoot k);
     swap runtime_files (candidate contextRoot k) root contextRoot) d1 = (r, d2) ∧
    d' = (RemoveAll (candidate contextRoot k) d2).2.
Proof.
  intros H. unfold stageBootstrapContext in H. unfold mbind, io_bind at 1 in H.
  pose proof (assert_confined root d) as Hc.
  destruct (assertBootstrapDirectoryIsAgentOwned root d) as [[[]|e] d1] eqn:E1; cbn [snd] in Hc.
  2:{ injection H as <- <-. left. split; [done|]. intros q. by apply Hc. }
  apply assert_owned in E1. unfold mbind, io_bind at 1 in H.
  destruct (MkdirTemp contextRoot ".bootstrap-staging-" d1) as [rm d2] eqn:E2.
  destruct (MkdirTemp_tree _ _ _ _ _ E2) as [Hok Hno]. destruct rm as [staging|e].
  - destruct (Hok staging eq_refl) as [-> Ht]. right. unfold io_defer in H. fold (candidate contextRoot (d_calls d1)) in *.
    match type of H with (let '(_, _) := ?x in _) = _ => destruct x as [r3 d3] eqn:E3 end. injection H as <- <-.
    exists (d_calls d1), d2, d3. split_and!; [done| |done|done].
    intros q. rewrite Ht. unfold put. case_match; [done|]. by apply Hc.
  - injection H as <- <-. left. split; [done|]. intros q. rewrite Hno by done. by apply Hc.
Qed.

Lemma marker_kept encoded checksums staged :
  expected_tree bootstrap_files gomod gosum encoded checksums staged [bootstrapMarkerFile] =
  template_tree bootstrap_files empty_dir [bootstrapMarkerFile].
Proof.
  unfold expected_tree, put at 1 2. rewrite !decide_False by (intros [=]).
  assert (Hl : ∀ t, foldl (λ t l, lineage_tree l.1 l.2 t) t staged [bootstrapMarkerFile] = t [bootstrapMarkerFile]).
  { induction staged as [|[stage files] staged IH]; intros t; [done|]. cbn [foldl fst snd]. rewrite IH.
    unfold lineage_tree. assert (Hd : make_dirs 493 [] ["sources"; stage] t [bootstrapMarkerFile] = t [bootstrapMarkerFile]).
    { reflexivity. }
    rewrite <-Hd. generalize (make_dirs 493 [] ["sources"; stage] t) as t'.
    induction files as [|f files IHf]; intros t'; [done|]. cbn [foldl]. by rewrite IHf. }
  rewrite Hl. done.
Qed.

(** The staging directory of the [k]th call, as [stage_steps] finds it. *)
Lemma candidate_facts k :
  has_prefix (".bootstrap-staging-" +:+ fresh_name contextRoot k) ".bootstrap-staging-" = true ∧
  ∀ p, under (candidate contextRoot k) (root ++ p) = false ∧ under root (candidate contextRoot k ++ p) = false.
Proof.
  assert (H : has_prefix (".bootstrap-staging-" +:+ fresh_name contextRoot k) ".bootstrap-staging-" = true)
    by (apply has_prefix_spec; by eexists).
  split; [done|]. apply (root_staging contextRoot (candidate contextRoot k) _ eq_refl H).
Qed.

Lemma put_candidate k n t q : under (candidate contextRoot k) q = false → put (candidate contextRoot k) n t q = t q.
Proof. intros H. rewrite <-(app_nil_r (candidate contextRoot k)). by apply put_outside. Qed.

(** What staging and swapping leave, given the state [d1] after the directory was made. *)
Lemma stage_body k d d1 d2 r :
  (∀ q, d_tree d1 q = put (candidate contextRoot k) (Dir_ 448) (d_tree d) q) →
  (_ ← stage_tree bootstrap_files gomod gosum encode plan (candidate contextRoot k);
   swap runtime_files (candidate contextRoot k) root contextRoot) d1 = (r, d2) →
  (∀ q, under root q = false → under (candidate contextRoot k) q = false → rendered_beside contextRoot q = false →
     d_tree d2 q = d_tree d q) ∧
  ((∀ p, d_tree d2 (root ++ p) = None ∨ d_tree d2 (root ++ p) = d_tree d (root ++ p)) ∧ is_ok r = false ∨
   ((∀ q, under (candidate contextRoot k) q = true → d_tree d q = None) → complete plan (d_tree d2) root)) ∧
  (r = Ok tt → ∃ n, d_tree d2 (access_path contextRoot) = Some (fixed_mode n)).
Proof.
  intros H1 Hrun. destruct (candidate_facts k) as [Htemp Hapart]. set (staging := candidate contextRoot k) in *.
  assert (Hbefore : ∀ q, under staging q = false → d_tree d1 q = d_tree d q).
  { intros q Hq. rewrite H1. by apply put_candidate. }
  unfold mbind, io_bind in Hrun. pose proof (confined_stage_tree plan staging d1) as Hconf.
  destruct (stage_tree bootstrap_files gomod gosum encode plan staging d1) as [[[]|e] d3] eqn:E3; cbn [snd] in Hconf.
  2:{ injection Hrun as <- <-. split_and!; [| |done].
      - intros q Hq1 Hq2 Hq3. by rewrite Hconf, Hbefore by done.
      - left. split; [|done]. intros p. right. by rewrite Hconf, Hbefore by apply Hapart. }
  destruct (swap_spec contextRoot staging beside_ok _ eq_refl Htemp _ _ _ Hrun) as (Hout & Hroot & Haccess).
  split_and!; [| |done].
  - intros q Hq1 Hq2 Hq3. by rewrite Hout, Hconf, Hbefore by done.
  - destruct Hroot as [[Hold Hr]|Hnew]; [left|right].
    + split; [|done]. intros p. rewrite <-Hbefore, <-Hconf by apply Hapart. apply Hold.
    + intros Hfree. destruct (stage_tree_holds plan staging d1 d3) as (encoded & staged & Henc & Hatt & Htree); [|done|].
      { intros p. rewrite H1. unfold put. fold staging. destruct (decide (p = [])) as [->|Hp].
        - by rewrite app_nil_r, decide_True.
        - rewrite decide_False; [apply Hfree, under_app|].
          intros E. rewrite <-(app_nil_r staging) in E at 2. by apply app_inv_head in E. }
      exists encoded, staged. split_and!; [done..|]. intros p. by rewrite Hnew, Htree.
Qed.

(** Removing the staging directory at the end touches nothing else. *)
Lemma staging_removed k d2 :
  (∀ p, d_tree (RemoveAll (candidate contextRoot k) d2).2 (root ++ p) = d_tree d2 (root ++ p)) ∧
  d_tree (RemoveAll (candidate contextRoot k) d2).2 (access_path contextRoot) = d_tree d2 (access_path contextRoot).
Proof.
  destruct (RemoveAll_tree (candidate contextRoot k) d2) as (Hrem & _). destruct (candidate_facts k) as [Htemp Hapart].
  split; [intros p; apply Hrem, Hapart|]. apply Hrem.
  destruct (under (candidate contextRoot k) (access_path contextRoot)) eqn:Eu; [|done].
  apply (beside_apart contextRoot _ _ beside_ok (or_intror Htemp)) in Eu.
  unfold rendered_beside in Eu. by rewrite bool_decide_eq_true_2 in Eu.
Qed.

Lemma complete_ext t t' : (∀ p, t' (root ++ p) = t (root ++ p)) → complete plan t root → complete plan t' root.
Proof. intros H (encoded & staged & ? & ? & Hall). exists encoded, staged. split_and!; [done..|]. intros p. by rewrite H. Qed.

Lemma stage_outside d r d' q : stage d = (r, d') →
  under root q = false → rendered_beside contextRoot q = false →
  (∀ n, under (candidate contextRoot n) q = false) → d_tree d' q = d_tree d q.
Proof.
  intros H Hq1 Hq2 Hq3. destruct (stage_steps _ _ _ H) as [[_ Hsame]|(k & d1 & d2 & _ & H1 & Hrun & ->)]; [done|].
  destruct (RemoveAll_tree (candidate contextRoot k) d2) as (Hrem & _). rewrite Hrem by done.
  by apply (stage_body k d d1 d2 r H1 Hrun).
Qed.

Definition fresh (t : tree) : Prop := ∀ n q, under (candidate contextRoot n) q = true → t q = None.

Lemma stage_success d d' : fresh (d_tree d) → stage d = (Ok tt, d') →
  complete plan (d_tree d') root ∧ ∃ n, d_tree d' (access_path contextRoot) = Some (fixed_mode n).
Proof.
  intros Hfree H. destruct (stage_steps _ _ _ H) as [[? _]|(k & d1 & d2 & _ & H1 & Hrun & ->)]; [done|].
  destruct (stage_body k d d1 d2 _ H1 Hrun) as (_ & [[_ [=]]|Hc] & Ha). destruct (staging_removed k d2) as [Hr1 Hr2].
  split; [apply (complete_ext (d_tree d2)); [done|]; apply Hc, Hfree|]. rewrite Hr2. by apply Ha.
Qed.

(** C18: staging the bootstrap context, whatever call fails and whatever a failing one
    leaves.  Nothing outside the bootstrap directory, the temporary one and the files
    rendered beside them is touched.  A directory the agent did not write is refused
    before anything changes.  What is under the bootstrap directory afterwards is the
    whole tree of the plan, every migration byte being one its digest attests, or,
    after a failure only, some of what was there before: never a part of the new one;
    a success is the first, with fixed modes on it and on runtime-access.sql, and the
    next build takes the directory for the agent's.  The temporary directory is gone
    unless its own removal failed. *)
Theorem bootstrap_context d r d' :
  fresh (d_tree d) → stage d = (r, d') →
  (∀ q, under root q = false → rendered_beside contextRoot q = false →
     (∀ n, under (candidate contextRoot n) q = false) → d_tree d' q = d_tree d q) ∧
  (¬ owned (d_tree d) root → is_ok r = false ∧ ∀ q, d_tree d' q = d_tree d q) ∧
  ((∀ p, d_tree d' (root ++ p) = None ∨ d_tree d' (root ++ p) = d_tree d (root ++ p)) ∧ is_ok r = false ∨
   complete plan (d_tree d') root) ∧
  (r = Ok tt → complete plan (d_tree d') root ∧ ∃ n, d_tree d' (access_path contextRoot) = Some (fixed_mode n)) ∧
  (complete plan (d_tree d') root →
     (∃ content mode, template_tree bootstrap_files empty_dir [bootstrapMarkerFile] = Some (Regular_ content mode) ∧
                      has_prefix content bootstrapMarker = true) →
     owned (d_tree d') root) ∧
  (fresh (d_tree d') ∨ ∃ k, d_calls d' = S k ∧ is_Some (fault k)).
Proof.
  intros Hfree H. split_and!.
  - intros q. by apply (stage_outside d r).
  - intros Hno. by destruct (stage_steps _ _ _ H) as [?|(k & d1 & d2 & ? & _)].
  - destruct (stage_steps _ _ _ H) as [[Hr Hsame]|(k & d1 & d2 & _ & H1 & Hrun & ->)]; [left; by auto|].
    destruct (stage_body k d d1 d2 _ H1 Hrun) as (_ & [[Hold Hr]|Hc] & _); destruct (staging_removed k d2) as [Hr1 _].
    + left. split; [|done]. intros p. rewrite Hr1. apply Hold.
    + right. apply (complete_ext (d_tree d2)); [done|]. apply Hc, Hfree.
  - intros ->. by apply (stage_success d).
  - intros (encoded & staged & _ & _ & Hall) (content & mode & Ht & Hm). right.
    exists content, mode. by rewrite Hall, marker_kept.
  - destruct (stage_steps _ _ _ H) as [[Hr Hsame]|(k & d1 & d2 & _ & H1 & Hrun & ->)].
    { left. intros n q Hq. rewrite Hsame. by eapply Hfree. }
    destruct (RemoveAll_tree (candidate contextRoot k) d2) as (Hrem & [Hgone|?] & Hcalls); [left|right; by eexists].
    intros n q Hq. destruct (under (candidate contextRoot k) q) eqn:Eq; [by apply Hgone|]. rewrite Hrem by done.
    rewrite (proj1 (stage_body k d d1 d2 _ H1 Hrun) q); [by eapply Hfree| |done|].
    + eapply siblings_apart; [|exact Hq]. intros E. apply (f_equal (λ s, has_prefix s ".")) in E. discriminate E.
    + eapply beside_apart; [done|right; apply has_prefix_spec; by eexists|exact Hq].
Qed.
End context_theorem.
End staged.
End programs.

(** A machine on which nothing fails and every copy writes the same migration. *)
Definition example_machine : Machine := {|
  fault := λ _, None; fresh_name := λ _ _, "1"; copied := λ _, "SELECT 1;";
  file_mode := λ _, 384; dir_mode := λ _, 448 |}.
Definition staged_plan : schemaPlan :=
  {| pl_database := "app";
     pl_lineages := [{| sl_source := {| ms_name := ""; ms_dir := "/svc/migrations"; ms_table := ""; ms_optional := false |};
                        sl_stage := "00-app";
                        sl_files := [{| sf_name := "1_init.up.sql"; sf_digest := digest_prefix +:+ sha256_hex "SELECT 1;" |}];
                        sl_digest := "" |}];
     pl_extensions := [];
     pl_access := {| sa_readOnlyRole := "app_ro"; sa_readWriteRole := "app_rw"; sa_schemas := []; sa_readWriteRoles := [] |} |}.
Definition empty_disk : disk := {| d_tree := λ _, None; d_calls := 0 |}.

Lemma example_beside : Forall beside [(["runtime-access.sql"], "GRANT")].
Proof. constructor; [|constructor]. exists "runtime-access.sql". by vm_compute. Qed.

Lemma bootstrap_context_witness :
  let out := stageBootstrapContext (m := example_machine) [([".gitignore"], bootstrapMarker)]
               [(["runtime-access.sql"], "GRANT")] "module" "sums" (λ _, Ok "{}") staged_plan ["svc"] empty_disk in
  out.1 = Ok tt ∧
  complete [([".gitignore"], bootstrapMarker)] "module" "sums" (λ _, Ok "{}") staged_plan
    (d_tree out.2) (["svc"] ++ [bootstrapDirectory]) ∧
  d_tree out.2 ["svc"; "bootstrap"; "sources"; "00-app"; "1_init.up.sql"] = Some (Regular_ "SELECT 1;" 420).
Proof.
  intros out. assert (Hok : out.1 = Ok tt) by (vm_compute; reflexivity). split; [exact Hok|]. split.
  - destruct (bootstrap_context (m := example_machine) [([".gitignore"], bootstrapMarker)]
               [(["runtime-access.sql"], "GRANT")] "module" "sums" (λ _, Ok "{}") staged_plan ["svc"]
               example_beside empty_disk out.1 out.2) as (_ & _ & _ & Hdone & _).
    + intros n q _. reflexivity.
    + apply surjective_pairing.
    + exact (proj1 (Hdone Hok)).
  - vm_compute. reflexivity.
Defined.
