(* ===== verification/BuildRecipe.v ===== *)
(** The build of the bootstrap image ([Build] and [buildRecipe] of [builder.go]): the
    checks that precede any write, what the templates are given, and the recipe with
    its two identical contexts. *)
From S2P Require Import Prelude GoStrings Migrations Images Timeouts Sha256 Settings MigrationFiles Schema RuntimeRoles SchemaPlan BuildContext.

(** ** What the templates are given *)

Record BootstrapLogin := {
  bsl_Role : string;
  bsl_PasswordVariable : string;
  bsl_ReadWriteRoles : list string;
  bsl_DefaultRole : string;
}.
Record BootstrapLineage := { bsg_Label : string; bsg_Stage : string; bsg_Ledger : string }.
Record BootstrapExtension := { bse_Name : string; bse_Required : bool }.

Definition bootstrapLogins (logins : list runtimeLogin) : list BootstrapLogin :=
  (λ l, {| bsl_Role := rl_role l; bsl_PasswordVariable := rl_passwordKey l;
           bsl_ReadWriteRoles := rl_readWriteRoles l;
           bsl_DefaultRole := defaultRuntimeReadWriteRole (rl_readWriteRoles l) |}) <$> logins.
Definition bootstrapLineages (plan : schemaPlan) : list BootstrapLineage :=
  (λ l, {| bsg_Label := label (sl_source l); bsg_Stage := sl_stage l;
           bsg_Ledger := trackingTable (sl_source l) |}) <$> pl_lineages plan.
Definition bootstrapExtensions (plan : schemaPlan) : list BootstrapExtension :=
  (λ e, {| bse_Name := er_name e; bse_Required := er_required e |}) <$> pl_extensions plan.

Record DockerTemplating := {
  dt_MigrationConnectionEnvironment : string;
  dt_RuntimeAccessLockID : string;
  dt_ReadinessTimeoutSeconds : Z;
  dt_ReadOnlyRole : string;
  dt_ReadWriteRole : string;
  dt_Schemas : list string;
  dt_ReadWriteRoles : list string;
  dt_DefaultReadWriteRole : string;
  dt_Logins : list BootstrapLogin;
  dt_Extensions : list BootstrapExtension;
  dt_Lineages : list BootstrapLineage;
}.

(** [DockerTemplating] of [Build]; the advisory lock is the one the agent takes. *)
Definition docker_templating (s : Settings) (plan : schemaPlan) (logins : list runtimeLogin) :
    DockerTemplating := {|
  dt_MigrationConnectionEnvironment := "CODEFLY_POSTGRES_MIGRATION_CONNECTION";
  dt_RuntimeAccessLockID := runtimeAccessLockID;
  dt_ReadinessTimeoutSeconds := BootstrapReadinessSeconds (STimeouts s);
  dt_ReadOnlyRole := sa_readOnlyRole (pl_access plan);
  dt_ReadWriteRole := sa_readWriteRole (pl_access plan);
  dt_Schemas := sa_schemas (pl_access plan);
  dt_ReadWriteRoles := sa_readWriteRoles (pl_access plan);
  dt_DefaultReadWriteRole := defaultRuntimeReadWriteRole (sa_readWriteRoles (pl_access plan));
  dt_Logins := bootstrapLogins logins;
  dt_Extensions := bootstrapExtensions plan;
  dt_Lineages := bootstrapLineages plan |}.

Record DockerBuildRecipe := {
  rc_Name : string;
  rc_Dockerfile : string;
  rc_Context : string;
  rc_Dockerignore : string;
  rc_Image : string;
  rc_Platforms : list string;
  rc_BuildArgs : gmap string string;
}.

Section build.
Context {m : Machine} {fs : StagingFS} {u : Unicode}.
(** The loaded service; the rendered trees of its templates, as functions of what they
    are given; the embedded module files, the plan's JSON and the bootstrap lock. *)
Context (s : Settings) (location own_dir : string).
Context (builder_files bootstrap_files runtime_files : DockerTemplating → list (path * string)).
Context (gomod gosum : string) (encode : Plan → result string) (lock : bootstrapImageLock).
(** Core's reading of the build request, its check and full form of an image name,
    and its plan of a build from a directory and recipes. *)
Context (DockerBuildRequest : result DockerImage) (IsValidDockerImageName : string → bool).
Context (FullName : DockerImage → string).
Context {BuildPlan : Type} (BuildDockerBuildPlan : tree → path → list DockerBuildRecipe → result BuildPlan).

(** [shared.EmptyDir]: what is in the directory is removed. *)
Definition EmptyDir (p : path) : io disk unit :=
  act (λ q, under p q && bool_decide (q ≠ p))
    (λ _ t, Ok (λ q, if under p q && bool_decide (q ≠ p) then None else t q)).

Definition bootstrap_recipe (img : DockerImage) : DockerBuildRecipe := {|
  rc_Name := "bootstrap"; rc_Dockerfile := "builder/Dockerfile"; rc_Context := ".";
  rc_Dockerignore := bootstrapDirectory +:+ "/" +:+ bootstrapIgnoreFile;
  rc_Image := FullName img; rc_Platforms := bootstrapRecipePlatforms;
  rc_BuildArgs := RecipeBuildArgs gomod gosum lock |}.

Definition buildRecipe (output : path) (img : DockerImage) (plan : schemaPlan) (docker : DockerTemplating) :
    io disk BuildPlan :=
  _ ← EmptyDir output;
  _ ← Templates ((λ f, ("builder" :: f.1, f.2)) <$> builder_files docker) output;
  _ ← io_each (stageBootstrapContext (bootstrap_files docker) (runtime_files docker) gomod gosum encode plan)
        [components location; output];
  look (λ _ t, BuildDockerBuildPlan t output [bootstrap_recipe img]).

(** The checks of [Build], and what it then renders from. *)
Definition build_inputs (output_directory : string) : result (DockerImage * schemaPlan * DockerTemplating) :=
  _ ← validateAuthMode s;
  _ ← guard_err (externalIdentity s)
        (ENew "external-identity bootstrap generation is unsupported: the password bootstrap must not rewrite cloud-managed login roles" []);
  _ ← guard_err (bool_decide (output_directory = ""))
        (ENew "output_directory is required: the CLI executes bootstrap image builds" []);
  img ← wrap_err "can only do docker build request" [] DockerBuildRequest;
  _ ← guard_err (negb (IsValidDockerImageName (img_name img))) (ENew "invalid docker image name: %s" [img_name img]);
  prerequisites ← resolveSchemaPrerequisites location own_dir s;
  _ ← Timeouts.validate (STimeouts s);
  plan ← buildSchemaPlan prerequisites s;
  logins ← resolveRuntimeLogins s;
  plan ← attest plan;
  Ok (img, plan, docker_templating s plan logins).

Definition Build (output_directory : string) : io disk BuildPlan :=
  '(img, plan, docker) ← io_lift (build_inputs output_directory);
  buildRecipe (components output_directory) img plan docker.

(** ** A successful build *)

#[local] Abbreviation loc := (components location).
#[local] Abbreviation root_of := (λ p : path, p ++ [bootstrapDirectory]).

(** The service directory and the output directory are apart: neither the service's
    bootstrap directory nor anything staged or rendered beside it is in the output
    directory, and no temporary name is taken. *)
Record places (docker : DockerTemplating) (output : path) (t : tree) : Prop := {
  pl_beside : Forall beside (runtime_files docker);
  pl_root : ∀ p, under output (root_of loc ++ p) = false;
  pl_output : ∀ q, under output q = true →
    under (root_of loc) q = false ∧ rendered_beside (runtime_files docker) loc q = false ∧
    ∀ n, under (candidate loc n) q = false;
  pl_fresh : fresh loc t;
}.

Lemma EmptyDir_ok output d d' : EmptyDir output d = (Ok tt, d') →
  (∀ q, under output q = true → q ≠ output → d_tree d' q = None) ∧
  (∀ q, d_tree d' q = None ∨ d_tree d' q = d_tree d q) ∧ ∀ q, under output q = false → d_tree d' q = d_tree d q.
Proof.
  intros (n & t & [= <-] & E)%act_ok. split_and!; intros q; rewrite E; cbn.
  - intros Hu Hq. by rewrite Hu, bool_decide_eq_true_2.
  - case_match; auto.
  - intros Hu. by rewrite Hu.
Qed.

Lemma confined_EmptyDir output : confined (under output) (EmptyDir output).
Proof.
  apply confined_act; [by intros q ->|]. intros n t t' q [= <-] Hq. by rewrite Hq.
Qed.

Lemma under_trans p a q : under (p ++ [a]) q = true → under p q = true.
Proof. intros [r ->]%under_spec. rewrite <-app_assoc. apply under_app. Qed.

Lemma beside_under docker output q : Forall beside (runtime_files docker) →
  under output q = false → rendered_beside (runtime_files docker) output q = false.
Proof.
  intros Hall Hq. unfold rendered_beside. apply orb_false_iff. split.
  - apply bool_decide_eq_false. intros ->. unfold access_path in Hq. by rewrite under_app in Hq.
  - apply Forall_existsb_false, Forall_true. intros f. by apply between_under.
Qed.

(** The templates of the Dockerfile leave the temporary names free. *)
Lemma builder_fresh docker output d d' :
  (∀ q, under output q = true → q ≠ output → d_tree d q = None) →
  Templates ((λ f, ("builder" :: f.1, f.2)) <$> builder_files docker) output d = (Ok tt, d') →
  fresh output (d_tree d').
Proof.
  intros He (n & t & [= <-] & ->)%act_ok. intros k q Hq.
  assert (Hb : under (output ++ ["builder"]) q = false).
  { eapply siblings_apart; [|exact Hq]. intros E. apply (f_equal (λ s, has_prefix s ".")) in E. discriminate E. }
  assert (Hin : ∀ r, between output ("builder" :: r) q = false).
  { intros r. unfold between. destruct (strip output q) as [x|] eqn:E; [|done]. apply strip_spec in E as ->.
    destruct x as [|a x]; [done|]. cbn. unfold under. cbn [strip]. destruct (decide (a = "builder")) as [->|]; [|done].
    change (output ++ "builder" :: x) with (output ++ ["builder"] ++ x) in Hb. by rewrite app_assoc, under_app in Hb. }
  assert (Hstart : d_tree d q = None).
  { apply He; [by eapply under_trans|]. intros ->. apply under_spec in Hq as [r E].
    unfold candidate in E. rewrite <-(app_nil_r output) in E at 1. rewrite <-app_assoc in E. apply app_inv_head in E. discriminate E. }
  revert Hstart. generalize (d_tree d) as t. induction (builder_files docker) as [|f files IH]; intros t Ht; [done|].
  cbn [fmap list_fmap foldl]. apply IH. unfold put, make_dirs. cbn [fst]. rewrite Hin.
  rewrite decide_False; [done|]. intros ->. specialize (Hin f.1). by rewrite between_self in Hin.
Qed.

(** The two contexts are staged one after the other. *)
Lemma buildRecipe_ok output img plan docker d built d' :
  buildRecipe output img plan docker d = (Ok built, d') →
  BuildDockerBuildPlan (d_tree d') output [bootstrap_recipe img] = Ok built ∧
  (places docker output (d_tree d) →
     complete (bootstrap_files docker) gomod gosum encode plan (d_tree d') (root_of loc) ∧
     complete (bootstrap_files docker) gomod gosum encode plan (d_tree d') (root_of output)).
Proof.
  unfold buildRecipe. intros ([] & d1 & Hempty & H)%io_bind_ok.
  apply io_bind_ok in H as ([] & d2 & Htemplates & H). apply io_bind_ok in H as ([] & d3 & Hstage & Hlook).
  cbn [io_each] in Hstage. apply io_bind_ok in Hstage as ([] & d4 & Hfirst & Hstage).
  apply io_bind_ok in Hstage as ([] & d5 & Hsecond & [= <-]).
  assert (Ht : d_tree d' = d_tree d5).
  { unfold look in Hlook. destruct (fault _) as [[? ?]|]; [done|]. by injection Hlook as _ <-. }
  split.
  { unfold look in Hlook. destruct (fault _) as [[? ?]|]; [done|]. injection Hlook as Hb <-. exact Hb. }
  intros [Hbeside Hroot Hout Hfresh]. rewrite Ht. destruct (EmptyDir_ok _ _ _ Hempty) as (Hgone & Hsub & Hkept).
  assert (Hconf : ∀ q, under output q = false → d_tree d2 q = d_tree d1 q).
  { intros q Hq. pose proof (confined_Templates ((λ f, ("builder" :: f.1, f.2)) <$> builder_files docker) output d1 q) as Hc.
    rewrite Htemplates in Hc. by apply Hc. }
  assert (Hf2 : fresh loc (d_tree d2)).
  { intros n q Hq. destruct (under output q) eqn:Eo.
    - destruct (Hout q Eo) as (_ & _ & Hc). by rewrite Hc in Hq.
    - rewrite Hconf by done. destruct (Hsub q) as [->| ->]; [done|]. by eapply Hfresh. }
  assert (Hf4 : fresh output (d_tree d4)).
  { intros n q Hq. assert (Hu : under output q = true) by by eapply under_trans.
    destruct (Hout q Hu) as (Ho1 & Ho2 & Ho3).
    erewrite (stage_outside _ _ _ _ _ _ _ Hbeside); [|exact Hfirst|done..].
    eapply builder_fresh; eauto. }
  eapply stage_success in Hfirst as [Hc1 _]; [|done..].
  split.
  - eapply complete_ext; [|exact Hc1]. intros p.
    eapply stage_outside; [exact Hbeside|exact Hsecond| | |].
    + apply not_true_is_false. intros Hu%under_trans. by rewrite Hroot in Hu.
    + by apply beside_under.
    + intros n. apply not_true_is_false. intros Hu%under_trans. by rewrite Hroot in Hu.
  - by eapply stage_success in Hsecond as [Hc2 _].
Qed.

(** What a build must have found before it touches the disk: the service's own
    password mode, an output directory, a valid image name, budgets that hold, and
    prerequisites and logins that resolve to an attested plan. *)
Record cleared (output_directory : string) (img : DockerImage) (plan : schemaPlan) (docker : DockerTemplating) : Prop := {
  cl_mode : is_ok (validateAuthMode s) = true;
  cl_identity : externalIdentity s = false;
  cl_output : output_directory ≠ "";
  cl_request : DockerBuildRequest = Ok img;
  cl_name : IsValidDockerImageName (img_name img) = true;
  cl_budgets : is_ok (Timeouts.validate (STimeouts s)) = true;
  cl_plan : ∃ prerequisites unattested logins,
    resolveSchemaPrerequisites location own_dir s = Ok prerequisites ∧
    buildSchemaPlan prerequisites s = Ok unattested ∧ attest unattested = Ok plan ∧
    resolveRuntimeLogins s = Ok logins ∧ docker = docker_templating s plan logins;
}.

Lemma build_inputs_cleared output_directory img plan docker :
  build_inputs output_directory = Ok (img, plan, docker) → cleared output_directory img plan docker.
Proof.
  unfold build_inputs. intros Hin. res_inv. split; try done.
  - match goal with H : validateAuthMode _ = Ok _ |- _ => by rewrite H end.
  - match goal with H : Timeouts.validate _ = Ok _ |- _ => by rewrite H end.
  - eexists _, _, _. split_and!; done.
Qed.

(** C19: a build checks everything before it writes anything: when the mode, the output
    directory, the build request, the image name, the schema prerequisites, the
    budgets, the logins or a migration's bytes are refused, it fails and no call is made
    on the disk.  A build that succeeds had all of them accepted and packaged the
    attested plan of the resolved prerequisites: the service directory and the output
    directory both hold its whole tree, and the recipe is one for both architectures
    with the arguments of the lock. *)
Theorem build_correct output_directory d :
  let output := components output_directory in
  ((∀ img plan docker, ¬ cleared output_directory img plan docker) → ∃ e, Build output_directory d = (Err e, d)) ∧
  (∀ built d', Build output_directory d = (Ok built, d') →
     ∃ img plan docker, cleared output_directory img plan docker ∧
       BuildDockerBuildPlan (d_tree d') output [bootstrap_recipe img] = Ok built ∧
       (places docker output (d_tree d) →
          complete (bootstrap_files docker) gomod gosum encode plan (d_tree d') (root_of loc) ∧
          complete (bootstrap_files docker) gomod gosum encode plan (d_tree d') (root_of output))).
Proof.
  intros output. unfold Build. split.
  { intros Hno. destruct (build_inputs output_directory) as [[[img plan] docker]|e] eqn:E; [|by exists e].
    by destruct (Hno img plan docker), (build_inputs_cleared _ _ _ _ E). }
  intros built d' H. apply io_lift_bind_ok in H as ([[img plan] docker] & Hin & H). cbv beta iota in H.
  exists img, plan, docker. split; [by apply build_inputs_cleared|]. by eapply buildRecipe_ok.
Qed.
End build.

(** A service of two migrations, built where nothing fails. *)
Definition build_machine : Machine := {|
  fault := λ _, None; fresh_name := λ _ _, "1"; copied := λ _, "create table t();";
  file_mode := λ _, 384; dir_mode := λ _, 448 |}.
Definition built_image : DockerImage := {| img_name := "store"; img_tag := "1"; img_digest := "" |}.
Definition example_build : result (list DockerBuildRecipe) * disk :=
  Build (m := build_machine) (fs := example_staging "create table t();") (u := ascii_unicode)
    (default_settings "store") "/svc" "/svc/migrations"
    (λ _, [(["Dockerfile"], "FROM x")]) (λ _, [([".gitignore"], bootstrapMarker)]) (λ _, [(["runtime-access.sql"], "GRANT")])
    "module" "sums" (λ _, Ok "{}") bootstrapLock (Ok built_image) (λ _, true) img_name (λ _ _ recipes, Ok recipes)
    "/out" empty_disk.

Lemma example_places docker :
  places (m := build_machine) "/svc" (λ _, [(["runtime-access.sql"], "GRANT")]) docker ["out"] (d_tree empty_disk).
Proof.
  split.
  - constructor; [|constructor]. exists "runtime-access.sql". by vm_compute.
  - intros p. reflexivity.
  - intros q [r ->]%under_spec. split_and!; [reflexivity| |intros n; reflexivity].
    unfold rendered_beside. apply orb_false_iff. split; [|reflexivity]. apply bool_decide_eq_false. intros [=].
  - intros n q _. reflexivity.
Qed.

Lemma build_correct_witness : ∃ plan recipes, example_build.1 = Ok recipes ∧ length (pl_lineages plan) = 1%nat ∧
  complete [([".gitignore"], bootstrapMarker)] "module" "sums" (λ _, Ok "{}") plan
    (d_tree example_build.2) ["svc"; "bootstrap"] ∧
  complete [([".gitignore"], bootstrapMarker)] "module" "sums" (λ _, Ok "{}") plan
    (d_tree example_build.2) ["out"; "bootstrap"].
Proof.
  assert (Hok : ∃ recipes, example_build.1 = Ok recipes) by (vm_compute; eexists; reflexivity).
  destruct Hok as [recipes Hok].
  destruct (build_correct (m := build_machine) (fs := example_staging "create table t();") (u := ascii_unicode)
    (default_settings "store") "/svc" "/svc/migrations"
    (λ _, [(["Dockerfile"], "FROM x")]) (λ _, [([".gitignore"], bootstrapMarker)]) (λ _, [(["runtime-access.sql"], "GRANT")])
    "module" "sums" (λ _, Ok "{}") bootstrapLock (Ok built_image) (λ _, true) img_name (λ _ _ recipes, Ok recipes)
    "/out" empty_disk) as [_ Hsuccess].
  destruct (Hsuccess recipes example_build.2) as (img & plan & docker & Hin & _ & Hc).
  { rewrite <-Hok. apply surjective_pairing. }
  exists plan, recipes. split; [exact Hok|]. split.
  - destruct Hin as [_ _ _ _ _ _ (prerequisites & unattested & logins & H1 & H2 & H3 & _ & _)].
    clear -H1 H2 H3. vm_compute in H1. injection H1 as <-. vm_compute in H2. injection H2 as <-. vm_compute in H3.
    injection H3 as <-. reflexivity.
  - exact (Hc (example_places docker)).
Defined.
