(* ===== verification/Creation.v ===== *)
(** Creating a service ([Create] and [CreateEndpoints] of [builder.go]) and reading an
    extension's declaration ([UnmarshalYAML] of [main.go]). *)
From S2P Require Import Prelude GoStrings Settings.

(** ** An extension, bare or as a mapping

    The decoder is the YAML library's: what the node decodes to as a string and as a
    mapping. *)
Definition UnmarshalYAML (scalar : bool) (as_name : result string) (as_mapping : result Extension)
    (e : Extension) : result Extension :=
  if scalar then name ← as_name; Ok {| EX_Name := name; EX_Optional := EX_Optional e |}
  else as_mapping.

(** A bare name into a fresh declaration is an extension the service requires. *)
Lemma UnmarshalYAML_bare name m :
  UnmarshalYAML true (Ok name) m {| EX_Name := ""; EX_Optional := false |} = Ok {| EX_Name := name; EX_Optional := false |}.
Proof. reflexivity. Qed.

(** ** The builder while it creates a service *)
Record create := { CR_DatabaseName : string; CR_TableName : string }.

Definition VisibilityPrivate : string := "private".

(** [resources.LoadTCPAPI], [ToTCPAPI], [NewAPI] and [BaseEndpoint] are core's; the
    factory's templates are rendered to the outside. *)
Section creation.
Context {W Endpoint TCP API : Type}.
Context (LoadTCPAPI : result TCP) (ToTCPAPI : TCP → API) (BaseEndpoint : Endpoint).
Context (with_visibility : string → Endpoint → Endpoint) (NewAPI : Endpoint → API → result Endpoint).
Context (Templates : create → io W unit) (Module_ ServiceName : string).

Record builder := {
  b_Settings : Settings;
  TcpEndpoint : option Endpoint;
  Endpoints : list (option Endpoint);
  b_outside : W;
}.

Definition with_settings (s : Settings) (b : builder) : builder :=
  {| b_Settings := s; TcpEndpoint := TcpEndpoint b; Endpoints := Endpoints b; b_outside := b_outside b |}.
Definition with_endpoint (e : option Endpoint) (b : builder) : builder :=
  {| b_Settings := b_Settings b; TcpEndpoint := e; Endpoints := [e]; b_outside := b_outside b |}.

Definition outside {A} (m : io W A) : io builder A := λ b,
  let '(r, w) := m (b_outside b) in
  (r, {| b_Settings := b_Settings b; TcpEndpoint := TcpEndpoint b; Endpoints := Endpoints b; b_outside := w |}).

(** [s.Settings.HotReload = true], and the module's name for a database without one. *)
Definition creation_settings (s : Settings) : Settings := {|
  DatabaseName := if bool_decide (DatabaseName s = "") then Module_ else DatabaseName s; HotReload := true;
  ExternalInstances := ExternalInstances s; AuthMode := AuthMode s; WithoutSSL := WithoutSSL s;
  NoMigration := NoMigration s; KeepRunning := KeepRunning s; LogLevel := LogLevel s; Image := Image s;
  ImagePlatforms := ImagePlatforms s; Extensions := Extensions s; RuntimeSchemas := RuntimeSchemas s;
  RuntimeReadWriteRoles := RuntimeReadWriteRoles s; RuntimeLogins := RuntimeLogins s;
  MigrationSources := MigrationSources s; STimeouts := STimeouts s |}.

(** The error of [NewAPI] is assigned and never looked at. *)
Definition CreateEndpoints : io builder unit :=
  tcp ← io_wrap "cannot load tcp api" [] (io_lift LoadTCPAPI);
  let endpoint := with_visibility VisibilityPrivate BaseEndpoint in
  let api := match NewAPI endpoint (ToTCPAPI tcp) with Ok e => Some e | Err _ => None end in
  io_modify (with_endpoint api).

(** The response carries the settings. *)
Definition Create : io builder Settings :=
  _ ← io_modify (λ b, with_settings (creation_settings (b_Settings b)) b);
  b ← io_get;
  _ ← outside (Templates {| CR_DatabaseName := DatabaseName (b_Settings b); CR_TableName := ServiceName |});
  _ ← io_wrap "cannot create endpoints" [] CreateEndpoints;
  b ← io_get;
  mret (b_Settings b).

(** What a created service is: the templates were rendered for the database the settings
    name, and the private endpoint recorded is the one [NewAPI] made, if it made one. *)
Lemma Create_ok b s b' : Create b = (Ok s, b') →
  s = creation_settings (b_Settings b) ∧ b_Settings b' = s ∧
  Templates {| CR_DatabaseName := DatabaseName s; CR_TableName := ServiceName |} (b_outside b) = (Ok tt, b_outside b') ∧
  ∃ tcp, LoadTCPAPI = Ok tcp ∧ Endpoints b' = [TcpEndpoint b'] ∧
    TcpEndpoint b' = match NewAPI (with_visibility VisibilityPrivate BaseEndpoint) (ToTCPAPI tcp) with
                     | Ok e => Some e | Err _ => None end.
Proof.
  unfold Create, CreateEndpoints, outside, io_modify, io_get, io_wrap, io_lift, mbind, io_bind, mret, io_ret. cbn.
  destruct (Templates _ _) as [[[]|e] w] eqn:HT; cbn; [|done].
  destruct LoadTCPAPI as [tcp|e] eqn:HL; cbn; [|done].
  intros [= <- <-]. cbn. eauto 8.
Qed.

(** An endpoint [NewAPI] refuses does not keep the service from being created. *)
Lemma Create_without_endpoint b tcp e w :
  LoadTCPAPI = Ok tcp → NewAPI (with_visibility VisibilityPrivate BaseEndpoint) (ToTCPAPI tcp) = Err e →
  Templates {| CR_DatabaseName := DatabaseName (creation_settings (b_Settings b)); CR_TableName := ServiceName |}
    (b_outside b) = (Ok tt, w) →
  ∃ b', Create b = (Ok (creation_settings (b_Settings b)), b') ∧ TcpEndpoint b' = None ∧ Endpoints b' = [None].
Proof.
  intros HL HN HT.
  unfold Create, CreateEndpoints, outside, io_modify, io_get, io_wrap, io_lift, mbind, io_bind, mret, io_ret. cbn.
  cbn in HT. rewrite HT, HL. cbn. rewrite HN. cbn. eauto.
Qed.
End creation.
